(** * BEE2 editoritems: the item-definition parser and writer

    A shallow embedding of [src/editoritems.py]: the enumerations, the
    geometry primitives with the bounding-box decomposition, the
    recursive-descent block parser over the token stream and the writer
    [Item.export_one], followed by the properties the specification
    states about them. *)

From Stdlib Require Import ZArith Lia Ascii.
From stdpp Require Import gmap strings list sets pretty.

Local Open Scope Z_scope.

(** ** Geometry primitives *)

(** [class Coord(NamedTuple)]: an integer triple; a named tuple is a
    tuple, so [Coord(x, y, z) == (x, y, z)]. *)
Definition Coord : Type := Z * Z * Z.

Definition Coord_x (c : Coord) : Z := c.1.1.
Definition Coord_y (c : Coord) : Z := c.1.2.
Definition Coord_z (c : Coord) : Z := c.2.

(** [range(a, a + n)]: [n] integers counting up from [a]. *)
Fixpoint count_up (a : Z) (n : nat) : list Z :=
  match n with
  | O => []
  | S n => a :: count_up (a + 1) n
  end.

(** [range(a, a - n, -1)]: [n] integers counting down from [a]. *)
Fixpoint count_down (a : Z) (n : nat) : list Z :=
  match n with
  | O => []
  | S n => a :: count_down (a - 1) n
  end.

(** Python's [range(a, b)] and [range(a, b, -1)]. *)
Definition range (a b : Z) : list Z := count_up a (Z.to_nat (b - a)).
Definition range_down (a b : Z) : list Z := count_down a (Z.to_nat (a - b)).

(** The shape of the six probing loops of [bounding_boxes]:
    [for v in cands: if ok(v): cur = v  else: break]. *)
Fixpoint extend (ok : Z → bool) (cands : list Z) (cur : Z) : Z :=
  match cands with
  | [] => cur
  | v :: cands => if ok v then extend ok cands v else cur
  end.

Definition EXTENT : Z := 50.

(** One pass of the body of [while todo:], after the seed was popped:
    grow the box around [seed] along X, then Y, then Z, each axis
    upwards and then downwards, while the new row or slab lies in [todo]. *)
Definition grow (todo : gset Coord) (seed : Coord) : Coord * Coord :=
  let '(x1, y1, z1) := seed in
  let '(x2, y2, z2) := seed in
  let x2 := extend (λ x, bool_decide ((x, y1, z1) ∈ todo))
              (range (x1 + 1) (x1 + EXTENT)) x2 in
  let x1 := extend (λ x, bool_decide ((x, y1, z1) ∈ todo))
              (range_down (x1 - 1) (x1 - EXTENT)) x1 in
  let y2 := extend (λ y, forallb (λ x, bool_decide ((x, y, z1) ∈ todo))
                           (range x1 (x2 + 1)))
              (range (y1 + 1) (y1 + EXTENT)) y2 in
  let y1 := extend (λ y, forallb (λ x, bool_decide ((x, y, z1) ∈ todo))
                           (range x1 (x2 + 1)))
              (range_down (y1 - 1) (y1 - EXTENT)) y1 in
  let z2 := extend (λ z, forallb (λ x,
                           forallb (λ y, bool_decide ((x, y, z) ∈ todo))
                             (range y1 (y2 + 1)))
                           (range x1 (x2 + 1)))
              (range (z1 + 1) (z1 + EXTENT)) z2 in
  let z1 := extend (λ z, forallb (λ x,
                           forallb (λ y, bool_decide ((x, y, z) ∈ todo))
                             (range y1 (y2 + 1)))
                           (range x1 (x2 + 1)))
              (range_down (z1 - 1) (z1 - EXTENT)) z1 in
  ((x1, y1, z1), (x2, y2, z2)).

(** The lattice points the three nested [for] loops visit. *)
Definition box_points (b : Coord * Coord) : list Coord :=
  let '((x1, y1, z1), (x2, y2, z2)) := b in
  x ← range x1 (x2 + 1);
  y ← range y1 (y2 + 1);
  z ← range z1 (z2 + 1);
  [(x, y, z)].

(** [todo.discard(Coord(x, y, z))] for every point of the box. *)
Definition discard_box (todo : gset Coord) (b : Coord * Coord) : gset Coord :=
  foldl (λ t c, t ∖ {[c]}) todo (box_points b).

(** The lattice points a [(minCorner, maxCorner)] pair encloses. *)
Definition in_box (b : Coord * Coord) (c : Coord) : Prop :=
  Coord_x b.1 ≤ Coord_x c ≤ Coord_x b.2 ∧
  Coord_y b.1 ≤ Coord_y c ≤ Coord_y b.2 ∧
  Coord_z b.1 ≤ Coord_z c ≤ Coord_z b.2.

Global Instance in_box_dec b c : Decision (in_box b c).
Proof. unfold in_box. apply _. Defined.

(** [b] was grown from [seed] by at most [n] in each of the six directions. *)
Definition grown_within (n : Z) (seed : Coord) (b : Coord * Coord) : Prop :=
  in_box b seed ∧
  Coord_x seed - Coord_x b.1 ≤ n ∧ Coord_x b.2 - Coord_x seed ≤ n ∧
  Coord_y seed - Coord_y b.1 ≤ n ∧ Coord_y b.2 - Coord_y seed ≤ n ∧
  Coord_z seed - Coord_z b.1 ≤ n ∧ Coord_z b.2 - Coord_z seed ≤ n.

Section bounding_boxes.
(** [set.pop()] removes and returns an arbitrary element: which one is
    not specified, so the choice is a parameter of the model.  The sets
    of successive turns all differ, so a function of the set covers every
    run of the loop. *)
Variable set_pop : gset Coord → Coord.

(** [bounding_boxes]: the [while todo:] loop, one box per turn.  The
    loop is not structurally recursive; [fuel] bounds the turns and
    [None] stands for running out of it. *)
Fixpoint bounding_boxes_loop (fuel : nat) (todo : gset Coord)
    : option (list (Coord * Coord)) :=
  if decide (todo = ∅) then Some [] else
  match fuel with
  | O => None
  | S fuel =>
      let seed := set_pop todo in
      let todo := todo ∖ {[seed]} in
      let box := grow todo seed in
      let todo := discard_box todo box in
      (box ::.) <$> bounding_boxes_loop fuel todo
  end.

(** [bounding_boxes(voxels)]; [set(voxels)] of a set is the set.  Every
    turn removes its seed, so [size voxels] turns are enough. *)
Definition bounding_boxes (voxels : gset Coord) : option (list (Coord * Coord)) :=
  bounding_boxes_loop (size voxels) voxels.
End bounding_boxes.

(** A concrete [set.pop]: the first element in the set's listing. *)
Definition pop_first (s : gset Coord) : Coord := default (0, 0, 0) (head (elements s)).


(** ** Python built-ins the parser relies on

    Strings are byte strings; the case conversions act on the ASCII
    letters and leave every other byte alone. *)

Definition dq : string := String "034"%char "".

(** [f'"{s}"'] *)
Definition quoted (s : string) : string := dq +:+ s +:+ dq.

Definition is_upper (c : ascii) : bool :=
  let n := nat_of_ascii c in ((65 <=? n) && (n <=? 90))%nat.
Definition is_lower (c : ascii) : bool :=
  let n := nat_of_ascii c in ((97 <=? n) && (n <=? 122))%nat.
Definition to_lower (c : ascii) : ascii :=
  if is_upper c then ascii_of_nat (nat_of_ascii c + 32) else c.
Definition to_upper (c : ascii) : ascii :=
  if is_lower c then ascii_of_nat (nat_of_ascii c - 32) else c.

Fixpoint map_string (f : ascii → ascii) (s : string) : string :=
  match s with
  | EmptyString => EmptyString
  | String c s => String (f c) (map_string f s)
  end.

(** [str.casefold], [str.upper] *)
Definition casefold : string → string := map_string to_lower.
Definition upper : string → string := map_string to_upper.

(** [str.title] of a one-word name: first letter upper, the rest lower. *)
Definition title (s : string) : string :=
  match s with
  | EmptyString => EmptyString
  | String c s => String (to_upper c) (map_string to_lower s)
  end.

(** The ASCII characters [str.split()] treats as white space: the
    controls 9 to 13, the separators 28 to 31 and the blank. *)
Definition is_space (c : ascii) : bool :=
  let n := nat_of_ascii c in
  (((9 <=? n) && (n <=? 13)) || ((28 <=? n) && (n <=? 32)))%nat.

(** The characters [int()] skips around its literal: the controls 9 to
    13 and the blank, and not the separators 28 to 31. *)
Definition is_int_space (c : ascii) : bool :=
  let n := nat_of_ascii c in
  (((9 <=? n) && (n <=? 13)) || (n =? 32))%nat.

(** [str.split()] with no argument: the maximal runs of non-space
    characters.  [cur] is the run being read, reversed. *)
Fixpoint split_go (cur : option string) (s : string) : list string :=
  match s with
  | EmptyString => option_list (String.rev <$> cur)
  | String c s =>
      if is_space c
      then option_list (String.rev <$> cur) ++ split_go None s
      else split_go (Some (String c (default EmptyString cur))) s
  end.
Definition split (s : string) : list string := split_go None s.

(** [' '.join(words)] *)
Fixpoint join_spaces (words : list string) : string :=
  match words with
  | [] => ""
  | [w] => w
  | w :: words => w +:+ " " +:+ join_spaces words
  end.

(** [s.startswith(p)] and [s[n:]] *)
Definition startswith (p s : string) : bool := String.prefix p s.
Fixpoint string_drop (n : nat) (s : string) : string :=
  match n, s with
  | O, _ => s
  | S n, String _ s => string_drop n s
  | S _, EmptyString => EmptyString
  end.

Definition digit_value (c : ascii) : option Z :=
  let n := nat_of_ascii c in
  if ((48 <=? n) && (n <=? 57))%nat then Some (Z.of_nat n - 48) else None.

(** The digits of an [int()] literal: decimal digits, with single
    underscores allowed between two digits.  [after_digit] tells whether
    the previous character was a digit. *)
Fixpoint int_digits (acc : Z) (after_digit : bool) (s : string) : option Z :=
  match s with
  | EmptyString => if after_digit then Some acc else None
  | String c s =>
      match digit_value c with
      | Some d => int_digits (10 * acc + d) true s
      | None =>
          if (Ascii.eqb c "_" && after_digit)%bool then int_digits acc false s else None
      end
  end.

(** The white space [int()] skips, taken off the front and off both
    ends. *)
Fixpoint lstrip (s : string) : string :=
  match s with
  | String c s' => if is_int_space c then lstrip s' else s
  | EmptyString => EmptyString
  end.
Definition strip (s : string) : string := String.rev (lstrip (String.rev (lstrip s))).

(** [int(s)]: [None] stands for [ValueError].  White space around the
    literal is skipped and one sign may lead it. *)
Definition py_int (s : string) : option Z :=
  match strip s with
  | String "-" ds => Z.opp <$> int_digits 0 false ds
  | String "+" ds => int_digits 0 false ds
  | ds => int_digits 0 false ds
  end.

(** [str(n)] of an integer. *)
Definition py_str (n : Z) : string := pretty n.

(** [srctools.conv_int(val, default=0)]: [int(val)], or the default when
    [int] raises [ValueError]; it never raises itself. *)
Definition conv_int (val : string) : Z := default 0 (py_int val).

(** [srctools.conv_bool(val, default=False)]: the usual spellings of the
    two truth values, compared case-folded; anything else gives the
    default. *)
Definition conv_bool (val : string) (dflt : bool) : bool :=
  let v := casefold val in
  if bool_decide (v ∈ ["0"; "no"; "false"; "n"; "f"]) then false
  else if bool_decide (v ∈ ["1"; "yes"; "true"; "y"; "t"]) then true
  else dflt.

(** *** Python dictionaries and lists

    A [dict] keeps its keys in insertion order, and assigning to a key
    that is present replaces the value where it stands. *)
Definition dict (K V : Type) : Type := list (K * V).

Fixpoint dict_get {K V} `{EqDecision K} (d : dict K V) (k : K) : option V :=
  match d with
  | [] => None
  | (k', v) :: d => if decide (k' = k) then Some v else dict_get d k
  end.

Fixpoint dict_set {K V} `{EqDecision K} (d : dict K V) (k : K) (v : V) : dict K V :=
  match d with
  | [] => [(k, v)]
  | (k', v') :: d => if decide (k' = k) then (k, v) :: d else (k', v') :: dict_set d k v
  end.

(** [k in d] *)
Definition dict_in {K V} `{EqDecision K} (k : K) (d : dict K V) : bool :=
  bool_decide (is_Some (dict_get d k)).

(** [l[i] = v] for a Python list: a negative index counts from the end,
    and an index outside the list raises [IndexError] ([None]). *)
Definition list_setitem {A} (l : list A) (i : Z) (v : A) : option (list A) :=
  let n := Z.of_nat (length l) in
  if decide (0 ≤ i < n) then Some (<[Z.to_nat i := v]> l)
  else if decide (- n ≤ i < 0) then Some (<[Z.to_nat (i + n) := v]> l)
  else None.

(** *** [pathlib.PurePosixPath]

    A pure POSIX path is its root ([""], ["/"] or ["//"]) and its
    components; empty components and ["."] are dropped on construction. *)
Record FSPath := mkFSPath { fs_root : string; fs_parts : list string }.

Global Instance FSPath_eq_dec : EqDecision FSPath.
Proof. solve_decision. Defined.

(** [s.split('/')]; [cur] is the component being read, reversed. *)
Fixpoint split_slash (cur : string) (s : string) : list string :=
  match s with
  | EmptyString => [String.rev cur]
  | String c s =>
      if Ascii.eqb c "/" then String.rev cur :: split_slash "" s
      else split_slash (String c cur) s
  end.

Fixpoint lstrip_slash (s : string) : string :=
  match s with
  | String "/" s' => lstrip_slash s'
  | _ => s
  end.

(** [FSPath(s)]: exactly two leading slashes are a root of their own. *)
Definition FSPath_of (s : string) : FSPath :=
  let rel := lstrip_slash s in
  let slashes := (String.length s - String.length rel)%nat in
  let root := match slashes with O => "" | 2%nat => "//" | _ => "/" end in
  mkFSPath root (filter (λ x, x ≠ "" ∧ x ≠ ".") (split_slash "" rel)).

(** [FSPath()] *)
Definition FSPath_empty : FSPath := mkFSPath "" [].

Fixpoint join_slash (parts : list string) : string :=
  match parts with
  | [] => ""
  | [p] => p
  | p :: parts => p +:+ "/" +:+ join_slash parts
  end.

(** [str(path)] *)
Definition FSPath_str (p : FSPath) : string :=
  let s := fs_root p +:+ join_slash (fs_parts p) in
  if decide (s = "") then "." else s.

(** [path.name]: the last component, [''] when there is none. *)
Definition FSPath_name (p : FSPath) : string := default "" (last (fs_parts p)).

(** [name.rfind('.')], [None] for [-1]. *)
Fixpoint rfind_dot (i : nat) (s : string) : option nat :=
  match s with
  | EmptyString => None
  | String c s =>
      match rfind_dot (S i) s with
      | Some j => Some j
      | None => if Ascii.eqb c "." then Some i else None
      end
  end.

(** [path.suffix]: from the last dot of the name on, unless that dot
    leads or ends the name. *)
Definition FSPath_suffix (p : FSPath) : string :=
  let name := FSPath_name p in
  match rfind_dot 0 name with
  | Some i =>
      if bool_decide (0 < i < String.length name - 1)%nat then string_drop i name else ""
  | None => ""
  end.

Fixpoint string_take (n : nat) (s : string) : string :=
  match n, s with
  | S n, String c s => String c (string_take n s)
  | _, _ => EmptyString
  end.

(** [path.with_suffix(suffix)] for a well-formed [suffix] (['.mdl'],
    ['.3ds'], ['.png']): [None] stands for the [ValueError] raised when
    the path has an empty name. *)
Definition FSPath_with_suffix (p : FSPath) (suffix : string) : option FSPath :=
  let name := FSPath_name p in
  if decide (name = "") then None else
  let old_suffix := FSPath_suffix p in
  let name' := string_take (String.length name - String.length old_suffix) name +:+ suffix in
  Some (mkFSPath (fs_root p) (removelast (fs_parts p) ++ [name'])).

(** ** The enumerated vocabulary

    Each enumeration is a module, so that its members read as in the
    source ([Handle.NONE], [Anim.IDLE]).  An alias ([GEL = PAINT = ...])
    names the member it aliases; each type has one constructor per
    distinct member. *)

(** [Enum(value)]: the member with that value; [None] stands for
    [ValueError]. *)
Definition enum_by_value {E} (members : list E) (value_of : E → string) (v : string) : option E :=
  find (λ e, bool_decide (value_of e = v)) members.

(** [class ItemClass(Enum)]: the item classes; the value is (ID, instance count, models per subitem). *)
Module ItemClass.
Inductive t :=
| UNCLASSED
| FLOOR_BUTTON
| PEDESTAL_BUTTON
| PANEL_STAIR
| PANEL_FLIP
| PANEL_ANGLED
| PISTON_PLATFORM
| TRACK_PLATFORM
| CUBE
| GEL
| FAITH_PLATE
| CUBE_DROPPER
| GEL_DROPPER
| FAITH_TARGET
| GLASS
| TURRET
| LIGHT_STRIP
| GOO
| LASER_EMITTER
| FUNNEL
| FIZZLER
| LIGHT_BRIDGE
| HANDLE_FIZZLER
| HANDLE_GLASS
| HANDLE_PISTON_PLATFORM
| HANDLE_TRACK_PLATFORM
| DOOR_ENTRY_SP
| DOOR_ENTRY_COOP
| DOOR_EXIT_SP
| DOOR_EXIT_COOP.

Global Instance eq_dec : EqDecision t.
Proof. solve_decision. Defined.

(** The members in definition order, as iterating the class gives them. *)
Definition members : list t :=
  [UNCLASSED; FLOOR_BUTTON; PEDESTAL_BUTTON; PANEL_STAIR; PANEL_FLIP; PANEL_ANGLED; PISTON_PLATFORM; TRACK_PLATFORM; CUBE; GEL; FAITH_PLATE; CUBE_DROPPER; GEL_DROPPER; FAITH_TARGET; GLASS; TURRET; LIGHT_STRIP; GOO; LASER_EMITTER; FUNNEL; FIZZLER; LIGHT_BRIDGE; HANDLE_FIZZLER; HANDLE_GLASS; HANDLE_PISTON_PLATFORM; HANDLE_TRACK_PLATFORM; DOOR_ENTRY_SP; DOOR_ENTRY_COOP; DOOR_EXIT_SP; DOOR_EXIT_COOP].

Definition value (e : t) : string * Z * Z :=
  match e with
  | UNCLASSED => ("ItemBase", 1, 1)
  | FLOOR_BUTTON => ("ItemButtonFloor", 6, 1)
  | PEDESTAL_BUTTON => ("ItemPedestalButton", 1, 1)
  | PANEL_STAIR => ("ItemStairs", 1, 2)
  | PANEL_FLIP => ("ItemPanelFlip", 1, 1)
  | PANEL_ANGLED => ("ItemAngledPanel", 1, 12)
  | PISTON_PLATFORM => ("ItemPistonPlatform", 1, 7)
  | TRACK_PLATFORM => ("ItemRailPlatform", 6, 3)
  | CUBE => ("ItemCube", 5, 2)
  | GEL => ("ItemPaintSplat", 1, 1)
  | FAITH_PLATE => ("ItemCatapult", 1, 1)
  | CUBE_DROPPER => ("ItemCubeDropper", 1, 1)
  | GEL_DROPPER => ("ItemPaintDropper", 1, 1)
  | FAITH_TARGET => ("ItemCatapultTarget", 1, 1)
  | GLASS => ("ItemBarrier", 9, 1)
  | TURRET => ("ItemTurret", 1, 1)
  | LIGHT_STRIP => ("ItemLightStrip", 1, 1)
  | GOO => ("ItemGoo", 0, 2)
  | LASER_EMITTER => ("ItemLaserEmitter", 1, 1)
  | FUNNEL => ("ItemTBeam", 3, 1)
  | FIZZLER => ("ItemBarrierHazard", 2, 1)
  | LIGHT_BRIDGE => ("ItemLightBridge", 1, 1)
  | HANDLE_FIZZLER => ("ItemBarrierHazardExtent", 0, 1)
  | HANDLE_GLASS => ("ItemBarrierExtent", 0, 1)
  | HANDLE_PISTON_PLATFORM => ("ItemPistonPlatformExtent", 0, 1)
  | HANDLE_TRACK_PLATFORM => ("ItemRailPlatformExtent", 0, 1)
  | DOOR_ENTRY_SP => ("ItemEntranceDoor", 12, 1)
  | DOOR_ENTRY_COOP => ("ItemCoopEntranceDoor", 5, 1)
  | DOOR_EXIT_SP => ("ItemExitDoor", 6, 2)
  | DOOR_EXIT_COOP => ("ItemCoopExitDoor", 6, 2)
  end.

(** The [id] property: the ID used in the configs. *)
Definition id (c : t) : string := (value c).1.1.
End ItemClass.

(** [class RenderableType(Enum)]: the two renderables. *)
Module RenderableType.
Inductive t :=
| ERROR
| CONN.

Global Instance eq_dec : EqDecision t.
Proof. solve_decision. Defined.

(** The members in definition order, as iterating the class gives them. *)
Definition members : list t :=
  [ERROR; CONN].

Definition value (e : t) : string :=
  match e with
  | ERROR => "ErrorState"
  | CONN => "ConnectionHeartSolid"
  end.
End RenderableType.

(** [class Handle(Enum)]: types of directional handles. *)
Module Handle.
Inductive t :=
| NONE
| QUAD
| CENT_OFF
| DUAL_OFF
| QUAD_OFF
| FREE_ROT
| FAITH.

Global Instance eq_dec : EqDecision t.
Proof. solve_decision. Defined.

(** The members in definition order, as iterating the class gives them. *)
Definition members : list t :=
  [NONE; QUAD; CENT_OFF; DUAL_OFF; QUAD_OFF; FREE_ROT; FAITH].

Definition value (e : t) : string :=
  match e with
  | NONE => "HANDLE_NONE"
  | QUAD => "HANDLE_4_DIRECTIONS"
  | CENT_OFF => "HANDLE_5_POSITIONS"
  | DUAL_OFF => "HANDLE_6_POSITIONS"
  | QUAD_OFF => "HANDLE_8_POSITIONS"
  | FREE_ROT => "HANDLE_36_DIRECTIONS"
  | FAITH => "HANDLE_CATAPULT"
  end.

(** [Handle(value)] *)
Definition of_value : string → option t := enum_by_value members value.
End Handle.

(** [class Surface(Enum)]: used for InvalidSurface. *)
Module Surface.
Inductive t :=
| WALL
| FLOOR
| CEIL.

Global Instance eq_dec : EqDecision t.
Proof. solve_decision. Defined.

(** The members in definition order, as iterating the class gives them. *)
Definition members : list t :=
  [WALL; FLOOR; CEIL].

Definition value (e : t) : string :=
  match e with
  | WALL => "WALL"
  | FLOOR => "FLOOR"
  | CEIL => "CEILING"
  end.

(** [Surface[name]]: lookup by member name, the aliases [WALLS] and
    [CEILING] included; [None] stands for [KeyError]. *)
Definition of_name (name : string) : option t :=
  if bool_decide (name ∈ ["WALL"; "WALLS"]) then Some WALL
  else if decide (name = "FLOOR") then Some FLOOR
  else if bool_decide (name ∈ ["CEIL"; "CEILING"]) then Some CEIL
  else None.

Global Instance countable : Countable t.
Proof.
  refine (inj_countable' (λ s, match s with WALL => 0 | FLOOR => 1 | CEIL => 2 end)%nat
            (λ n, match n with 0 => WALL | 1 => FLOOR | _ => CEIL end)%nat _).
  by intros [].
Defined.
End Surface.

(** [class DesiredFacing(Enum)]: how an item reorients when moved. *)
Module DesiredFacing.
Inductive t :=
| NONE
| POSX
| NEGX
| HORIZ.

Global Instance eq_dec : EqDecision t.
Proof. solve_decision. Defined.

(** The members in definition order, as iterating the class gives them. *)
Definition members : list t :=
  [NONE; POSX; NEGX; HORIZ].

Definition value (e : t) : string :=
  match e with
  | NONE => "DESIRES_ANYTHING"
  | POSX => "DESIRES_UP"
  | NEGX => "DESIRES_DOWN"
  | HORIZ => "DESIRES_HORIZONTAL"
  end.

(** [DesiredFacing(value)] *)
Definition of_value : string → option t := enum_by_value members value.
End DesiredFacing.

(** [class FaceType(Enum)]: types of surfaces produced by EmbedFace. *)
Module FaceType.
Inductive t :=
| NORMAL
| HALF_VERT
| LRG
| MED
| SML
| CHECK.

Global Instance eq_dec : EqDecision t.
Proof. solve_decision. Defined.

(** The members in definition order, as iterating the class gives them. *)
Definition members : list t :=
  [NORMAL; HALF_VERT; LRG; MED; SML; CHECK].

Definition value (e : t) : string :=
  match e with
  | NORMAL => "Grid_Default"
  | HALF_VERT => "2x1"
  | LRG => "1x1"
  | MED => "2x2"
  | SML => "4x4"
  | CHECK => "4x4_checkered"
  end.
End FaceType.

(** [class Sound(Enum)]: events which trigger a sound. *)
Module Sound.
Inductive t :=
| SELECT
| DESELECT
| DELETE
| CREATE
| PROPS_OPEN
| PROPS_CLOSE.

Global Instance eq_dec : EqDecision t.
Proof. solve_decision. Defined.

(** The members in definition order, as iterating the class gives them. *)
Definition members : list t :=
  [SELECT; DESELECT; DELETE; CREATE; PROPS_OPEN; PROPS_CLOSE].

Definition value (e : t) : string :=
  match e with
  | SELECT => "SOUND_SELECTED"
  | DESELECT => "SOUND_DESELECTED"
  | DELETE => "SOUND_DELETED"
  | CREATE => "SOUND_CREATED"
  | PROPS_OPEN => "SOUND_EDITING_ACTIVATE"
  | PROPS_CLOSE => "SOUND_EDITING_DEACTIVATE"
  end.

(** [Sound(value)] *)
Definition of_value : string → option t := enum_by_value members value.
End Sound.

(** [class Anim(Enum)]: events mapped to sequence indexes of the editor models. *)
Module Anim.
Inductive t :=
| IDLE
| EDIT_START
| EDIT_STOP
| CUBE_FALL
| CUBE_FALL_EDIT_START
| CUBE_FALL_EDIT_STOP
| CUBE_FLAT2FALL
| CUBE_FALL2FLAT
| CUBE_FLAT2FALL_EDIT
| CUBE_FALL2FLAT_EDIT
| CDROP_ENABLE
| CDROP_DISABLE
| HEART_IDLE
| HEART_CONN_MADE
| HEART_CONN_BROKE
| BAD_PLACE_IDLE
| BAD_PLACE_SHOW
| BAD_PLACE_HIDE.

Global Instance eq_dec : EqDecision t.
Proof. solve_decision. Defined.

(** The members in definition order, as iterating the class gives them. *)
Definition members : list t :=
  [IDLE; EDIT_START; EDIT_STOP; CUBE_FALL; CUBE_FALL_EDIT_START; CUBE_FALL_EDIT_STOP; CUBE_FLAT2FALL; CUBE_FALL2FLAT; CUBE_FLAT2FALL_EDIT; CUBE_FALL2FLAT_EDIT; CDROP_ENABLE; CDROP_DISABLE; HEART_IDLE; HEART_CONN_MADE; HEART_CONN_BROKE; BAD_PLACE_IDLE; BAD_PLACE_SHOW; BAD_PLACE_HIDE].

Definition value (e : t) : string :=
  match e with
  | IDLE => "ANIM_IDLE"
  | EDIT_START => "ANIM_EDITING_ACTIVATE"
  | EDIT_STOP => "ANIM_EDITING_DEACTIVATE"
  | CUBE_FALL => "ANIM_FALLING_IDLE"
  | CUBE_FALL_EDIT_START => "ANIM_FALLING_EDITING_ACTIVATE"
  | CUBE_FALL_EDIT_STOP => "ANIM_FALLING_EDITING_DEACTIVATE"
  | CUBE_FLAT2FALL => "ANIM_GROUND_TO_FALLING"
  | CUBE_FALL2FLAT => "ANIM_FALLING_TO_GROUND"
  | CUBE_FLAT2FALL_EDIT => "ANIM_GROUND_TO_FALLING_EDITING"
  | CUBE_FALL2FLAT_EDIT => "ANIM_FALLING_TO_GROUND_EDITING"
  | CDROP_ENABLE => "ANIM_REAPPEAR"
  | CDROP_DISABLE => "ANIM_DISAPPEAR"
  | HEART_IDLE => "ANIM_ICON_HEART_HAPPY_IDLE"
  | HEART_CONN_MADE => "ANIM_ICON_HEART_SUCCESS"
  | HEART_CONN_BROKE => "ANIM_ICON_HEART_BREAK"
  | BAD_PLACE_IDLE => "ANIM_ICON_IDLE"
  | BAD_PLACE_SHOW => "ANIM_ICON_SHOW"
  | BAD_PLACE_HIDE => "ANIM_ICON_HIDE"
  end.

(** [Anim(value)] *)
Definition of_value : string → option t := enum_by_value members value.
End Anim.

(** [class ConnSide(Enum)]: sides of an item, where antlines connect to. *)
Module ConnSide.
Inductive t :=
| LEFT
| RIGHT
| UP
| DOWN.

Global Instance eq_dec : EqDecision t.
Proof. solve_decision. Defined.

(** The members in definition order, as iterating the class gives them. *)
Definition members : list t :=
  [LEFT; RIGHT; UP; DOWN].

Definition value (e : t) : Coord :=
  match e with
  | LEFT => (1, 0, 0)
  | RIGHT => (-1, 0, 0)
  | UP => (0, 1, 0)
  | DOWN => (0, -1, 0)
  end.

(** [side.name] and [ConnSide[name]] ([None] stands for [KeyError]). *)
Definition name (s : t) : string :=
  match s with LEFT => "LEFT" | RIGHT => "RIGHT" | UP => "UP" | DOWN => "DOWN" end.
Definition of_name (n : string) : option t :=
  find (λ s, bool_decide (name s = n)) members.
End ConnSide.

(** [ITEM_CLASSES], [FACE_TYPES] and [Renderable._types]: the members
    keyed by their case-folded id or value. *)
Definition ITEM_CLASSES (key : string) : option ItemClass.t :=
  find (λ c, bool_decide (casefold (ItemClass.id c) = key)) ItemClass.members.
Definition FACE_TYPES (key : string) : option FaceType.t :=
  find (λ f, bool_decide (casefold (FaceType.value f) = key)) FaceType.members.
Definition Renderable_types (key : string) : option RenderableType.t :=
  find (λ r, bool_decide (casefold (RenderableType.value r) = key)) RenderableType.members.

(** [DEFAULT_SOUNDS] *)
Definition DEFAULT_SOUNDS : dict Sound.t string :=
  [(Sound.SELECT, ""); (Sound.DESELECT, "");
   (Sound.PROPS_OPEN, "P2Editor.ExpandOther"); (Sound.PROPS_CLOSE, "P2Editor.CollapseOther");
   (Sound.CREATE, "P2Editor.PlaceOther"); (Sound.DELETE, "P2Editor.RemoveOther")].

(** [class InstCount(NamedTuple)]: an instance and its counts. *)
Module InstCount.
Record t := mk {
  inst : FSPath;
  ent_count : Z;
  brush_count : Z;
  face_count : Z;
}.
End InstCount.

(** [class AntlinePoint(NamedTuple)]: a location antlines can connect to. *)
Module AntlinePoint.
Record t := mk {
  pos : Coord;
  sign_off : Coord;
  priority : Z;
  group : option Z;
}.
End AntlinePoint.

(** ** The tokenizer

    [srctools.tokenizer.Tokenizer] is a library the parser is written
    against; the specification (section 4.1) fixes its contract: tokens
    are STRING, BRACE_OPEN, BRACE_CLOSE, NEWLINE and EOF, the line number
    and the source name are tracked for diagnostics, and the parser uses
    it through [expect], [skipping_newlines], [block], plain iteration
    and [error].  The model lexes the whole text first and then hands
    the tokens out one by one. *)
Module Token.
Inductive t := EOF | STRING | NEWLINE | BRACE_OPEN | BRACE_CLOSE.

Global Instance eq_dec : EqDecision t.
Proof. solve_decision. Defined.
End Token.

(** What a raised exception carries.  [TokenSyntaxError] is what
    [tok.error(...)] builds (the fatal parse error: message, source name
    and line number); [TokenizerError] is a lexical error of the
    tokenizer itself.  The others are Python exceptions the parser lets
    escape.  [OutOfFuel] is not a Python exception: it marks a loop of
    the model that ran out of fuel. *)
Inductive Message :=
| Msg (text : string)
| UnexpectedToken (t : Token.t).

Inductive PyError :=
| TokenSyntaxError (mess : Message) (file : option string) (line : Z)
| TokenizerError (mess : string) (file : option string) (line : Z)
| KeyError (key : string)
| ValueError
| IndexError
| StopIteration
| OutOfFuel.

Inductive Result (A : Type) :=
| Ok (a : A)
| Err (e : PyError).
Global Arguments Ok {A} a.
Global Arguments Err {A} e.

(** The tokenizer's state, together with what [LOGGER.warning] has
    recorded so far (the logger is global in the source). *)
Record State := mkState {
  toks : list (Token.t * string);
  line_num : Z;
  filename : option string;
  warnings : list string;
}.

Definition set_toks (l : list (Token.t * string)) (line : Z) (st : State) : State :=
  mkState l line (filename st) (warnings st).

(** [LOGGER.warning(...)] *)
Definition log_warning (w : string) (st : State) : State :=
  mkState (toks st) (line_num st) (filename st) (warnings st ++ [w]).

(** Stateful, fallible code: a function from the state to a result and
    the new state, or to the exception raised. *)
Definition Parser (A : Type) : Type := State → Result (A * State).

Definition ret {A} (a : A) : Parser A := λ st, Ok (a, st).
Definition raise {A} (e : PyError) : Parser A := λ _, Err e.
Definition bind {A B} (m : Parser A) (k : A → Parser B) : Parser B :=
  λ st, match m st with
        | Ok (a, st') => k a st'
        | Err e => Err e
        end.

Notation "'let*' x := m 'in' k" := (bind m (λ x, k))
  (at level 10, x name, m at level 100, k at level 200).
Notation "'let*' ' p := m 'in' k" := (bind m (λ x, match x with p => k end))
  (at level 10, p pattern, m at level 100, k at level 200).
Notation "m ;; k" := (bind m (λ _, k))
  (at level 100, k at level 200, right associativity).

(** [raise tok.error(message)]: the error carries the source name and the
    line the tokenizer has reached. *)
Definition tok_error {A} (mess : Message) : Parser A :=
  λ st, Err (TokenSyntaxError mess (filename st) (line_num st)).

(** [raise] of an [option]'s missing case. *)
Definition or_raise {A} (o : option A) (e : PyError) : Parser A :=
  match o with Some a => ret a | None => raise e end.
Definition or_error {A} (o : option A) (mess : Message) : Parser A :=
  match o with Some a => ret a | None => tok_error mess end.

(** [tok()]: the next token.  At the end of the input it is [EOF], again
    and again.  Reading a newline advances the line number. *)
Definition next_token : Parser (Token.t * string) := λ st,
  match toks st with
  | [] | (Token.EOF, _) :: _ => Ok ((Token.EOF, ""), st)
  | (Token.NEWLINE, v) :: rest => Ok ((Token.NEWLINE, v), set_toks rest (line_num st + 1) st)
  | t :: rest => Ok (t, set_toks rest (line_num st) st)
  end.

(** Drop the newlines the stream starts with. *)
Fixpoint drop_newlines (l : list (Token.t * string)) (line : Z)
    : list (Token.t * string) * Z :=
  match l with
  | (Token.NEWLINE, _) :: l => drop_newlines l (line + 1)
  | _ => (l, line)
  end.

Definition skip_newlines : Parser unit := λ st,
  let '(l, line) := drop_newlines (toks st) (line_num st) in
  Ok (tt, set_toks l line st).

(** [tok.expect(token)]: the next token, newlines skipped (unless a
    newline is what is expected), must be of the given kind. *)
Definition expect (token : Token.t) : Parser string :=
  (if decide (token = Token.NEWLINE) then ret tt else skip_newlines);;
  let* '(next, value) := next_token in
  if decide (next = token) then ret value else tok_error (UnexpectedToken next).

(** [next(tok.skipping_newlines())]: the next token that is no newline;
    at the end of the input the generator is exhausted and [next] raises
    [StopIteration]. *)
Definition next_skipping_newlines : Parser (Token.t * string) :=
  skip_newlines;;
  let* '(next, value) := next_token in
  if decide (next = Token.EOF) then raise StopIteration else ret (next, value).

(** One step of the generator [tok.block(name)]: the next key
    ([Some key]), or the end of the block ([None]).  Any token other
    than a string or the closing brace is an error, and so is the end of
    the input. *)
Definition block_next (name : string) : Parser (option string) :=
  skip_newlines;;
  let* '(next, value) := next_token in
  match next with
  | Token.STRING => ret (Some value)
  | Token.BRACE_CLOSE => ret None
  | Token.EOF => tok_error (Msg ("Unclosed " +:+ name +:+ " block!"))
  | _ => tok_error (UnexpectedToken next)
  end.

(** [for key in tok.block(name): body], with the variables the body
    assigns threaded through as [a].  Every turn reads at least the key,
    so the fuel is taken from the number of tokens left. *)
Fixpoint block_loop {A} (fuel : nat) (name : string)
    (body : string → A → Parser A) (a : A) : Parser A :=
  match fuel with
  | O => raise OutOfFuel
  | S fuel =>
      let* key := block_next name in
      match key with
      | None => ret a
      | Some key =>
          let* a := body key a in
          block_loop fuel name body a
      end
  end.

Definition block {A} (name : string) (consume_brace : bool)
    (body : string → A → Parser A) (a : A) : Parser A :=
  (if consume_brace then expect Token.BRACE_OPEN;; ret tt else ret tt);;
  λ st, block_loop (S (length (toks st))) name body a st.

(** [for token, tok_value in tok: body]: iteration ends at the end of
    the input.  The body says whether to go on ([inl]) or to leave the
    loop with a value ([inr], a [return] or [break] in the source);
    [None] is the loop running to its end. *)
Fixpoint token_loop {A B} (fuel : nat)
    (body : Token.t → string → A → Parser (A + B)) (a : A) : Parser (A * option B) :=
  match fuel with
  | O => raise OutOfFuel
  | S fuel =>
      let* '(next, value) := next_token in
      if decide (next = Token.EOF) then ret (a, None) else
      let* r := body next value a in
      match r with
      | inl a => token_loop fuel body a
      | inr b => ret (a, Some b)
      end
  end.

Definition for_tokens {A B} (body : Token.t → string → A → Parser (A + B)) (a : A)
    : Parser (A * option B) :=
  λ st, token_loop (S (length (toks st))) body a st.

Global Arguments ret : simpl never.
Global Arguments raise : simpl never.
Global Arguments bind : simpl never.
Global Arguments tok_error : simpl never.
Global Arguments next_token : simpl never.
Global Arguments skip_newlines : simpl never.
Global Arguments expect : simpl never.
Global Arguments next_skipping_newlines : simpl never.
Global Arguments block_next : simpl never.
Global Arguments block : simpl never.
Global Arguments for_tokens : simpl never.

(** *** From text to tokens *)

(** What the lexer is reading: nothing, a bare word, a quoted string (or
    the character after a backslash in one), the second slash of a
    comment, or a comment.  The words are kept reversed. *)
Inductive LexMode :=
| LStart
| LBare (acc : string)
| LQuote (acc : string)
| LEscape (acc : string)
| LSlash
| LComment.

(** Modelled from the spec: the escapes of a quoted string (section 4.1
    names the token kinds only; these are the usual ones). *)
Definition unescape (c : ascii) : string :=
  match c with
  | "n"%char => String "010"%char ""
  | "t"%char => String "009"%char ""
  | "\"%char => "\"
  | "/"%char => "/"
  | "034"%char => dq
  | _ => String "\"%char (String c "")
  end.

(** Modelled from the spec: the lexer of the tokenizer (section 4.1).  A
    string token is a quoted string or a bare word; [//] starts a comment
    that runs to the end of the line; tabs and spaces separate tokens.
    An unterminated quote, a single slash and a brace or a quote inside a
    bare word are lexical errors. *)
Fixpoint lex_go (mode : LexMode) (line : Z) (file : option string) (s : string)
    : Result (list (Token.t * string)) :=
  let emit t rest :=
    match rest with
    | Ok l => Ok (t :: l)
    | Err e => Err e
    end in
  match s with
  | EmptyString =>
      match mode with
      | LStart | LComment => Ok []
      | LBare acc => Ok [(Token.STRING, String.rev acc)]
      | LQuote _ | LEscape _ => Err (TokenizerError "Unterminated string!" file line)
      | LSlash => Err (TokenizerError "Single slash found!" file line)
      end
  | String c s =>
      match mode with
      | LStart =>
          if Ascii.eqb c "010" then emit (Token.NEWLINE, "") (lex_go LStart (line + 1) file s)
          else if is_space c then lex_go LStart line file s
          else if Ascii.eqb c "{" then emit (Token.BRACE_OPEN, "{") (lex_go LStart line file s)
          else if Ascii.eqb c "}" then emit (Token.BRACE_CLOSE, "}") (lex_go LStart line file s)
          else if Ascii.eqb c "034" then lex_go (LQuote "") line file s
          else if Ascii.eqb c "/" then lex_go LSlash line file s
          else lex_go (LBare (String c "")) line file s
      | LBare acc =>
          if Ascii.eqb c "010"
          then emit (Token.STRING, String.rev acc)
                 (emit (Token.NEWLINE, "") (lex_go LStart (line + 1) file s))
          else if is_space c then emit (Token.STRING, String.rev acc) (lex_go LStart line file s)
          else if (Ascii.eqb c "{" || Ascii.eqb c "}" || Ascii.eqb c "034")%bool
          then Err (TokenizerError "Unexpected character!" file line)
          else lex_go (LBare (String c acc)) line file s
      | LQuote acc =>
          if Ascii.eqb c "034" then emit (Token.STRING, String.rev acc) (lex_go LStart line file s)
          else if Ascii.eqb c "\" then lex_go (LEscape acc) line file s
          else lex_go (LQuote (String c acc))
                 (if Ascii.eqb c "010" then line + 1 else line) file s
      | LEscape acc =>
          lex_go (LQuote (String.rev_app (unescape c) acc)) line file s
      | LSlash =>
          if Ascii.eqb c "/" then lex_go LComment line file s
          else Err (TokenizerError "Single slash found!" file line)
      | LComment =>
          if Ascii.eqb c "010" then emit (Token.NEWLINE, "") (lex_go LStart (line + 1) file s)
          else lex_go LComment line file s
      end
  end.

(** [Tokenizer(file, filename)] *)
Definition Tokenizer (file : string) (filename : option string) : Result State :=
  match lex_go LStart 1 filename file with
  | Ok l => Ok (mkState l 1 filename [])
  | Err e => Err e
  end.

(** ** The data model

    Two collaborators are not part of this file of the source and are
    taken as parameters: [srctools.Vec], a vector of three floats that
    the parser only builds from a string and the writer only prints, and
    the property registry [editoritems_props] (specification section 6:
    [lookup] and [construct]). *)
Record Externals := {
  (** [Vec], [Vec.from_str(s)], [str(vec)] and [Vec(64, 64, 64)] *)
  Vec : Type;
  Vec_from_str : string → Vec;
  Vec_str : Vec → string;
  Vec_64 : Vec;
  (** the classes registered in [PROP_TYPES] and their instances *)
  PropType : Type;
  ItemProp : Type;
  (** [PROP_TYPES[key]]: [None] stands for [KeyError] *)
  PROP_TYPES : string → option PropType;
  (** [prop_type.id] *)
  PropType_id : PropType → string;
  (** [prop_type(default, index, user_default)]: [None] stands for
      [ValueError] *)
  PropType_call : PropType → string → Z → bool → option ItemProp;
  (** [prop.id], [prop.export()], [prop.index] *)
  ItemProp_id : ItemProp → string;
  ItemProp_export : ItemProp → string;
  ItemProp_index : ItemProp → Z;
}.

(** The records that hold vectors or properties take the types of these
    as parameters; [t E] is the record over the collaborators [E]. *)

(** [class EmbedFace]: a face generated by the editor. *)
Module EmbedFace.
Record record (V : Type) := mk {
  center : V;
  size : V;
  type : FaceType.t;
}.
Global Arguments mk {V}.
Global Arguments center {V} _.
Global Arguments size {V} _.
Global Arguments type {V} _.
Definition t (E : Externals) : Type := record (Vec E).
End EmbedFace.

(** [class Overlay]: an overlay placed by the editor on the ground. *)
Module Overlay.
Record record (V : Type) := mk {
  material : string;
  center : V;
  size : V;
  rotation : Z;
}.
Global Arguments mk {V}.
Global Arguments material {V} _.
Global Arguments center {V} _.
Global Arguments size {V} _.
Global Arguments rotation {V} _.
Definition t (E : Externals) : Type := record (Vec E).
End Overlay.

(** [class Renderable]: simpler definition used for the heart and error icons. *)
Module Renderable.
Record t := mk {
  type : RenderableType.t;
  model : string;
  animations : dict Anim.t Z;
}.
End Renderable.

(** [class SubType]: a single sub-item component of an overall item. *)
Module SubType.
Record t := mk {
  name : string;
  models : list FSPath;
  sounds : dict Sound.t string;
  anims : dict Anim.t Z;
  pal_name : string;
  pal_pos : option (Z * Z);
  pal_icon : option FSPath;
}.

(** Attribute assignment, one function per attribute. *)
Definition set_name (v : string) (x : t) : t :=
  mk v (models x) (sounds x) (anims x) (pal_name x) (pal_pos x) (pal_icon x).
Definition set_models (v : list FSPath) (x : t) : t :=
  mk (name x) v (sounds x) (anims x) (pal_name x) (pal_pos x) (pal_icon x).
Definition set_sounds (v : dict Sound.t string) (x : t) : t :=
  mk (name x) (models x) v (anims x) (pal_name x) (pal_pos x) (pal_icon x).
Definition set_anims (v : dict Anim.t Z) (x : t) : t :=
  mk (name x) (models x) (sounds x) v (pal_name x) (pal_pos x) (pal_icon x).
Definition set_pal_name (v : string) (x : t) : t :=
  mk (name x) (models x) (sounds x) (anims x) v (pal_pos x) (pal_icon x).
Definition set_pal_pos (v : option (Z * Z)) (x : t) : t :=
  mk (name x) (models x) (sounds x) (anims x) (pal_name x) v (pal_icon x).
Definition set_pal_icon (v : option FSPath) (x : t) : t :=
  mk (name x) (models x) (sounds x) (anims x) (pal_name x) (pal_pos x) v.
End SubType.

(** [class Item]: a specific item.  [pseudo_handle] is the attribute [setattr] creates when the [PseudoHandle] key is parsed ([None] while it does not exist); [__init__] creates [pseduo_handle]. *)
Module Item.
Record record (V PT IP : Type) := mk {
  id : string;
  cls : ItemClass.t;
  subtype_prop : option PT;
  handle : Handle.t;
  facing : DesiredFacing.t;
  invalid_surf : gset Surface.t;
  animations : dict Anim.t Z;
  anchor_barriers : bool;
  anchor_goo : bool;
  occupies_voxel : bool;
  copiable : bool;
  deletable : bool;
  pseduo_handle : bool;
  pseudo_handle : option bool;
  subtypes : list SubType.t;
  properties : dict string IP;
  offset : V;
  targetname : string;
  instances : list InstCount.t;
  cust_instances : dict string FSPath;
  antline_points : dict ConnSide.t (list AntlinePoint.t);
  embed_voxels : gset Coord;
  embed_faces : list (EmbedFace.record V);
  overlays : list (Overlay.record V);
}.
Global Arguments mk {V PT IP}.
Global Arguments id {V PT IP} _.
Global Arguments cls {V PT IP} _.
Global Arguments subtype_prop {V PT IP} _.
Global Arguments handle {V PT IP} _.
Global Arguments facing {V PT IP} _.
Global Arguments invalid_surf {V PT IP} _.
Global Arguments animations {V PT IP} _.
Global Arguments anchor_barriers {V PT IP} _.
Global Arguments anchor_goo {V PT IP} _.
Global Arguments occupies_voxel {V PT IP} _.
Global Arguments copiable {V PT IP} _.
Global Arguments deletable {V PT IP} _.
Global Arguments pseduo_handle {V PT IP} _.
Global Arguments pseudo_handle {V PT IP} _.
Global Arguments subtypes {V PT IP} _.
Global Arguments properties {V PT IP} _.
Global Arguments offset {V PT IP} _.
Global Arguments targetname {V PT IP} _.
Global Arguments instances {V PT IP} _.
Global Arguments cust_instances {V PT IP} _.
Global Arguments antline_points {V PT IP} _.
Global Arguments embed_voxels {V PT IP} _.
Global Arguments embed_faces {V PT IP} _.
Global Arguments overlays {V PT IP} _.

(** The items over the collaborators [E]. *)
Definition t (E : Externals) : Type := record (Vec E) (PropType E) (ItemProp E).

(** Attribute assignment, one function per attribute. *)
Definition set_id {E : Externals} (v : string) (x : t E) : t E :=
  mk v (cls x) (subtype_prop x) (handle x) (facing x) (invalid_surf x) (animations x) (anchor_barriers x) (anchor_goo x) (occupies_voxel x) (copiable x) (deletable x) (pseduo_handle x) (pseudo_handle x) (subtypes x) (properties x) (offset x) (targetname x) (instances x) (cust_instances x) (antline_points x) (embed_voxels x) (embed_faces x) (overlays x).
Definition set_cls {E : Externals} (v : ItemClass.t) (x : t E) : t E :=
  mk (id x) v (subtype_prop x) (handle x) (facing x) (invalid_surf x) (animations x) (anchor_barriers x) (anchor_goo x) (occupies_voxel x) (copiable x) (deletable x) (pseduo_handle x) (pseudo_handle x) (subtypes x) (properties x) (offset x) (targetname x) (instances x) (cust_instances x) (antline_points x) (embed_voxels x) (embed_faces x) (overlays x).
Definition set_subtype_prop {E : Externals} (v : option (PropType E)) (x : t E) : t E :=
  mk (id x) (cls x) v (handle x) (facing x) (invalid_surf x) (animations x) (anchor_barriers x) (anchor_goo x) (occupies_voxel x) (copiable x) (deletable x) (pseduo_handle x) (pseudo_handle x) (subtypes x) (properties x) (offset x) (targetname x) (instances x) (cust_instances x) (antline_points x) (embed_voxels x) (embed_faces x) (overlays x).
Definition set_handle {E : Externals} (v : Handle.t) (x : t E) : t E :=
  mk (id x) (cls x) (subtype_prop x) v (facing x) (invalid_surf x) (animations x) (anchor_barriers x) (anchor_goo x) (occupies_voxel x) (copiable x) (deletable x) (pseduo_handle x) (pseudo_handle x) (subtypes x) (properties x) (offset x) (targetname x) (instances x) (cust_instances x) (antline_points x) (embed_voxels x) (embed_faces x) (overlays x).
Definition set_facing {E : Externals} (v : DesiredFacing.t) (x : t E) : t E :=
  mk (id x) (cls x) (subtype_prop x) (handle x) v (invalid_surf x) (animations x) (anchor_barriers x) (anchor_goo x) (occupies_voxel x) (copiable x) (deletable x) (pseduo_handle x) (pseudo_handle x) (subtypes x) (properties x) (offset x) (targetname x) (instances x) (cust_instances x) (antline_points x) (embed_voxels x) (embed_faces x) (overlays x).
Definition set_invalid_surf {E : Externals} (v : gset Surface.t) (x : t E) : t E :=
  mk (id x) (cls x) (subtype_prop x) (handle x) (facing x) v (animations x) (anchor_barriers x) (anchor_goo x) (occupies_voxel x) (copiable x) (deletable x) (pseduo_handle x) (pseudo_handle x) (subtypes x) (properties x) (offset x) (targetname x) (instances x) (cust_instances x) (antline_points x) (embed_voxels x) (embed_faces x) (overlays x).
Definition set_animations {E : Externals} (v : dict Anim.t Z) (x : t E) : t E :=
  mk (id x) (cls x) (subtype_prop x) (handle x) (facing x) (invalid_surf x) v (anchor_barriers x) (anchor_goo x) (occupies_voxel x) (copiable x) (deletable x) (pseduo_handle x) (pseudo_handle x) (subtypes x) (properties x) (offset x) (targetname x) (instances x) (cust_instances x) (antline_points x) (embed_voxels x) (embed_faces x) (overlays x).
Definition set_anchor_barriers {E : Externals} (v : bool) (x : t E) : t E :=
  mk (id x) (cls x) (subtype_prop x) (handle x) (facing x) (invalid_surf x) (animations x) v (anchor_goo x) (occupies_voxel x) (copiable x) (deletable x) (pseduo_handle x) (pseudo_handle x) (subtypes x) (properties x) (offset x) (targetname x) (instances x) (cust_instances x) (antline_points x) (embed_voxels x) (embed_faces x) (overlays x).
Definition set_anchor_goo {E : Externals} (v : bool) (x : t E) : t E :=
  mk (id x) (cls x) (subtype_prop x) (handle x) (facing x) (invalid_surf x) (animations x) (anchor_barriers x) v (occupies_voxel x) (copiable x) (deletable x) (pseduo_handle x) (pseudo_handle x) (subtypes x) (properties x) (offset x) (targetname x) (instances x) (cust_instances x) (antline_points x) (embed_voxels x) (embed_faces x) (overlays x).
Definition set_occupies_voxel {E : Externals} (v : bool) (x : t E) : t E :=
  mk (id x) (cls x) (subtype_prop x) (handle x) (facing x) (invalid_surf x) (animations x) (anchor_barriers x) (anchor_goo x) v (copiable x) (deletable x) (pseduo_handle x) (pseudo_handle x) (subtypes x) (properties x) (offset x) (targetname x) (instances x) (cust_instances x) (antline_points x) (embed_voxels x) (embed_faces x) (overlays x).
Definition set_copiable {E : Externals} (v : bool) (x : t E) : t E :=
  mk (id x) (cls x) (subtype_prop x) (handle x) (facing x) (invalid_surf x) (animations x) (anchor_barriers x) (anchor_goo x) (occupies_voxel x) v (deletable x) (pseduo_handle x) (pseudo_handle x) (subtypes x) (properties x) (offset x) (targetname x) (instances x) (cust_instances x) (antline_points x) (embed_voxels x) (embed_faces x) (overlays x).
Definition set_deletable {E : Externals} (v : bool) (x : t E) : t E :=
  mk (id x) (cls x) (subtype_prop x) (handle x) (facing x) (invalid_surf x) (animations x) (anchor_barriers x) (anchor_goo x) (occupies_voxel x) (copiable x) v (pseduo_handle x) (pseudo_handle x) (subtypes x) (properties x) (offset x) (targetname x) (instances x) (cust_instances x) (antline_points x) (embed_voxels x) (embed_faces x) (overlays x).
Definition set_pseduo_handle {E : Externals} (v : bool) (x : t E) : t E :=
  mk (id x) (cls x) (subtype_prop x) (handle x) (facing x) (invalid_surf x) (animations x) (anchor_barriers x) (anchor_goo x) (occupies_voxel x) (copiable x) (deletable x) v (pseudo_handle x) (subtypes x) (properties x) (offset x) (targetname x) (instances x) (cust_instances x) (antline_points x) (embed_voxels x) (embed_faces x) (overlays x).
Definition set_pseudo_handle {E : Externals} (v : option bool) (x : t E) : t E :=
  mk (id x) (cls x) (subtype_prop x) (handle x) (facing x) (invalid_surf x) (animations x) (anchor_barriers x) (anchor_goo x) (occupies_voxel x) (copiable x) (deletable x) (pseduo_handle x) v (subtypes x) (properties x) (offset x) (targetname x) (instances x) (cust_instances x) (antline_points x) (embed_voxels x) (embed_faces x) (overlays x).
Definition set_subtypes {E : Externals} (v : list SubType.t) (x : t E) : t E :=
  mk (id x) (cls x) (subtype_prop x) (handle x) (facing x) (invalid_surf x) (animations x) (anchor_barriers x) (anchor_goo x) (occupies_voxel x) (copiable x) (deletable x) (pseduo_handle x) (pseudo_handle x) v (properties x) (offset x) (targetname x) (instances x) (cust_instances x) (antline_points x) (embed_voxels x) (embed_faces x) (overlays x).
Definition set_properties {E : Externals} (v : dict string (ItemProp E)) (x : t E) : t E :=
  mk (id x) (cls x) (subtype_prop x) (handle x) (facing x) (invalid_surf x) (animations x) (anchor_barriers x) (anchor_goo x) (occupies_voxel x) (copiable x) (deletable x) (pseduo_handle x) (pseudo_handle x) (subtypes x) v (offset x) (targetname x) (instances x) (cust_instances x) (antline_points x) (embed_voxels x) (embed_faces x) (overlays x).
Definition set_offset {E : Externals} (v : Vec E) (x : t E) : t E :=
  mk (id x) (cls x) (subtype_prop x) (handle x) (facing x) (invalid_surf x) (animations x) (anchor_barriers x) (anchor_goo x) (occupies_voxel x) (copiable x) (deletable x) (pseduo_handle x) (pseudo_handle x) (subtypes x) (properties x) v (targetname x) (instances x) (cust_instances x) (antline_points x) (embed_voxels x) (embed_faces x) (overlays x).
Definition set_targetname {E : Externals} (v : string) (x : t E) : t E :=
  mk (id x) (cls x) (subtype_prop x) (handle x) (facing x) (invalid_surf x) (animations x) (anchor_barriers x) (anchor_goo x) (occupies_voxel x) (copiable x) (deletable x) (pseduo_handle x) (pseudo_handle x) (subtypes x) (properties x) (offset x) v (instances x) (cust_instances x) (antline_points x) (embed_voxels x) (embed_faces x) (overlays x).
Definition set_instances {E : Externals} (v : list InstCount.t) (x : t E) : t E :=
  mk (id x) (cls x) (subtype_prop x) (handle x) (facing x) (invalid_surf x) (animations x) (anchor_barriers x) (anchor_goo x) (occupies_voxel x) (copiable x) (deletable x) (pseduo_handle x) (pseudo_handle x) (subtypes x) (properties x) (offset x) (targetname x) v (cust_instances x) (antline_points x) (embed_voxels x) (embed_faces x) (overlays x).
Definition set_cust_instances {E : Externals} (v : dict string FSPath) (x : t E) : t E :=
  mk (id x) (cls x) (subtype_prop x) (handle x) (facing x) (invalid_surf x) (animations x) (anchor_barriers x) (anchor_goo x) (occupies_voxel x) (copiable x) (deletable x) (pseduo_handle x) (pseudo_handle x) (subtypes x) (properties x) (offset x) (targetname x) (instances x) v (antline_points x) (embed_voxels x) (embed_faces x) (overlays x).
Definition set_antline_points {E : Externals} (v : dict ConnSide.t (list AntlinePoint.t)) (x : t E) : t E :=
  mk (id x) (cls x) (subtype_prop x) (handle x) (facing x) (invalid_surf x) (animations x) (anchor_barriers x) (anchor_goo x) (occupies_voxel x) (copiable x) (deletable x) (pseduo_handle x) (pseudo_handle x) (subtypes x) (properties x) (offset x) (targetname x) (instances x) (cust_instances x) v (embed_voxels x) (embed_faces x) (overlays x).
Definition set_embed_voxels {E : Externals} (v : gset Coord) (x : t E) : t E :=
  mk (id x) (cls x) (subtype_prop x) (handle x) (facing x) (invalid_surf x) (animations x) (anchor_barriers x) (anchor_goo x) (occupies_voxel x) (copiable x) (deletable x) (pseduo_handle x) (pseudo_handle x) (subtypes x) (properties x) (offset x) (targetname x) (instances x) (cust_instances x) (antline_points x) v (embed_faces x) (overlays x).
Definition set_embed_faces {E : Externals} (v : list (EmbedFace.t E)) (x : t E) : t E :=
  mk (id x) (cls x) (subtype_prop x) (handle x) (facing x) (invalid_surf x) (animations x) (anchor_barriers x) (anchor_goo x) (occupies_voxel x) (copiable x) (deletable x) (pseduo_handle x) (pseudo_handle x) (subtypes x) (properties x) (offset x) (targetname x) (instances x) (cust_instances x) (antline_points x) (embed_voxels x) v (overlays x).
Definition set_overlays {E : Externals} (v : list (Overlay.t E)) (x : t E) : t E :=
  mk (id x) (cls x) (subtype_prop x) (handle x) (facing x) (invalid_surf x) (animations x) (anchor_barriers x) (anchor_goo x) (occupies_voxel x) (copiable x) (deletable x) (pseduo_handle x) (pseudo_handle x) (subtypes x) (properties x) (offset x) (targetname x) (instances x) (cust_instances x) (antline_points x) (embed_voxels x) (embed_faces x) v.

(** [Item.__init__]. *)
Definition init {E : Externals} (item_id : string) (cls : ItemClass.t)
    (subtype_prop : option (PropType E)) (movement_handle : Handle.t)
    (desired_facing : DesiredFacing.t) (invalid_surf : list Surface.t)
    (anchor_on_barriers anchor_on_goo occupies_voxel : bool) : t E :=
  {| id := item_id; cls := cls; subtype_prop := subtype_prop;
     handle := movement_handle; facing := desired_facing;
     invalid_surf := list_to_set invalid_surf;
     animations := [];
     anchor_barriers := anchor_on_barriers; anchor_goo := anchor_on_goo;
     occupies_voxel := occupies_voxel; copiable := true; deletable := true;
     pseduo_handle := false; pseudo_handle := None;
     subtypes := []; properties := [];
     offset := Vec_64 E; targetname := "";
     instances := []; cust_instances := [];
     antline_points := (λ side, (side, [])) <$> ConnSide.members;
     embed_voxels := ∅; embed_faces := []; overlays := [] |}.

(** [Item(item_id, cls)]: every keyword argument at its default. *)
Definition init_default {E : Externals} (item_id : string) (cls : ItemClass.t) : t E :=
  init item_id cls None Handle.NONE DesiredFacing.NONE [] false false true.
End Item.

(** ** The block parser *)

(** [for x in xs: body], with the variables the body assigns threaded
    through as [a]. *)
Fixpoint for_each {A B} (xs : list B) (body : B → A → Parser A) (a : A) : Parser A :=
  match xs with
  | [] => ret a
  | x :: xs => let* a := body x a in for_each xs body a
  end.

(** [Coord.parse(value, tok.error)].  (The [_coord_cache] lookup that
    ends it returns a value equal to [Coord(x, y, z)].) *)
Definition Coord_parse (value : string) : Parser Coord :=
  match split value with
  | [p0; p1; p2] =>
      let* x := or_error (py_int p0) (Msg ("Invalid coordinate value " +:+ quoted p0 +:+ "!")) in
      let* y := or_error (py_int p1) (Msg ("Invalid coordinate value " +:+ quoted p1 +:+ "!")) in
      let* z := or_error (py_int p2) (Msg ("Invalid coordinate value " +:+ quoted p2 +:+ "!")) in
      ret (x, y, z)
  | _ => tok_error (Msg "Incorrect number of points for a coordinate!")
  end.

Definition unknown_side (x y : Z) : Message :=
  Msg ("Unknown connection side (" +:+ py_str x +:+ ", " +:+ py_str y +:+ ", 0)").

(** [ConnSide.parse(value, tok.error)] *)
Definition ConnSide_parse (value : string) : Parser ConnSide.t :=
  match ConnSide.of_name (upper value) with
  | Some side => ret side
  | None =>
      match split value with
      | [p0; p1; p2] =>
          match py_int p0, py_int p1, py_int p2 with
          | Some x, Some y, Some z =>
              if decide (z ≠ 0) then tok_error (Msg "Connection side must be flat!")
              else if decide (x = 0) then
                if decide (y = 1) then ret ConnSide.UP
                else if decide (y = -1) then ret ConnSide.DOWN
                else tok_error (unknown_side x y)
              else if decide (y = 0) then
                if decide (x = 1) then ret ConnSide.LEFT
                else if decide (x = -1) then ret ConnSide.RIGHT
                else tok_error (unknown_side x y)
              else tok_error (unknown_side x y)
          | _, _, _ => tok_error (Msg "Invalid connection side!")
          end
      | _ => tok_error (Msg "Incorrect number of points for a direction!")
      end
  end.

(** The body of the loop of [Anim.parse_block]. *)
Definition Anim_parse_key (anim_name : string) (anims : dict Anim.t Z)
    : Parser (dict Anim.t Z) :=
  let* anim := or_error (Anim.of_value anim_name) (Msg ("Unknown animation " +:+ anim_name)) in
  let* index := expect Token.STRING in
  ret (dict_set anims anim (conv_int index)).

(** [Anim.parse_block(anims, tok)] *)
Definition Anim_parse_block (anims : dict Anim.t Z) : Parser (dict Anim.t Z) :=
  block "Animations" true Anim_parse_key anims.

(** The body of the loop of [Renderable.parse], on [(kind, model, anims)]. *)
Definition Renderable_parse_key (key : string)
    (s : option RenderableType.t * string * dict Anim.t Z)
    : Parser (option RenderableType.t * string * dict Anim.t Z) :=
  let '(kind, model, anims) := s in
  if decide (casefold key = "type") then
    let* render_id := expect Token.STRING in
    let* kind := or_error (Renderable_types (casefold render_id))
                   (Msg ("Unknown Renderable " +:+ quoted render_id +:+ "!")) in
    ret (Some kind, model, anims)
  else if decide (casefold key = "animations") then
    let* anims := Anim_parse_block anims in
    ret (kind, model, anims)
  else if decide (casefold key = "model") then
    let* model := expect Token.STRING in
    ret (kind, model, anims)
  else tok_error (Msg ("Unknown renderable option " +:+ quoted key +:+ "!")).

(** [Renderable.parse(tok)] *)
Definition Renderable_parse : Parser Renderable.t :=
  let* '(kind, model, anims) := block "Renderable Item" true Renderable_parse_key (None, "", []) in
  match kind with
  | None => tok_error (Msg "No type specified for Renderable!")
  | Some kind => ret (Renderable.mk kind model anims)
  end.

(** *** Subtypes *)

(** The body of the loop over a [Model] block. *)
Definition SubType_model_key (subkey : string) (model_name : option FSPath)
    : Parser (option FSPath) :=
  let subkey := casefold subkey in
  if decide (subkey = "modelname") then
    let* value := expect Token.STRING in
    ret (Some (FSPath_of value))
  else if decide (subkey = "texturename") then
    expect Token.STRING;; ret model_name
  else tok_error (Msg ("Unknown model option " +:+ quoted subkey +:+ "!")).

(** The body of the loop over a [Palette] block. *)
Definition SubType_palette_key (subkey : string) (subtype : SubType.t) : Parser SubType.t :=
  let subkey := casefold subkey in
  if decide (subkey = "tooltip") then
    let* value := expect Token.STRING in
    ret (SubType.set_pal_name value subtype)
  else if decide (subkey = "image") then
    let* value := expect Token.STRING in
    ret (SubType.set_pal_icon (Some (FSPath_of value)) subtype)
  else if decide (subkey = "position") then
    let* value := expect Token.STRING in
    let points := split value in
    if bool_decide (length points ∈ [2; 3]%nat) then
      match py_int (default "" (points !! 0%nat)), py_int (default "" (points !! 1%nat)) with
      | Some x, Some y => ret (SubType.set_pal_pos (Some (x, y)) subtype)
      | _, _ => tok_error (Msg "Invalid position value!")
      end
    else tok_error (Msg "Incorrect number of points in position")
  else tok_error (Msg ("Unknown palette option " +:+ quoted subkey +:+ "!")).

(** The body of the loop over a [Sounds] block. *)
Definition SubType_sounds_key (sound_kind : string) (subtype : SubType.t) : Parser SubType.t :=
  let* sound := or_error (Sound.of_value (upper sound_kind))
                  (Msg ("Unknown sound type " +:+ quoted sound_kind +:+ "!")) in
  let* value := expect Token.STRING in
  ret (SubType.set_sounds (dict_set (SubType.sounds subtype) sound value) subtype).

(** The body of the loop of [SubType.parse]. *)
Definition SubType_parse_key (key : string) (subtype : SubType.t) : Parser SubType.t :=
  let folded_key := casefold key in
  if decide (folded_key = "name") then
    let* value := expect Token.STRING in
    ret (SubType.set_name value subtype)
  else if decide (folded_key = "model") then
    let* '(token, tok_value) := next_skipping_newlines in
    let* model_name :=
      match token with
      | Token.STRING => ret (Some (FSPath_of tok_value))
      | Token.BRACE_OPEN => block "Model" false SubType_model_key None
      | _ => tok_error (UnexpectedToken token)
      end in
    let* model_name := or_error model_name (Msg "No model name specified!") in
    let* model_name :=
      if decide (casefold (FSPath_suffix model_name) ≠ ".mdl")
      then or_raise (FSPath_with_suffix model_name ".mdl") ValueError
      else ret model_name in
    ret (SubType.set_models (SubType.models subtype ++ [model_name]) subtype)
  else if decide (folded_key = "palette") then
    block "Palette" true SubType_palette_key subtype
  else if decide (folded_key = "sounds") then
    block "Sounds" true SubType_sounds_key subtype
  else if decide (folded_key = "animations") then
    let* anims := Anim_parse_block (SubType.anims subtype) in
    ret (SubType.set_anims anims subtype)
  else tok_error (Msg ("Unknown subtype option " +:+ quoted key +:+ "!")).

(** [SubType.parse(tok)] *)
Definition SubType_parse : Parser SubType.t :=
  block "Subtype" true SubType_parse_key (SubType.mk "" [] DEFAULT_SOUNDS [] "" None None).

(** *** Items *)

(** [Item._BOOL_ATTRS]: boolean option in the editor block -> [Item]
    attribute. *)
Definition _BOOL_ATTRS : dict string string :=
  [("cananchoronbarriers", "anchor_barriers");
   ("cananchorongoo", "anchor_barriers");
   ("occupiesvoxel", "occupies_voxel");
   ("copyable", "copiable");
   ("deletable", "deletable");
   ("pseudohandle", "pseudo_handle")].

(** [InstCount(FSPath(), 0, 0, 0)]: the blank spot of the instance list. *)
Definition blank_instance : InstCount.t := InstCount.mk FSPath_empty 0 0 0.

(** [while inst_ind > len(instances): instances.append(blank)] *)
Definition pad_instances (inst_ind : Z) (instances : list InstCount.t) : list InstCount.t :=
  instances ++ replicate (Z.to_nat (inst_ind - Z.of_nat (length instances))) blank_instance.

(** The end of [_parse_instance_block] for a numeric slot, on the padded
    list: append at the end of the list, assign elsewhere. *)
Definition store_instance (inst_ind : Z) (inst : InstCount.t) (instances : list InstCount.t)
    : option (list InstCount.t) :=
  if decide (inst_ind = Z.of_nat (length instances)) then Some (instances ++ [inst])
  else list_setitem instances inst_ind inst.

(** The volume between two corners: every [Coord(x, y, z)] of the three
    nested loops over [vol_x], [vol_y] and [vol_z]. *)
Definition volume_points (pos_1 pos_2 : Coord) : list Coord :=
  x ← range (Coord_x pos_1 `min` Coord_x pos_2) (Coord_x pos_1 `max` Coord_x pos_2 + 1);
  y ← range (Coord_y pos_1 `min` Coord_y pos_2) (Coord_y pos_1 `max` Coord_y pos_2 + 1);
  z ← range (Coord_z pos_1 `min` Coord_z pos_2) (Coord_z pos_1 `max` Coord_z pos_2 + 1);
  [(x, y, z)].

(** [voxels.add(c)] for each point in turn. *)
Definition add_all (points : list Coord) (voxels : gset Coord) : gset Coord :=
  foldl (λ s c, s ∪ {[c]}) voxels points.

(** The token-skipping loop that ends [_parse_export_block]:
    [[
      for token, tok_value in tok:
          if token is Token.BRACE_OPEN: level += 1
          elif token is Token.BRACE_CLOSE:
              level -= 1
              if level <= 0: break
    ]]
    on the tokens left and the line number; it reads one token a turn
    and ends with the input when no brace closes it. *)
Fixpoint skip_tokens (level : Z) (l : list (Token.t * string)) (line : Z)
    : list (Token.t * string) * Z :=
  match l with
  | [] | (Token.EOF, _) :: _ => (l, line)
  | (Token.BRACE_OPEN, _) :: l => skip_tokens (level + 1) l line
  | (Token.BRACE_CLOSE, _) :: l =>
      if decide (level - 1 ≤ 0) then (l, line) else skip_tokens (level - 1) l line
  | (Token.NEWLINE, _) :: l => skip_tokens level l (line + 1)
  | (Token.STRING, _) :: l => skip_tokens level l line
  end.

Definition skip_unknown_block : Parser unit := λ st,
  let '(l, line) := skip_tokens 0 (toks st) (line_num st) in
  Ok (tt, set_toks l line st).

Section item_parser.
Context {E : Externals}.

(** [setattr(self, attr, value)] for the attribute names of
    [_BOOL_ATTRS]; ['pseudo_handle'] is no attribute [__init__] made, so
    assigning it creates it. *)
Definition setattr_bool (attr : string) (value : bool) (self : Item.t E) : Item.t E :=
  if decide (attr = "anchor_barriers") then Item.set_anchor_barriers value self
  else if decide (attr = "anchor_goo") then Item.set_anchor_goo value self
  else if decide (attr = "occupies_voxel") then Item.set_occupies_voxel value self
  else if decide (attr = "copiable") then Item.set_copiable value self
  else if decide (attr = "deletable") then Item.set_deletable value self
  else if decide (attr = "pseduo_handle") then Item.set_pseduo_handle value self
  else if decide (attr = "pseudo_handle") then Item.set_pseudo_handle (Some value) self
  else self.

(** The body of the loop of [_parse_editor_block]. *)
Definition parse_editor_key (key : string) (self : Item.t E) : Parser (Item.t E) :=
  let folded_key := casefold key in
  if decide (folded_key = "subtype") then
    let* subtype := SubType_parse in
    ret (Item.set_subtypes (Item.subtypes self ++ [subtype]) self)
  else if decide (folded_key = "animations") then
    let* anims := Anim_parse_block (Item.animations self) in
    ret (Item.set_animations anims self)
  else if decide (folded_key = "movementhandle") then
    let* handle_str := expect Token.STRING in
    let* handle := or_error (Handle.of_value (upper handle_str))
                     (Msg ("Unknown handle type " +:+ handle_str)) in
    ret (Item.set_handle handle self)
  else if decide (folded_key = "invalidsurface") then
    let* value := expect Token.STRING in
    for_each (split value) (λ word self,
      let* surf := or_error (Surface.of_name (upper word))
                     (Msg ("Unknown surface type " +:+ word)) in
      ret (Item.set_invalid_surf (Item.invalid_surf self ∪ {[surf]}) self)) self
  else if decide (folded_key = "subtypeproperty") then
    let* subtype_prop := expect Token.STRING in
    (* the lookup raises KeyError, which [except ValueError] lets pass *)
    let* prop := or_raise (PROP_TYPES E (casefold subtype_prop))
                   (KeyError (casefold subtype_prop)) in
    ret (Item.set_subtype_prop (Some prop) self)
  else if decide (folded_key = "desiredfacing") then
    let* desired_facing := expect Token.STRING in
    let* facing := or_error (DesiredFacing.of_value (upper desired_facing))
                     (Msg ("Unknown desired facing " +:+ desired_facing)) in
    ret (Item.set_facing facing self)
  else if decide (folded_key = "rendercolor") then
    expect Token.STRING;; ret self
  else
    match dict_get _BOOL_ATTRS folded_key with
    | None => tok_error (Msg ("Unknown editor option " +:+ key))
    | Some attr =>
        let* value := expect Token.STRING in
        ret (setattr_bool attr (conv_bool value false) self)
    end.

(** [Item._parse_editor_block(self, tok)] *)
Definition _parse_editor_block (self : Item.t E) : Parser (Item.t E) :=
  block "Editor" true parse_editor_key self.

(** The body of the loop over the options of one property, on
    [(default, index, user_default)]. *)
Definition parse_property_option (prop_value : string) (s : string * Z * bool)
    : Parser (string * Z * bool) :=
  let '(dflt, index, user_default) := s in
  let prop_value := casefold prop_value in
  if decide (prop_value = "defaultvalue") then
    let* value := expect Token.STRING in ret (value, index, user_default)
  else if decide (prop_value = "index") then
    let* value := expect Token.STRING in ret (dflt, conv_int value, user_default)
  else if decide (prop_value = "bee2_ignore") then
    let* value := expect Token.STRING in ret (dflt, index, conv_bool value user_default)
  else tok_error (Msg ("Unknown property option " +:+ quoted prop_value +:+ "!")).

(** The body of the loop of [_parse_properties_block]. *)
Definition parse_properties_key (prop_str : string) (self : Item.t E) : Parser (Item.t E) :=
  let* prop_type := or_error (PROP_TYPES E (casefold prop_str))
                      (Msg ("Unknown property " +:+ quoted prop_str +:+ "!")) in
  let* '(dflt, index, user_default) :=
    block (prop_str +:+ " options") true parse_property_option ("", 0, true) in
  match PropType_call E prop_type dflt index user_default with
  | Some prop =>
      ret (Item.set_properties
             (dict_set (Item.properties self) (PropType_id E prop_type) prop) self)
  | None =>
      tok_error (Msg ("Default value " +:+ dflt +:+ " is not valid for "
                      +:+ PropType_id E prop_type +:+ " properties!"))
  end.

(** [Item._parse_properties_block(self, tok)] *)
Definition _parse_properties_block (self : Item.t E) : Parser (Item.t E) :=
  block "Properties" true parse_properties_key self.

(** The body of the loop over an instance given as a block, on
    [(inst_file, ent_count, brush_count, side_count)]. *)
Definition parse_instance_option (block_key : string) (s : option string * Z * Z * Z)
    : Parser (option string * Z * Z * Z) :=
  let '(inst_file, ent_count, brush_count, side_count) := s in
  let folded_key := casefold block_key in
  if decide (folded_key = "name") then
    let* value := expect Token.STRING in ret (Some value, ent_count, brush_count, side_count)
  else if decide (folded_key = "entitycount") then
    let* value := expect Token.STRING in ret (inst_file, conv_int value, brush_count, side_count)
  else if decide (folded_key = "brushcount") then
    let* value := expect Token.STRING in ret (inst_file, ent_count, conv_int value, side_count)
  else if decide (folded_key = "brushsidecount") then
    let* value := expect Token.STRING in ret (inst_file, ent_count, brush_count, conv_int value)
  else tok_error (Msg ("Unknown instance option " +:+ block_key)).

(** The value of an instance slot: a block with [Name] and the counts,
    or a bare file name. *)
Definition parse_instance_value : Parser InstCount.t :=
  let* '(block_tok, inst_file) := next_skipping_newlines in
  match block_tok with
  | Token.BRACE_OPEN =>
      let* '(inst_file, ent_count, brush_count, side_count) :=
        block "Instances" false parse_instance_option (None, 0, 0, 0) in
      let* inst_file := or_error inst_file (Msg "No instance filename provided!") in
      ret (InstCount.mk (FSPath_of inst_file) ent_count brush_count side_count)
  | Token.STRING => ret (InstCount.mk (FSPath_of inst_file) 0 0 0)
  | _ => tok_error (UnexpectedToken block_tok)
  end.

Definition no_prefix_warning (st : State) : string :=
  "Custom instance names should have bee2_ prefix (line " +:+ py_str (line_num st)
  +:+ ", file " +:+ default "None" (filename st) +:+ ")".

(** [Item._parse_instance_block(self, tok, inst_name)] *)
Definition _parse_instance_block (inst_name : string) (self : Item.t E) : Parser (Item.t E) :=
  let* '(inst_ind, inst_name, self) :=
    match py_int inst_name with
    | None =>
        if startswith "bee2_" (casefold inst_name)
        then ret (None, string_drop 5 inst_name, self)
        else λ st, Ok ((None, inst_name, self), log_warning (no_prefix_warning st) st)
    | Some inst_ind =>
        (* Add blank spots if this is past the end. *)
        ret (Some inst_ind, inst_name,
             Item.set_instances (pad_instances inst_ind (Item.instances self)) self)
    end in
  let* inst := parse_instance_value in
  match inst_ind with
  | Some inst_ind =>
      let* instances := or_raise (store_instance inst_ind inst (Item.instances self))
                          IndexError in
      ret (Item.set_instances instances self)
  | None =>
      ret (Item.set_cust_instances
             (dict_set (Item.cust_instances self) inst_name (InstCount.inst inst)) self)
  end.

(** The body of the loop over one [Point] block, on
    [(direction, pos, sign_pos, group_id, priority)]. *)
Definition parse_point_option (conn_key : string)
    (s : option ConnSide.t * option Coord * option Coord * option Z * Z)
    : Parser (option ConnSide.t * option Coord * option Coord * option Z * Z) :=
  let '(direction, pos, sign_pos, group_id, priority) := s in
  let folded_key := casefold conn_key in
  if decide (folded_key = "dir") then
    let* value := expect Token.STRING in
    let* side := ConnSide_parse value in
    ret (Some side, pos, sign_pos, group_id, priority)
  else if decide (folded_key = "pos") then
    let* value := expect Token.STRING in
    let* c := Coord_parse value in
    ret (direction, Some c, sign_pos, group_id, priority)
  else if decide (folded_key = "signageoffset") then
    let* value := expect Token.STRING in
    let* c := Coord_parse value in
    ret (direction, pos, Some c, group_id, priority)
  else if decide (folded_key = "priority") then
    let* value := expect Token.STRING in
    ret (direction, pos, sign_pos, group_id, conv_int value)
  else if decide (folded_key = "groupid") then
    let* value := expect Token.STRING in
    ret (direction, pos, sign_pos, Some (conv_int value), priority)
  else tok_error (Msg ("Unknown point option " +:+ quoted folded_key +:+ "!")).

(** The body of the loop of [_parse_connection_points]. *)
Definition parse_connection_point (point_key : string) (self : Item.t E) : Parser (Item.t E) :=
  if decide (casefold point_key ≠ "point")
  then tok_error (Msg ("Unknown connection point " +:+ quoted point_key +:+ "!")) else
  let* '(direction, pos, sign_pos, group_id, priority) :=
    block "Point" true parse_point_option (None, None, None, None, 0) in
  let* direction := or_error direction (Msg "No direction for connection point!") in
  let* pos := or_error pos (Msg "No position for connection point!") in
  let* sign_pos := or_error sign_pos (Msg "No signage position for connection point!") in
  let points := default [] (dict_get (Item.antline_points self) direction) in
  ret (Item.set_antline_points
         (dict_set (Item.antline_points self) direction
            (points ++ [AntlinePoint.mk pos sign_pos priority group_id])) self).

(** [Item._parse_connection_points(self, tok)] *)
Definition _parse_connection_points (self : Item.t E) : Parser (Item.t E) :=
  block "ConnectionPoints" true parse_connection_point self.
End item_parser.

Section item_parser_export.
Context {E : Externals}.

(** The body of the loop over a [Volume] block, on [(pos_1, pos_2)]. *)
Definition parse_volume_key (pos_key : string) (s : option Coord * option Coord)
    : Parser (option Coord * option Coord) :=
  let '(pos_1, pos_2) := s in
  if decide (casefold pos_key = "pos1") then
    let* value := expect Token.STRING in
    let* c := Coord_parse value in ret (Some c, pos_2)
  else if decide (casefold pos_key = "pos2") then
    let* value := expect Token.STRING in
    let* c := Coord_parse value in ret (pos_1, Some c)
  else tok_error (Msg ("Unknown volume key " +:+ quoted pos_key +:+ "!")).

(** The [volume] branch of [_parse_embedded_voxels]: read the two
    corners, then add every point between them. *)
Definition parse_volume (self : Item.t E) : Parser (Item.t E) :=
  let* '(pos_1, pos_2) := block "EmbeddedVolume" true parse_volume_key (None, None) in
  match pos_1, pos_2 with
  | Some pos_1, Some pos_2 =>
      ret (Item.set_embed_voxels
             (add_all (volume_points pos_1 pos_2) (Item.embed_voxels self)) self)
  | _, _ => tok_error (Msg "Missing coordinate for volume!")
  end.

(** The body of the loop over a [Voxel] block. *)
Definition parse_voxel_key (pos_key : string) (self : Item.t E) : Parser (Item.t E) :=
  if decide (casefold pos_key = "pos") then
    let* value := expect Token.STRING in
    let* c := Coord_parse value in
    ret (Item.set_embed_voxels (Item.embed_voxels self ∪ {[c]}) self)
  else tok_error (Msg ("Unknown voxel key " +:+ quoted pos_key +:+ "!")).

(** The body of the loop of [_parse_embedded_voxels]; a key that is
    neither [volume] nor [voxel] falls through both tests. *)
Definition parse_embedded_key (embed_key : string) (self : Item.t E) : Parser (Item.t E) :=
  let folded_key := casefold embed_key in
  if decide (folded_key = "volume") then parse_volume self
  else if decide (folded_key = "voxel") then block "EmbeddedVoxel" true parse_voxel_key self
  else ret self.

(** [Item._parse_embedded_voxels(self, tok)] *)
Definition _parse_embedded_voxels (self : Item.t E) : Parser (Item.t E) :=
  block "EmbeddedVoxels" true parse_embedded_key self.

(** The body of the loop over a [Solid] block, on [(center, size, grid)]. *)
Definition parse_solid_key (opt_key : string)
    (s : option (Vec E) * option (Vec E) * FaceType.t)
    : Parser (option (Vec E) * option (Vec E) * FaceType.t) :=
  let '(center, size, grid) := s in
  let folded_key := casefold opt_key in
  if decide (folded_key = "center") then
    let* value := expect Token.STRING in ret (Some (Vec_from_str E value), size, grid)
  else if decide (folded_key = "dimensions") then
    let* value := expect Token.STRING in ret (center, Some (Vec_from_str E value), grid)
  else if decide (folded_key = "grid") then
    let* grid_str := expect Token.STRING in
    let* grid := or_error (FACE_TYPES (casefold grid_str))
                   (Msg ("Unknown face type " +:+ quoted grid_str +:+ "!")) in
    ret (center, size, grid)
  else tok_error (Msg ("Unknown Embed Face option " +:+ quoted opt_key +:+ "!")).

(** The body of the loop of [_parse_embed_faces]. *)
Definition parse_embed_face (solid_key : string) (self : Item.t E) : Parser (Item.t E) :=
  if decide (casefold solid_key ≠ "solid")
  then tok_error (Msg ("Unknown Embed Face type " +:+ quoted solid_key +:+ "!")) else
  let* '(center, size, grid) :=
    block "Solid" true parse_solid_key (None, None, FaceType.NORMAL) in
  let* center := or_error center (Msg "No position specified for embedded face!") in
  let* size := or_error size (Msg "No size specified for embedded face!") in
  ret (Item.set_embed_faces (Item.embed_faces self ++ [EmbedFace.mk center size grid]) self).

(** [Item._parse_embed_faces(self, tok)] *)
Definition _parse_embed_faces (self : Item.t E) : Parser (Item.t E) :=
  block "EmbedFace" true parse_embed_face self.

(** The body of the loop of [_parse_overlay], on
    [(center, size, material, rotation)]. *)
Definition parse_overlay_key (opt_key : string)
    (s : option (Vec E) * option (Vec E) * string * Z)
    : Parser (option (Vec E) * option (Vec E) * string * Z) :=
  let '(center, size, material, rotation) := s in
  let folded_key := casefold opt_key in
  if decide (folded_key = "center") then
    let* value := expect Token.STRING in ret (Some (Vec_from_str E value), size, material, rotation)
  else if decide (folded_key = "dimensions") then
    let* value := expect Token.STRING in ret (center, Some (Vec_from_str E value), material, rotation)
  else if decide (folded_key = "material") then
    let* value := expect Token.STRING in ret (center, size, value, rotation)
  else if decide (folded_key = "rotation") then
    let* value := expect Token.STRING in ret (center, size, material, conv_int value)
  else tok_error (Msg ("Unknown Overlay option " +:+ quoted opt_key +:+ "!")).

(** [Item._parse_overlay(self, tok)] *)
Definition _parse_overlay (self : Item.t E) : Parser (Item.t E) :=
  let* '(center, size, material, rotation) :=
    block "Overlay" true parse_overlay_key (None, None, "", 0) in
  let* center := or_error center (Msg "No position specified for overlay!") in
  let* size := or_error size (Msg "No size specified for overlay!") in
  ret (Item.set_overlays (Item.overlays self ++ [Overlay.mk material center size rotation]) self).

(** The keys [_parse_export_block] knows. *)
Definition export_keys : list string :=
  ["targetname"; "offset"; "instances"; "connectionpoints"; "embeddedvoxels";
   "embedface"; "overlay"].

(** The body of the loop of [_parse_export_block]. *)
Definition parse_export_key (key : string) (self : Item.t E) : Parser (Item.t E) :=
  let folded_key := casefold key in
  if decide (folded_key = "targetname") then
    let* value := expect Token.STRING in ret (Item.set_targetname value self)
  else if decide (folded_key = "offset") then
    let* value := expect Token.STRING in ret (Item.set_offset (Vec_from_str E value) self)
  else if decide (folded_key = "instances") then
    block "Instance" true _parse_instance_block self
  else if decide (folded_key = "connectionpoints") then _parse_connection_points self
  else if decide (folded_key = "embeddedvoxels") then _parse_embedded_voxels self
  else if decide (folded_key = "embedface") then _parse_embed_faces self
  else if decide (folded_key = "overlay") then _parse_overlay self
  else (* TODO: Temp, skip over other blocks. *)
    skip_unknown_block;; ret self.

(** [Item._parse_export_block(self, tok)] *)
Definition _parse_export_block (self : Item.t E) : Parser (Item.t E) :=
  block "Exporting" true parse_export_key self.

(** The body of the token loop of [parse_one]: [inr item] is the
    [return item] at the closing brace. *)
Definition parse_one_token (token : Token.t) (tok_value : string) (item : Item.t E)
    : Parser (Item.t E + Item.t E) :=
  if decide (token = Token.BRACE_CLOSE) then
    (* Done, check we're not missing critical stuff. *)
    if decide (Item.id item = "") then tok_error (Msg "No item ID (Type) set!")
    else ret (inr item)
  else if decide (token = Token.NEWLINE) then ret (inl item)
  else if decide (token ≠ Token.STRING) then tok_error (UnexpectedToken token)
  else
    let tok_value := casefold tok_value in
    if decide (tok_value = "type") then
      if decide (Item.id item ≠ "") then tok_error (Msg "Item ID (Type) set multiple times!")
      else
        let* value := expect Token.STRING in
        let item := Item.set_id (upper value) item in
        if decide (Item.id item = "")
        then tok_error (Msg ("Invalid item ID (Type) " +:+ quoted (Item.id item)))
        else ret (inl item)
    else if decide (tok_value = "itemclass") then
      let* item_class := expect Token.STRING in
      let* cls := or_error (ITEM_CLASSES (casefold item_class))
                    (Msg ("Unknown item class " +:+ item_class +:+ "!")) in
      ret (inl (Item.set_cls cls item))
    else if decide (tok_value = "editor") then
      let* item := _parse_editor_block item in ret (inl item)
    else if decide (tok_value = "properties") then
      let* item := _parse_properties_block item in ret (inl item)
    else if decide (tok_value = "exporting") then
      let* item := _parse_export_block item in ret (inl item)
    else if bool_decide (tok_value ∈ ["author"; "description"; "filter"]) then
      (* These are BEE2.2 values, which are not used. *)
      expect Token.STRING;; ret (inl item)
    else tok_error (Msg ("Unexpected item option " +:+ quoted tok_value +:+ "!")).

(** [Item.parse_one(tok)]: this expects the "Item" token to have been
    read already. *)
Definition Item_parse_one : Parser (Item.t E) :=
  expect Token.BRACE_OPEN;;
  let* '(_, returned) := for_tokens parse_one_token (Item.init_default "" ItemClass.UNCLASSED) in
  match returned with
  | Some item => ret item
  | None => tok_error (Msg "File ended without closing item block!")
  end.

(** The body of the loop over the [Renderables] block. *)
Definition parse_renderables_key (render_block : string)
    (icons : dict RenderableType.t Renderable.t) : Parser (dict RenderableType.t Renderable.t) :=
  if decide (casefold render_block ≠ "item")
  then tok_error (Msg ("Unknown block " +:+ quoted render_block +:+ "!")) else
  let* ico := Renderable_parse in
  ret (dict_set icons (Renderable.type ico) ico).

Definition redeclared_warning (item_id : string) : string :=
  "Item " +:+ item_id +:+ " redeclared!".

(** The body of the loop of [Item.parse], on [(items, icons)]. *)
Definition parse_itemdata_key (key : string)
    (s : dict string (Item.t E) * dict RenderableType.t Renderable.t)
    : Parser (dict string (Item.t E) * dict RenderableType.t Renderable.t) :=
  let '(items, icons) := s in
  if decide (casefold key = "item") then
    let* it := Item_parse_one in
    (if dict_in (Item.id it) items
     then λ st, Ok (tt, log_warning (redeclared_warning (Item.id it)) st)
     else ret tt);;
    ret (dict_set items (Item.id it) it, icons)
  else if decide (casefold key = "renderables") then
    let* icons := block "Renderables" true parse_renderables_key icons in
    ret (items, icons)
  else tok_error (Msg ("Unknown block " +:+ quoted key +:+ "!")).

(** [Item.parse] once the tokenizer is set up. *)
Definition Item_parse_tokens
    : Parser (dict string (Item.t E) * dict RenderableType.t Renderable.t) :=
  let* first := expect Token.STRING in
  if decide (casefold first ≠ "itemdata")
  then tok_error (Msg ("No " +:+ quoted "ItemData" +:+ " block present!"))
  else block "ItemData" true parse_itemdata_key ([], []).

(** [Item.parse(file, filename)]: parse an entire editoritems file.  The
    result is the pair the source returns, with the final state (it holds
    the warnings logged on the way). *)
Definition Item_parse (file : string) (filename : option string)
    : Result ((dict string (Item.t E) * dict RenderableType.t Renderable.t) * State) :=
  match Tokenizer file filename with
  | Ok st => Item_parse_tokens st
  | Err e => Err e
  end.
End item_parser_export.

(** ** The writer *)

Definition nl : string := String "010"%char "".
Definition tab : string := String "009"%char "".

(** [n] tabs, the text, and a newline: one written line. *)
Fixpoint tabs (n : nat) : string :=
  match n with O => "" | S n => tab +:+ tabs n end.
Definition line (indent : nat) (text : string) : string := tabs indent +:+ text +:+ nl.

(** ['"key"<pad>"value"'], the shape of every key-value line. *)
Definition kv (key pad value : string) : string := quoted key +:+ pad +:+ quoted value.

Definition concat_strings (l : list string) : string := foldr String.app "" l.

(** [d1 != d2] on dictionaries: they differ as mappings, whatever the
    order of their keys. *)
Definition dict_neqb {K V} `{EqDecision K, EqDecision V} (d1 d2 : dict K V) : bool :=
  negb (bool_decide (length d1 = length d2)
        && forallb (λ kv, bool_decide (dict_get d2 kv.1 = Some kv.2)) d1).

(** [sorted(anims.items(), key=lambda t: t[1])]: a stable sort on the
    sequence index. *)
Fixpoint insert_by_index (x : Anim.t * Z) (l : list (Anim.t * Z)) : list (Anim.t * Z) :=
  match l with
  | [] => [x]
  | y :: l' => if decide (x.2 ≤ y.2) then x :: l else y :: insert_by_index x l'
  end.
Definition sorted_by_index (l : list (Anim.t * Z)) : list (Anim.t * Z) :=
  foldr insert_by_index [] l.

(** [sorted(surf.value for surf in invalid_surf)]: the values in
    alphabetical order. *)
Definition sorted_surfaces (invalid_surf : gset Surface.t) : list string :=
  Surface.value <$> filter (λ s, s ∈ invalid_surf) [Surface.CEIL; Surface.FLOOR; Surface.WALL].

(** [SubType.export(self, f)]: the text written to [f]; [None] stands
    for the [ValueError] of [with_suffix] on a path with no name. *)
Definition SubType_export (self : SubType.t) : option string :=
  models ← mapM (λ model,
      (* It has to be a .3ds file, even though it's really MDL. *)
      model ← FSPath_with_suffix model ".3ds";
      Some (line 3 (quoted "Model" +:+ " { " +:+ kv "ModelName" " " (FSPath_str model) +:+ " }")))
    (SubType.models self);
  palette ←
    match SubType.pal_pos self with
    | Some (x, y) =>
        icon ← match SubType.pal_icon self with
               | Some pal_icon =>
                   (* Similarly needs to be PNG even though it's really VTF. *)
                   pal_icon ← FSPath_with_suffix pal_icon ".png";
                   Some (line 4 (kv "Image" "    " (FSPath_str pal_icon)))
               | None => Some ""
               end;
        Some (line 3 (quoted "Palette") +:+ line 4 "{"
              +:+ line 4 (kv "Tooltip" "  " (SubType.pal_name self))
              +:+ icon
              +:+ line 4 (kv "Position" " " (py_str x +:+ " " +:+ py_str y +:+ " 0"))
              +:+ line 4 "}")
    | None => Some ""
    end;
  Some (line 2 (quoted "Subtype") +:+ line 3 "{"
    +:+ (if decide (SubType.name self ≠ "")
         then line 3 (kv "Name" " " (SubType.name self)) else "")
    +:+ concat_strings models
    +:+ palette
    +:+ (if dict_neqb (SubType.sounds self) DEFAULT_SOUNDS
         then line 3 (quoted "Sounds") +:+ line 4 "{"
              +:+ concat_strings ((λ snd_type,
                     match dict_get (SubType.sounds self) snd_type with
                     | Some sndscript => line 4 (kv (Sound.value snd_type) " " sndscript)
                     | None => ""
                     end) <$> Sound.members)
              +:+ line 4 "}"
         else "")
    +:+ (if decide (SubType.anims self ≠ [])
         then line 3 (quoted "Sounds") +:+ line 4 "{"
              +:+ concat_strings ((λ '(anim_name, anim_ind),
                     line 4 (kv (Anim.value anim_name) " " (py_str anim_ind)))
                   <$> sorted_by_index (SubType.anims self))
              +:+ line 4 "}"
         else "")
    +:+ line 3 "}").

Section export.
Context {E : Externals}.
(** The order in which [bounding_boxes] pops the voxels. *)
Variable set_pop : gset Coord → Coord.

Definition coord_text (c : Coord) : string :=
  py_str (Coord_x c) +:+ " " +:+ py_str (Coord_y c) +:+ " " +:+ py_str (Coord_z c).

Definition export_instance (i : nat) (inst : InstCount.t) : string :=
  line 3 (quoted (py_str (Z.of_nat i))) +:+ line 4 "{"
  +:+ (let file := FSPath_str (InstCount.inst inst) in
       if decide (InstCount.inst inst = FSPath_empty) then line 4 (kv "Name" " " "")
       else if decide (InstCount.ent_count inst ≠ 0 ∨ InstCount.brush_count inst ≠ 0
                       ∨ InstCount.face_count inst ≠ 0)
       then line 4 (kv "Name" "           " file)
            +:+ line 4 (kv "EntityCount" "    " (py_str (InstCount.ent_count inst)))
            +:+ line 4 (kv "BrushCount" "     " (py_str (InstCount.brush_count inst)))
            +:+ line 4 (kv "BrushSideCount" " " (py_str (InstCount.face_count inst)))
       else line 4 (kv "Name" " " file))
  +:+ line 4 "}".

Definition export_box (b : Coord * Coord) : string :=
  let '(pos1, pos2) := b in
  (if decide (pos1 = pos2)
   then line 3 (quoted "Voxel") +:+ line 4 "{"
        +:+ line 4 (kv "Pos" " " (coord_text pos1))
   else line 3 (quoted "Volume") +:+ line 4 "{"
        +:+ line 4 (kv "Pos1" " " (coord_text pos1))
        +:+ line 4 (kv "Pos2" " " (coord_text pos2)))
  +:+ line 4 "}".

Definition export_point (side : ConnSide.t) (point : AntlinePoint.t) : string :=
  line 3 (quoted "Point") +:+ line 4 "{"
  +:+ line 4 (kv "Dir" "           " (coord_text (ConnSide.value side)))
  +:+ line 4 (kv "Pos" "           " (coord_text (AntlinePoint.pos point)))
  +:+ line 4 (kv "SignageOffset" " " (coord_text (AntlinePoint.sign_off point)))
  +:+ line 4 (kv "Priority" "      " (py_str (AntlinePoint.priority point)))
  +:+ match AntlinePoint.group point with
      | Some g => line 4 (kv "GroupID" "       " (py_str g))
      | None => ""
      end
  +:+ line 4 "}".

(** The loop over the sides: [is_first] tells whether a group was
    written yet. *)
Fixpoint export_sides (sides : list ConnSide.t) (is_first : bool)
    (antline_points : dict ConnSide.t (list AntlinePoint.t)) : string :=
  match sides with
  | [] => ""
  | side :: sides =>
      let points := default [] (dict_get antline_points side) in
      if decide (points = []) then export_sides sides is_first antline_points else
      (* Newline between sections. *)
      (if is_first then "" else nl)
      +:+ line 3 ("// " +:+ title (ConnSide.name side))
      +:+ concat_strings (export_point side <$> points)
      +:+ export_sides sides false antline_points
  end.

(** [Item.export_one(self, f)]: the text written to [f]. *)
Definition Item_export_one (self : Item.t E) : option string :=
  subtypes ← mapM SubType_export (Item.subtypes self);
  Some ((quoted "Item" +:+ nl) +:+ line 1 "{"
    +:+ (if decide (Item.cls self ≠ ItemClass.UNCLASSED)
         then line 1 (kv "Type" "      " (Item.id self))
              +:+ line 1 (kv "ItemClass" " " (ItemClass.id (Item.cls self)))
         else line 1 (kv "Type" " " (Item.id self)))
    +:+ line 1 (quoted "Editor") +:+ line 2 "{"
    +:+ match Item.subtype_prop self with
        | Some subtype_prop => line 2 (kv "SubtypeProperty" " " (PropType_id E subtype_prop))
        | None => ""
        end
    +:+ concat_strings subtypes
    +:+ line 2 (kv "MovementHandle" " " (Handle.value (Item.handle self)))
    +:+ line 2 (kv "OccupiesVoxel" "  " (if Item.occupies_voxel self then "1" else "0"))
    +:+ (if decide (Item.facing self ≠ DesiredFacing.NONE)
         then line 2 (kv "DesiredFacing" "  " (DesiredFacing.value (Item.facing self)))
         else "")
    +:+ (if decide (Item.invalid_surf self ≠ ∅)
         then line 2 (kv "InvalidSurface" " "
                        (join_spaces (sorted_surfaces (Item.invalid_surf self))))
         else "")
    +:+ (if Item.anchor_goo self then line 2 (kv "CanAnchorOnGoo" "      " "1") else "")
    +:+ (if Item.anchor_barriers self then line 2 (kv "CanAnchorOnBarriers" " " "1") else "")
    +:+ (if Item.copiable self then "" else line 2 (kv "Copyable" "  " "0"))
    +:+ (if Item.deletable self then "" else line 2 (kv "Deletable" " " "0"))
    +:+ (if Item.pseduo_handle self then line 2 (kv "PseudoHandle" " " "1") else "")
    +:+ line 2 "}"
    +:+ (if decide (Item.properties self ≠ [])
         then line 1 (quoted "Properties") +:+ line 2 "{"
              +:+ concat_strings ((λ '(_, prop),
                     line 2 (quoted (ItemProp_id E prop)) +:+ line 3 "{"
                     +:+ line 3 (kv "DefaultValue" " " (ItemProp_export E prop))
                     +:+ line 3 (kv "Index" "        " (py_str (ItemProp_index E prop)))
                     +:+ line 3 "}") <$> Item.properties self)
              +:+ line 2 "}"
         else "")
    +:+ line 1 (quoted "Exporting") +:+ line 2 "{"
    +:+ (if decide (Item.instances self ≠ [])
         then line 2 (quoted "Instances") +:+ line 3 "{"
              +:+ concat_strings (imap export_instance (Item.instances self))
              +:+ line 3 "}"
         else "")
    +:+ (if decide (Item.targetname self ≠ "")
         then line 2 (kv "Targetname" " " (Item.targetname self)) else "")
    +:+ line 2 (kv "Offset" "     " (Vec_str E (Item.offset self)))
    +:+ (if decide (Item.embed_voxels self ≠ ∅)
         then line 2 (quoted "EmbeddedVoxels") +:+ line 3 "{"
              +:+ concat_strings
                    (export_box <$> default [] (bounding_boxes set_pop (Item.embed_voxels self)))
              +:+ line 3 "}"
         else "")
    +:+ (if decide (Item.embed_faces self ≠ [])
         then line 2 (quoted "EmbedFace") +:+ line 3 "{"
              +:+ concat_strings ((λ face,
                     line 3 (quoted "Solid") +:+ line 4 "{"
                     +:+ line 4 (kv "Center" "     " (Vec_str E (EmbedFace.center face)))
                     +:+ line 4 (kv "Dimensions" " " (Vec_str E (EmbedFace.size face)))
                     +:+ line 4 (kv "Grid" "       " (FaceType.value (EmbedFace.type face)))
                     +:+ line 4 "}") <$> Item.embed_faces self)
              +:+ line 3 "}"
         else "")
    +:+ concat_strings ((λ over,
           line 2 (quoted "Overlay") +:+ line 3 "{"
           +:+ line 3 (kv "Material" "   " (Overlay.material over))
           +:+ line 3 (kv "Center" "     " (Vec_str E (Overlay.center over)))
           +:+ line 3 (kv "Dimensions" " " (Vec_str E (Overlay.size over)))
           +:+ line 3 (kv "Rotation" "   " (py_str (Overlay.rotation over)))
           +:+ line 3 "}") <$> Item.overlays self)
    +:+ (if bool_decide (Exists (λ kv, kv.2 ≠ []) (Item.antline_points self))
         then line 2 (quoted "ConnectionPoints") +:+ line 3 "{"
              +:+ export_sides ConnSide.members true (Item.antline_points self)
              +:+ line 3 "}"
         else "")
    +:+ line 2 "}"
    +:+ line 1 "}").
End export.

(** ** A concrete instance of the collaborators

    Used to run the parser and the writer on concrete texts: vectors
    with integer components, and a registry of two property types, an
    integer-valued and a free-text one. *)

(** A vector of three integers read from ["x y z"]; like
    [Vec.from_str], anything else gives the zero vector. *)
Definition IntVec_from_str (s : string) : Z * Z * Z :=
  match split s with
  | [a; b; c] =>
      match py_int a, py_int b, py_int c with
      | Some x, Some y, Some z => (x, y, z)
      | _, _, _ => (0, 0, 0)
      end
  | _ => (0, 0, 0)
  end.

Definition IntVec_str (v : Z * Z * Z) : string :=
  py_str v.1.1 +:+ " " +:+ py_str v.1.2 +:+ " " +:+ py_str v.2.

(** The kinds of the two sample property types. *)
Inductive SampleProp := IntProp | TextProp.

(** A property instance: its type's id, the default as written, the
    index and whether the user default is honoured. *)
Record SampleItemProp := mkSampleItemProp {
  sample_id : string;
  sample_default : string;
  sample_index : Z;
  sample_user_default : bool;
}.

(** Modelled from the spec: the registry [editoritems_props] (section 6),
    with [lookup] by case-folded type name and a [construct] that fails
    on a default the type cannot hold. *)
Definition sample_externals : Externals := {|
  Vec := Z * Z * Z;
  Vec_from_str := IntVec_from_str;
  Vec_str := IntVec_str;
  Vec_64 := (64, 64, 64);
  PropType := SampleProp;
  ItemProp := SampleItemProp;
  PROP_TYPES := λ key,
    if decide (key = "timerdelay") then Some IntProp
    else if decide (key = "buttontype") then Some TextProp
    else None;
  PropType_id := λ p, match p with IntProp => "TimerDelay" | TextProp => "ButtonType" end;
  PropType_call := λ p dflt index user_default,
    match p with
    | IntProp =>
        if decide (is_Some (py_int dflt))
        then Some (mkSampleItemProp "TimerDelay" dflt index user_default) else None
    | TextProp => Some (mkSampleItemProp "ButtonType" dflt index user_default)
    end;
  ItemProp_id := sample_id;
  ItemProp_export := sample_default;
  ItemProp_index := sample_index;
|}.

(** The texts of the examples are written with an apostrophe where the
    file has a double quote. *)
Definition text (s : string) : string :=
  map_string (λ c, if Ascii.eqb c "'" then "034"%char else c) s.

(** Parsing the text of one item as [export_one] writes it: the
    [Item] key, then [parse_one]. *)
Definition parse_exported {E : Externals} (file : string) : Result (Item.t E * State) :=
  match Tokenizer file None with
  | Ok st => (expect Token.STRING;; Item_parse_one) st
  | Err e => Err e
  end.

(** ** What the statements are about

    The predicates and the measures the lemmas and theorems below are
    stated with. *)

(** The two corners of the box spanned by [pos_1] and [pos_2]. *)
Definition corner_min (pos_1 pos_2 : Coord) : Coord :=
  (Coord_x pos_1 `min` Coord_x pos_2, Coord_y pos_1 `min` Coord_y pos_2,
   Coord_z pos_1 `min` Coord_z pos_2).
Definition corner_max (pos_1 pos_2 : Coord) : Coord :=
  (Coord_x pos_1 `max` Coord_x pos_2, Coord_y pos_1 `max` Coord_y pos_2,
   Coord_z pos_1 `max` Coord_z pos_2).

(** The voxels still to do when turn [i] of the loop of
    [bounding_boxes] starts: every turn before it has discarded the
    points of its box, the seed among them. *)
Definition todo_at (voxels : gset Coord) (boxes : list (Coord * Coord)) (i : nat)
    : gset Coord :=
  foldl discard_box voxels (take i boxes).

(** Whether a string holds a white-space character. *)
Fixpoint has_space (s : string) : bool :=
  match s with
  | EmptyString => false
  | String c s => is_space c || has_space s
  end.

(** A parser shrinks when it never leaves more tokens than it found and
    never fails for lack of fuel.  Every loop draws its fuel from the
    number of tokens left and reads a token a turn, so every function of
    the parser shrinks. *)
Definition shrinks {A} (p : Parser A) : Prop :=
  ∀ st, match p st with
        | Ok (_, st') => (length (toks st') ≤ length (toks st))%nat
        | Err e => e ≠ OutOfFuel
        end.

(** The keys each block knows, case-folded. *)
Definition itemdata_keys : list string := ["item"; "renderables"].
Definition editor_keys : list string :=
  ["subtype"; "animations"; "movementhandle"; "invalidsurface"; "subtypeproperty";
   "desiredfacing"; "rendercolor"] ++ _BOOL_ATTRS.*1.
Definition subtype_keys : list string := ["name"; "model"; "palette"; "sounds"; "animations"].

(** A run of tokens whose braces match: [depth] braces are open at its
    start and none is left open at its end. *)
Fixpoint balanced (depth : nat) (l : list (Token.t * string)) : bool :=
  match l with
  | [] => bool_decide (depth = 0%nat)
  | (Token.BRACE_OPEN, _) :: l => balanced (S depth) l
  | (Token.BRACE_CLOSE, _) :: l =>
      match depth with
      | O => false
      | S depth => balanced depth l
      end
  | (Token.EOF, _) :: _ => false
  | _ :: l => balanced depth l
  end.

Definition count_newlines (l : list (Token.t * string)) : Z :=
  Z.of_nat (length (filter (λ t, t.1 = Token.NEWLINE) l)).

(** The parser [p], run on behalf of the item [self], hands back an item
    with the [anchor_goo] of [self]. *)
Definition goo_kept {E : Externals} (self : Item.t E) (p : Parser (Item.t E)) : Prop :=
  ∀ st it st', p st = Ok (it, st') → Item.anchor_goo it = Item.anchor_goo self.





(** ** Example inputs *)

(** A row of [n] voxels along the X axis, starting at [(a, 0, 0)]. *)
Definition voxel_row (a : Z) (n : nat) : gset Coord :=
  list_to_set ((λ x, (x, 0, 0)) <$> count_up a n).

(** The boxes of that row of 120 voxels from the origin, with
    [pop_first] for [set.pop]. *)
Definition voxel_row_boxes : list (Coord * Coord) :=
  [((0, 0, 0), (49, 0, 0)); ((50, 0, 0), (119, 0, 0))].

(** The [Volume] of the specification: [Pos1 "0 0 0"], [Pos2 "1 1 0"]. *)
Definition volume_tokens : list (Token.t * string) :=
  [(Token.BRACE_OPEN, "{"); (Token.STRING, "Pos1"); (Token.STRING, "0 0 0");
   (Token.STRING, "Pos2"); (Token.STRING, "1 1 0"); (Token.BRACE_CLOSE, "}")].

(** An unknown export option with a nested block, followed by a known
    key: the tokens left after [Inputs]. *)
Definition unknown_block_tokens : list (Token.t * string) :=
  [(Token.NEWLINE, ""); (Token.BRACE_OPEN, "{"); (Token.STRING, "Activate");
   (Token.NEWLINE, ""); (Token.BRACE_OPEN, "{"); (Token.STRING, "Type");
   (Token.STRING, "x"); (Token.BRACE_CLOSE, "}"); (Token.BRACE_CLOSE, "}");
   (Token.STRING, "Targetname"); (Token.STRING, "tn"); (Token.BRACE_CLOSE, "}")].

(** An unknown export option with a plain value instead of a block. *)
Definition unknown_scalar_text : string :=
  text "'ItemData' { 'Item' { 'Type' 'X' 'Exporting' { 'Foo' 'bar' } } }".

Definition anchor_goo_text : string :=
  text "'ItemData' { 'Item' { 'Type' 'ITEM_GOO' 'Editor' { 'CanAnchorOnGoo' '1' } } }".

(** The [Volume] of the specification in a document. *)
Definition volume_text : string :=
  text "'ItemData' { 'Item' { 'Type' 'X' 'Exporting' { 'EmbeddedVoxels' {
   'Volume' { 'Pos1' '0 0 0' 'Pos2' '1 1 0' } } } } }".

(** The same through the whole parser. *)
Definition slot_3_text : string :=
  text "'ItemData' { 'Item' { 'Type' 'X' 'Exporting' { 'Instances' { '3' 'a.vmf' } } } }".



(** Two items with the same [Type], the second of another class. *)
Definition redeclared_text : string :=
  text "'ItemData' { 'Item' { 'Type' 'ITEM_A' } 'Item' { 'Type' 'item_a' 'ItemClass' 'ItemCube' } }".

(** The tokens of [redeclared_text] that follow the second [Item] key. *)
Definition second_item_tokens : list (Token.t * string) :=
  [(Token.BRACE_OPEN, "{"); (Token.STRING, "Type"); (Token.STRING, "item_a");
   (Token.STRING, "ItemClass"); (Token.STRING, "ItemCube");
   (Token.BRACE_CLOSE, "}"); (Token.BRACE_CLOSE, "}")].

(** The second [Item] of [redeclared_text], with the first one in the
    document. *)

(** [Item('ITEM_GOO', ItemClass.UNCLASSED, anchor_on_goo=True)] *)
Definition goo_item : Item.t sample_externals :=
  Item.init "ITEM_GOO" ItemClass.UNCLASSED None Handle.NONE DesiredFacing.NONE []
    false true true.

(** An item with one subtype that has an animation. *)
Definition anim_item : Item.t sample_externals :=
  Item.set_subtypes [SubType.mk "Cube" [] DEFAULT_SOUNDS [(Anim.IDLE, 0)] "" None None]
    (Item.init_default "ITEM_ANIM" ItemClass.UNCLASSED).

(** The two example items of section 8 of the specification. *)
Definition spec_item_text : string :=
  text "'ItemData' { 'Item' { 'Type' 'ITEM_TEST' 'Editor' { 'MovementHandle' 'HANDLE_NONE' 'OccupiesVoxel' '1' } 'Exporting' { } } }".
Definition spec_surface_text : string :=
  text "'ItemData' { 'Item' { 'Type' 'ITEM_TEST' 'Editor' { 'MovementHandle' 'HANDLE_NONE' 'InvalidSurface' 'WALL FLOOR' } 'Exporting' { } } }".

(** ** Further definitions

    The predicates, the measures and the token lists the further
    properties are stated with, and the inputs of their examples. *)

(** A string of decimal digits only. *)
Fixpoint all_digits (s : string) : bool :=
  match s with
  | EmptyString => true
  | String c s => bool_decide (is_Some (digit_value c)) && all_digits s
  end.

(** What each block of an item leaves alone: the attributes no key of
    the block assigns. *)
Definition outside_editor {E : Externals} (it : Item.t E) :=
  (Item.id it, Item.cls it, Item.anchor_goo it, Item.pseduo_handle it, Item.properties it,
   Item.offset it, Item.targetname it, Item.instances it, Item.cust_instances it,
   Item.antline_points it, Item.embed_voxels it, Item.embed_faces it, Item.overlays it).

Definition outside_properties {E : Externals} (it : Item.t E) :=
  (Item.id it, Item.cls it, Item.subtype_prop it, Item.handle it, Item.facing it,
   Item.invalid_surf it, Item.animations it, Item.anchor_barriers it, Item.anchor_goo it,
   Item.occupies_voxel it, Item.copiable it, Item.deletable it, Item.pseduo_handle it,
   Item.pseudo_handle it, Item.subtypes it,
   Item.offset it, Item.targetname it, Item.instances it, Item.cust_instances it,
   Item.antline_points it, Item.embed_voxels it, Item.embed_faces it, Item.overlays it).

Definition outside_export {E : Externals} (it : Item.t E) :=
  (Item.id it, Item.cls it, Item.subtype_prop it, Item.handle it, Item.facing it,
   Item.invalid_surf it, Item.animations it, Item.anchor_barriers it, Item.anchor_goo it,
   Item.occupies_voxel it, Item.copiable it, Item.deletable it, Item.pseduo_handle it,
   Item.pseudo_handle it, Item.subtypes it, Item.properties it).

(** The parser [p], run on behalf of [self], hands back an item on which
    [f] is what it was on [self]. *)
Definition keeps {E : Externals} {A} (f : Item.t E → A) (self : Item.t E)
    (p : Parser (Item.t E)) : Prop :=
  ∀ st it st', p st = Ok (it, st') → f it = f self.

(** What [parse_one] keeps true of the item it builds: the id is in
    upper case, and [pseduo_handle] is as [__init__] left it. *)
Definition well_made {E : Externals} (it : Item.t E) : Prop :=
  upper (Item.id it) = Item.id it ∧ Item.pseduo_handle it = false.

(** A component of a path holds no slash. *)
Fixpoint no_slash (s : string) : bool :=
  match s with
  | EmptyString => true
  | String c s => negb (Ascii.eqb c "/") && no_slash s
  end.

(** The paths [FSPath(...)] builds: one of the three roots, and
    components that are not empty, are no dot and hold no slash. *)
Definition path_made (p : FSPath) : Prop :=
  fs_root p ∈ [""; "/"; "//"] ∧
  Forall (λ x, no_slash x = true ∧ x ≠ "" ∧ x ≠ ".") (fs_parts p).

(** [b] holds what [a] holds and possibly more: the voxels, faces,
    overlays and antline points of [a], in their order, an instance list
    at least as long, and the custom instance names of [a]. *)
Definition accumulates {E : Externals} (a b : Item.t E) : Prop :=
  Item.embed_voxels a ⊆ Item.embed_voxels b ∧
  Item.embed_faces a `prefix_of` Item.embed_faces b ∧
  Item.overlays a `prefix_of` Item.overlays b ∧
  (∀ side, default [] (dict_get (Item.antline_points a) side)
           `prefix_of` default [] (dict_get (Item.antline_points b) side)) ∧
  (length (Item.instances a) ≤ length (Item.instances b))%nat ∧
  (∀ name, is_Some (dict_get (Item.cust_instances a) name) →
           is_Some (dict_get (Item.cust_instances b) name)).

Definition newline_token : Token.t * string := (Token.NEWLINE, "").

(** A key-value line, the heading line of a block, and the two lines
    that hold its braces. *)
Definition kv_tokens (key value : string) : list (Token.t * string) :=
  [(Token.STRING, key); (Token.STRING, value); newline_token].
Definition key_tokens (key : string) : list (Token.t * string) :=
  [(Token.STRING, key); newline_token].
Definition open_tokens : list (Token.t * string) := [(Token.BRACE_OPEN, "{"); newline_token].
Definition close_tokens : list (Token.t * string) := [(Token.BRACE_CLOSE, "}"); newline_token].

(** The lines of [export_point], line by line. *)
Definition point_tokens (side : ConnSide.t) (point : AntlinePoint.t)
    : list (Token.t * string) :=
  key_tokens "Point" ++ open_tokens
  ++ kv_tokens "Dir" (coord_text (ConnSide.value side))
  ++ kv_tokens "Pos" (coord_text (AntlinePoint.pos point))
  ++ kv_tokens "SignageOffset" (coord_text (AntlinePoint.sign_off point))
  ++ kv_tokens "Priority" (py_str (AntlinePoint.priority point))
  ++ match AntlinePoint.group point with
     | Some g => kv_tokens "GroupID" (py_str g)
     | None => []
     end
  ++ close_tokens.

(** The lines of [export_box], line by line. *)
Definition box_tokens (b : Coord * Coord) : list (Token.t * string) :=
  let '(pos1, pos2) := b in
  (if decide (pos1 = pos2)
   then key_tokens "Voxel" ++ open_tokens ++ kv_tokens "Pos" (coord_text pos1)
   else key_tokens "Volume" ++ open_tokens
        ++ kv_tokens "Pos1" (coord_text pos1) ++ kv_tokens "Pos2" (coord_text pos2))
  ++ close_tokens.

(** [self.antline_points[direction].append(point)] *)
Definition add_point {E : Externals} (side : ConnSide.t) (point : AntlinePoint.t)
    (self : Item.t E) : Item.t E :=
  Item.set_antline_points
    (dict_set (Item.antline_points self) side
       (default [] (dict_get (Item.antline_points self) side) ++ [point])) self.

(** The lines of [export_sides], line by line: the blank line between
    two groups and the comment line that heads a group are a newline
    each. *)
Fixpoint sides_tokens (sides : list ConnSide.t) (is_first : bool)
    (antline_points : dict ConnSide.t (list AntlinePoint.t)) : list (Token.t * string) :=
  match sides with
  | [] => []
  | side :: sides =>
      let points := default [] (dict_get antline_points side) in
      if decide (points = []) then sides_tokens sides is_first antline_points else
      (if is_first then [] else [newline_token])
      ++ [newline_token]
      ++ (points ≫= point_tokens side)
      ++ sides_tokens sides false antline_points
  end.

(** [for point in points: self.antline_points[side].append(point)] *)
Definition add_points {E : Externals} (side : ConnSide.t) (points : list AntlinePoint.t)
    (self : Item.t E) : Item.t E :=
  foldl (λ it point, add_point side point it) self points.

(** The sides in turn, each with its points. *)
Fixpoint add_sides {E : Externals} (sides : list ConnSide.t)
    (antline_points : dict ConnSide.t (list AntlinePoint.t)) (self : Item.t E) : Item.t E :=
  match sides with
  | [] => self
  | side :: sides =>
      add_sides sides antline_points
        (add_points side (default [] (dict_get antline_points side)) self)
  end.

(** What reading one written box adds to the voxels: the point of a
    [Voxel], the points between the corners of a [Volume]. *)
Definition add_box {E : Externals} (b : Coord * Coord) (self : Item.t E) : Item.t E :=
  Item.set_embed_voxels
    (if decide (b.1 = b.2) then Item.embed_voxels self ∪ {[b.1]}
     else add_all (volume_points b.1 b.2) (Item.embed_voxels self)) self.

(** The boxes in turn. *)
Definition add_boxes {E : Externals} (boxes : list (Coord * Coord)) (self : Item.t E)
    : Item.t E :=
  foldl (λ it b, add_box b it) self boxes.

(** The lines of [export_instance], line by line. *)
Definition instance_tokens (i : nat) (inst : InstCount.t) : list (Token.t * string) :=
  key_tokens (py_str (Z.of_nat i)) ++ open_tokens
  ++ (let file := FSPath_str (InstCount.inst inst) in
      if decide (InstCount.inst inst = FSPath_empty) then kv_tokens "Name" ""
      else if decide (InstCount.ent_count inst ≠ 0 ∨ InstCount.brush_count inst ≠ 0
                      ∨ InstCount.face_count inst ≠ 0)
      then kv_tokens "Name" file
           ++ kv_tokens "EntityCount" (py_str (InstCount.ent_count inst))
           ++ kv_tokens "BrushCount" (py_str (InstCount.brush_count inst))
           ++ kv_tokens "BrushSideCount" (py_str (InstCount.face_count inst))
      else kv_tokens "Name" file)
  ++ close_tokens.

(** What is read of a written instance: the writer leaves the counts
    of an instance with the blank path out. *)
Definition instance_read (inst : InstCount.t) : InstCount.t :=
  if decide (InstCount.inst inst = FSPath_empty) then blank_instance else inst.

(** The lines between the braces of a written instance. *)
Definition instance_lines (inst : InstCount.t) : list (Token.t * string) :=
  let file := FSPath_str (InstCount.inst inst) in
  if decide (InstCount.inst inst = FSPath_empty) then kv_tokens "Name" ""
  else if decide (InstCount.ent_count inst ≠ 0 ∨ InstCount.brush_count inst ≠ 0
                  ∨ InstCount.face_count inst ≠ 0)
  then kv_tokens "Name" file
       ++ kv_tokens "EntityCount" (py_str (InstCount.ent_count inst))
       ++ kv_tokens "BrushCount" (py_str (InstCount.brush_count inst))
       ++ kv_tokens "BrushSideCount" (py_str (InstCount.face_count inst))
  else kv_tokens "Name" file.

(** The numbered blocks of the instances from slot [k] on. *)
Definition instances_tokens (k : nat) (instances : list InstCount.t)
    : list (Token.t * string) :=
  concat (imap (λ i, instance_tokens (k + i)) instances).

(** The line [SubType.export] writes for a model. *)
Definition model_line_tokens (model : FSPath) : list (Token.t * string) :=
  [(Token.STRING, "Model"); (Token.BRACE_OPEN, "{"); (Token.STRING, "ModelName");
   (Token.STRING, FSPath_str model); (Token.BRACE_CLOSE, "}"); newline_token].

(** The lines of the palette between its braces. *)
Definition palette_lines (pal_name : string) (icon : option FSPath) (x y : Z)
    : list (Token.t * string) :=
  kv_tokens "Tooltip" pal_name
  ++ match icon with Some icon => kv_tokens "Image" (FSPath_str icon) | None => [] end
  ++ kv_tokens "Position" (py_str x +:+ " " +:+ py_str y +:+ " 0").

(** The icon as it is written: with the suffix [.png]. *)
Definition icon_written (pal_icon : option FSPath) : option (option FSPath) :=
  match pal_icon with
  | Some pal_icon => Some <$> FSPath_with_suffix pal_icon ".png"
  | None => Some None
  end.

(** The [Palette] block of [SubType.export], line by line. *)
Definition palette_tokens (self : SubType.t) : option (list (Token.t * string)) :=
  match SubType.pal_pos self with
  | Some (x, y) =>
      icon ← icon_written (SubType.pal_icon self);
      Some (key_tokens "Palette" ++ open_tokens
            ++ palette_lines (SubType.pal_name self) icon x y ++ close_tokens)
  | None => Some []
  end.

(** The lines of the sounds between their braces. *)
Definition sounds_lines (sounds : dict Sound.t string) : list (Token.t * string) :=
  concat ((λ snd_type,
     match dict_get sounds snd_type with
     | Some sndscript => kv_tokens (Sound.value snd_type) sndscript
     | None => []
     end) <$> Sound.members).

(** The lines of [SubType.export] between the braces of the block,
    line by line. *)
Definition SubType_lines (self : SubType.t) : option (list (Token.t * string)) :=
  models ← mapM (λ model,
      model ← FSPath_with_suffix model ".3ds";
      Some (model_line_tokens model))
    (SubType.models self);
  palette ← palette_tokens self;
  Some ((if decide (SubType.name self ≠ "")
         then kv_tokens "Name" (SubType.name self) else [])
    ++ concat models
    ++ palette
    ++ (if dict_neqb (SubType.sounds self) DEFAULT_SOUNDS
        then key_tokens "Sounds" ++ open_tokens
             ++ sounds_lines (SubType.sounds self) ++ close_tokens
        else [])
    ++ (if decide (SubType.anims self ≠ [])
        then key_tokens "Sounds" ++ open_tokens
             ++ concat ((λ '(anim_name, anim_ind),
                   kv_tokens (Anim.value anim_name) (py_str anim_ind))
                 <$> sorted_by_index (SubType.anims self))
             ++ close_tokens
        else [])).

(** What is read of a written palette: the icon with the suffix
    [.png], and of a subtype that has no place on the palette neither
    the palette name nor the icon. *)
Definition palette_read (self : SubType.t)
    : option (string * option (Z * Z) * option FSPath) :=
  match SubType.pal_pos self with
  | Some pos =>
      icon ← icon_written (SubType.pal_icon self);
      Some (SubType.pal_name self, Some pos, icon)
  | None => Some ("", None, None)
  end.

(** What is read of a written subtype: every model with the suffix
    [.mdl], and the palette as [palette_read] has it. *)
Definition SubType_read (self : SubType.t) : option SubType.t :=
  models ← mapM (λ model, FSPath_with_suffix model ".mdl") (SubType.models self);
  '(pal_name, pal_pos, pal_icon) ← palette_read self;
  Some (SubType.mk (SubType.name self) models (SubType.sounds self) (SubType.anims self)
          pal_name pal_pos pal_icon).

(** The subtypes whose written lines are read back: none of their
    animations is written under its own heading, so there are none; the
    sounds stand in the order of [DEFAULT_SOUNDS]; the paths are paths
    as [FSPath(...)] builds them. *)
Definition SubType_regular (s : SubType.t) : Prop :=
  SubType.anims s = [] ∧
  (SubType.sounds s).*1 = DEFAULT_SOUNDS.*1 ∧
  Forall path_made (SubType.models s) ∧
  ∀ icon, SubType.pal_icon s = Some icon → path_made icon.

(** The block [SubType.export] writes, line by line. *)
Definition SubType_tokens (self : SubType.t) : option (list (Token.t * string)) :=
  lines ← SubType_lines self;
  Some (key_tokens "Subtype" ++ open_tokens ++ lines ++ close_tokens).





(** A text that can stand between double quotes as it is: no quote, no
    backslash, no newline. *)
Fixpoint plain (s : string) : bool :=
  match s with
  | EmptyString => true
  | String c s =>
      negb (Ascii.eqb c "034" || Ascii.eqb c "\" || Ascii.eqb c "010") && plain s
  end.

(** Tabs and spaces only. *)
Fixpoint blank (s : string) : bool :=
  match s with
  | EmptyString => true
  | String c s => (Ascii.eqb c "009" || Ascii.eqb c " ") && blank s
  end.

(** Tokens put in front of what the lexer makes of the rest. *)
Definition lexed (l : list (Token.t * string)) (r : Result (list (Token.t * string)))
    : Result (list (Token.t * string)) :=
  match r with
  | Ok l' => Ok (l ++ l')
  | Err e => Err e
  end.

(** What a subtype puts between double quotes holds no quote, no
    backslash and no newline: its names, its sound scripts, and its
    model and icon paths as they are written. *)
Definition SubType_plain (self : SubType.t) : Prop :=
  plain (SubType.name self) = true ∧
  plain (SubType.pal_name self) = true ∧
  Forall (λ model, ∀ written, FSPath_with_suffix model ".3ds" = Some written →
                              plain (FSPath_str written) = true) (SubType.models self) ∧
  (∀ icon written, SubType.pal_icon self = Some icon →
                   FSPath_with_suffix icon ".png" = Some written →
                   plain (FSPath_str written) = true) ∧
  Forall (λ kv, plain kv.2 = true) (SubType.sounds self).

(** The lexer reads [text], whatever follows it, as the tokens [toks]
    and goes on behind it, as many lines further as [toks] has
    newlines. *)
Definition lexes (text : string) (toks : list (Token.t * string)) : Prop :=
  ∀ line_no file rest,
    lex_go LStart line_no file (text +:+ rest)
    = lexed toks (lex_go LStart (line_no + count_newlines toks) file rest).

Definition l_shape : gset Coord := {[ (0, 0, 0); (1, 0, 0); (2, 0, 0); (0, 1, 0) ]}.

Definition l_shape_boxes : list (Coord * Coord) :=
  [((0, 0, 0), (0, 1, 0)); ((1, 0, 0), (2, 0, 0))].

Definition sample_point : AntlinePoint.t := AntlinePoint.mk (1, 2, 3) (0, -1, 0) 4 (Some 7).

Definition sample_points : dict ConnSide.t (list AntlinePoint.t) :=
  [(ConnSide.LEFT, [sample_point]); (ConnSide.RIGHT, []);
   (ConnSide.UP, [AntlinePoint.mk (0, 0, 0) (5, 5, 0) 0 None; sample_point]);
   (ConnSide.DOWN, [])].

Definition handle_tokens : list (Token.t * string) :=
  [(Token.BRACE_OPEN, "{"); (Token.STRING, "MovementHandle");
   (Token.STRING, "handle_catapult"); (Token.BRACE_CLOSE, "}")].

Definition type_tokens : list (Token.t * string) :=
  [(Token.BRACE_OPEN, "{"); (Token.STRING, "Type"); (Token.STRING, "item_a");
   (Token.BRACE_CLOSE, "}")].

Definition model_tokens : list (Token.t * string) :=
  [(Token.BRACE_OPEN, "{"); (Token.STRING, "Model"); (Token.STRING, "props/cube.3ds");
   (Token.STRING, "Sounds"); (Token.BRACE_OPEN, "{"); (Token.STRING, "sound_created");
   (Token.STRING, "Cube.Place"); (Token.BRACE_CLOSE, "}"); (Token.BRACE_CLOSE, "}")].

Definition targetname_tokens : list (Token.t * string) :=
  [(Token.BRACE_OPEN, "{"); (Token.STRING, "Targetname"); (Token.STRING, "cube");
   (Token.STRING, "EmbeddedVoxels"); (Token.BRACE_OPEN, "{"); (Token.STRING, "Voxel");
   (Token.BRACE_OPEN, "{"); (Token.STRING, "Pos"); (Token.STRING, "0 0 1");
   (Token.BRACE_CLOSE, "}"); (Token.BRACE_CLOSE, "}"); (Token.BRACE_CLOSE, "}")].

(** Three instances: a bare one, the blank one, and one with counts. *)
Definition sample_instances : list InstCount.t :=
  [InstCount.mk (FSPath_of "instances/a.vmf") 0 0 0; blank_instance;
   InstCount.mk (FSPath_of "instances/b.vmf") 1 2 3].

(** A subtype on the palette, with one sound of its own; its model and
    its icon are named as the game has them. *)
Definition sample_subtype : SubType.t :=
  SubType.mk "Cube" [FSPath_of "props/cube.MDL"]
    (dict_set DEFAULT_SOUNDS Sound.CREATE "Cube.Place") []
    "CUBE" (Some (1, 2)) (Some (FSPath_of "palette/cube.vtf")).

Definition sample_subtype_lines : list (Token.t * string) :=
  default [] (SubType_lines sample_subtype).


(** *** Ranges and the probing loop *)

Lemma elem_of_count_up a n v :
  v ∈ count_up a n ↔ a ≤ v < a + Z.of_nat n.
Proof.
  revert a; induction n as [|n IH]; intros a; simpl.
  - rewrite elem_of_nil. lia.
  - rewrite elem_of_cons, IH. lia.
Qed.

Lemma elem_of_range a b v : v ∈ range a b ↔ a ≤ v < b.
Proof. unfold range. rewrite elem_of_count_up. lia. Qed.

Lemma forallb_range f a b :
  forallb f (range a b) = true ↔ ∀ v, a ≤ v < b → f v = true.
Proof.
  rewrite forallb_forall. setoid_rewrite <- list_elem_of_In.
  setoid_rewrite elem_of_range. done.
Qed.

(** Probing upwards from [a] over [a+1, a+2, ...]: the result is at most
    [n] beyond [a], and every value passed on the way satisfied the test. *)
Lemma extend_count_up ok a n :
  let r := extend ok (count_up (a + 1) n) a in
  a ≤ r ≤ a + Z.of_nat n ∧ ∀ v, a < v ≤ r → ok v = true.
Proof.
  revert a; induction n as [|n IH]; intros a; simpl.
  - split; [lia|]. intros v ?; lia.
  - destruct (ok (a + 1)) eqn:Hok.
    + specialize (IH (a + 1)). simpl in IH. destruct IH as [Hr Hall].
      split; [lia|]. intros v Hv.
      destruct (decide (v = a + 1)) as [->|]; [done|]. apply Hall. lia.
    + split; [lia|]. intros v ?; lia.
Qed.

Lemma extend_count_down ok a n :
  let r := extend ok (count_down (a - 1) n) a in
  a - Z.of_nat n ≤ r ≤ a ∧ ∀ v, r ≤ v < a → ok v = true.
Proof.
  revert a; induction n as [|n IH]; intros a; simpl.
  - split; [lia|]. intros v ?; lia.
  - destruct (ok (a - 1)) eqn:Hok.
    + specialize (IH (a - 1)). simpl in IH. destruct IH as [Hr Hall].
      split; [lia|]. intros v Hv.
      destruct (decide (v = a - 1)) as [->|]; [done|]. apply Hall. lia.
    + split; [lia|]. intros v ?; lia.
Qed.

Lemma extend_range_up ok a :
  let r := extend ok (range (a + 1) (a + EXTENT)) a in
  a ≤ r ≤ a + 49 ∧ ∀ v, a < v ≤ r → ok v = true.
Proof.
  unfold range, EXTENT. replace (Z.to_nat (a + 50 - (a + 1))) with 49%nat by lia.
  apply (extend_count_up ok a 49).
Qed.

Lemma extend_range_down ok a :
  let r := extend ok (range_down (a - 1) (a - EXTENT)) a in
  a - 49 ≤ r ≤ a ∧ ∀ v, r ≤ v < a → ok v = true.
Proof.
  unfold range_down, EXTENT. replace (Z.to_nat (a - 1 - (a - 50))) with 49%nat by lia.
  apply (extend_count_down ok a 49).
Qed.

(** *** One box *)

(** What one pass of [grow] yields: a box around the seed, at most 49
    beyond it in each direction, all of whose points are the seed or in
    [todo]. *)
Lemma grow_spec todo sx sy sz :
  let b := grow todo (sx, sy, sz) in
  in_box b (sx, sy, sz) ∧
  (sx - 49 ≤ Coord_x b.1 ∧ Coord_x b.2 ≤ sx + 49 ∧
   sy - 49 ≤ Coord_y b.1 ∧ Coord_y b.2 ≤ sy + 49 ∧
   sz - 49 ≤ Coord_z b.1 ∧ Coord_z b.2 ≤ sz + 49) ∧
  ∀ c, in_box b c → c = (sx, sy, sz) ∨ c ∈ todo.
Proof.
  unfold grow. cbv beta iota zeta.
  set (okx := λ x, bool_decide ((x, sy, sz) ∈ todo)).
  destruct (extend_range_up okx sx) as [Hx2 Ax2].
  set (x2 := extend okx (range (sx + 1) (sx + EXTENT)) sx) in *.
  destruct (extend_range_down okx sx) as [Hx1 Ax1].
  set (x1 := extend okx (range_down (sx - 1) (sx - EXTENT)) sx) in *.
  set (oky := λ y, forallb (λ x, bool_decide ((x, y, sz) ∈ todo)) (range x1 (x2 + 1))).
  destruct (extend_range_up oky sy) as [Hy2 Ay2].
  set (y2 := extend oky (range (sy + 1) (sy + EXTENT)) sy) in *.
  destruct (extend_range_down oky sy) as [Hy1 Ay1].
  set (y1 := extend oky (range_down (sy - 1) (sy - EXTENT)) sy) in *.
  set (okz := λ z, forallb (λ x, forallb (λ y, bool_decide ((x, y, z) ∈ todo))
                                   (range y1 (y2 + 1))) (range x1 (x2 + 1))).
  destruct (extend_range_up okz sz) as [Hz2 Az2].
  set (z2 := extend okz (range (sz + 1) (sz + EXTENT)) sz) in *.
  destruct (extend_range_down okz sz) as [Hz1 Az1].
  set (z1 := extend okz (range_down (sz - 1) (sz - EXTENT)) sz) in *.
  unfold in_box, Coord_x, Coord_y, Coord_z; simpl.
  split; [lia|]. split; [lia|].
  intros [[x y] z]; simpl. intros (Hx & Hy & Hz).
  assert (Hrow : ∀ x', x1 ≤ x' ≤ x2 → x' = sx ∨ (x', sy, sz) ∈ todo).
  { intros x' Hx'. destruct (decide (x' = sx)) as [|Hne]; [by left|right].
    assert (okx x' = true) as Hok.
    { destruct (decide (sx < x')); [apply Ax2|apply Ax1]; lia. }
    unfold okx in Hok. by apply bool_decide_eq_true in Hok. }
  assert (Hslab : ∀ x' y', x1 ≤ x' ≤ x2 → y1 ≤ y' ≤ y2 →
            (x' = sx ∧ y' = sy) ∨ (x', y', sz) ∈ todo).
  { intros x' y' Hx' Hy'. destruct (decide (y' = sy)) as [->|Hne].
    - destruct (Hrow x' Hx'); [by left|by right].
    - right. assert (oky y' = true) as Hok.
      { destruct (decide (sy < y')); [apply Ay2|apply Ay1]; lia. }
      unfold oky in Hok. rewrite forallb_range in Hok.
      specialize (Hok x'). rewrite bool_decide_eq_true in Hok. apply Hok. lia. }
  destruct (decide (z = sz)) as [->|Hne].
  - destruct (Hslab x y Hx Hy) as [[-> ->]|?]; [by left|by right].
  - right. assert (okz z = true) as Hok.
    { destruct (decide (sz < z)); [apply Az2|apply Az1]; lia. }
    unfold okz in Hok. rewrite forallb_range in Hok.
    specialize (Hok x). rewrite forallb_range in Hok.
    specialize (Hok ltac:(lia) y). rewrite bool_decide_eq_true in Hok. apply Hok. lia.
Qed.

Lemma elem_of_box_points b c : c ∈ box_points b ↔ in_box b c.
Proof.
  destruct b as [[[x1 y1] z1] [[x2 y2] z2]], c as [[x y] z].
  unfold box_points, in_box, Coord_x, Coord_y, Coord_z; simpl.
  rewrite list_elem_of_bind. split.
  - intros (x' & Hin & Hx'). apply list_elem_of_bind in Hin as (y' & Hin & Hy').
    apply list_elem_of_bind in Hin as (z' & Hin & Hz').
    apply list_elem_of_singleton in Hin. simplify_eq.
    apply elem_of_range in Hx', Hy', Hz'. lia.
  - intros (Hx & Hy & Hz). exists x. split; [|apply elem_of_range; lia].
    apply list_elem_of_bind. exists y. split; [|apply elem_of_range; lia].
    apply list_elem_of_bind. exists z. split; [|apply elem_of_range; lia].
    by apply list_elem_of_singleton.
Qed.

Lemma elem_of_discard_list (pts : list Coord) (todo : gset Coord) c :
  c ∈ foldl (λ t c, t ∖ {[c]}) todo pts ↔ c ∈ todo ∧ c ∉ pts.
Proof.
  revert todo; induction pts as [|p pts IH]; intros todo; simpl.
  - rewrite elem_of_nil. tauto.
  - rewrite IH, elem_of_difference, elem_of_singleton, not_elem_of_cons. tauto.
Qed.

Lemma elem_of_discard_box todo b c :
  c ∈ discard_box todo b ↔ c ∈ todo ∧ ¬ in_box b c.
Proof. unfold discard_box. by rewrite elem_of_discard_list, elem_of_box_points. Qed.

Lemma grow_grown_within todo seed : grown_within 49 seed (grow todo seed).
Proof.
  destruct seed as [[sx sy] sz].
  destruct (grow_spec todo sx sy sz) as (Hin & Hb & _).
  split; [done|]. unfold in_box, Coord_x, Coord_y, Coord_z in *; simpl in *. lia.
Qed.

(** *** The whole decomposition *)

Section bounding_boxes_correct.
Variable set_pop : gset Coord → Coord.
Hypothesis set_pop_elem : ∀ s : gset Coord, s ≠ ∅ → set_pop s ∈ s.

(** One turn of the loop splits [todo] into the emitted box and the
      new [todo]. *)
Lemma turn_split (todo : gset Coord) c :
    todo ≠ ∅ →
    let seed := set_pop todo in
    let box := grow (todo ∖ {[seed]}) seed in
    c ∈ todo ↔ in_box box c ∨ c ∈ discard_box (todo ∖ {[seed]}) box.
  Proof.
    intros Hne seed box. pose proof (set_pop_elem todo Hne) as Hseed.
    fold seed in Hseed. destruct seed as [[sx sy] sz] eqn:Eseed.
    destruct (grow_spec (todo ∖ {[(sx, sy, sz)]}) sx sy sz) as (Hin & _ & Hsub).
    fold box in Hin, Hsub. rewrite elem_of_discard_box. split.
    - intros Hc. destruct (decide (in_box box c)) as [|Hout]; [by left|right].
      split; [|done]. apply elem_of_difference. split; [done|].
      rewrite elem_of_singleton. intros ->. by apply Hout.
    - intros [Hc|[Hc _]].
      + destruct (Hsub c Hc) as [->|Hc']; [done|].
        by apply elem_of_difference in Hc' as [? _].
      + by apply elem_of_difference in Hc as [? _].
  Qed.

Lemma turn_size (todo : gset Coord) :
    todo ≠ ∅ →
    let seed := set_pop todo in
    (size (discard_box (todo ∖ {[seed]}) (grow (todo ∖ {[seed]}) seed)) < size todo)%nat.
  Proof.
    intros Hne seed. pose proof (set_pop_elem todo Hne) as Hseed. fold seed in Hseed.
    apply Nat.le_lt_trans with (size (todo ∖ {[seed]})).
    - apply subseteq_size. intros c Hc. by apply elem_of_discard_box in Hc as [? _].
    - apply subset_size. apply subset_difference_elem_of. done.
  Qed.

Lemma bounding_boxes_loop_spec (fuel : nat) (todo : gset Coord) :
    (size todo ≤ fuel)%nat →
    ∃ boxes, bounding_boxes_loop set_pop fuel todo = Some boxes ∧
      (∀ c, c ∈ todo ↔ ∃ b, b ∈ boxes ∧ in_box b c) ∧
      (∀ b, b ∈ boxes → ∃ seed, seed ∈ todo ∧ grown_within 49 seed b).
  Proof.
    revert todo; induction fuel as [|fuel IH]; intros todo Hsize; simpl;
      destruct (decide (todo = ∅)) as [->|Hne].
    - exists []. split; [done|]. split; [|intros b Hb; by apply elem_of_nil in Hb].
      intros c. split; [set_solver|]. intros (b & Hb & _). by apply elem_of_nil in Hb.
    - apply Nat.le_0_r, size_empty_inv in Hsize. exfalso. apply Hne. by apply leibniz_equiv.
    - exists []. split; [done|]. split; [|intros b Hb; by apply elem_of_nil in Hb].
      intros c. split; [set_solver|]. intros (b & Hb & _). by apply elem_of_nil in Hb.
    - pose proof (turn_size todo Hne) as Hlt. pose proof (turn_split todo) as Hsplit.
      pose proof (set_pop_elem todo Hne) as Hseed.
      cbv zeta in Hlt, Hsplit.
      set (seed := set_pop todo) in *.
      set (box := grow (todo ∖ {[seed]}) seed) in *.
      set (todo' := discard_box (todo ∖ {[seed]}) box) in *.
      destruct (IH todo' ltac:(lia)) as (boxes & -> & Hcover & Hgrown).
      exists (box :: boxes). split; [done|]. split.
      + intros c. rewrite (Hsplit c Hne), Hcover. split.
        * intros [Hc|(b & Hb & Hc)]; [exists box|exists b]; split; auto using list_elem_of_here, list_elem_of_further.
        * intros (b & Hb & Hc). apply elem_of_cons in Hb as [->|Hb]; [by left|right; eauto].
      + intros b Hb. apply elem_of_cons in Hb as [->|Hb].
        * exists seed. split; [done|]. apply grow_grown_within.
        * destruct (Hgrown b Hb) as (s & Hs & Hg). exists s. split; [|done].
          apply (Hsplit s Hne). by right.
  Qed.

(** Discarding a box takes its seed along. *)
Lemma discard_box_seed (todo : gset Coord) (seed : Coord) :
  discard_box (todo ∖ {[seed]}) (grow (todo ∖ {[seed]}) seed)
  = discard_box todo (grow (todo ∖ {[seed]}) seed).
Proof.
  apply set_eq. intros c. rewrite !elem_of_discard_box, elem_of_difference, elem_of_singleton.
  destruct (grow_grown_within (todo ∖ {[seed]}) seed) as [Hin _].
  split; [tauto|]. intros [Hc Hout]. split; [|done]. split; [done|].
  intros ->. by apply Hout.
Qed.

Lemma todo_at_subseteq (todo : gset Coord) boxes : foldl discard_box todo boxes ⊆ todo.
Proof.
  revert todo; induction boxes as [|b boxes IH]; intros todo; simpl; [done|].
  etrans; [apply IH|]. intros c. rewrite elem_of_discard_box. tauto.
Qed.

(** The box of turn [i] is the one [grow] makes around the element
    [set.pop] returns from the voxels left at that turn. *)
Lemma bounding_boxes_loop_seeds (fuel : nat) (todo : gset Coord) boxes (i : nat) b :
    bounding_boxes_loop set_pop fuel todo = Some boxes →
    boxes !! i = Some b →
    todo_at todo boxes i ≠ ∅ ∧
    b = grow (todo_at todo boxes i ∖ {[set_pop (todo_at todo boxes i)]})
          (set_pop (todo_at todo boxes i)).
  Proof.
    unfold todo_at. revert todo boxes i; induction fuel as [|fuel IH];
      intros todo boxes i; simpl;
      destruct (decide (todo = ∅)) as [->|Hne]; try by intros [= <-].
    intros Hrun Hi. apply fmap_Some in Hrun as (rest & Hrest & ->).
    destruct i as [|i]; simpl in *.
    - injection Hi as <-. done.
    - rewrite <- discard_box_seed. by apply (IH _ rest).
  Qed.
End bounding_boxes_correct.

Lemma pop_first_elem (s : gset Coord) : s ≠ ∅ → pop_first s ∈ s.
Proof.
  intros Hne. unfold pop_first. destruct (elements s) as [|c l] eqn:E.
  - apply elements_empty_inv in E. exfalso. apply Hne. by apply leibniz_equiv.
  - simpl. assert (c ∈ elements s) as Hc by (rewrite E; left).
    by apply elem_of_elements in Hc.
Qed.

(** *** Volumes *)

Lemma volume_points_box pos_1 pos_2 :
  volume_points pos_1 pos_2 = box_points (corner_min pos_1 pos_2, corner_max pos_1 pos_2).
Proof. reflexivity. Qed.

Lemma volume_points_comm pos_1 pos_2 : volume_points pos_1 pos_2 = volume_points pos_2 pos_1.
Proof.
  unfold volume_points.
  by rewrite (Z.min_comm (Coord_x pos_1)), (Z.max_comm (Coord_x pos_1)),
    (Z.min_comm (Coord_y pos_1)), (Z.max_comm (Coord_y pos_1)),
    (Z.min_comm (Coord_z pos_1)), (Z.max_comm (Coord_z pos_1)).
Qed.

Lemma elem_of_add_all (points : list Coord) (voxels : gset Coord) (c : Coord) :
  c ∈ add_all points voxels ↔ c ∈ voxels ∨ c ∈ points.
Proof.
  unfold add_all. revert voxels; induction points as [|p points IH]; intros voxels; simpl.
  - rewrite elem_of_nil. tauto.
  - rewrite IH, elem_of_union, elem_of_singleton, elem_of_cons. tauto.
Qed.

Lemma elem_of_volume (pos_1 pos_2 : Coord) (voxels : gset Coord) (c : Coord) :
  c ∈ add_all (volume_points pos_1 pos_2) voxels ↔
  c ∈ voxels ∨ in_box (corner_min pos_1 pos_2, corner_max pos_1 pos_2) c.
Proof. by rewrite elem_of_add_all, volume_points_box, elem_of_box_points. Qed.

(** *** Words and white space *)

Lemma is_space_to_upper c : is_space (to_upper c) = is_space c.
Proof. by destruct c as [[] [] [] [] [] [] [] []]. Qed.

Lemma has_space_upper s : has_space (upper s) = has_space s.
Proof.
  unfold upper. induction s as [|c s IH]; simpl; [done|].
  by rewrite is_space_to_upper, IH.
Qed.

(** A string with no white space is at most one word. *)
Lemma split_go_no_space s cur :
  has_space s = false → (length (split_go cur s) ≤ 1)%nat.
Proof.
  revert cur; induction s as [|c s IH]; intros cur Hs; simpl in *.
  - destruct cur; simpl; lia.
  - apply orb_false_iff in Hs as [-> Hs]. by apply IH.
Qed.

Lemma split_no_space s : has_space s = false → (length (split s) ≤ 1)%nat.
Proof. apply split_go_no_space. Qed.

(** A value that names a side is one word, so a value of three words
    names none. *)
Lemma three_words_no_side_name value p0 p1 p2 :
  split value = [p0; p1; p2] → ConnSide.of_name (upper value) = None.
Proof.
  intros Hsplit. destruct (ConnSide.of_name (upper value)) as [side|] eqn:Hname; [|done].
  exfalso. unfold ConnSide.of_name in Hname.
  apply find_some in Hname as [_ Hname]. apply bool_decide_eq_true in Hname.
  assert (has_space value = false) as Hns.
  { rewrite <- has_space_upper, <- Hname. by destruct side. }
  apply split_no_space in Hns. rewrite Hsplit in Hns. simpl in Hns. lia.
Qed.

(** The [Dir] line of a point holds the vector of its side. *)
Lemma export_point_writes_dir side point :
  ∃ rest, export_point side point =
    line 3 (quoted "Point") +:+ line 4 "{"
    +:+ line 4 (kv "Dir" "           " (coord_text (ConnSide.value side))) +:+ rest.
Proof. unfold export_point. eauto. Qed.

(** *** Reasoning about parsers *)

Lemma bind_Ok {A B} (m : Parser A) (k : A → Parser B) st b st' :
  bind m k st = Ok (b, st') ↔ ∃ a st1, m st = Ok (a, st1) ∧ k a st1 = Ok (b, st').
Proof.
  unfold bind. destruct (m st) as [[a st1]|e]; split.
  - intros H. by exists a, st1.
  - by intros (? & ? & [= <- <-] & ?).
  - done.
  - by intros (? & ? & ? & ?).
Qed.

(** Take a successful run apart, bind by bind. *)
Ltac inv_bind H :=
  let a := fresh "a" in let st1 := fresh "st" in
  let H1 := fresh H in
  apply bind_Ok in H as (a & st1 & H1 & H).

Lemma ret_Ok {A} (a b : A) st st' : ret a st = Ok (b, st') ↔ a = b ∧ st = st'.
Proof. unfold ret. split; [by intros [= -> ->]|by intros [-> ->]]. Qed.

Lemma or_error_Ok {A} (o : option A) mess st a st' :
  or_error o mess st = Ok (a, st') ↔ o = Some a ∧ st = st'.
Proof.
  destruct o; unfold or_error, ret, tok_error;
    (split; [by intros [= -> ->]|by intros [[= ->] ->]]).
Qed.

Lemma or_raise_Ok {A} (o : option A) e st a st' :
  or_raise o e st = Ok (a, st') ↔ o = Some a ∧ st = st'.
Proof.
  destruct o; unfold or_raise, ret, raise;
    (split; [by intros [= -> ->]|by intros [[= ->] ->]]).
Qed.

(** An invariant of the loop body is an invariant of the loop. *)
Lemma block_loop_invariant {A} (P : A → Prop) name (body : string → A → Parser A) :
  (∀ key a st a' st', P a → body key a st = Ok (a', st') → P a') →
  ∀ fuel a st a' st', P a → block_loop fuel name body a st = Ok (a', st') → P a'.
Proof.
  intros Hbody. induction fuel as [|fuel IH]; intros a st a' st' Ha Hrun; simpl in Hrun; [done|].
  inv_bind Hrun. destruct a0 as [key|].
  - inv_bind Hrun. eapply IH; [|done]. eauto.
  - apply ret_Ok in Hrun as [<- _]. done.
Qed.

Lemma block_invariant {A} (P : A → Prop) name cb (body : string → A → Parser A) a st a' st' :
  (∀ key a st a' st', P a → body key a st = Ok (a', st') → P a') →
  P a → block name cb body a st = Ok (a', st') → P a'.
Proof.
  intros Hbody Ha Hrun. unfold block in Hrun. inv_bind Hrun.
  by eapply block_loop_invariant.
Qed.

Lemma for_each_invariant {A B} (P : A → Prop) (xs : list B) (body : B → A → Parser A) :
  (∀ x a st a' st', P a → body x a st = Ok (a', st') → P a') →
  ∀ a st a' st', P a → for_each xs body a st = Ok (a', st') → P a'.
Proof.
  intros Hbody. induction xs as [|x xs IH]; intros a st a' st' Ha Hrun; simpl in Hrun.
  - by apply ret_Ok in Hrun as [<- _].
  - inv_bind Hrun. eapply IH; [|done]. eauto.
Qed.

(** The same for a token loop that may return from its body: [P] holds
    of the loop variable, [Q] of the value returned. *)
Lemma token_loop_invariant {A B} (P : A → Prop) (Q : B → Prop)
    (body : Token.t → string → A → Parser (A + B)) :
  (∀ t v a st r st', P a → body t v a st = Ok (r, st') →
     match r with inl a' => P a' | inr b => Q b end) →
  ∀ fuel a st a' ob st', P a → token_loop fuel body a st = Ok ((a', ob), st') →
    P a' ∧ match ob with Some b => Q b | None => True end.
Proof.
  intros Hbody. induction fuel as [|fuel IH]; intros a st a' ob st' Ha Hrun;
    simpl in Hrun; [done|].
  inv_bind Hrun. destruct a0 as [t v]. case_decide.
  - by apply ret_Ok in Hrun as [[= <- <-] _].
  - inv_bind Hrun. specialize (Hbody _ _ _ _ _ _ Ha Hrun1). destruct a0 as [a1|b].
    + eapply IH; [exact Hbody|exact Hrun].
    + by apply ret_Ok in Hrun as [[= <- <-] _].
Qed.

(** *** Loops never run out of fuel *)

Lemma shrinks_ret {A} (a : A) : shrinks (ret a).
Proof. intros st. simpl. lia. Qed.

Lemma shrinks_raise {A} e : e ≠ OutOfFuel → shrinks (@raise A e).
Proof. by intros He st. Qed.

Lemma shrinks_tok_error {A} mess : shrinks (@tok_error A mess).
Proof. by intros st. Qed.

Lemma shrinks_bind {A B} (m : Parser A) (k : A → Parser B) :
  shrinks m → (∀ a, shrinks (k a)) → shrinks (bind m k).
Proof.
  intros Hm Hk st. unfold bind. specialize (Hm st).
  destruct (m st) as [[a st1]|e]; [|done].
  specialize (Hk a st1). destruct (k a st1) as [[b st2]|e]; [lia|done].
Qed.

Lemma shrinks_or_error {A} (o : option A) mess : shrinks (or_error o mess).
Proof. destruct o; [apply shrinks_ret|apply shrinks_tok_error]. Qed.

Lemma shrinks_or_raise {A} (o : option A) e : e ≠ OutOfFuel → shrinks (or_raise o e).
Proof. destruct o; [intros; apply shrinks_ret|apply shrinks_raise]. Qed.

Lemma shrinks_log {A} (a : A) (w : State → string) :
  shrinks (λ st, Ok (a, log_warning (w st) st)).
Proof. intros st. simpl. lia. Qed.

Lemma drop_newlines_length l line : (length (drop_newlines l line).1 ≤ length l)%nat.
Proof.
  revert line; induction l as [|[[] v] l IH]; intros line; simpl; try lia.
  specialize (IH (line + 1)). lia.
Qed.

Lemma shrinks_skip_newlines : shrinks skip_newlines.
Proof.
  intros st. unfold skip_newlines.
  pose proof (drop_newlines_length (toks st) (line_num st)).
  destruct (drop_newlines _ _). simpl in *. lia.
Qed.


(** [next_token] reads one token, unless the input has ended. *)
Lemma next_token_spec st :
  ∃ t v st', next_token st = Ok ((t, v), st') ∧
    ((t = Token.EOF ∧ st' = st) ∨
     (t ≠ Token.EOF ∧ length (toks st) = S (length (toks st')))).
Proof.
  unfold next_token. destruct (toks st) as [|[t v] l] eqn:Htoks.
  - exists Token.EOF, "", st. by eauto.
  - destruct t; eexists _, _, _; (split; [reflexivity|]); simpl; auto.
Qed.

Lemma shrinks_next_token : shrinks next_token.
Proof.
  intros st. destruct (next_token_spec st) as (t & v & st' & -> & [(_ & ->)|(_ & Hlen)]); lia.
Qed.

Lemma shrinks_expect token : shrinks (expect token).
Proof.
  unfold expect. apply shrinks_bind.
  - case_decide; [apply shrinks_ret|apply shrinks_skip_newlines].
  - intros _. apply shrinks_bind; [apply shrinks_next_token|].
    intros [next value]. case_decide; [apply shrinks_ret|apply shrinks_tok_error].
Qed.

Lemma shrinks_next_skipping_newlines : shrinks next_skipping_newlines.
Proof.
  unfold next_skipping_newlines. apply shrinks_bind; [apply shrinks_skip_newlines|].
  intros _. apply shrinks_bind; [apply shrinks_next_token|].
  intros [next value]. case_decide; [by apply shrinks_raise|apply shrinks_ret].
Qed.

(** A successful step of [tok.block] reads at least one token. *)
Lemma block_next_spec name st :
  match block_next name st with
  | Ok (_, st') => (length (toks st') < length (toks st))%nat
  | Err e => e ≠ OutOfFuel
  end.
Proof.
  unfold block_next, bind.
  pose proof (shrinks_skip_newlines st) as Hskip.
  destruct (skip_newlines st) as [[[] st1]|e]; [|done].
  destruct (next_token_spec st1) as (t & v & st2 & -> & [(-> & ->)|(Hne & Hlen)]).
  - done.
  - destruct t; try done; unfold ret; lia.
Qed.

Lemma block_loop_shrinks {A} name (body : string → A → Parser A) :
  (∀ key a, shrinks (body key a)) →
  ∀ (fuel : nat) a st, (length (toks st) < fuel)%nat →
    match block_loop fuel name body a st with
    | Ok (_, st') => (length (toks st') ≤ length (toks st))%nat
    | Err e => e ≠ OutOfFuel
    end.
Proof.
  intros Hbody. induction fuel as [|fuel IH]; intros a st Hfuel; [lia|].
  simpl. unfold bind. pose proof (block_next_spec name st) as Hnext.
  destruct (block_next name st) as [[[key|] st1]|e]; [| |done].
  - specialize (Hbody key a st1). destruct (body key a st1) as [[a1 st2]|e]; [|done].
    specialize (IH a1 st2 ltac:(lia)).
    destruct (block_loop fuel name body a1 st2) as [[a2 st3]|e]; [lia|done].
  - unfold ret. lia.
Qed.

Lemma shrinks_block {A} name cb (body : string → A → Parser A) a :
  (∀ key a, shrinks (body key a)) → shrinks (block name cb body a).
Proof.
  intros Hbody. unfold block. apply shrinks_bind.
  - destruct cb; [|apply shrinks_ret].
    apply shrinks_bind; [apply shrinks_expect|intros; apply shrinks_ret].
  - intros _ st. apply block_loop_shrinks; [done|lia].
Qed.

Lemma token_loop_shrinks {A B} (body : Token.t → string → A → Parser (A + B)) :
  (∀ t v a, shrinks (body t v a)) →
  ∀ (fuel : nat) a st, (length (toks st) < fuel)%nat →
    match token_loop fuel body a st with
    | Ok (_, st') => (length (toks st') ≤ length (toks st))%nat
    | Err e => e ≠ OutOfFuel
    end.
Proof.
  intros Hbody. induction fuel as [|fuel IH]; intros a st Hfuel; [lia|].
  simpl. unfold bind.
  destruct (next_token_spec st) as (t & v & st1 & -> & [(-> & ->)|(Hne & Hlen)]).
  - rewrite decide_True by done. unfold ret. lia.
  - rewrite decide_False by done.
    specialize (Hbody t v a st1). destruct (body t v a st1) as [[[a1|b] st2]|e]; [| |done].
    + specialize (IH a1 st2 ltac:(lia)).
      destruct (token_loop fuel body a1 st2) as [[a2 st3]|e]; [lia|done].
    + unfold ret. lia.
Qed.

Lemma shrinks_for_tokens {A B} (body : Token.t → string → A → Parser (A + B)) a :
  (∀ t v a, shrinks (body t v a)) → shrinks (for_tokens body a).
Proof. intros Hbody st. apply token_loop_shrinks; [done|lia]. Qed.

Lemma shrinks_for_each {A B} (xs : list B) (body : B → A → Parser A) a :
  (∀ x a, shrinks (body x a)) → shrinks (for_each xs body a).
Proof.
  intros Hbody. revert a; induction xs as [|x xs IH]; intros a; simpl.
  - apply shrinks_ret.
  - apply shrinks_bind; [apply Hbody|apply IH].
Qed.

Lemma skip_tokens_length level l line :
  (length (skip_tokens level l line).1 ≤ length l)%nat.
Proof.
  revert level line; induction l as [|[[] v] l IH]; intros level line; simpl; try lia.
  - specialize (IH level line). lia.
  - specialize (IH level (line + 1)). lia.
  - specialize (IH (level + 1) line). lia.
  - case_decide; simpl; [lia|]. specialize (IH (level - 1) line). lia.
Qed.

Lemma shrinks_skip_unknown_block : shrinks skip_unknown_block.
Proof.
  intros st. unfold skip_unknown_block.
  pose proof (skip_tokens_length 0 (toks st) (line_num st)).
  destruct (skip_tokens _ _ _). simpl in *. lia.
Qed.

Create HintDb shrinks.
Global Hint Resolve shrinks_ret shrinks_tok_error shrinks_or_error shrinks_expect
  shrinks_next_skipping_newlines shrinks_next_token shrinks_skip_newlines
  shrinks_skip_unknown_block shrinks_log : shrinks.

(** One step of a proof that a parser shrinks, following its shape. *)
Ltac shrinks_step :=
  match goal with
  | |- shrinks (bind _ _) => apply shrinks_bind; [|intros]
  | |- shrinks (raise _) => by apply shrinks_raise
  | |- shrinks (or_raise _ _) => by apply shrinks_or_raise
  | |- shrinks (block _ _ _ _) => apply shrinks_block; intros
  | |- shrinks (for_tokens _ _) => apply shrinks_for_tokens; intros
  | |- shrinks (for_each _ _ _) => apply shrinks_for_each; intros
  | |- shrinks (if ?c then _ else _) => destruct c
  | |- shrinks (match ?x with _ => _ end) => destruct x
  | |- shrinks _ => solve [eauto with shrinks]
  end.
Ltac solve_shrinks := repeat shrinks_step.

Section parser_shrinks.
Context {E : Externals}.

Lemma shrinks_Coord_parse value : shrinks (Coord_parse value).
Proof. unfold Coord_parse. solve_shrinks. Qed.

Lemma shrinks_ConnSide_parse value : shrinks (ConnSide_parse value).
Proof. unfold ConnSide_parse. solve_shrinks. Qed.

Lemma shrinks_Anim_parse_block anims : shrinks (Anim_parse_block anims).
Proof. unfold Anim_parse_block, Anim_parse_key. solve_shrinks. Qed.

Lemma shrinks_Renderable_parse : shrinks Renderable_parse.
Proof.
  pose proof shrinks_Anim_parse_block.
  unfold Renderable_parse, Renderable_parse_key. solve_shrinks.
Qed.

Lemma shrinks_SubType_parse : shrinks SubType_parse.
Proof.
  pose proof shrinks_Anim_parse_block.
  unfold SubType_parse, SubType_parse_key, SubType_model_key, SubType_palette_key,
    SubType_sounds_key.
  solve_shrinks.
Qed.

Lemma shrinks_parse_editor_block (self : Item.t E) : shrinks (_parse_editor_block self).
Proof.
  pose proof shrinks_Anim_parse_block. pose proof shrinks_SubType_parse.
  unfold _parse_editor_block, parse_editor_key. solve_shrinks.
Qed.

Lemma shrinks_parse_properties_block (self : Item.t E) :
  shrinks (_parse_properties_block self).
Proof.
  unfold _parse_properties_block, parse_properties_key, parse_property_option.
  solve_shrinks.
Qed.

Lemma shrinks_parse_instance_block inst_name (self : Item.t E) :
  shrinks (_parse_instance_block inst_name self).
Proof.
  unfold _parse_instance_block, parse_instance_value, parse_instance_option.
  solve_shrinks.
Qed.

Lemma shrinks_parse_connection_points (self : Item.t E) :
  shrinks (_parse_connection_points self).
Proof.
  pose proof shrinks_Coord_parse. pose proof shrinks_ConnSide_parse.
  unfold _parse_connection_points, parse_connection_point, parse_point_option.
  solve_shrinks.
Qed.

Lemma shrinks_parse_embedded_voxels (self : Item.t E) :
  shrinks (_parse_embedded_voxels self).
Proof.
  pose proof shrinks_Coord_parse.
  unfold _parse_embedded_voxels, parse_embedded_key, parse_volume, parse_volume_key,
    parse_voxel_key.
  solve_shrinks.
Qed.

Lemma shrinks_parse_embed_faces (self : Item.t E) : shrinks (_parse_embed_faces self).
Proof. unfold _parse_embed_faces, parse_embed_face, parse_solid_key. solve_shrinks. Qed.

Lemma shrinks_parse_overlay (self : Item.t E) : shrinks (_parse_overlay self).
Proof. unfold _parse_overlay, parse_overlay_key. solve_shrinks. Qed.

Lemma shrinks_parse_export_block (self : Item.t E) : shrinks (_parse_export_block self).
Proof.
  pose proof shrinks_parse_instance_block. pose proof shrinks_parse_connection_points.
  pose proof shrinks_parse_embedded_voxels. pose proof shrinks_parse_embed_faces.
  pose proof shrinks_parse_overlay.
  unfold _parse_export_block, parse_export_key. solve_shrinks.
Qed.

Lemma shrinks_Item_parse_one : shrinks (@Item_parse_one E).
Proof.
  pose proof shrinks_parse_editor_block. pose proof shrinks_parse_properties_block.
  pose proof shrinks_parse_export_block.
  unfold Item_parse_one, parse_one_token. solve_shrinks.
Qed.

Lemma shrinks_Item_parse_tokens : shrinks (@Item_parse_tokens E).
Proof.
  pose proof shrinks_Item_parse_one. pose proof shrinks_Renderable_parse.
  unfold Item_parse_tokens, parse_itemdata_key, parse_renderables_key. solve_shrinks.
Qed.

(** The parser is total: on every token stream it ends with a result or
    with a Python exception, never for lack of fuel. *)
Lemma Item_parse_tokens_total st : @Item_parse_tokens E st ≠ Err OutOfFuel.
Proof.
  pose proof (shrinks_Item_parse_tokens st) as H.
  destruct (Item_parse_tokens st) as [[? ?]|e]; [done|]. by intros [= ->].
Qed.
End parser_shrinks.

(** *** Unknown keys *)

(** A key that is not in a list of keys differs from each of them. *)
Ltac unknown_key Hkey :=
  let Heq := fresh in
  intros Heq; apply Hkey; rewrite Heq; repeat constructor.

Lemma drop_newlines_replicate (n : nat) l line :
  drop_newlines (replicate n (Token.NEWLINE, "") ++ l) line
  = drop_newlines l (line + Z.of_nat n).
Proof.
  revert line; induction n as [|n IH]; intros line; simpl.
  - by rewrite Z.add_0_r.
  - rewrite IH. f_equal. lia.
Qed.

Lemma skip_tokens_replicate (n : nat) level l line :
  skip_tokens level (replicate n (Token.NEWLINE, "") ++ l) line
  = skip_tokens level l (line + Z.of_nat n).
Proof.
  revert line; induction n as [|n IH]; intros line; simpl.
  - by rewrite Z.add_0_r.
  - rewrite IH. f_equal. lia.
Qed.

(** Skipping from inside a balanced run gets to the brace that follows
    it, at the level the run was entered with. *)
Lemma skip_tokens_balanced l (depth : nat) level rest line :
  balanced depth l = true → 1 ≤ level →
  skip_tokens (level + Z.of_nat depth) (l ++ rest) line
  = skip_tokens level rest (line + count_newlines l).
Proof.
  unfold count_newlines.
  revert depth line; induction l as [|[[] v] l IH]; intros depth line Hbal Hlevel;
    simpl in Hbal |- *; try done.
  - apply bool_decide_eq_true in Hbal as ->. by rewrite !Z.add_0_r.
  - by rewrite (IH depth line).
  - rewrite (IH depth (line + 1)) by done. f_equal. lia.
  - replace (level + Z.of_nat depth + 1) with (level + Z.of_nat (S depth)) by lia.
    by rewrite (IH (S depth) line).
  - destruct depth as [|depth]; [done|].
    rewrite decide_False by lia.
    replace (level + Z.of_nat (S depth) - 1) with (level + Z.of_nat depth) by lia.
    by rewrite (IH depth line).
Qed.

(** The skip over an unknown key's block: the newlines before it, the
    block from brace to matching brace, nothing more. *)
Lemma skip_tokens_block (n : nat) v1 blk v2 rest line :
  balanced 0 blk = true →
  skip_tokens 0 (replicate n (Token.NEWLINE, "") ++
                 (Token.BRACE_OPEN, v1) :: blk ++ (Token.BRACE_CLOSE, v2) :: rest) line
  = (rest, line + Z.of_nat n + count_newlines blk).
Proof.
  intros Hbal. rewrite skip_tokens_replicate. simpl.
  rewrite (skip_tokens_balanced blk 0 1) by (done || lia).
  done.
Qed.

Section unknown_keys.
Context {E : Externals}.

Lemma itemdata_unknown_key key s st :
  casefold key ∉ itemdata_keys →
  @parse_itemdata_key E key s st
  = Err (TokenSyntaxError (Msg ("Unknown block " +:+ quoted key +:+ "!"))
           (filename st) (line_num st)).
Proof.
  intros Hkey. unfold parse_itemdata_key. destruct s as [items icons].
  rewrite !decide_False by unknown_key Hkey. done.
Qed.

Lemma editor_unknown_key key (self : Item.t E) st :
  casefold key ∉ editor_keys →
  parse_editor_key key self st
  = Err (TokenSyntaxError (Msg ("Unknown editor option " +:+ key))
           (filename st) (line_num st)).
Proof.
  intros Hkey. unfold parse_editor_key.
  rewrite !decide_False by unknown_key Hkey.
  simpl. rewrite !decide_False by (apply not_eq_sym; unknown_key Hkey). done.
Qed.

Lemma subtype_unknown_key key subtype st :
  casefold key ∉ subtype_keys →
  SubType_parse_key key subtype st
  = Err (TokenSyntaxError (Msg ("Unknown subtype option " +:+ quoted key +:+ "!"))
           (filename st) (line_num st)).
Proof.
  intros Hkey. unfold SubType_parse_key.
  rewrite !decide_False by unknown_key Hkey. done.
Qed.

Lemma export_unknown_key key (self : Item.t E) st (n : nat) v1 blk v2 rest :
  casefold key ∉ export_keys →
  balanced 0 blk = true →
  toks st = replicate n (Token.NEWLINE, "") ++
            (Token.BRACE_OPEN, v1) :: blk ++ (Token.BRACE_CLOSE, v2) :: rest →
  parse_export_key key self st
  = Ok (self, set_toks rest (line_num st + Z.of_nat n + count_newlines blk) st).
Proof.
  intros Hkey Hbal Htoks. unfold parse_export_key.
  rewrite !decide_False by unknown_key Hkey.
  unfold bind, skip_unknown_block. rewrite Htoks, skip_tokens_block by done. done.
Qed.
End unknown_keys.

(** *** [anchor_goo] is never assigned by the parser *)

(** Take a successful run apart as far as its shape allows. *)
Ltac run_apart H :=
  lazymatch type of H with
  | ret _ _ = Ok _ => apply ret_Ok in H as [H _]; simplify_eq
  | or_error _ _ _ = Ok _ => apply or_error_Ok in H as [H _]
  | or_raise _ _ _ = Ok _ => apply or_raise_Ok in H as [H _]
  | bind _ _ _ = Ok _ => inv_bind H; run_apart H
  | tok_error _ _ = Ok _ => discriminate H
  | raise _ _ = Ok _ => discriminate H
  | (if ?c then _ else _) _ = Ok _ => destruct c; run_apart H
  | (match ?x with _ => _ end) _ = Ok _ => destruct x; run_apart H
  | _ => idtac
  end.

Lemma bool_attr_not_goo key attr :
  dict_get _BOOL_ATTRS key = Some attr → attr ≠ "anchor_goo".
Proof. simpl. intros H. repeat case_decide; by simplify_eq. Qed.

Section anchor_goo.
Context {E : Externals}.

Lemma setattr_bool_goo attr value (self : Item.t E) :
  attr ≠ "anchor_goo" → Item.anchor_goo (setattr_bool attr value self) = Item.anchor_goo self.
Proof. intros Hattr. unfold setattr_bool. by repeat case_decide. Qed.

Lemma goo_kept_block name cb (body : string → Item.t E → Parser (Item.t E)) self :
  (∀ key self, goo_kept self (body key self)) → goo_kept self (block name cb body self).
Proof.
  intros Hbody st it st' Hrun.
  apply (block_invariant (λ it, Item.anchor_goo it = Item.anchor_goo self)) in Hrun; [done| |done].
  intros key a st0 a' st0' Ha Hrun'. rewrite <- Ha. by eapply Hbody.
Qed.

Lemma goo_kept_editor_key key (self : Item.t E) : goo_kept self (parse_editor_key key self).
Proof.
  intros st it st' H. unfold parse_editor_key in H. cbv zeta in H.
  destruct (dict_get _BOOL_ATTRS (casefold key)) as [attr|] eqn:Hattr.
  - apply bool_attr_not_goo in Hattr.
    repeat case_decide; try (run_apart H; done).
    + inv_bind H.
      apply (for_each_invariant (λ it, Item.anchor_goo it = Item.anchor_goo self)) in H;
        [done| |done].
      intros word a1 st1 a2 st2 Ha Hword. run_apart Hword. done.
    + run_apart H. by apply setattr_bool_goo.
  - repeat case_decide; try (run_apart H; done).
    inv_bind H.
    apply (for_each_invariant (λ it, Item.anchor_goo it = Item.anchor_goo self)) in H;
      [done| |done].
    intros word a1 st1 a2 st2 Ha Hword. run_apart Hword. done.
Qed.

Lemma goo_kept_editor_block (self : Item.t E) : goo_kept self (_parse_editor_block self).
Proof. apply goo_kept_block, goo_kept_editor_key. Qed.

Lemma goo_kept_properties_block (self : Item.t E) : goo_kept self (_parse_properties_block self).
Proof.
  apply goo_kept_block. intros key self' st it st' H.
  unfold parse_properties_key in H. run_apart H. done.
Qed.

Lemma goo_kept_instance_block inst_name (self : Item.t E) :
  goo_kept self (_parse_instance_block inst_name self).
Proof.
  intros st it st' H. unfold _parse_instance_block in H.
  inv_bind H. destruct a as [[inst_ind inst_name'] self'].
  assert (Item.anchor_goo self' = Item.anchor_goo self) as <-.
  { destruct (py_int inst_name); [|destruct (startswith _ _)].
    - by apply ret_Ok in H0 as [[= _ _ <-] _].
    - by apply ret_Ok in H0 as [[= _ _ <-] _].
    - by injection H0 as _ _ <- _. }
  run_apart H; done.
Qed.

Lemma goo_kept_connection_points (self : Item.t E) : goo_kept self (_parse_connection_points self).
Proof.
  apply goo_kept_block. intros key self' st it st' H.
  unfold parse_connection_point in H. run_apart H. done.
Qed.

Lemma goo_kept_embedded_voxels (self : Item.t E) : goo_kept self (_parse_embedded_voxels self).
Proof.
  apply goo_kept_block. intros key self' st it st' H.
  unfold parse_embedded_key in H. repeat case_decide.
  - unfold parse_volume in H. run_apart H. done.
  - eapply goo_kept_block; [|exact H].
    intros key' self'' stv itv stv' Hv. unfold parse_voxel_key in Hv. run_apart Hv. done.
  - by apply ret_Ok in H as [<- _].
Qed.

Lemma goo_kept_embed_faces (self : Item.t E) : goo_kept self (_parse_embed_faces self).
Proof.
  apply goo_kept_block. intros key self' st it st' H.
  unfold parse_embed_face in H. run_apart H. done.
Qed.

Lemma goo_kept_overlay (self : Item.t E) : goo_kept self (_parse_overlay self).
Proof. intros st it st' H. unfold _parse_overlay in H. run_apart H. done. Qed.

Lemma goo_kept_export_block (self : Item.t E) : goo_kept self (_parse_export_block self).
Proof.
  apply goo_kept_block. intros key self' st it st' H.
  unfold parse_export_key in H. repeat case_decide.
  - run_apart H. done.
  - run_apart H. done.
  - eapply goo_kept_block; [|exact H]. intros. apply goo_kept_instance_block.
  - by eapply goo_kept_connection_points.
  - by eapply goo_kept_embedded_voxels.
  - by eapply goo_kept_embed_faces.
  - by eapply goo_kept_overlay.
  - run_apart H. done.
Qed.

Lemma parse_one_token_goo token tok_value (item : Item.t E) st r st' :
  parse_one_token token tok_value item st = Ok (r, st') →
  Item.anchor_goo match r with inl it => it | inr it => it end = Item.anchor_goo item.
Proof.
  intros H. unfold parse_one_token in H. cbv zeta in H.
  repeat case_decide; run_apart H; simpl; try done;
    first [ by eapply goo_kept_editor_block
          | by eapply goo_kept_properties_block
          | by eapply goo_kept_export_block ].
Qed.

(** Every item [parse_one] returns has [anchor_goo] as [__init__] set
    it: false. *)
Lemma Item_parse_one_goo st (it : Item.t E) st' :
  Item_parse_one st = Ok (it, st') → Item.anchor_goo it = false.
Proof.
  intros H. unfold Item_parse_one in H. inv_bind H. inv_bind H.
  destruct a0 as [item [returned|]]; [|done]. apply ret_Ok in H as [<- _].
  unfold for_tokens in H1.
  apply (token_loop_invariant (λ it, Item.anchor_goo it = false)
           (λ it, Item.anchor_goo it = false)) in H1 as [_ Hq]; [done| |done].
  intros t v item0 stb r stb' Hitem Hbody. apply parse_one_token_goo in Hbody.
  destruct r; congruence.
Qed.

Lemma dict_set_Forall {K V} `{EqDecision K} (P : V → Prop) (d : dict K V) k v :
  Forall (λ kv, P kv.2) d → P v → Forall (λ kv, P kv.2) (dict_set d k v).
Proof.
  intros Hd Hv. induction d as [|[k' v'] d IH]; simpl.
  - by constructor.
  - apply Forall_cons in Hd as [Hv' Hd]. case_decide; constructor; auto.
Qed.

Lemma dict_get_Forall {K V} `{EqDecision K} (P : V → Prop) (d : dict K V) k v :
  Forall (λ kv, P kv.2) d → dict_get d k = Some v → P v.
Proof.
  intros Hd. induction d as [|[k' v'] d IH]; simpl; [done|].
  apply Forall_cons in Hd as [Hv' Hd]. case_decide; [by intros [= <-]|auto].
Qed.

(** So has every item of the document [Item.parse] returns. *)
Lemma Item_parse_goo file filename items icons st item_id (it : Item.t E) :
  Item_parse file filename = Ok ((items, icons), st) →
  dict_get items item_id = Some it →
  Item.anchor_goo it = false.
Proof.
  intros H Hget. unfold Item_parse in H.
  destruct (Tokenizer file filename) as [st0|e]; [|done].
  unfold Item_parse_tokens in H. inv_bind H. case_decide; [done|].
  apply (block_invariant (λ s, Forall (λ kv, Item.anchor_goo kv.2 = false) s.1)) in H.
  - by eapply (dict_get_Forall (λ it, Item.anchor_goo it = false)).
  - intros key [items1 icons1] stk [items2 icons2] stk' Hall Hkey.
    unfold parse_itemdata_key in Hkey. repeat case_decide; [| |done].
    + inv_bind Hkey. inv_bind Hkey. apply ret_Ok in Hkey as [[= <- <-] _].
      simpl in *. apply (dict_set_Forall (λ it, Item.anchor_goo it = false)); [done|].
      by eapply Item_parse_one_goo.
    + inv_bind Hkey. by apply ret_Ok in Hkey as [[= <- <-] _].
  - by constructor.
Qed.
End anchor_goo.

(** *** Single steps of the tokenizer *)

Lemma expect_STRING st value rest :
  toks st = (Token.STRING, value) :: rest →
  expect Token.STRING st = Ok (value, set_toks rest (line_num st) st).
Proof.
  intros Htoks. unfold expect, bind, skip_newlines, next_token. simpl.
  rewrite Htoks. simpl. by destruct st.
Qed.

Lemma block_next_STRING name st key rest :
  toks st = (Token.STRING, key) :: rest →
  block_next name st = Ok (Some key, set_toks rest (line_num st) st).
Proof.
  intros Htoks. unfold block_next, bind, skip_newlines, next_token.
  rewrite Htoks. simpl. by destruct st.
Qed.

(** *** The instance list *)





Section steps.
Context {E : Externals}.



(** What a key of a [Point] block, of a property's options and of an
    [Animations] block does with the value it reads through
    [conv_int]. *)
Lemma parse_point_priority key direction pos sign_pos group_id priority st value rest :
  casefold key = "priority" →
  toks st = (Token.STRING, value) :: rest →
  parse_point_option key (direction, pos, sign_pos, group_id, priority) st
  = Ok ((direction, pos, sign_pos, group_id, conv_int value), set_toks rest (line_num st) st).
Proof.
  intros Hkey Htoks. unfold parse_point_option. cbv zeta. rewrite Hkey. simpl.
  unfold bind. by rewrite (expect_STRING st value rest).
Qed.

Lemma parse_point_groupid key direction pos sign_pos group_id priority st value rest :
  casefold key = "groupid" →
  toks st = (Token.STRING, value) :: rest →
  parse_point_option key (direction, pos, sign_pos, group_id, priority) st
  = Ok ((direction, pos, sign_pos, Some (conv_int value), priority),
        set_toks rest (line_num st) st).
Proof.
  intros Hkey Htoks. unfold parse_point_option. cbv zeta. rewrite Hkey. simpl.
  unfold bind. by rewrite (expect_STRING st value rest).
Qed.




Lemma Coord_parse_wrong_count value st :
  length (split value) ≠ 3%nat →
  Coord_parse value st
  = Err (TokenSyntaxError (Msg "Incorrect number of points for a coordinate!")
           (filename st) (line_num st)).
Proof.
  intros Hlen. unfold Coord_parse.
  destruct (split value) as [|p0 [|p1 [|p2 [|p3 l]]]]; done.
Qed.

(** The [volume] branch, once its block has given the two corners. *)
Lemma parse_volume_spec (self : Item.t E) st st' pos_1 pos_2 :
  block "EmbeddedVolume" true parse_volume_key (None, None) st
    = Ok ((Some pos_1, Some pos_2), st') →
  parse_volume self st
  = Ok (Item.set_embed_voxels
          (add_all (volume_points pos_1 pos_2) (Item.embed_voxels self)) self, st').
Proof. intros Hblock. unfold parse_volume, bind. by rewrite Hblock. Qed.

(** The step of [Item.parse] for an item whose id is taken already. *)
Lemma parse_itemdata_item key items icons st (it : Item.t E) st' :
  casefold key = "item" →
  Item_parse_one st = Ok (it, st') →
  parse_itemdata_key key (items, icons) st
  = Ok ((dict_set items (Item.id it) it, icons),
        if dict_in (Item.id it) items
        then log_warning (redeclared_warning (Item.id it)) st' else st').
Proof.
  intros Hkey Hone. unfold parse_itemdata_key. rewrite decide_True by done.
  unfold bind. rewrite Hone. by destruct (dict_in _ _).
Qed.
End steps.

Lemma dict_get_set_eq {K V} `{EqDecision K} (d : dict K V) k v :
  dict_get (dict_set d k v) k = Some v.
Proof.
  induction d as [|[k' v'] d IH]; simpl.
  - by rewrite decide_True.
  - destruct (decide (k' = k)) as [->|Hne]; simpl.
    + by rewrite decide_True.
    + by rewrite decide_False.
Qed.

Lemma dict_get_set_ne {K V} `{EqDecision K} (d : dict K V) k k' v :
  k' ≠ k → dict_get (dict_set d k v) k' = dict_get d k'.
Proof.
  intros Hne. induction d as [|[k0 v0] d IH]; simpl.
  - by rewrite decide_False.
  - destruct (decide (k0 = k)) as [->|Hne0]; simpl.
    + by rewrite !decide_False.
    + by rewrite IH.
Qed.

(** Assigning to a key that is present adds no entry. *)
Lemma dict_set_length_in {K V} `{EqDecision K} (d : dict K V) k v :
  dict_in k d = true → length (dict_set d k v) = length d.
Proof.
  unfold dict_in. rewrite bool_decide_eq_true.
  induction d as [|[k' v'] d IH]; simpl.
  - by intros [? [=]].
  - destruct (decide (k' = k)); simpl; [done|]. intros H. by rewrite IH.
Qed.

(** *** Following a loop key by key *)

(** More fuel changes nothing once there is enough. *)
Lemma block_loop_more_fuel {A} name (body : string → A → Parser A) (fuel fuel' : nat) a st :
  (fuel ≤ fuel')%nat →
  block_loop fuel name body a st ≠ Err OutOfFuel →
  block_loop fuel' name body a st = block_loop fuel name body a st.
Proof.
  revert fuel' a st; induction fuel as [|fuel IH]; intros fuel' a st Hle Hrun; [done|].
  destruct fuel' as [|fuel']; [lia|]. simpl in *. unfold bind in *.
  destruct (block_next name st) as [[[key|] st1]|e]; [|done..].
  destruct (body key a st1) as [[a1 st2]|e]; [|done].
  apply IH; [lia|done].
Qed.

Lemma state_set_toks_set_toks l line l' line' st :
  set_toks l line (set_toks l' line' st) = set_toks l line st.
Proof. by destruct st. Qed.

Lemma block_false_unfold {A} name (body : string → A → Parser A) a st :
  block name false body a st = block_loop (S (length (toks st))) name body a st.
Proof. reflexivity. Qed.

Lemma block_loop_key {A} (fuel : nat) name (body : string → A → Parser A) a st key rest :
  toks st = (Token.STRING, key) :: rest →
  block_loop (S fuel) name body a st
  = match body key a (set_toks rest (line_num st) st) with
    | Ok (a', st') => block_loop fuel name body a' st'
    | Err e => Err e
    end.
Proof.
  intros Htoks. simpl. unfold bind. by rewrite (block_next_STRING name st key rest Htoks).
Qed.

(** One turn of [for key in tok.block(name)], past the opening brace:
    the key is read, the body runs, and the loop goes on from the state
    the body left. *)
Lemma block_step {A} name (body : string → A → Parser A) a st key rest a' st' :
  (∀ key a, shrinks (body key a)) →
  toks st = (Token.STRING, key) :: rest →
  body key a (set_toks rest (line_num st) st) = Ok (a', st') →
  block name false body a st = block name false body a' st'.
Proof.
  intros Hbody Htoks Hrun. rewrite !block_false_unfold.
  rewrite (block_loop_key _ name body a st key rest Htoks), Hrun.
  pose proof (Hbody key a (set_toks rest (line_num st) st)) as Hshrink.
  rewrite Hrun in Hshrink. simpl in Hshrink.
  apply block_loop_more_fuel; [rewrite Htoks; simpl; lia|].
  pose proof (block_loop_shrinks name body Hbody (S (length (toks st'))) a' st' ltac:(lia)) as H.
  intros Heq. rewrite Heq in H. done.
Qed.

(** When the body raises, so does the loop. *)
Lemma block_step_Err {A} name (body : string → A → Parser A) a st key rest e :
  toks st = (Token.STRING, key) :: rest →
  body key a (set_toks rest (line_num st) st) = Err e →
  block name false body a st = Err e.
Proof.
  intros Htoks Hrun. rewrite block_false_unfold.
  by rewrite (block_loop_key _ name body a st key rest Htoks), Hrun.
Qed.

(** The end of the block: the closing brace ends the loop. *)
Lemma block_end {A} name (body : string → A → Parser A) a st v rest :
  toks st = (Token.BRACE_CLOSE, v) :: rest →
  block name false body a st = Ok (a, set_toks rest (line_num st) st).
Proof.
  intros Htoks. rewrite block_false_unfold. simpl.
  unfold bind, block_next, bind, skip_newlines, next_token.
  rewrite Htoks. simpl. by destruct st.
Qed.

(** [block] with its opening brace. *)
Lemma block_open {A} name (body : string → A → Parser A) a st v rest :
  toks st = (Token.BRACE_OPEN, v) :: rest →
  block name true body a st = block name false body a (set_toks rest (line_num st) st).
Proof.
  intros Htoks. rewrite block_false_unfold.
  unfold block, bind, expect, bind, skip_newlines, next_token. simpl.
  rewrite Htoks. simpl. by destruct st.
Qed.

Section loops.
Context {E : Externals}.

Lemma shrinks_parse_export_key key (self : Item.t E) : shrinks (parse_export_key key self).
Proof.
  pose proof (@shrinks_parse_instance_block E). pose proof (@shrinks_parse_connection_points E).
  pose proof (@shrinks_parse_embedded_voxels E). pose proof (@shrinks_parse_embed_faces E).
  pose proof (@shrinks_parse_overlay E).
  unfold parse_export_key. solve_shrinks.
Qed.

(** After an unknown key and its block the loop over the Exporting
    block goes on as if it had started behind them. *)
Lemma export_loop_skips_unknown key (self : Item.t E) st (n : nat) v1 blk v2 rest :
  casefold key ∉ export_keys →
  balanced 0 blk = true →
  toks st = (Token.STRING, key) :: replicate n (Token.NEWLINE, "") ++
            (Token.BRACE_OPEN, v1) :: blk ++ (Token.BRACE_CLOSE, v2) :: rest →
  block "Exporting" false parse_export_key self st
  = block "Exporting" false parse_export_key self
      (set_toks rest (line_num st + Z.of_nat n + count_newlines blk) st).
Proof.
  intros Hkey Hbal Htoks.
  erewrite (block_step "Exporting" parse_export_key self st key);
    [|apply shrinks_parse_export_key|exact Htoks|].
  - reflexivity.
  - erewrite (export_unknown_key key self _ n v1 blk v2 rest Hkey Hbal); [|reflexivity].
    simpl. by rewrite state_set_toks_set_toks.
Qed.

Lemma parse_instance_value_STRING st file rest :
  toks st = (Token.STRING, file) :: rest →
  parse_instance_value st
  = Ok (InstCount.mk (FSPath_of file) 0 0 0, set_toks rest (line_num st) st).
Proof.
  intros Htoks. unfold parse_instance_value, bind, next_skipping_newlines, bind,
    skip_newlines, next_token.
  rewrite Htoks. simpl. by destruct st.
Qed.


Lemma set_instances_same (self : Item.t E) :
  Item.set_instances (Item.instances self) self = self.
Proof. by destruct self. Qed.

End loops.

(** *** Numerals *)

Lemma digit_value_pretty_N_char (d : N) :
  (d < 10)%N → digit_value (pretty_N_char d) = Some (Z.of_N d).
Proof.
  intros Hd. 
  assert (d = 0 ∨ d = 1 ∨ d = 2 ∨ d = 3 ∨ d = 4 ∨ d = 5 ∨ d = 6 ∨ d = 7 ∨ d = 8 ∨ d = 9)%N
    as Hcases by lia.
  repeat (destruct Hcases as [->|Hcases]; [done|]). by subst.
Qed.

Lemma all_digits_pretty_N_go (x : N) s :
  all_digits s = true → all_digits (pretty_N_go x s) = true.
Proof.
  revert s. induction (N.lt_wf_0 x) as [x _ IH]; intros s Hs.
  destruct (decide (x = 0)%N) as [->|Hx]; [by rewrite pretty_N_go_0|].
  rewrite pretty_N_go_step by lia. apply IH.
  - apply N.div_lt; lia.
  - simpl. rewrite digit_value_pretty_N_char by (apply N.mod_lt; lia). done.
Qed.

Lemma int_digits_pretty_N_go (x : N) s b :
  (0 < x)%N →
  int_digits 0 b (pretty_N_go x s) = int_digits (Z.of_N x) true s.
Proof.
  revert s b. induction (N.lt_wf_0 x) as [x _ IH]; intros s b Hx.
  rewrite pretty_N_go_step by done.
  destruct (decide (x `div` 10 = 0)%N) as [Hq|Hq].
  - rewrite Hq, pretty_N_go_0. simpl.
    rewrite digit_value_pretty_N_char by (apply N.mod_lt; lia).
    f_equal. pose proof (N.div_mod x 10 ltac:(lia)) as Hdm. rewrite Hq in Hdm.
    lia.
  - rewrite IH; [|apply N.div_lt; lia|apply N.neq_0_lt_0; exact Hq]. simpl.
    rewrite digit_value_pretty_N_char by (apply N.mod_lt; lia).
    f_equal. pose proof (N.div_mod x 10 ltac:(lia)) as Hdm.
    rewrite Hdm at 3. rewrite N2Z.inj_add, N2Z.inj_mul. lia.
Qed.

Lemma pretty_N_go_nonempty (x : N) s : (0 < x)%N → pretty_N_go x s ≠ "".
Proof.
  revert s. induction (N.lt_wf_0 x) as [x _ IH]; intros s Hx.
  rewrite pretty_N_go_step by done.
  destruct (decide (x `div` 10 = 0)%N) as [Hq|Hq].
  - by rewrite Hq, pretty_N_go_0.
  - apply IH; [apply N.div_lt; lia|apply N.neq_0_lt_0; exact Hq].
Qed.

Lemma all_digits_no_space s : all_digits s = true → has_space s = false.
Proof.
  induction s as [|c s IH]; simpl; [done|].
  intros [Hc Hs]%andb_true_iff. rewrite IH by done.
  apply bool_decide_eq_true in Hc. 
  destruct c as [[] [] [] [] [] [] [] []]; try done; by destruct Hc.
Qed.

(** *** Strings *)

Lemma string_app_cons (c : ascii) (s1 s2 : string) :
  String c s1 +:+ s2 = String c (s1 +:+ s2).
Proof. reflexivity. Qed.

Lemma string_app_nil_r (s : string) : s +:+ "" = s.
Proof. induction s as [|c s IH]; [done|]. by rewrite string_app_cons, IH. Qed.

Lemma string_app_assoc (s1 s2 s3 : string) : (s1 +:+ s2) +:+ s3 = s1 +:+ s2 +:+ s3.
Proof. induction s1 as [|c s1 IH]; [done|]. by rewrite !string_app_cons, IH. Qed.

Lemma rev_app_rev_app (s1 s2 s3 : string) :
  String.rev_app (String.rev_app s1 s2) s3 = String.rev_app s2 (s1 +:+ s3).
Proof.
  revert s2 s3; induction s1 as [|c s1 IH]; intros s2 s3; [done|].
  simpl. by rewrite IH.
Qed.

Lemma string_rev_involutive (s : string) : String.rev (String.rev s) = s.
Proof. unfold String.rev. rewrite rev_app_rev_app. simpl. apply string_app_nil_r. Qed.

Lemma has_space_rev_app (s1 s2 : string) :
  has_space (String.rev_app s1 s2) = has_space s1 || has_space s2.
Proof.
  revert s2; induction s1 as [|c s1 IH]; intros s2; [done|].
  cbn. rewrite IH. cbn. by destruct (is_space c), (has_space s1), (has_space s2).
Qed.

Lemma has_space_app (s1 s2 : string) :
  has_space (s1 +:+ s2) = has_space s1 || has_space s2.
Proof.
  induction s1 as [|c s1 IH]; [done|]. rewrite string_app_cons. simpl.
  by rewrite IH, orb_assoc.
Qed.

Lemma is_int_space_is_space (c : ascii) : is_int_space c = true → is_space c = true.
Proof. by destruct c as [[] [] [] [] [] [] [] []]. Qed.

Lemma lstrip_no_space (s : string) : has_space s = false → lstrip s = s.
Proof.
  destruct s as [|c s]; [done|]. cbn. intros [Hc _]%orb_false_iff.
  destruct (is_int_space c) eqn:Hint; [|done].
  apply is_int_space_is_space in Hint. congruence.
Qed.

(** [strip] leaves a string with no white space as it is. *)
Lemma strip_no_space (s : string) : has_space s = false → strip s = s.
Proof.
  intros Hs. unfold strip. rewrite (lstrip_no_space s Hs).
  rewrite lstrip_no_space; [apply string_rev_involutive|].
  unfold String.rev. by rewrite has_space_rev_app, Hs.
Qed.

(** [int] of a string of digits reads the digits. *)
Lemma py_int_all_digits (s : string) :
  all_digits s = true → py_int s = int_digits 0 false s.
Proof.
  intros Hs. unfold py_int. rewrite strip_no_space by by apply all_digits_no_space.
  destruct s as [|c s]; [done|]. cbn in Hs.
  apply andb_true_iff in Hs as [Hc _]. apply bool_decide_eq_true in Hc.
  destruct c as [[] [] [] [] [] [] [] []]; try done; by destruct Hc.
Qed.

(** [int(str(n)) == n] *)
Lemma py_int_py_str (n : Z) : py_int (py_str n) = Some n.
Proof.
  unfold py_str, pretty, pretty_Z. destruct n as [|p|p]; [done| |].
  - unfold pretty, pretty_positive, pretty, pretty_N. rewrite decide_False by done.
    rewrite py_int_all_digits by by apply all_digits_pretty_N_go.
    by rewrite int_digits_pretty_N_go.
  - unfold pretty, pretty_positive, pretty, pretty_N. rewrite decide_False by done.
    unfold py_int. rewrite strip_no_space.
    + change ("-" +:+ pretty_N_go (N.pos p) "") with (String "-" (pretty_N_go (N.pos p) "")).
      simpl. rewrite int_digits_pretty_N_go by done. done.
    + change ("-" +:+ pretty_N_go (N.pos p) "") with (String "-" (pretty_N_go (N.pos p) "")).
      simpl. apply all_digits_no_space.
      by apply all_digits_pretty_N_go.
Qed.

Lemma conv_int_py_str (n : Z) : conv_int (py_str n) = n.
Proof. unfold conv_int. by rewrite py_int_py_str. Qed.

(** The numeral of an integer holds no white space and is not empty. *)
Lemma py_str_no_space (n : Z) : has_space (py_str n) = false.
Proof.
  unfold py_str, pretty, pretty_Z. destruct n as [|p|p]; [done| |];
    unfold pretty, pretty_positive, pretty, pretty_N; rewrite decide_False by done.
  - apply all_digits_no_space. by apply all_digits_pretty_N_go.
  - change ("-" +:+ pretty_N_go (N.pos p) "") with (String "-" (pretty_N_go (N.pos p) "")).
    simpl. apply all_digits_no_space. by apply all_digits_pretty_N_go.
Qed.

Lemma py_str_nonempty (n : Z) : py_str n ≠ "".
Proof.
  unfold py_str, pretty, pretty_Z. destruct n as [|p|p]; [done| |done].
  unfold pretty, pretty_positive, pretty, pretty_N. rewrite decide_False by done.
  by apply pretty_N_go_nonempty.
Qed.

(** *** Splitting what was joined *)

Lemma split_go_word (w : string) cur s :
  has_space w = false → w ≠ "" →
  split_go cur (w +:+ s) = split_go (Some (String.rev_app w (default "" cur))) s.
Proof.
  revert cur; induction w as [|c w IH]; intros cur Hw Hne; [done|].
  rewrite string_app_cons. simpl in *. apply orb_false_iff in Hw as [-> Hw].
  destruct w as [|c' w]; [done|]. by rewrite IH.
Qed.

Lemma split_go_end acc : split_go (Some acc) "" = [String.rev acc].
Proof. done. Qed.

Lemma split_go_space acc s :
  split_go (Some acc) (String " " s) = String.rev acc :: split_go None s.
Proof. done. Qed.

(** [' '.join(words).split() == words] for words that hold no white
    space and are not empty. *)
Lemma split_join_spaces (words : list string) :
  Forall (λ w, has_space w = false ∧ w ≠ "") words →
  split (join_spaces words) = words.
Proof.
  unfold split. induction 1 as [|w words [Hw Hne] Hwords IH]; [done|].
  destruct words as [|w' words].
  - simpl. rewrite <- (string_app_nil_r w) at 1.
    rewrite split_go_word by done. simpl.
    change (String.rev_app w "") with (String.rev w). by rewrite string_rev_involutive.
  - change (join_spaces (w :: w' :: words)) with (w +:+ " " +:+ join_spaces (w' :: words)).
    rewrite split_go_word by done.
    change (" " +:+ join_spaces (w' :: words)) with (String " " (join_spaces (w' :: words))).
    rewrite split_go_space, IH. simpl.
    change (String.rev_app w "") with (String.rev w). by rewrite string_rev_involutive.
Qed.

Lemma coord_text_join (c : Coord) :
  coord_text c = join_spaces [py_str (Coord_x c); py_str (Coord_y c); py_str (Coord_z c)].
Proof. reflexivity. Qed.

Lemma split_coord_text (c : Coord) :
  split (coord_text c) = [py_str (Coord_x c); py_str (Coord_y c); py_str (Coord_z c)].
Proof.
  rewrite coord_text_join. apply split_join_spaces.
  repeat constructor; auto using py_str_no_space, py_str_nonempty.
Qed.

(** A coordinate as the writer formats it is read back as itself. *)
Lemma Coord_parse_coord_text (c : Coord) st : Coord_parse (coord_text c) st = Ok (c, st).
Proof.
  unfold Coord_parse. rewrite split_coord_text. unfold bind.
  rewrite !py_int_py_str. simpl. unfold ret. by destruct c as [[x y] z].
Qed.

(** *** The boxes share no point *)

Section bounding_boxes_partition.
Variable set_pop : gset Coord → Coord.
Hypothesis set_pop_elem : ∀ s : gset Coord, s ≠ ∅ → set_pop s ∈ s.

Lemma bounding_boxes_loop_disjoint (fuel : nat) (todo : gset Coord) boxes :
  bounding_boxes_loop set_pop fuel todo = Some boxes →
  (length boxes ≤ size todo)%nat ∧
  (∀ b c, b ∈ boxes → in_box b c → c ∈ todo) ∧
  (∀ i j b1 b2 c, boxes !! i = Some b1 → boxes !! j = Some b2 →
     in_box b1 c → in_box b2 c → i = j).
Proof.
  revert todo boxes; induction fuel as [|fuel IH]; intros todo boxes; simpl;
    destruct (decide (todo = ∅)) as [->|Hne]; try done.
  - intros [= <-]. split; [simpl; lia|]. split; [by intros b c Hb%elem_of_nil|].
    by intros i j b1 b2 c Hi.
  - intros [= <-]. split; [simpl; lia|]. split; [by intros b c Hb%elem_of_nil|].
    by intros i j b1 b2 c Hi.
  - pose proof (turn_size set_pop set_pop_elem todo Hne) as Hlt.
    pose proof (turn_split set_pop set_pop_elem todo) as Hsplit.
    cbv zeta in Hlt, Hsplit.
    set (seed := set_pop todo) in *.
    set (box := grow (todo ∖ {[seed]}) seed) in *.
    set (todo' := discard_box (todo ∖ {[seed]}) box) in *.
    destruct (bounding_boxes_loop set_pop fuel todo') as [boxes'|] eqn:Hrun; [|done].
    intros [= <-]. destruct (IH todo' boxes' Hrun) as (Hlen & Hsub & Hdis).
    split; [simpl; lia|]. split.
    + intros b c Hb Hc. apply (Hsplit c Hne).
      apply elem_of_cons in Hb as [->|Hb]; [by left|right; eauto].
    + assert (∀ b c, b ∈ boxes' → in_box b c → ¬ in_box box c) as Hout.
      { intros b c Hb Hc Hbox. specialize (Hsub b c Hb Hc).
        unfold todo' in Hsub. by apply elem_of_discard_box in Hsub as [_ ?]. }
      intros [|i] [|j] b1 b2 c Hi Hj Hc1 Hc2; simpl in Hi, Hj.
      * done.
      * injection Hi as <-. exfalso. eapply Hout; [|exact Hc2|exact Hc1].
        by eapply list_elem_of_lookup_2.
      * injection Hj as <-. exfalso. eapply Hout; [|exact Hc1|exact Hc2].
        by eapply list_elem_of_lookup_2.
      * f_equal. by eapply Hdis.
Qed.
End bounding_boxes_partition.

(** *** A full box *)

Lemma extend_count_up_exact ok a (n : nat) hi :
  a ≤ hi ≤ a + Z.of_nat n →
  (∀ v, a < v ≤ hi → ok v = true) →
  (hi < a + Z.of_nat n → ok (hi + 1) = false) →
  extend ok (count_up (a + 1) n) a = hi.
Proof.
  revert a; induction n as [|n IH]; intros a Hhi Hok Hstop; simpl.
  - lia.
  - destruct (decide (hi = a)) as [->|Hne].
    + rewrite Hstop by lia. done.
    + rewrite Hok by lia. apply IH; [lia| |].
      * intros v Hv. apply Hok. lia.
      * intros Hlt. apply Hstop. lia.
Qed.

Lemma extend_count_down_exact ok a (n : nat) lo :
  a - Z.of_nat n ≤ lo ≤ a →
  (∀ v, lo ≤ v < a → ok v = true) →
  (a - Z.of_nat n < lo → ok (lo - 1) = false) →
  extend ok (count_down (a - 1) n) a = lo.
Proof.
  revert a; induction n as [|n IH]; intros a Hlo Hok Hstop; simpl.
  - lia.
  - destruct (decide (lo = a)) as [->|Hne].
    + rewrite Hstop by lia. done.
    + rewrite Hok by lia. apply IH; [lia| |].
      * intros v Hv. apply Hok. lia.
      * intros Hlt. apply Hstop. lia.
Qed.

Lemma extend_range_up_exact ok a hi :
  a ≤ hi ≤ a + 49 →
  (∀ v, a < v ≤ hi → ok v = true) →
  (hi < a + 49 → ok (hi + 1) = false) →
  extend ok (range (a + 1) (a + EXTENT)) a = hi.
Proof.
  intros. unfold range, EXTENT. replace (Z.to_nat (a + 50 - (a + 1))) with 49%nat by lia.
  by apply extend_count_up_exact.
Qed.

Lemma extend_range_down_exact ok a lo :
  a - 49 ≤ lo ≤ a →
  (∀ v, lo ≤ v < a → ok v = true) →
  (a - 49 < lo → ok (lo - 1) = false) →
  extend ok (range_down (a - 1) (a - EXTENT)) a = lo.
Proof.
  intros. unfold range_down, EXTENT. replace (Z.to_nat (a - 1 - (a - 50))) with 49%nat by lia.
  by apply extend_count_down_exact.
Qed.

Lemma forallb_range_false f a b v :
  a ≤ v < b → f v = false → forallb f (range a b) = false.
Proof.
  intros Hv Hf. apply not_true_is_false. rewrite forallb_range. intros Hall.
  specialize (Hall v Hv). congruence.
Qed.

(** Growing from any point of a full box, no side of which is longer
    than 50 voxels, gives the box. *)
Lemma grow_full_box (todo : gset Coord) (b : Coord * Coord) (seed : Coord) :
  (∀ c, c ∈ todo ↔ in_box b c ∧ c ≠ seed) →
  in_box b seed →
  Coord_x b.2 - Coord_x b.1 ≤ 49 → Coord_y b.2 - Coord_y b.1 ≤ 49 →
  Coord_z b.2 - Coord_z b.1 ≤ 49 →
  grow todo seed = b.
Proof.
  destruct b as [[[x1 y1] z1] [[x2 y2] z2]], seed as [[sx sy] sz].
  unfold in_box, Coord_x, Coord_y, Coord_z. simpl.
  intros Htodo (Hx & Hy & Hz) Hwx Hwy Hwz.
  assert (Hin : ∀ x y z, (x, y, z) ∈ todo ↔
            (x1 ≤ x ≤ x2 ∧ y1 ≤ y ≤ y2 ∧ z1 ≤ z ≤ z2) ∧ (x, y, z) ≠ (sx, sy, sz)).
  { intros x y z. by rewrite Htodo. }
  unfold grow. cbv beta iota zeta.
  set (okx := λ x, bool_decide ((x, sy, sz) ∈ todo)).
  assert (extend okx (range (sx + 1) (sx + EXTENT)) sx = x2) as ->.
  { apply extend_range_up_exact; [lia| |].
    - intros v Hv. apply bool_decide_eq_true, Hin. split; [lia|]. intros [=]. lia.
    - intros _. apply bool_decide_eq_false. rewrite Hin. lia. }
  assert (extend okx (range_down (sx - 1) (sx - EXTENT)) sx = x1) as ->.
  { apply extend_range_down_exact; [lia| |].
    - intros v Hv. apply bool_decide_eq_true, Hin. split; [lia|]. intros [=]. lia.
    - intros _. apply bool_decide_eq_false. rewrite Hin. lia. }
  set (oky := λ y, forallb (λ x, bool_decide ((x, y, sz) ∈ todo)) (range x1 (x2 + 1))).
  assert (extend oky (range (sy + 1) (sy + EXTENT)) sy = y2) as ->.
  { apply extend_range_up_exact; [lia| |].
    - intros v Hv. apply forallb_range. intros x Hx'.
      apply bool_decide_eq_true, Hin. split; [lia|]. intros [=]. lia.
    - intros _. apply (forallb_range_false _ _ _ x1); [lia|].
      apply bool_decide_eq_false. rewrite Hin. lia. }
  assert (extend oky (range_down (sy - 1) (sy - EXTENT)) sy = y1) as ->.
  { apply extend_range_down_exact; [lia| |].
    - intros v Hv. apply forallb_range. intros x Hx'.
      apply bool_decide_eq_true, Hin. split; [lia|]. intros [=]. lia.
    - intros _. apply (forallb_range_false _ _ _ x1); [lia|].
      apply bool_decide_eq_false. rewrite Hin. lia. }
  set (okz := λ z, forallb (λ x, forallb (λ y, bool_decide ((x, y, z) ∈ todo))
                                   (range y1 (y2 + 1))) (range x1 (x2 + 1))).
  assert (extend okz (range (sz + 1) (sz + EXTENT)) sz = z2) as ->.
  { apply extend_range_up_exact; [lia| |].
    - intros v Hv. apply forallb_range. intros x Hx'. apply forallb_range. intros y Hy'.
      apply bool_decide_eq_true, Hin. split; [lia|]. intros [=]. lia.
    - intros _. apply (forallb_range_false _ _ _ x1); [lia|].
      apply (forallb_range_false _ _ _ y1); [lia|].
      apply bool_decide_eq_false. rewrite Hin. lia. }
  assert (extend okz (range_down (sz - 1) (sz - EXTENT)) sz = z1) as ->.
  { apply extend_range_down_exact; [lia| |].
    - intros v Hv. apply forallb_range. intros x Hx'. apply forallb_range. intros y Hy'.
      apply bool_decide_eq_true, Hin. split; [lia|]. intros [=]. lia.
    - intros _. apply (forallb_range_false _ _ _ x1); [lia|].
      apply (forallb_range_false _ _ _ y1); [lia|].
      apply bool_decide_eq_false. rewrite Hin. lia. }
  done.
Qed.

Lemma bounding_boxes_full_box (set_pop : gset Coord → Coord) (voxels : gset Coord) (b : Coord * Coord) :
  (∀ s : gset Coord, s ≠ ∅ → set_pop s ∈ s) →
  (∀ c, c ∈ voxels ↔ in_box b c) →
  in_box b b.1 →
  Coord_x b.2 - Coord_x b.1 ≤ 49 → Coord_y b.2 - Coord_y b.1 ≤ 49 →
  Coord_z b.2 - Coord_z b.1 ≤ 49 →
  bounding_boxes set_pop voxels = Some [b].
Proof.
  intros Hpop Hvox Hb Hwx Hwy Hwz. unfold bounding_boxes.
  assert (voxels ≠ ∅) as Hne.
  { intros ->. apply Hvox in Hb. by apply elem_of_empty in Hb. }
  destruct (size voxels) as [|fuel] eqn:Hsize.
  { apply size_empty_inv in Hsize. exfalso. apply Hne. by apply leibniz_equiv. }
  simpl. rewrite decide_False by done.
  pose proof (Hpop voxels Hne) as Hseed. set (seed := set_pop voxels) in *.
  assert (grow (voxels ∖ {[seed]}) seed = b) as ->.
  { apply grow_full_box; [|by apply Hvox|done..].
    intros c. rewrite elem_of_difference, elem_of_singleton, Hvox. done. }
  assert (discard_box (voxels ∖ {[seed]}) b = ∅) as ->.
  { apply leibniz_equiv. intros c.
    rewrite elem_of_discard_box, elem_of_difference, Hvox, elem_of_empty. tauto. }
  by destruct fuel.
Qed.

Section frame.
Context {E : Externals}.

Lemma keeps_block {A} (f : Item.t E → A) name cb
    (body : string → Item.t E → Parser (Item.t E)) self :
  (∀ key self, keeps f self (body key self)) → keeps f self (block name cb body self).
Proof.
  intros Hbody st it st' Hrun.
  apply (block_invariant (λ it, f it = f self)) in Hrun; [done| |done].
  intros key a st0 a' st0' Ha Hrun'. rewrite <- Ha. by eapply Hbody.
Qed.

Lemma keeps_for_each {A B} (f : Item.t E → A) (xs : list B)
    (body : B → Item.t E → Parser (Item.t E)) self :
  (∀ x self, keeps f self (body x self)) → keeps f self (for_each xs body self).
Proof.
  intros Hbody st it st' Hrun.
  apply (for_each_invariant (λ it, f it = f self)) in Hrun; [done| |done].
  intros x a st0 a' st0' Ha Hrun'. rewrite <- Ha. by eapply Hbody.
Qed.

Lemma setattr_bool_outside_editor key attr value (self : Item.t E) :
  dict_get _BOOL_ATTRS key = Some attr →
  outside_editor (setattr_bool attr value self) = outside_editor self.
Proof.
  simpl. intros H. unfold setattr_bool. repeat case_decide; by simplify_eq.
Qed.

Lemma editor_key_outside key (self : Item.t E) :
  keeps outside_editor self (parse_editor_key key self).
Proof.
  intros st it st' H. unfold parse_editor_key in H. cbv zeta in H.
  destruct (dict_get _BOOL_ATTRS (casefold key)) as [attr|] eqn:Hattr.
  - repeat case_decide; try (run_apart H; done).
    + inv_bind H. eapply keeps_for_each; [|exact H].
      intros word self' st1 a2 st2 Hword. run_apart Hword. done.
    + run_apart H. by eapply setattr_bool_outside_editor.
  - repeat case_decide; try (run_apart H; done).
    inv_bind H. eapply keeps_for_each; [|exact H].
    intros word self' st1 a2 st2 Hword. run_apart Hword. done.
Qed.

Lemma editor_block_outside (self : Item.t E) :
  keeps outside_editor self (_parse_editor_block self).
Proof. apply keeps_block, editor_key_outside. Qed.

Lemma properties_block_outside (self : Item.t E) :
  keeps outside_properties self (_parse_properties_block self).
Proof.
  apply keeps_block. intros key self' st it st' H.
  unfold parse_properties_key in H. run_apart H. done.
Qed.

Lemma instance_block_outside inst_name (self : Item.t E) :
  keeps outside_export self (_parse_instance_block inst_name self).
Proof.
  intros st it st' H. unfold _parse_instance_block in H.
  inv_bind H. destruct a as [[inst_ind inst_name'] self'].
  assert (outside_export self' = outside_export self) as <-.
  { destruct (py_int inst_name); [|destruct (startswith _ _)].
    - by apply ret_Ok in H0 as [[= _ _ <-] _].
    - by apply ret_Ok in H0 as [[= _ _ <-] _].
    - by injection H0 as _ _ <- _. }
  run_apart H; done.
Qed.

Lemma connection_points_outside (self : Item.t E) :
  keeps outside_export self (_parse_connection_points self).
Proof.
  apply keeps_block. intros key self' st it st' H.
  unfold parse_connection_point in H. run_apart H. done.
Qed.

Lemma embedded_voxels_outside (self : Item.t E) :
  keeps outside_export self (_parse_embedded_voxels self).
Proof.
  apply keeps_block. intros key self' st it st' H.
  unfold parse_embedded_key in H. repeat case_decide.
  - unfold parse_volume in H. run_apart H. done.
  - eapply keeps_block; [|exact H].
    intros key' self'' stv itv stv' Hv. unfold parse_voxel_key in Hv. run_apart Hv. done.
  - by apply ret_Ok in H as [<- _].
Qed.

Lemma embed_faces_outside (self : Item.t E) :
  keeps outside_export self (_parse_embed_faces self).
Proof.
  apply keeps_block. intros key self' st it st' H.
  unfold parse_embed_face in H. run_apart H. done.
Qed.

Lemma overlay_outside (self : Item.t E) : keeps outside_export self (_parse_overlay self).
Proof. intros st it st' H. unfold _parse_overlay in H. run_apart H. done. Qed.

Lemma export_block_outside (self : Item.t E) :
  keeps outside_export self (_parse_export_block self).
Proof.
  apply keeps_block. intros key self' st it st' H.
  unfold parse_export_key in H. repeat case_decide.
  - run_apart H. done.
  - run_apart H. done.
  - eapply keeps_block; [|exact H]. intros. apply instance_block_outside.
  - by eapply connection_points_outside.
  - by eapply embedded_voxels_outside.
  - by eapply embed_faces_outside.
  - by eapply overlay_outside.
  - run_apart H. done.
Qed.
End frame.

Lemma to_upper_idemp c : to_upper (to_upper c) = to_upper c.
Proof. by destruct c as [[] [] [] [] [] [] [] []]. Qed.

Lemma upper_idemp s : upper (upper s) = upper s.
Proof.
  unfold upper. induction s as [|c s IH]; simpl; [done|].
  by rewrite to_upper_idemp, IH.
Qed.

Lemma dict_set_Forall_kv {K V} `{EqDecision K} (P : K → V → Prop) (d : dict K V) k v :
  Forall (λ kv, P kv.1 kv.2) d → P k v → Forall (λ kv, P kv.1 kv.2) (dict_set d k v).
Proof.
  intros Hd Hv. induction d as [|[k' v'] d IH]; simpl.
  - by constructor.
  - apply Forall_cons in Hd as [Hv' Hd]. case_decide; constructor; auto.
Qed.

Lemma dict_get_Forall_kv {K V} `{EqDecision K} (P : K → V → Prop) (d : dict K V) k v :
  Forall (λ kv, P kv.1 kv.2) d → dict_get d k = Some v → P k v.
Proof.
  intros Hd. induction d as [|[k' v'] d IH]; simpl; [done|].
  apply Forall_cons in Hd as [Hv' Hd]. case_decide; [|auto].
  intros [= <-]. by subst.
Qed.

Section parsed_items.
Context {E : Externals}.

Lemma well_made_outside_editor (a b : Item.t E) :
  outside_editor a = outside_editor b → well_made b → well_made a.
Proof. unfold well_made. intros H [Hid Hps]. inversion H. split; congruence. Qed.

Lemma well_made_outside_properties (a b : Item.t E) :
  outside_properties a = outside_properties b → well_made b → well_made a.
Proof. unfold well_made. intros H [Hid Hps]. inversion H. split; congruence. Qed.

Lemma well_made_outside_export (a b : Item.t E) :
  outside_export a = outside_export b → well_made b → well_made a.
Proof. unfold well_made. intros H [Hid Hps]. inversion H. split; congruence. Qed.

Lemma parse_one_token_well_made token tok_value (item : Item.t E) st r st' :
  well_made item →
  parse_one_token token tok_value item st = Ok (r, st') →
  match r with
  | inl it => well_made it
  | inr it => well_made it ∧ Item.id it ≠ ""
  end.
Proof.
  intros Hitem H. unfold parse_one_token in H. cbv zeta in H.
  repeat case_decide; run_apart H; simpl; try done.
  - destruct Hitem as [_ Hps]. split; [apply upper_idemp|exact Hps].
  - eapply well_made_outside_editor; [|exact Hitem]. by eapply editor_block_outside.
  - eapply well_made_outside_properties; [|exact Hitem]. by eapply properties_block_outside.
  - eapply well_made_outside_export; [|exact Hitem]. by eapply export_block_outside.
Qed.

Lemma Item_parse_one_well_made st (it : Item.t E) st' :
  Item_parse_one st = Ok (it, st') → well_made it ∧ Item.id it ≠ "".
Proof.
  intros H. unfold Item_parse_one in H. inv_bind H. inv_bind H.
  destruct a0 as [item [returned|]]; [|done]. apply ret_Ok in H as [<- _].
  unfold for_tokens in H1.
  apply (token_loop_invariant well_made (λ it, well_made it ∧ Item.id it ≠ ""))
    in H1 as [_ Hq]; [done| |done].
  intros t v item0 stb r stb' Hitem Hbody. by eapply parse_one_token_well_made.
Qed.

(** The document [Item.parse] returns: every item is filed under its own
    id, every icon under its own type. *)
Lemma Item_parse_tokens_filed st items icons st' :
  @Item_parse_tokens E st = Ok ((items, icons), st') →
  Forall (λ kv, Item.id kv.2 = kv.1 ∧ well_made kv.2 ∧ kv.1 ≠ "") items ∧
  Forall (λ kv, Renderable.type kv.2 = kv.1) icons.
Proof.
  intros H. unfold Item_parse_tokens in H. inv_bind H. case_decide; [done|].
  apply (block_invariant
           (λ s, Forall (λ kv, Item.id kv.2 = kv.1 ∧ well_made kv.2 ∧ kv.1 ≠ "") s.1 ∧
                 Forall (λ kv, Renderable.type kv.2 = kv.1) s.2)) in H; [done| |by split].
  intros key [items1 icons1] stk [items2 icons2] stk' [Hitems Hicons] Hkey.
  unfold parse_itemdata_key in Hkey. repeat case_decide; [| |done].
  - inv_bind Hkey. inv_bind Hkey. apply ret_Ok in Hkey as [[= <- <-] _].
    simpl in *. split; [|done].
    apply Item_parse_one_well_made in Hkey0 as [Hmade Hid].
    by apply (dict_set_Forall_kv (λ k it, Item.id it = k ∧ well_made it ∧ k ≠ "")).
  - inv_bind Hkey. apply ret_Ok in Hkey as [[= <- <-] _]. simpl in *. split; [done|].
    apply (block_invariant (λ s, Forall (λ kv, Renderable.type kv.2 = kv.1) s))
      in Hkey0; [done| |done].
    intros key' icons0 str icons' str' Hic Hr. unfold parse_renderables_key in Hr.
    case_decide; [done|]. inv_bind Hr. apply ret_Ok in Hr as [<- _].
    by apply (dict_set_Forall_kv (λ k r, Renderable.type r = k)).
Qed.
End parsed_items.

(** *** Paths and suffixes *)

Lemma string_length_app (s t : string) :
  String.length (s +:+ t) = (String.length s + String.length t)%nat.
Proof. induction s as [|c s IH]; [done|]. rewrite string_app_cons. simpl. by rewrite IH. Qed.

Lemma string_drop_app (s t : string) : string_drop (String.length s) (s +:+ t) = t.
Proof. induction s as [|c s IH]; [by destruct t|]. by rewrite string_app_cons. Qed.

Lemma string_length_drop (n : nat) (s : string) :
  String.length (string_drop n s) = (String.length s - n)%nat.
Proof. revert s; induction n as [|n IH]; intros [|c s]; simpl; auto with lia. Qed.

Lemma string_length_take (n : nat) (s : string) :
  String.length (string_take n s) = (n `min` String.length s)%nat.
Proof. revert s; induction n as [|n IH]; intros [|c s]; simpl; auto with lia. Qed.

Lemma rfind_dot_app (i : nat) (s t : string) :
  rfind_dot i (s +:+ t) =
  match rfind_dot (i + String.length s) t with
  | Some j => Some j
  | None => rfind_dot i s
  end.
Proof.
  revert i; induction s as [|c s IH]; intros i.
  - simpl. rewrite Nat.add_0_r. change ("" +:+ t) with t. by destruct (rfind_dot i t).
  - rewrite string_app_cons. simpl. rewrite IH, Nat.add_succ_r. simpl.
    by destruct (rfind_dot _ t).
Qed.

(** The suffix of a name that ends in [.mdl], [.3ds] or [.png] after a
    stem that is not empty. *)
Lemma suffix_of_stem (root : string) (parts : list string) (stem ext : string) :
  stem ≠ "" → ext ∈ ["mdl"; "3ds"; "png"] →
  FSPath_suffix (mkFSPath root (parts ++ [stem +:+ String "." ext])) = String "." ext.
Proof.
  intros Hstem Hext. unfold FSPath_suffix, FSPath_name. simpl. rewrite last_snoc. simpl.
  rewrite rfind_dot_app.
  assert (rfind_dot (0 + String.length stem) (String "." ext) = Some (String.length stem)) as ->.
  { repeat (apply elem_of_cons in Hext as [->|Hext]; [done|]). by apply elem_of_nil in Hext. }
  rewrite string_length_app, string_drop_app.
  rewrite bool_decide_eq_true_2; [done|].
  destruct stem; [done|].
  repeat (apply elem_of_cons in Hext as [->|Hext]; [simpl; lia|]). by apply elem_of_nil in Hext.
Qed.

Lemma FSPath_suffix_length (p : FSPath) :
  FSPath_name p ≠ "" → (String.length (FSPath_suffix p) < String.length (FSPath_name p))%nat.
Proof.
  intros Hname. unfold FSPath_suffix.
  assert (0 < String.length (FSPath_name p))%nat by (destruct (FSPath_name p); [done|simpl; lia]).
  destruct (rfind_dot 0 (FSPath_name p)) as [i|]; [|simpl; lia].
  case_bool_decide; [|simpl; lia]. rewrite string_length_drop. lia.
Qed.

(** [with_suffix] gives a path with that suffix. *)
Lemma FSPath_with_suffix_suffix (p p' : FSPath) (ext : string) :
  ext ∈ ["mdl"; "3ds"; "png"] →
  FSPath_with_suffix p (String "." ext) = Some p' →
  FSPath_suffix p' = String "." ext.
Proof.
  intros Hext. unfold FSPath_with_suffix. case_decide as Hname; [done|]. intros [= <-].
  apply suffix_of_stem; [|done].
  pose proof (FSPath_suffix_length p Hname) as Hlen.
  intros Hstem. apply (f_equal String.length) in Hstem.
  rewrite string_length_take in Hstem. simpl in Hstem. lia.
Qed.

(** A path with no name has no suffix, and [with_suffix] raises. *)
Lemma FSPath_no_name (p : FSPath) (suffix : string) :
  FSPath_name p = "" → FSPath_suffix p = "" ∧ FSPath_with_suffix p suffix = None.
Proof.
  intros Hname. unfold FSPath_suffix, FSPath_with_suffix. rewrite Hname. simpl.
  by split.
Qed.

(** *** Subtypes *)

(** Every model of a parsed subtype has the suffix [.mdl], in some
    capitalisation. *)
Lemma SubType_parse_key_models key subtype st subtype' st' :
  Forall (λ m, casefold (FSPath_suffix m) = ".mdl") (SubType.models subtype) →
  SubType_parse_key key subtype st = Ok (subtype', st') →
  Forall (λ m, casefold (FSPath_suffix m) = ".mdl") (SubType.models subtype').
Proof.
  intros Hmodels H. unfold SubType_parse_key in H. cbv zeta in H.
  repeat case_decide.
  - run_apart H. done.
  - inv_bind H. destruct a as [token tok_value]. inv_bind H. inv_bind H. inv_bind H.
    apply ret_Ok in H as [<- _]. simpl. apply Forall_app. split; [done|].
    apply Forall_singleton. case_decide as Hsuffix.
    + apply or_raise_Ok in H5 as [H5 _].
      rewrite (FSPath_with_suffix_suffix a0 a1 "mdl"); [done|repeat constructor|exact H5].
    + apply ret_Ok in H5 as [<- _].
      destruct (decide (casefold (FSPath_suffix a0) = ".mdl")) as [|Hne]; [done|].
      by destruct Hsuffix.
  - eapply (block_invariant (λ s, Forall (λ m, casefold (FSPath_suffix m) = ".mdl")
                                    (SubType.models s))); [|exact Hmodels|exact H].
    intros k a sta a' sta' Ha Hk. unfold SubType_palette_key in Hk. cbv zeta in Hk.
    repeat case_decide; run_apart Hk; done.
  - eapply (block_invariant (λ s, Forall (λ m, casefold (FSPath_suffix m) = ".mdl")
                                    (SubType.models s))); [|exact Hmodels|exact H].
    intros k a sta a' sta' Ha Hk. unfold SubType_sounds_key in Hk. run_apart Hk. done.
  - run_apart H. done.
  - done.
Qed.

Lemma SubType_parse_models st subtype st' :
  SubType_parse st = Ok (subtype, st') →
  Forall (λ m, casefold (FSPath_suffix m) = ".mdl") (SubType.models subtype).
Proof.
  intros H. unfold SubType_parse in H.
  eapply (block_invariant (λ s, Forall (λ m, casefold (FSPath_suffix m) = ".mdl")
                                  (SubType.models s))); [| |exact H].
  - intros key a sta a' sta' Ha Hk. by eapply SubType_parse_key_models.
  - simpl. constructor.
Qed.

(** The sounds of a parsed subtype: one entry for each kind of sound, in
    the order of [DEFAULT_SOUNDS]; a [Sounds] block replaces scripts and
    neither adds nor drops a kind. *)
Lemma dict_set_keys_in {K V} `{EqDecision K} (d : dict K V) k v :
  k ∈ d.*1 → (dict_set d k v).*1 = d.*1.
Proof.
  induction d as [|[k' v'] d IH]; simpl; [by intros ?%elem_of_nil|].
  intros Hk. case_decide as Heq; simpl; [by subst|].
  f_equal. apply IH. apply elem_of_cons in Hk as [->|]; done.
Qed.

Lemma SubType_parse_key_sounds key subtype st subtype' st' :
  (SubType.sounds subtype).*1 = DEFAULT_SOUNDS.*1 →
  SubType_parse_key key subtype st = Ok (subtype', st') →
  (SubType.sounds subtype').*1 = DEFAULT_SOUNDS.*1.
Proof.
  intros Hsounds H. unfold SubType_parse_key in H. cbv zeta in H.
  repeat case_decide.
  - run_apart H. done.
  - run_apart H; done.
  - eapply (block_invariant (λ s, (SubType.sounds s).*1 = DEFAULT_SOUNDS.*1));
      [|exact Hsounds|exact H].
    intros k a sta a' sta' Ha Hk. unfold SubType_palette_key in Hk. cbv zeta in Hk.
    repeat case_decide; run_apart Hk; done.
  - eapply (block_invariant (λ s, (SubType.sounds s).*1 = DEFAULT_SOUNDS.*1));
      [|exact Hsounds|exact H].
    intros k a sta a' sta' Ha Hk. unfold SubType_sounds_key in Hk. run_apart Hk. simpl.
    rewrite dict_set_keys_in; [done|]. rewrite Ha. by destruct a0; vm_compute; set_solver.
  - run_apart H. done.
  - done.
Qed.

Lemma SubType_parse_sounds st subtype st' :
  SubType_parse st = Ok (subtype, st') →
  (SubType.sounds subtype).*1 = DEFAULT_SOUNDS.*1.
Proof.
  intros H. unfold SubType_parse in H.
  eapply (block_invariant (λ s, (SubType.sounds s).*1 = DEFAULT_SOUNDS.*1)); [| |exact H].
  - intros key a sta a' sta' Ha Hk. by eapply SubType_parse_key_sounds.
  - done.
Qed.

(** *** Paths and their text *)

Lemma no_slash_rev_app (s1 s2 : string) :
  no_slash (String.rev_app s1 s2) = no_slash s1 && no_slash s2.
Proof.
  revert s2; induction s1 as [|c s1 IH]; intros s2; [done|].
  simpl. rewrite IH. simpl. by destruct (Ascii.eqb c "/"), (no_slash s1), (no_slash s2).
Qed.

Lemma split_slash_word (w cur s : string) :
  no_slash w = true →
  split_slash cur (w +:+ s) = split_slash (String.rev_app w cur) s.
Proof.
  revert cur; induction w as [|c w IH]; intros cur Hw; [done|].
  rewrite string_app_cons. simpl in *. apply andb_true_iff in Hw as [Hc Hw].
  apply negb_true_iff in Hc. rewrite Hc. by apply IH.
Qed.

Lemma split_slash_join (parts : list string) :
  parts ≠ [] → Forall (λ x, no_slash x = true) parts →
  split_slash "" (join_slash parts) = parts.
Proof.
  intros Hne Hparts. induction Hparts as [|w parts Hw Hparts IH]; [done|].
  destruct parts as [|w' parts].
  - simpl. rewrite <- (string_app_nil_r w) at 1. rewrite split_slash_word by done.
    simpl. change (String.rev_app w "") with (String.rev w).
    by rewrite string_rev_involutive.
  - change (join_slash (w :: w' :: parts)) with (w +:+ "/" +:+ join_slash (w' :: parts)).
    rewrite split_slash_word by done.
    change ("/" +:+ join_slash (w' :: parts)) with (String "/" (join_slash (w' :: parts))).
    change (split_slash (String.rev_app w "") (String "/" (join_slash (w' :: parts))))
      with (String.rev (String.rev_app w "") :: split_slash "" (join_slash (w' :: parts))).
    rewrite IH by done.
    change (String.rev_app w "") with (String.rev w). by rewrite string_rev_involutive.
Qed.

Lemma no_slash_split_slash (cur s : string) :
  no_slash cur = true → Forall (λ x, no_slash x = true) (split_slash cur s).
Proof.
  revert cur; induction s as [|c s IH]; intros cur Hcur; simpl.
  - apply Forall_singleton. unfold String.rev. by rewrite no_slash_rev_app, Hcur.
  - destruct (Ascii.eqb c "/") eqn:Hc.
    + constructor; [|by apply IH]. unfold String.rev. by rewrite no_slash_rev_app, Hcur.
    + apply IH. simpl. by rewrite Hc.
Qed.

Lemma path_made_FSPath_of (s : string) : path_made (FSPath_of s).
Proof.
  unfold FSPath_of, path_made. simpl. split.
  - destruct (String.length s - String.length (lstrip_slash s))%nat as [|[|[|n]]];
      rewrite !elem_of_cons; tauto.
  - apply Forall_forall. intros x Hx. apply list_elem_of_filter in Hx as [[Hne Hdot] Hx].
    split; [|done].
    pose proof (no_slash_split_slash "" (lstrip_slash s) eq_refl) as Hall.
    rewrite Forall_forall in Hall. by apply Hall.
Qed.

Lemma lstrip_slash_join (parts : list string) :
  parts ≠ [] → Forall (λ x, no_slash x = true ∧ x ≠ "" ∧ x ≠ ".") parts →
  lstrip_slash (join_slash parts) = join_slash parts ∧ join_slash parts ≠ "".
Proof.
  intros Hne Hparts. destruct Hparts as [|w parts (Hw & Hw' & _) Hparts]; [done|].
  destruct w as [|c w]; [done|]. simpl in Hw. apply andb_true_iff in Hw as [Hc _].
  assert (∃ t, join_slash (String c w :: parts) = String c t) as [t ->].
  { destruct parts; simpl; eauto. }
  split; [|done]. simpl. apply negb_true_iff in Hc.
  destruct c as [[] [] [] [] [] [] [] []]; done.
Qed.

(** [FSPath(str(path)) == path] *)
Lemma FSPath_of_str (p : FSPath) : path_made p → FSPath_of (FSPath_str p) = p.
Proof.
  destruct p as [root parts]. unfold path_made. simpl. intros [Hroot Hparts].
  destruct parts as [|w parts].
  - repeat (apply elem_of_cons in Hroot as [->|Hroot]; [done|]). by apply elem_of_nil in Hroot.
  - destruct (lstrip_slash_join (w :: parts)) as [Hstrip Hjoin]; [done..|].
    assert (Forall (λ x, no_slash x = true) (w :: parts)) as Hns.
    { eapply Forall_impl; [exact Hparts|]. by intros x (? & _). }
    assert (filter (λ x, x ≠ "" ∧ x ≠ ".") (w :: parts) = w :: parts) as Hfilter.
    { clear -Hparts. induction Hparts as [|x l (_ & ? & ?) _ IH]; [done|].
      rewrite filter_cons_True by done. by rewrite IH. }
    unfold FSPath_str, FSPath_of. cbn [fs_root fs_parts].
    set (J := join_slash (w :: parts)) in *.
    repeat (apply elem_of_cons in Hroot as [->|Hroot]).
    + change ("" +:+ J) with J. rewrite decide_False by done.
      rewrite Hstrip, Nat.sub_diag. unfold J. by rewrite split_slash_join, Hfilter.
    + change ("/" +:+ J) with (String "/" J). rewrite decide_False by done.
      change (lstrip_slash (String "/" J)) with (lstrip_slash J). rewrite Hstrip.
      replace (String.length (String "/" J) - String.length J)%nat with 1%nat by (simpl; lia).
      unfold J. by rewrite split_slash_join, Hfilter.
    + change ("//" +:+ J) with (String "/" (String "/" J)). rewrite decide_False by done.
      change (lstrip_slash (String "/" (String "/" J))) with (lstrip_slash J). rewrite Hstrip.
      replace (String.length (String "/" (String "/" J)) - String.length J)%nat
        with 2%nat by (simpl; lia).
      unfold J. by rewrite split_slash_join, Hfilter.
    + by apply elem_of_nil in Hroot.
Qed.

Lemma string_take_app (s t : string) : string_take (String.length s) (s +:+ t) = s.
Proof.
  induction s as [|c s IH]; [by destruct t|]. rewrite string_app_cons. simpl. by rewrite IH.
Qed.

Lemma no_slash_app (s t : string) : no_slash (s +:+ t) = no_slash s && no_slash t.
Proof.
  induction s as [|c s IH]; [done|]. rewrite string_app_cons. simpl.
  by rewrite IH, andb_assoc.
Qed.

Lemma no_slash_take (n : nat) (s : string) : no_slash s = true → no_slash (string_take n s) = true.
Proof.
  revert s; induction n as [|n IH]; intros [|c s]; simpl; try done.
  intros [-> Hs]%andb_true_iff. by rewrite IH.
Qed.

Lemma FSPath_name_snoc root parts name : FSPath_name (mkFSPath root (parts ++ [name])) = name.
Proof. unfold FSPath_name. simpl. by rewrite last_snoc. Qed.

(** The stem [with_suffix] keeps is not empty. *)
Lemma FSPath_stem_nonempty (p : FSPath) :
  FSPath_name p ≠ "" →
  string_take (String.length (FSPath_name p) - String.length (FSPath_suffix p))
    (FSPath_name p) ≠ "".
Proof.
  intros Hname Hstem. pose proof (FSPath_suffix_length p Hname) as Hlen.
  apply (f_equal String.length) in Hstem. rewrite string_length_take in Hstem.
  simpl in Hstem. lia.
Qed.

(** [path.with_suffix(a).with_suffix(b) == path.with_suffix(b)] *)
Lemma FSPath_with_suffix_twice (p q : FSPath) (ext ext' : string) :
  ext ∈ ["mdl"; "3ds"; "png"] →
  FSPath_with_suffix p (String "." ext) = Some q →
  FSPath_with_suffix q ext' = FSPath_with_suffix p ext'.
Proof.
  intros Hext. unfold FSPath_with_suffix at 1 3. case_decide as Hname; [done|].
  intros [= <-]. pose proof (FSPath_stem_nonempty p Hname) as Hstem.
  set (stem := string_take _ (FSPath_name p)) in *.
  unfold FSPath_with_suffix. rewrite suffix_of_stem by done.
  rewrite FSPath_name_snoc. cbn [fs_root fs_parts].
  rewrite decide_False by (destruct stem; done).
  rewrite string_length_app, Nat.add_sub, string_take_app.
  by rewrite removelast_last.
Qed.

(** [with_suffix] on a path as [FSPath(...)] builds them gives such a
    path. *)
Lemma path_made_with_suffix (p q : FSPath) (ext : string) :
  ext ∈ ["mdl"; "3ds"; "png"] →
  path_made p → FSPath_with_suffix p (String "." ext) = Some q → path_made q.
Proof.
  intros Hext [Hroot Hparts]. unfold FSPath_with_suffix. case_decide as Hname; [done|].
  intros [= <-]. pose proof (FSPath_stem_nonempty p Hname) as Hstem.
  set (stem := string_take _ (FSPath_name p)) in *.
  split; [done|]. cbn [fs_parts]. apply Forall_app. split.
  - destruct (fs_parts p) as [|x l] using rev_ind; [done|].
    rewrite removelast_last. by apply Forall_app in Hparts as [? _].
  - apply Forall_singleton. split; [|split].
    + rewrite no_slash_app. apply andb_true_iff. split.
      * apply no_slash_take. unfold FSPath_name.
        destruct (fs_parts p) as [|x l _] using rev_ind; [done|].
        rewrite last_snoc. simpl.
        apply Forall_app in Hparts as [_ Hx]. by apply Forall_singleton in Hx as [? _].
      * repeat (apply elem_of_cons in Hext as [->|Hext]; [done|]). by apply elem_of_nil in Hext.
    + destruct stem; done.
    + intros H. apply (f_equal String.length) in H. rewrite string_length_app in H.
      destruct stem; [done|]. simpl in H. lia.
Qed.

(** A path as [FSPath(...)] builds them has a name unless it has no
    component. *)
Lemma path_made_name (p : FSPath) : path_made p → fs_parts p ≠ [] → FSPath_name p ≠ "".
Proof.
  intros [_ Hparts] Hne. unfold FSPath_name.
  destruct (fs_parts p) as [|x l _] using rev_ind; [done|].
  rewrite last_snoc. simpl. apply Forall_app in Hparts as [_ Hx].
  by apply Forall_singleton in Hx as (_ & ? & _).
Qed.

Lemma path_made_empty : path_made FSPath_empty.
Proof. split; [left|constructor]. Qed.

(** *** Surfaces *)

Lemma set_invalid_surf_twice {E : Externals} v v' (self : Item.t E) :
  Item.set_invalid_surf v (Item.set_invalid_surf v' self) = Item.set_invalid_surf v self.
Proof. by destruct self. Qed.

Lemma set_invalid_surf_same {E : Externals} (self : Item.t E) :
  Item.set_invalid_surf (Item.invalid_surf self) self = self.
Proof. by destruct self. Qed.

(** The loop over the words of an [InvalidSurface] value, on the values
    of some surfaces: each of them is added. *)
Lemma add_surfaces {E : Externals} (surfs : list Surface.t) (self : Item.t E) st :
  for_each (Surface.value <$> surfs) (λ word self,
    let* surf := or_error (Surface.of_name (upper word))
                   (Msg ("Unknown surface type " +:+ word)) in
    ret (Item.set_invalid_surf (Item.invalid_surf self ∪ {[surf]}) self)) self st
  = Ok (Item.set_invalid_surf (Item.invalid_surf self ∪ list_to_set surfs) self, st).
Proof.
  revert self; induction surfs as [|surf surfs IH]; intros self.
  - simpl. unfold ret. by rewrite union_empty_r_L, set_invalid_surf_same.
  - simpl. unfold bind at 1.
    assert (Surface.of_name (upper (Surface.value surf)) = Some surf) as -> by by destruct surf.
    simpl. unfold bind at 1, ret at 1. rewrite IH. simpl.
    by rewrite set_invalid_surf_twice, (assoc_L (∪)).
Qed.

Lemma sorted_surfaces_set (s : gset Surface.t) :
  list_to_set (filter (λ x, x ∈ s) [Surface.CEIL; Surface.FLOOR; Surface.WALL]) = s.
Proof.
  apply leibniz_equiv. intros x. rewrite elem_of_list_to_set, list_elem_of_filter.
  split; [by intros [? _]|]. intros Hx. split; [done|]. destruct x; repeat constructor.
Qed.

Lemma surface_values_words (surfs : list Surface.t) :
  Forall (λ w, has_space w = false ∧ w ≠ "") (Surface.value <$> surfs).
Proof. apply Forall_fmap, Forall_forall. by intros []. Qed.

Lemma parse_InvalidSurface {E : Externals} key (self : Item.t E) (surfs : gset Surface.t)
    st rest :
  casefold key = "invalidsurface" →
  toks st = (Token.STRING, join_spaces (sorted_surfaces surfs)) :: rest →
  parse_editor_key key self st
  = Ok (Item.set_invalid_surf (Item.invalid_surf self ∪ surfs) self,
        set_toks rest (line_num st) st).
Proof.
  intros Hkey Htoks. unfold parse_editor_key. cbv zeta. rewrite Hkey. simpl.
  unfold bind at 1. rewrite (expect_STRING st _ rest Htoks).
  unfold sorted_surfaces. rewrite split_join_spaces by apply surface_values_words.
  rewrite add_surfaces. by rewrite sorted_surfaces_set.
Qed.

(** *** What an Exporting block adds *)

Section accumulates.
Context {E : Externals}.

Lemma accumulates_refl (a : Item.t E) : accumulates a a.
Proof. unfold accumulates. by repeat split. Qed.

Lemma accumulates_trans (a b c : Item.t E) :
  accumulates a b → accumulates b c → accumulates a c.
Proof.
  intros (Hv & Hf & Ho & Hp & Hi & Hc) (Hv' & Hf' & Ho' & Hp' & Hi' & Hc').
  split; [by transitivity (Item.embed_voxels b)|].
  split; [by transitivity (Item.embed_faces b)|].
  split; [by transitivity (Item.overlays b)|].
  split; [intros side; by transitivity (default [] (dict_get (Item.antline_points b) side))|].
  split; [lia|]. auto.
Qed.

Lemma accumulates_block name cb (body : string → Item.t E → Parser (Item.t E)) self st it st' :
  (∀ key a st a' st', body key a st = Ok (a', st') → accumulates a a') →
  block name cb body self st = Ok (it, st') → accumulates self it.
Proof.
  intros Hbody Hrun.
  apply (block_invariant (accumulates self)) in Hrun; [done| |apply accumulates_refl].
  intros key a st0 a' st0' Ha Hrun'. eapply accumulates_trans; [exact Ha|]. by eapply Hbody.
Qed.

Lemma length_store_instance inst_ind inst (l l' : list InstCount.t) :
  store_instance inst_ind inst l = Some l' → (length l ≤ length l')%nat.
Proof.
  unfold store_instance, list_setitem. intros H.
  repeat case_decide; simplify_eq; rewrite ?length_app, ?length_insert; simpl; lia.
Qed.

Lemma dict_get_set_is_Some {K V} `{EqDecision K} (d : dict K V) k v k' :
  is_Some (dict_get d k') → is_Some (dict_get (dict_set d k v) k').
Proof.
  destruct (decide (k' = k)) as [->|Hne].
  - by rewrite dict_get_set_eq.
  - by rewrite dict_get_set_ne.
Qed.

Lemma instance_block_accumulates inst_name (self : Item.t E) st it st' :
  _parse_instance_block inst_name self st = Ok (it, st') → accumulates self it.
Proof.
  intros H. unfold _parse_instance_block in H.
  inv_bind H. destruct a as [[inst_ind inst_name'] self'].
  assert (accumulates self self') as Hpad.
  { destruct (py_int inst_name); [|destruct (startswith _ _)].
    - apply ret_Ok in H0 as [[= _ _ <-] _]. unfold accumulates. simpl.
      repeat split; try done. unfold pad_instances. rewrite length_app. lia.
    - apply ret_Ok in H0 as [[= _ _ <-] _]. apply accumulates_refl.
    - injection H0 as _ _ <- _. apply accumulates_refl. }
  eapply accumulates_trans; [exact Hpad|].
  inv_bind H. destruct inst_ind as [inst_ind|].
  - inv_bind H. apply or_raise_Ok in H2 as [H2 _]. apply ret_Ok in H as [<- _].
    unfold accumulates. simpl. repeat split; try done. by eapply length_store_instance.
  - apply ret_Ok in H as [<- _]. unfold accumulates. simpl. repeat split; try done.
    intros name. apply dict_get_set_is_Some.
Qed.

Lemma connection_points_accumulates (self : Item.t E) st it st' :
  _parse_connection_points self st = Ok (it, st') → accumulates self it.
Proof.
  apply accumulates_block. intros key a sta a' sta' H.
  unfold parse_connection_point in H. run_apart H.
  unfold accumulates. simpl. repeat split; try done.
  intros side.
  match goal with
  | |- context [dict_set _ ?d _] => destruct (decide (side = d)) as [->|Hne]
  end.
  - rewrite dict_get_set_eq. simpl. by apply prefix_app_r.
  - by rewrite dict_get_set_ne.
Qed.

Lemma add_all_subseteq (points : list Coord) (voxels : gset Coord) :
  voxels ⊆ add_all points voxels.
Proof. intros c Hc. apply elem_of_add_all. by left. Qed.

Lemma embedded_voxels_accumulates (self : Item.t E) st it st' :
  _parse_embedded_voxels self st = Ok (it, st') → accumulates self it.
Proof.
  apply accumulates_block. intros key a sta a' sta' H.
  unfold parse_embedded_key in H. repeat case_decide.
  - unfold parse_volume in H. run_apart H.
    unfold accumulates. simpl. repeat split; try done. apply add_all_subseteq.
  - eapply accumulates_block; [|exact H].
    intros key' b stv b' stv' Hv. unfold parse_voxel_key in Hv. run_apart Hv.
    unfold accumulates. simpl. repeat split; try done. apply union_subseteq_l.
  - apply ret_Ok in H as [<- _]. apply accumulates_refl.
Qed.

Lemma embed_faces_accumulates (self : Item.t E) st it st' :
  _parse_embed_faces self st = Ok (it, st') → accumulates self it.
Proof.
  apply accumulates_block. intros key a sta a' sta' H.
  unfold parse_embed_face in H. run_apart H.
  unfold accumulates. simpl. repeat split; try done. by apply prefix_app_r.
Qed.

Lemma overlay_accumulates (self : Item.t E) st it st' :
  _parse_overlay self st = Ok (it, st') → accumulates self it.
Proof.
  intros H. unfold _parse_overlay in H. run_apart H.
  unfold accumulates. simpl. repeat split; try done. by apply prefix_app_r.
Qed.

Lemma export_block_accumulates (self : Item.t E) st it st' :
  _parse_export_block self st = Ok (it, st') → accumulates self it.
Proof.
  apply accumulates_block. intros key a sta a' sta' H.
  unfold parse_export_key in H. repeat case_decide.
  - run_apart H. apply (accumulates_refl a).
  - run_apart H. apply (accumulates_refl a).
  - eapply accumulates_block; [|exact H]. intros. by eapply instance_block_accumulates.
  - by eapply connection_points_accumulates.
  - by eapply embedded_voxels_accumulates.
  - by eapply embed_faces_accumulates.
  - by eapply overlay_accumulates.
  - run_apart H. apply accumulates_refl.
Qed.
End accumulates.

(** ** The tokens of the lines the writer puts out *)

(** *** Steps over newlines *)

Lemma block_next_nl name st (n : nat) key rest :
  toks st = replicate n newline_token ++ (Token.STRING, key) :: rest →
  block_next name st = Ok (Some key, set_toks rest (line_num st + Z.of_nat n) st).
Proof.
  intros Htoks. unfold block_next, bind, skip_newlines, next_token.
  rewrite Htoks. unfold newline_token. rewrite drop_newlines_replicate. simpl. done.
Qed.

Lemma block_loop_key_nl {A} (fuel : nat) name (body : string → A → Parser A) a st
    (n : nat) key rest :
  toks st = replicate n newline_token ++ (Token.STRING, key) :: rest →
  block_loop (S fuel) name body a st
  = match body key a (set_toks rest (line_num st + Z.of_nat n) st) with
    | Ok (a', st') => block_loop fuel name body a' st'
    | Err e => Err e
    end.
Proof.
  intros Htoks. simpl. unfold bind. by rewrite (block_next_nl name st n key rest Htoks).
Qed.

Lemma block_step_nl {A} name (body : string → A → Parser A) a st (n : nat) key rest a' st' :
  (∀ key a, shrinks (body key a)) →
  toks st = replicate n newline_token ++ (Token.STRING, key) :: rest →
  body key a (set_toks rest (line_num st + Z.of_nat n) st) = Ok (a', st') →
  block name false body a st = block name false body a' st'.
Proof.
  intros Hbody Htoks Hrun. rewrite !block_false_unfold.
  rewrite (block_loop_key_nl _ name body a st n key rest Htoks), Hrun.
  pose proof (Hbody key a (set_toks rest (line_num st + Z.of_nat n) st)) as Hshrink.
  rewrite Hrun in Hshrink. simpl in Hshrink.
  apply block_loop_more_fuel.
  - rewrite Htoks, length_app, length_replicate. simpl. lia.
  - pose proof (block_loop_shrinks name body Hbody (S (length (toks st'))) a' st' ltac:(lia)) as H.
    intros Heq. rewrite Heq in H. done.
Qed.

Lemma block_end_nl {A} name (body : string → A → Parser A) a st (n : nat) v rest :
  toks st = replicate n newline_token ++ (Token.BRACE_CLOSE, v) :: rest →
  block name false body a st = Ok (a, set_toks rest (line_num st + Z.of_nat n) st).
Proof.
  intros Htoks. rewrite block_false_unfold. simpl.
  unfold bind, block_next, bind, skip_newlines, next_token.
  rewrite Htoks. unfold newline_token. rewrite drop_newlines_replicate. simpl. done.
Qed.

Lemma block_open_nl {A} name (body : string → A → Parser A) a st (n : nat) v rest :
  toks st = replicate n newline_token ++ (Token.BRACE_OPEN, v) :: rest →
  block name true body a st
  = block name false body a (set_toks rest (line_num st + Z.of_nat n) st).
Proof.
  intros Htoks. rewrite block_false_unfold.
  unfold block, bind, expect, bind, skip_newlines, next_token. simpl.
  rewrite Htoks. unfold newline_token. rewrite drop_newlines_replicate. simpl. done.
Qed.

Lemma count_newlines_app l1 l2 :
  count_newlines (l1 ++ l2) = count_newlines l1 + count_newlines l2.
Proof. unfold count_newlines. rewrite filter_app, length_app. lia. Qed.

Lemma count_newlines_replicate (n : nat) : count_newlines (replicate n newline_token) = Z.of_nat n.
Proof.
  unfold count_newlines. induction n as [|n IH]; [done|].
  cbn [replicate]. rewrite filter_cons_True by done. cbn [length]. lia.
Qed.

(** The newlines in front of a key or of the closing brace are passed
    over by the loop. *)
Lemma block_skip_nl {A} name (body : string → A → Parser A) a st (n : nat) rest :
  (∀ key a, shrinks (body key a)) →
  toks st = replicate n newline_token ++ rest →
  block name false body a st
  = block name false body a (set_toks rest (line_num st + Z.of_nat n) st).
Proof.
  intros Hbody Htoks. rewrite !block_false_unfold.
  assert (block_next name st
          = block_next name (set_toks rest (line_num st + Z.of_nat n) st)) as Hnext.
  { unfold block_next, bind, skip_newlines. rewrite Htoks. unfold newline_token.
    rewrite drop_newlines_replicate. simpl.
    destruct (drop_newlines rest (line_num st + Z.of_nat n)) as [l line]. done. }
  simpl. unfold bind at 1 3. rewrite <- Hnext.
  pose proof (block_next_spec name (set_toks rest (line_num st + Z.of_nat n) st)) as Hlen.
  rewrite <- Hnext in Hlen.
  destruct (block_next name st) as [[[key|] st1]|e]; [|done..].
  unfold bind. pose proof (Hbody key a st1) as Hshrink.
  destruct (body key a st1) as [[a1 st2]|e]; [|done].
  simpl in Hlen. apply block_loop_more_fuel.
  - rewrite Htoks, length_app. lia.
  - pose proof (block_loop_shrinks name body Hbody (length rest) a1 st2 ltac:(lia)) as H.
    intros Heq. rewrite Heq in H. done.
Qed.

Lemma line_num_set_toks l line st : line_num (set_toks l line st) = line.
Proof. reflexivity. Qed.

(** The state after some steps, as the state at the start with other
    tokens and another line number. *)
Ltac tidy_state := rewrite ?state_set_toks_set_toks, ?line_num_set_toks.

Section point_round_trip.
Context {E : Externals}.

Lemma shrinks_parse_point_option key s : shrinks (parse_point_option key s).
Proof.
  pose proof shrinks_Coord_parse. pose proof shrinks_ConnSide_parse.
  destruct s as [[[[? ?] ?] ?] ?]. unfold parse_point_option. solve_shrinks.
Qed.

Lemma shrinks_parse_connection_point key (self : Item.t E) :
  shrinks (parse_connection_point key self).
Proof.
  pose proof shrinks_parse_point_option.
  unfold parse_connection_point. solve_shrinks.
Qed.

Lemma ConnSide_parse_value side st :
  ConnSide_parse (coord_text (ConnSide.value side)) st = Ok (side, st).
Proof. by destruct side. Qed.

Lemma parse_point_dir key direction pos sign_pos group_id priority st side rest :
  casefold key = "dir" →
  toks st = (Token.STRING, coord_text (ConnSide.value side)) :: rest →
  parse_point_option key (direction, pos, sign_pos, group_id, priority) st
  = Ok ((Some side, pos, sign_pos, group_id, priority), set_toks rest (line_num st) st).
Proof.
  intros Hkey Htoks. unfold parse_point_option. cbv zeta. rewrite Hkey. simpl.
  unfold bind. rewrite (expect_STRING st _ rest Htoks). by rewrite ConnSide_parse_value.
Qed.

Lemma parse_point_pos key direction pos sign_pos group_id priority st c rest :
  casefold key = "pos" →
  toks st = (Token.STRING, coord_text c) :: rest →
  parse_point_option key (direction, pos, sign_pos, group_id, priority) st
  = Ok ((direction, Some c, sign_pos, group_id, priority), set_toks rest (line_num st) st).
Proof.
  intros Hkey Htoks. unfold parse_point_option. cbv zeta. rewrite Hkey. simpl.
  unfold bind. rewrite (expect_STRING st _ rest Htoks). by rewrite Coord_parse_coord_text.
Qed.

Lemma parse_point_signageoffset key direction pos sign_pos group_id priority st c rest :
  casefold key = "signageoffset" →
  toks st = (Token.STRING, coord_text c) :: rest →
  parse_point_option key (direction, pos, sign_pos, group_id, priority) st
  = Ok ((direction, pos, Some c, group_id, priority), set_toks rest (line_num st) st).
Proof.
  intros Hkey Htoks. unfold parse_point_option. cbv zeta. rewrite Hkey. simpl.
  unfold bind. rewrite (expect_STRING st _ rest Htoks). by rewrite Coord_parse_coord_text.
Qed.
End point_round_trip.

Section point_loop.
Context {E : Externals}.

(** One written point, read from behind its [Point] key. *)
Lemma parse_written_point side point (self : Item.t E) st rest :
  toks st = newline_token :: open_tokens
            ++ kv_tokens "Dir" (coord_text (ConnSide.value side))
            ++ kv_tokens "Pos" (coord_text (AntlinePoint.pos point))
            ++ kv_tokens "SignageOffset" (coord_text (AntlinePoint.sign_off point))
            ++ kv_tokens "Priority" (py_str (AntlinePoint.priority point))
            ++ match AntlinePoint.group point with
               | Some g => kv_tokens "GroupID" (py_str g)
               | None => []
               end
            ++ (Token.BRACE_CLOSE, "}") :: rest →
  parse_connection_point "Point" self st
  = Ok (add_point side point self,
        set_toks rest (line_num st + 6 + match AntlinePoint.group point with Some _ => 1 | None => 0 end) st).
Proof.
  intros Htoks. unfold parse_connection_point. rewrite decide_False by (by intros []).
  unfold bind at 1.
  destruct point as [pos sign_off priority group]. simpl in Htoks |- *.
  rewrite (block_open_nl "Point" parse_point_option _ st 1%nat "{" _ Htoks). clear Htoks.
  erewrite (block_step_nl "Point" parse_point_option _ _ 1%nat "Dir");
    [|apply shrinks_parse_point_option|reflexivity|
     apply parse_point_dir; [reflexivity|reflexivity]].
  tidy_state.
  erewrite (block_step_nl "Point" parse_point_option _ _ 1%nat "Pos");
    [|apply shrinks_parse_point_option|reflexivity|
     apply parse_point_pos; [reflexivity|reflexivity]].
  tidy_state.
  erewrite (block_step_nl "Point" parse_point_option _ _ 1%nat "SignageOffset");
    [|apply shrinks_parse_point_option|reflexivity|
     apply parse_point_signageoffset; [reflexivity|reflexivity]].
  tidy_state.
  erewrite (block_step_nl "Point" parse_point_option _ _ 1%nat "Priority");
    [|apply shrinks_parse_point_option|reflexivity|
     apply parse_point_priority; [reflexivity|reflexivity]].
  tidy_state.
  rewrite conv_int_py_str.
  destruct group as [g|].
  - erewrite (block_step_nl "Point" parse_point_option _ _ 1%nat "GroupID");
      [|apply shrinks_parse_point_option|reflexivity|
       apply parse_point_groupid; [reflexivity|reflexivity]].
  tidy_state.
    rewrite conv_int_py_str.
    erewrite (block_end_nl "Point" parse_point_option _ _ 1%nat "}"); [|reflexivity].
    tidy_state. unfold bind, ret. simpl.
    f_equal. f_equal. f_equal. lia.
  - erewrite (block_end_nl "Point" parse_point_option _ _ 1%nat "}"); [|reflexivity].
    tidy_state. unfold bind, ret. simpl.
    f_equal. f_equal. f_equal. lia.
Qed.
End point_loop.

Section points_loop.
Context {E : Externals}.

Lemma count_newlines_point_tokens side point :
  count_newlines (point_tokens side point)
  = 7 + match AntlinePoint.group point with Some _ => 1 | None => 0 end.
Proof. destruct point as [? ? ? [g|]]; reflexivity. Qed.

Lemma point_tokens_shape side point rest :
  point_tokens side point ++ rest
  = (Token.STRING, "Point") ::
    (newline_token :: open_tokens
     ++ kv_tokens "Dir" (coord_text (ConnSide.value side))
     ++ kv_tokens "Pos" (coord_text (AntlinePoint.pos point))
     ++ kv_tokens "SignageOffset" (coord_text (AntlinePoint.sign_off point))
     ++ kv_tokens "Priority" (py_str (AntlinePoint.priority point))
     ++ match AntlinePoint.group point with
        | Some g => kv_tokens "GroupID" (py_str g)
        | None => []
        end
     ++ (Token.BRACE_CLOSE, "}") :: newline_token :: rest).
Proof. destruct point as [? ? ? [g|]]; reflexivity. Qed.

(** One written point in the loop over the [ConnectionPoints] block. *)
Lemma connection_points_step side point (self : Item.t E) st rest :
  toks st = point_tokens side point ++ rest →
  block "ConnectionPoints" false parse_connection_point self st
  = block "ConnectionPoints" false parse_connection_point (add_point side point self)
      (set_toks rest (line_num st + count_newlines (point_tokens side point)) st).
Proof.
  intros Htoks. rewrite point_tokens_shape in Htoks.
  erewrite (block_step_nl "ConnectionPoints" parse_connection_point self st 0%nat "Point");
    [|apply shrinks_parse_connection_point|exact Htoks|
     apply (parse_written_point side point); reflexivity].
  erewrite (block_skip_nl "ConnectionPoints" parse_connection_point _ _ 1%nat rest);
    [|apply shrinks_parse_connection_point|reflexivity].
  rewrite !state_set_toks_set_toks, count_newlines_point_tokens. simpl.
  do 2 f_equal. lia.
Qed.

Lemma connection_points_points side points (self : Item.t E) st rest :
  toks st = (points ≫= point_tokens side) ++ rest →
  block "ConnectionPoints" false parse_connection_point self st
  = block "ConnectionPoints" false parse_connection_point (add_points side points self)
      (set_toks rest (line_num st + count_newlines (points ≫= point_tokens side)) st).
Proof.
  revert self st; induction points as [|point points IH]; intros self st Htoks.
  - simpl in *. destruct st; simpl in *. subst. unfold count_newlines. simpl.
    by rewrite Z.add_0_r.
  - change ((point :: points) ≫= point_tokens side)
      with (point_tokens side point ++ (points ≫= point_tokens side)) in *.
    rewrite <- app_assoc in Htoks.
    rewrite (connection_points_step side point self st _ Htoks).
    erewrite (IH (add_point side point self)); [|reflexivity].
    rewrite !state_set_toks_set_toks, count_newlines_app.
    f_equal. unfold set_toks. simpl. f_equal. lia.
Qed.
End points_loop.

Lemma dict_set_set {K V} `{EqDecision K} (d : dict K V) k v v' :
  dict_set (dict_set d k v) k v' = dict_set d k v'.
Proof.
  induction d as [|[k0 v0] d IH]; simpl.
  - by rewrite decide_True.
  - destruct (decide (k0 = k)) as [->|Hne]; simpl.
    + by rewrite decide_True.
    + by rewrite decide_False, IH.
Qed.

Section sides_loop.
Context {E : Externals}.

Lemma set_antline_points_twice d d' (self : Item.t E) :
  Item.set_antline_points d (Item.set_antline_points d' self) = Item.set_antline_points d self.
Proof. by destruct self. Qed.

Lemma add_points_spec side points (self : Item.t E) :
  points ≠ [] →
  add_points side points self
  = Item.set_antline_points
      (dict_set (Item.antline_points self) side
         (default [] (dict_get (Item.antline_points self) side) ++ points)) self.
Proof.
  revert self; induction points as [|point points IH]; intros self Hne; [done|].
  unfold add_points. simpl. fold (add_points side points (add_point side point self)).
  destruct points as [|point' points]; [done|].
  rewrite IH by done. unfold add_point. simpl.
  rewrite dict_get_set_eq, dict_set_set, set_antline_points_twice. simpl.
  by rewrite <- app_assoc.
Qed.

Lemma connection_points_sides sides is_first antline_points (self : Item.t E) st rest :
  toks st = sides_tokens sides is_first antline_points ++ rest →
  block "ConnectionPoints" false parse_connection_point self st
  = block "ConnectionPoints" false parse_connection_point
      (add_sides sides antline_points self)
      (set_toks rest
         (line_num st + count_newlines (sides_tokens sides is_first antline_points)) st).
Proof.
  revert is_first self st; induction sides as [|side sides IH]; intros is_first self st Htoks.
  - simpl in *. destruct st; simpl in *. subst. unfold count_newlines. simpl.
    by rewrite Z.add_0_r.
  - simpl in Htoks |- *. case_decide as Hpoints.
    + rewrite Hpoints. by apply IH.
    + assert (toks st = replicate (if is_first then 1 else 2)%nat newline_token
                        ++ (default [] (dict_get antline_points side) ≫= point_tokens side)
                        ++ sides_tokens sides false antline_points ++ rest) as Htoks'.
      { rewrite Htoks. destruct is_first; simpl; by rewrite <- app_assoc. }
      erewrite (block_skip_nl "ConnectionPoints" parse_connection_point self st
                  (if is_first then 1 else 2)%nat);
        [|apply shrinks_parse_connection_point|exact Htoks'].
      erewrite (connection_points_points side); [|reflexivity].
      erewrite IH; [|reflexivity].
      rewrite !state_set_toks_set_toks, !count_newlines_app.
      f_equal. unfold set_toks. simpl. f_equal.
      assert (∀ l, count_newlines (newline_token :: l) = 1 + count_newlines l) as Hcons.
      { intros l. unfold count_newlines. rewrite filter_cons_True by done.
        cbn [length]. lia. }
      rewrite Hcons, count_newlines_app.
      destruct is_first.
      * change (count_newlines []) with 0. lia.
      * change (count_newlines [newline_token]) with 1. lia.
Qed.

(** The block [export_one] writes for the antline points of an item,
    read into an item that has none: the points are back, side by side
    and in their order. *)
Lemma connection_points_written antline_points (self : Item.t E) st rest :
  antline_points.*1 = ConnSide.members →
  Item.antline_points self = (λ side, (side, [])) <$> ConnSide.members →
  toks st = open_tokens ++ sides_tokens ConnSide.members true antline_points
            ++ (Token.BRACE_CLOSE, "}") :: rest →
  _parse_connection_points self st
  = Ok (Item.set_antline_points antline_points self,
        set_toks rest
          (line_num st + 1
           + count_newlines (sides_tokens ConnSide.members true antline_points)) st).
Proof.
  intros Hkeys Hself Htoks. unfold _parse_connection_points.
  rewrite (block_open_nl "ConnectionPoints" parse_connection_point self st 0%nat "{" _ Htoks).
  erewrite (block_skip_nl "ConnectionPoints" parse_connection_point self _ 1%nat);
    [|apply shrinks_parse_connection_point|reflexivity].
  erewrite connection_points_sides; [|reflexivity].
  erewrite (block_end_nl "ConnectionPoints" parse_connection_point _ _ 0%nat "}");
    [|reflexivity].
  rewrite !state_set_toks_set_toks. f_equal. f_equal.
  - destruct antline_points as [|[k1 l] [|[k2 r] [|[k3 u] [|[k4 d] [|]]]]]; try done.
    injection Hkeys as -> -> -> ->. simpl.
    assert (∀ side (points : list AntlinePoint.t) (it : Item.t E),
              add_points side points it
              = if decide (points = []) then it
                else Item.set_antline_points
                       (dict_set (Item.antline_points it) side
                          (default [] (dict_get (Item.antline_points it) side) ++ points)) it)
      as Hadd.
    { intros side points it. case_decide as Hp; [by rewrite Hp|by apply add_points_spec]. }
    rewrite !Hadd. destruct self. simpl in Hself. subst.
    destruct l, r, u, d; reflexivity.
  - unfold set_toks. simpl. f_equal. lia.
Qed.
End sides_loop.

Section voxel_round_trip.
Context {E : Externals}.

Lemma shrinks_parse_volume_key key s : shrinks (parse_volume_key key s).
Proof.
  pose proof shrinks_Coord_parse. destruct s as [? ?].
  unfold parse_volume_key. solve_shrinks.
Qed.

Lemma shrinks_parse_voxel_key key (self : Item.t E) : shrinks (parse_voxel_key key self).
Proof. pose proof shrinks_Coord_parse. unfold parse_voxel_key. solve_shrinks. Qed.

Lemma shrinks_parse_embedded_key key (self : Item.t E) : shrinks (parse_embedded_key key self).
Proof.
  pose proof shrinks_parse_volume_key. pose proof shrinks_parse_voxel_key.
  unfold parse_embedded_key, parse_volume. solve_shrinks.
Qed.

Lemma parse_voxel_pos key (self : Item.t E) st c rest :
  casefold key = "pos" →
  toks st = (Token.STRING, coord_text c) :: rest →
  parse_voxel_key key self st
  = Ok (Item.set_embed_voxels (Item.embed_voxels self ∪ {[c]}) self,
        set_toks rest (line_num st) st).
Proof.
  intros Hkey Htoks. unfold parse_voxel_key. rewrite decide_True by done.
  unfold bind. rewrite (expect_STRING st _ rest Htoks). by rewrite Coord_parse_coord_text.
Qed.

Lemma parse_volume_pos1 key pos_1 pos_2 st c rest :
  casefold key = "pos1" →
  toks st = (Token.STRING, coord_text c) :: rest →
  parse_volume_key key (pos_1, pos_2) st = Ok ((Some c, pos_2), set_toks rest (line_num st) st).
Proof.
  intros Hkey Htoks. unfold parse_volume_key. rewrite decide_True by done.
  unfold bind. rewrite (expect_STRING st _ rest Htoks). by rewrite Coord_parse_coord_text.
Qed.

Lemma parse_volume_pos2 key pos_1 pos_2 st c rest :
  casefold key = "pos2" →
  toks st = (Token.STRING, coord_text c) :: rest →
  parse_volume_key key (pos_1, pos_2) st = Ok ((pos_1, Some c), set_toks rest (line_num st) st).
Proof.
  intros Hkey Htoks. unfold parse_volume_key.
  rewrite decide_False by (rewrite Hkey; done). rewrite decide_True by done.
  unfold bind. rewrite (expect_STRING st _ rest Htoks). by rewrite Coord_parse_coord_text.
Qed.

Lemma set_embed_voxels_twice v v' (self : Item.t E) :
  Item.set_embed_voxels v (Item.set_embed_voxels v' self) = Item.set_embed_voxels v self.
Proof. by destruct self. Qed.

Lemma box_tokens_shape b rest :
  box_tokens b ++ rest
  = if decide (b.1 = b.2)
    then (Token.STRING, "Voxel") ::
         (newline_token :: open_tokens ++ kv_tokens "Pos" (coord_text b.1)
          ++ (Token.BRACE_CLOSE, "}") :: newline_token :: rest)
    else (Token.STRING, "Volume") ::
         (newline_token :: open_tokens
          ++ kv_tokens "Pos1" (coord_text b.1) ++ kv_tokens "Pos2" (coord_text b.2)
          ++ (Token.BRACE_CLOSE, "}") :: newline_token :: rest).
Proof. destruct b as [pos1 pos2]. unfold box_tokens. simpl. by case_decide. Qed.

Lemma count_newlines_box_tokens b :
  count_newlines (box_tokens b) = if decide (b.1 = b.2) then 4 else 5.
Proof. destruct b as [pos1 pos2]. unfold box_tokens. simpl. by case_decide. Qed.

(** A written [Voxel] and a written [Volume], read from behind the key. *)
Lemma parse_written_voxel key c (self : Item.t E) st rest :
  casefold key = "voxel" →
  toks st = newline_token :: open_tokens ++ kv_tokens "Pos" (coord_text c)
            ++ (Token.BRACE_CLOSE, "}") :: rest →
  parse_embedded_key key self st
  = Ok (Item.set_embed_voxels (Item.embed_voxels self ∪ {[c]}) self,
        set_toks rest (line_num st + 3) st).
Proof.
  intros Hkey Htoks. unfold parse_embedded_key. cbv zeta.
  rewrite decide_False by (rewrite Hkey; done). rewrite decide_True by done.
  erewrite (block_open_nl "EmbeddedVoxel" parse_voxel_key _ _ 1%nat "{"); [|exact Htoks].
  erewrite (block_step_nl "EmbeddedVoxel" parse_voxel_key _ _ 1%nat "Pos");
    [|apply shrinks_parse_voxel_key|reflexivity|apply parse_voxel_pos; reflexivity].
  erewrite (block_end_nl "EmbeddedVoxel" parse_voxel_key _ _ 1%nat "}"); [|reflexivity].
  rewrite !state_set_toks_set_toks. unfold set_toks. simpl. do 3 f_equal. lia.
Qed.

Lemma parse_written_volume key pos_1 pos_2 (self : Item.t E) st rest :
  casefold key = "volume" →
  toks st = newline_token :: open_tokens
            ++ kv_tokens "Pos1" (coord_text pos_1) ++ kv_tokens "Pos2" (coord_text pos_2)
            ++ (Token.BRACE_CLOSE, "}") :: rest →
  parse_embedded_key key self st
  = Ok (Item.set_embed_voxels
          (add_all (volume_points pos_1 pos_2) (Item.embed_voxels self)) self,
        set_toks rest (line_num st + 4) st).
Proof.
  intros Hkey Htoks. unfold parse_embedded_key. cbv zeta. rewrite decide_True by done.
  unfold parse_volume. unfold bind at 1.
  erewrite (block_open_nl "EmbeddedVolume" parse_volume_key _ _ 1%nat "{"); [|exact Htoks].
  erewrite (block_step_nl "EmbeddedVolume" parse_volume_key _ _ 1%nat "Pos1");
    [|apply shrinks_parse_volume_key|reflexivity|apply parse_volume_pos1; reflexivity].
  erewrite (block_step_nl "EmbeddedVolume" parse_volume_key _ _ 1%nat "Pos2");
    [|apply shrinks_parse_volume_key|reflexivity|apply parse_volume_pos2; reflexivity].
  erewrite (block_end_nl "EmbeddedVolume" parse_volume_key _ _ 1%nat "}"); [|reflexivity].
  rewrite !state_set_toks_set_toks. unfold ret, set_toks. simpl. do 3 f_equal. lia.
Qed.

(** One written box in the loop over the [EmbeddedVoxels] block. *)
Lemma embedded_voxels_step b (self : Item.t E) st rest :
  toks st = box_tokens b ++ rest →
  block "EmbeddedVoxels" false parse_embedded_key self st
  = block "EmbeddedVoxels" false parse_embedded_key (add_box b self)
      (set_toks rest (line_num st + count_newlines (box_tokens b)) st).
Proof.
  intros Htoks. rewrite box_tokens_shape in Htoks.
  rewrite count_newlines_box_tokens. unfold add_box. case_decide as Hb.
  - erewrite (block_step_nl "EmbeddedVoxels" parse_embedded_key self st 0%nat "Voxel");
      [|apply shrinks_parse_embedded_key|exact Htoks|
       apply (parse_written_voxel "Voxel" b.1); reflexivity].
    erewrite (block_skip_nl "EmbeddedVoxels" parse_embedded_key _ _ 1%nat rest);
      [|apply shrinks_parse_embedded_key|reflexivity].
    rewrite !state_set_toks_set_toks. unfold set_toks. simpl. do 2 f_equal. lia.
  - erewrite (block_step_nl "EmbeddedVoxels" parse_embedded_key self st 0%nat "Volume");
      [|apply shrinks_parse_embedded_key|exact Htoks|
       apply (parse_written_volume "Volume" b.1 b.2); reflexivity].
    erewrite (block_skip_nl "EmbeddedVoxels" parse_embedded_key _ _ 1%nat rest);
      [|apply shrinks_parse_embedded_key|reflexivity].
    rewrite !state_set_toks_set_toks. unfold set_toks. simpl. do 2 f_equal. lia.
Qed.
End voxel_round_trip.

Section voxels_loop.
Context {E : Externals}.

Lemma embedded_voxels_boxes boxes (self : Item.t E) st rest :
  toks st = (boxes ≫= box_tokens) ++ rest →
  block "EmbeddedVoxels" false parse_embedded_key self st
  = block "EmbeddedVoxels" false parse_embedded_key (add_boxes boxes self)
      (set_toks rest (line_num st + count_newlines (boxes ≫= box_tokens)) st).
Proof.
  revert self st; induction boxes as [|b boxes IH]; intros self st Htoks.
  - simpl in *. destruct st; simpl in *. subst. unfold count_newlines. simpl.
    by rewrite Z.add_0_r.
  - change ((b :: boxes) ≫= box_tokens) with (box_tokens b ++ (boxes ≫= box_tokens)) in *.
    rewrite <- app_assoc in Htoks.
    rewrite (embedded_voxels_step b self st _ Htoks).
    erewrite (IH (add_box b self)); [|reflexivity].
    rewrite !state_set_toks_set_toks, count_newlines_app.
    f_equal. unfold set_toks. simpl. f_equal. lia.
Qed.

Lemma elem_of_add_box b (self : Item.t E) c :
  in_box b b.1 →
  c ∈ Item.embed_voxels (add_box b self) ↔ c ∈ Item.embed_voxels self ∨ in_box b c.
Proof.
  destruct b as [[[x1 y1] z1] [[x2 y2] z2]], c as [[x y] z].
  unfold add_box, in_box, Coord_x, Coord_y, Coord_z. simpl. intros Hb. case_decide as Heq.
  - injection Heq as <- <- <-. rewrite elem_of_union, elem_of_singleton.
    split; (intros [?|H]; [by left|right]).
    + injection H as -> -> ->. lia.
    + f_equal; [f_equal|]; lia.
  - rewrite elem_of_volume. unfold in_box, corner_min, corner_max, Coord_x, Coord_y, Coord_z.
    simpl. rewrite !Z.min_l, !Z.max_r by lia. done.
Qed.

Lemma add_box_set b (self : Item.t E) :
  add_box b self = Item.set_embed_voxels (Item.embed_voxels (add_box b self)) self.
Proof. done. Qed.

Lemma add_boxes_spec boxes (self : Item.t E) :
  Forall (λ b, in_box b b.1) boxes →
  ∃ voxels : gset Coord,
    add_boxes boxes self = Item.set_embed_voxels voxels self ∧
    ∀ c, c ∈ voxels ↔ c ∈ Item.embed_voxels self ∨ ∃ b, b ∈ boxes ∧ in_box b c.
Proof.
  intros Hboxes. revert self.
  induction Hboxes as [|b boxes Hb Hboxes IH]; intros self.
  - exists (Item.embed_voxels self). split; [by destruct self|].
    intros c. split; [by left|]. intros [?|(b & Hin & _)]; [done|].
    by apply elem_of_nil in Hin.
  - destruct (IH (add_box b self)) as (voxels & Hrun & Hvoxels).
    exists voxels. split.
    + unfold add_boxes in *. simpl. rewrite Hrun. unfold add_box.
      by rewrite set_embed_voxels_twice.
    + intros c. rewrite Hvoxels, (elem_of_add_box b self c Hb). split.
      * intros [[?|?]|(b' & Hin & ?)]; [by left|right; exists b|right; exists b'];
          (split; [|done]); [left|by right].
      * intros [?|(b' & Hin & ?)]; [by left; left|].
        apply elem_of_cons in Hin as [->|Hin]; [by left; right|right; eauto].
Qed.

(** The block [export_one] writes for a set of voxels, read back: the
    item holds those voxels besides the ones it had. *)
Lemma embedded_voxels_written (set_pop : gset Coord → Coord) (voxels : gset Coord)
    (self : Item.t E) st rest :
  (∀ s : gset Coord, s ≠ ∅ → set_pop s ∈ s) →
  toks st = open_tokens ++ (default [] (bounding_boxes set_pop voxels) ≫= box_tokens)
            ++ (Token.BRACE_CLOSE, "}") :: rest →
  _parse_embedded_voxels self st
  = Ok (Item.set_embed_voxels (Item.embed_voxels self ∪ voxels) self,
        set_toks rest
          (line_num st + 1
           + count_newlines (default [] (bounding_boxes set_pop voxels) ≫= box_tokens)) st).
Proof.
  intros Hpop Htoks. unfold bounding_boxes in *.
  destruct (bounding_boxes_loop_spec set_pop Hpop (size voxels) voxels)
    as (boxes & Hrun & Hcover & Hgrown); [done|].
  rewrite Hrun in *. simpl in Htoks |- *.
  unfold _parse_embedded_voxels.
  rewrite (block_open_nl "EmbeddedVoxels" parse_embedded_key self st 0%nat "{" _ Htoks).
  erewrite (block_skip_nl "EmbeddedVoxels" parse_embedded_key self _ 1%nat);
    [|apply shrinks_parse_embedded_key|reflexivity].
  erewrite embedded_voxels_boxes; [|reflexivity].
  erewrite (block_end_nl "EmbeddedVoxels" parse_embedded_key _ _ 0%nat "}"); [|reflexivity].
  rewrite !state_set_toks_set_toks.
  destruct (add_boxes_spec boxes self) as (voxels' & -> & Hvoxels).
  { apply Forall_forall. intros b Hb. destruct (Hgrown b Hb) as (seed & _ & Hin & _).
    unfold in_box in *. lia. }
  f_equal. f_equal.
  - f_equal. apply leibniz_equiv. intros c. rewrite Hvoxels, elem_of_union, Hcover. done.
  - unfold set_toks. simpl. f_equal. lia.
Qed.
End voxels_loop.

(** *** The instances block, read back *)

Lemma next_skipping_newlines_nl st (n : nat) t v rest :
  t ≠ Token.NEWLINE → t ≠ Token.EOF →
  toks st = replicate n newline_token ++ (t, v) :: rest →
  next_skipping_newlines st = Ok ((t, v), set_toks rest (line_num st + Z.of_nat n) st).
Proof.
  intros Hnl Heof Htoks. unfold next_skipping_newlines, bind, skip_newlines, next_token.
  rewrite Htoks. unfold newline_token. rewrite drop_newlines_replicate.
  destruct t; done.
Qed.

Lemma parse_instance_name key inst_file ent_count brush_count side_count st value rest :
  casefold key = "name" →
  toks st = (Token.STRING, value) :: rest →
  parse_instance_option key (inst_file, ent_count, brush_count, side_count) st
  = Ok ((Some value, ent_count, brush_count, side_count), set_toks rest (line_num st) st).
Proof.
  intros Hkey Htoks. unfold parse_instance_option. cbv zeta. rewrite Hkey. simpl.
  unfold bind. by rewrite (expect_STRING st _ rest Htoks).
Qed.

Lemma parse_instance_entitycount key inst_file ent_count brush_count side_count st n rest :
  casefold key = "entitycount" →
  toks st = (Token.STRING, py_str n) :: rest →
  parse_instance_option key (inst_file, ent_count, brush_count, side_count) st
  = Ok ((inst_file, n, brush_count, side_count), set_toks rest (line_num st) st).
Proof.
  intros Hkey Htoks. unfold parse_instance_option. cbv zeta. rewrite Hkey. simpl.
  unfold bind. rewrite (expect_STRING st _ rest Htoks). unfold ret.
  by rewrite conv_int_py_str.
Qed.

Lemma parse_instance_brushcount key inst_file ent_count brush_count side_count st n rest :
  casefold key = "brushcount" →
  toks st = (Token.STRING, py_str n) :: rest →
  parse_instance_option key (inst_file, ent_count, brush_count, side_count) st
  = Ok ((inst_file, ent_count, n, side_count), set_toks rest (line_num st) st).
Proof.
  intros Hkey Htoks. unfold parse_instance_option. cbv zeta. rewrite Hkey. simpl.
  unfold bind. rewrite (expect_STRING st _ rest Htoks). unfold ret.
  by rewrite conv_int_py_str.
Qed.

Lemma parse_instance_brushsidecount key inst_file ent_count brush_count side_count st n rest :
  casefold key = "brushsidecount" →
  toks st = (Token.STRING, py_str n) :: rest →
  parse_instance_option key (inst_file, ent_count, brush_count, side_count) st
  = Ok ((inst_file, ent_count, brush_count, n), set_toks rest (line_num st) st).
Proof.
  intros Hkey Htoks. unfold parse_instance_option. cbv zeta. rewrite Hkey. simpl.
  unfold bind. rewrite (expect_STRING st _ rest Htoks). unfold ret.
  by rewrite conv_int_py_str.
Qed.

Lemma shrinks_parse_instance_option key s : shrinks (parse_instance_option key s).
Proof. destruct s as [[[? ?] ?] ?]. unfold parse_instance_option. solve_shrinks. Qed.

Lemma instance_tokens_shape i inst rest :
  instance_tokens i inst ++ rest
  = (Token.STRING, py_str (Z.of_nat i)) ::
    (newline_token :: open_tokens ++ instance_lines inst
     ++ (Token.BRACE_CLOSE, "}") :: newline_token :: rest).
Proof.
  unfold instance_tokens, instance_lines. cbv zeta. simpl.
  by rewrite <- !app_assoc.
Qed.

Lemma count_newlines_cons_newline l :
  count_newlines (newline_token :: l) = 1 + count_newlines l.
Proof. unfold count_newlines. rewrite filter_cons_True by done. cbn [length]. lia. Qed.

Lemma count_newlines_cons_other t v l :
  t ≠ Token.NEWLINE → count_newlines ((t, v) :: l) = count_newlines l.
Proof. intros Ht. unfold count_newlines. by rewrite filter_cons_False. Qed.

Lemma count_newlines_instance_tokens i inst :
  count_newlines (instance_tokens i inst) = 3 + count_newlines (instance_lines inst).
Proof.
  rewrite <- (app_nil_r (instance_tokens i inst)), instance_tokens_shape.
  unfold open_tokens. simpl.
  rewrite count_newlines_cons_other, count_newlines_cons_newline by done.
  rewrite count_newlines_cons_other, count_newlines_cons_newline by done.
  rewrite count_newlines_app.
  rewrite count_newlines_cons_other, count_newlines_cons_newline by done.
  change (count_newlines []) with 0. lia.
Qed.

Lemma count_newlines_kv_tokens key value : count_newlines (kv_tokens key value) = 1.
Proof. reflexivity. Qed.

(** A written instance, read from behind its index. *)
Lemma parse_written_instance inst st rest :
  path_made (InstCount.inst inst) →
  toks st = newline_token :: open_tokens ++ instance_lines inst
            ++ (Token.BRACE_CLOSE, "}") :: rest →
  parse_instance_value st
  = Ok (instance_read inst,
        set_toks rest (line_num st + 2 + count_newlines (instance_lines inst)) st).
Proof.
  intros Hmade Htoks. unfold parse_instance_value. unfold bind at 1.
  rewrite (next_skipping_newlines_nl st 1%nat Token.BRACE_OPEN "{" _ ltac:(done) ltac:(done) Htoks).
  unfold bind at 1. unfold instance_lines, instance_read. cbv zeta.
  destruct inst as [file ent_count brush_count face_count].
  cbn [InstCount.inst InstCount.ent_count InstCount.brush_count InstCount.face_count] in *.
  case_decide as Hfile; [|case_decide as Hcounts].
  - subst file.
    erewrite (block_step_nl "Instances" parse_instance_option _ _ 1%nat "Name");
      [|apply shrinks_parse_instance_option|reflexivity|
       apply parse_instance_name; reflexivity].
    erewrite (block_end_nl "Instances" parse_instance_option _ _ 1%nat "}"); [|reflexivity].
    rewrite !state_set_toks_set_toks, count_newlines_kv_tokens.
    unfold or_error, ret, bind, set_toks. simpl. do 3 f_equal. lia.
  - erewrite (block_step_nl "Instances" parse_instance_option _ _ 1%nat "Name");
      [|apply shrinks_parse_instance_option|reflexivity|
       apply parse_instance_name; reflexivity].
    erewrite (block_step_nl "Instances" parse_instance_option _ _ 1%nat "EntityCount");
      [|apply shrinks_parse_instance_option|reflexivity|
       apply parse_instance_entitycount; reflexivity].
    erewrite (block_step_nl "Instances" parse_instance_option _ _ 1%nat "BrushCount");
      [|apply shrinks_parse_instance_option|reflexivity|
       apply parse_instance_brushcount; reflexivity].
    erewrite (block_step_nl "Instances" parse_instance_option _ _ 1%nat "BrushSideCount");
      [|apply shrinks_parse_instance_option|reflexivity|
       apply parse_instance_brushsidecount; reflexivity].
    erewrite (block_end_nl "Instances" parse_instance_option _ _ 1%nat "}"); [|reflexivity].
    rewrite !state_set_toks_set_toks, ?count_newlines_app, !count_newlines_kv_tokens.
    unfold or_error, ret, bind. simpl.
    rewrite (FSPath_of_str file Hmade). unfold set_toks. simpl. do 3 f_equal. lia.
  - assert (ent_count = 0 ∧ brush_count = 0 ∧ face_count = 0) as (-> & -> & ->) by lia.
    erewrite (block_step_nl "Instances" parse_instance_option _ _ 1%nat "Name");
      [|apply shrinks_parse_instance_option|reflexivity|
       apply parse_instance_name; reflexivity].
    erewrite (block_end_nl "Instances" parse_instance_option _ _ 1%nat "}"); [|reflexivity].
    rewrite !state_set_toks_set_toks, ?count_newlines_app, !count_newlines_kv_tokens.
    unfold or_error, ret, bind. simpl.
    rewrite (FSPath_of_str file Hmade). unfold set_toks. simpl. do 3 f_equal. lia.
Qed.

Section instances_round_trip.
Context {E : Externals}.

Lemma set_instances_twice l l' (self : Item.t E) :
  Item.set_instances l (Item.set_instances l' self) = Item.set_instances l self.
Proof. by destruct self. Qed.

Lemma instances_set_instances l (self : Item.t E) :
  Item.instances (Item.set_instances l self) = l.
Proof. by destruct self. Qed.

(** The block of the slot behind the last one appends its instance. *)
Lemma instance_block_written inst (self : Item.t E) st rest :
  path_made (InstCount.inst inst) →
  toks st = newline_token :: open_tokens ++ instance_lines inst
            ++ (Token.BRACE_CLOSE, "}") :: rest →
  _parse_instance_block (py_str (Z.of_nat (length (Item.instances self)))) self st
  = Ok (Item.set_instances (Item.instances self ++ [instance_read inst]) self,
        set_toks rest (line_num st + 2 + count_newlines (instance_lines inst)) st).
Proof.
  intros Hkept Htoks. unfold _parse_instance_block. rewrite py_int_py_str.
  unfold bind at 1. unfold ret at 1. unfold bind at 1.
  rewrite (parse_written_instance inst st rest Hkept Htoks).
  unfold pad_instances. rewrite Z.sub_diag. simpl replicate. rewrite app_nil_r.
  rewrite set_instances_same. unfold store_instance. rewrite decide_True by done.
  unfold or_raise, bind, ret. done.
Qed.

Lemma instances_step inst (self : Item.t E) st rest :
  path_made (InstCount.inst inst) →
  toks st = instance_tokens (length (Item.instances self)) inst ++ rest →
  block "Instance" false _parse_instance_block self st
  = block "Instance" false _parse_instance_block
      (Item.set_instances (Item.instances self ++ [instance_read inst]) self)
      (set_toks rest
         (line_num st + count_newlines (instance_tokens (length (Item.instances self)) inst))
         st).
Proof.
  intros Hkept Htoks. rewrite instance_tokens_shape in Htoks.
  erewrite (block_step_nl "Instance" _parse_instance_block self st 0%nat);
    [|apply shrinks_parse_instance_block|exact Htoks|
     by apply (instance_block_written inst)].
  erewrite (block_skip_nl "Instance" _parse_instance_block _ _ 1%nat rest);
    [|apply shrinks_parse_instance_block|reflexivity].
  rewrite !state_set_toks_set_toks, count_newlines_instance_tokens.
  unfold set_toks. simpl. do 2 f_equal. lia.
Qed.

Lemma instances_tokens_cons k inst instances :
  instances_tokens k (inst :: instances)
  = instance_tokens k inst ++ instances_tokens (S k) instances.
Proof.
  unfold instances_tokens. rewrite imap_cons.
  change (concat (?x :: ?l)) with (x ++ concat l). cbv beta. rewrite Nat.add_0_r.
  f_equal. f_equal. apply imap_ext. intros i x _. unfold compose. f_equal. lia.
Qed.

Lemma instances_loop instances (self : Item.t E) st rest :
  Forall (λ inst, path_made (InstCount.inst inst)) instances →
  toks st = instances_tokens (length (Item.instances self)) instances ++ rest →
  block "Instance" false _parse_instance_block self st
  = block "Instance" false _parse_instance_block
      (Item.set_instances (Item.instances self ++ (instance_read <$> instances)) self)
      (set_toks rest
         (line_num st
          + count_newlines (instances_tokens (length (Item.instances self)) instances)) st).
Proof.
  intros Hkept. revert self st.
  induction Hkept as [|inst instances Hinst Hkept IH]; intros self st Htoks.
  - simpl in *. rewrite app_nil_r, set_instances_same.
    change (count_newlines (instances_tokens _ [])) with 0. rewrite Z.add_0_r.
    destruct st; simpl in *. by subst.
  - rewrite instances_tokens_cons in Htoks |- *. rewrite <- app_assoc in Htoks.
    rewrite (instances_step inst self st _ Hinst Htoks).
    erewrite (IH (Item.set_instances (Item.instances self ++ [instance_read inst]) self));
      rewrite instances_set_instances, length_app, Nat.add_1_r; [|done].
    rewrite !state_set_toks_set_toks, count_newlines_app, set_instances_twice.
    rewrite <- app_assoc. f_equal. unfold set_toks. simpl. f_equal. lia.
Qed.

(** The [Instances] block [export_one] writes for a list of instances,
    read back by an item that has none yet. *)
Lemma instances_written key instances (self : Item.t E) st rest :
  casefold key = "instances" →
  Item.instances self = [] →
  Forall (λ inst, path_made (InstCount.inst inst)) instances →
  toks st = newline_token :: open_tokens ++ instances_tokens 0 instances
            ++ (Token.BRACE_CLOSE, "}") :: rest →
  parse_export_key key self st
  = Ok (Item.set_instances (instance_read <$> instances) self,
        set_toks rest (line_num st + 2 + count_newlines (instances_tokens 0 instances)) st).
Proof.
  intros Hkey Hnone Hkept Htoks. unfold parse_export_key. cbv zeta. rewrite Hkey. simpl.
  rewrite (block_open_nl "Instance" _parse_instance_block self st 1%nat "{" _ Htoks).
  erewrite (block_skip_nl "Instance" _parse_instance_block self _ 1%nat);
    [|apply shrinks_parse_instance_block|reflexivity].
  erewrite (instances_loop instances self); [|done|by rewrite Hnone].
  erewrite (block_end_nl "Instance" _parse_instance_block _ _ 0%nat "}"); [|reflexivity].
  rewrite !state_set_toks_set_toks, Hnone. simpl.
  unfold set_toks. simpl. do 3 f_equal. lia.
Qed.
End instances_round_trip.

(** Nothing is lost of an instance that has a path, nor of the blank
    one. *)
Lemma instance_read_id (inst : InstCount.t) :
  (InstCount.inst inst = FSPath_empty → inst = blank_instance) → instance_read inst = inst.
Proof. intros Hblank. unfold instance_read. case_decide; [by rewrite Hblank|done]. Qed.

Lemma instances_read_id (instances : list InstCount.t) :
  Forall (λ inst, InstCount.inst inst = FSPath_empty → inst = blank_instance) instances →
  instance_read <$> instances = instances.
Proof.
  intros Hall. induction Hall as [|inst instances Hinst Hall IH]; [done|].
  rewrite fmap_cons. by rewrite instance_read_id, IH.
Qed.

(** *** A subtype, read back *)

Lemma shrinks_SubType_model_key key m : shrinks (SubType_model_key key m).
Proof. unfold SubType_model_key. solve_shrinks. Qed.

Lemma shrinks_SubType_palette_key key s : shrinks (SubType_palette_key key s).
Proof. unfold SubType_palette_key. solve_shrinks. Qed.

Lemma shrinks_SubType_sounds_key key s : shrinks (SubType_sounds_key key s).
Proof. unfold SubType_sounds_key. solve_shrinks. Qed.

Lemma shrinks_SubType_parse_key key s : shrinks (SubType_parse_key key s).
Proof.
  pose proof shrinks_Anim_parse_block.
  unfold SubType_parse_key, SubType_model_key, SubType_palette_key, SubType_sounds_key.
  solve_shrinks.
Qed.

Lemma SubType_key_name key v s st rest :
  casefold key = "name" →
  toks st = (Token.STRING, v) :: rest →
  SubType_parse_key key s st = Ok (SubType.set_name v s, set_toks rest (line_num st) st).
Proof.
  intros Hkey Htoks. unfold SubType_parse_key. cbv zeta. rewrite Hkey. simpl.
  unfold bind. by rewrite (expect_STRING st _ rest Htoks).
Qed.

Lemma SubType_model_modelname key m st v rest :
  casefold key = "modelname" →
  toks st = (Token.STRING, v) :: rest →
  SubType_model_key key m st = Ok (Some (FSPath_of v), set_toks rest (line_num st) st).
Proof.
  intros Hkey Htoks. unfold SubType_model_key. cbv zeta. rewrite Hkey. simpl.
  unfold bind. by rewrite (expect_STRING st _ rest Htoks).
Qed.

(** A written model line, read from behind its key: the model comes
    back with the suffix [.mdl]. *)
Lemma SubType_key_model key model written read s st rest :
  casefold key = "model" →
  path_made model →
  FSPath_with_suffix model ".3ds" = Some written →
  FSPath_with_suffix model ".mdl" = Some read →
  toks st = (Token.BRACE_OPEN, "{") :: (Token.STRING, "ModelName")
            :: (Token.STRING, FSPath_str written) :: (Token.BRACE_CLOSE, "}") :: rest →
  SubType_parse_key key s st
  = Ok (SubType.set_models (SubType.models s ++ [read]) s, set_toks rest (line_num st) st).
Proof.
  intros Hkey Hmade Hwritten Hread Htoks. unfold SubType_parse_key. cbv zeta.
  rewrite decide_False by (rewrite Hkey; done). rewrite decide_True by done.
  unfold bind at 1.
  rewrite (next_skipping_newlines_nl st 0%nat Token.BRACE_OPEN "{" _
             ltac:(done) ltac:(done) Htoks).
  unfold bind at 1.
  erewrite (block_step_nl "Model" SubType_model_key None _ 0%nat "ModelName");
    [|apply shrinks_SubType_model_key|reflexivity|
     apply SubType_model_modelname; reflexivity].
  erewrite (block_end_nl "Model" SubType_model_key _ _ 0%nat "}"); [|reflexivity].
  rewrite !state_set_toks_set_toks.
  assert (path_made written) as Hmade'.
  { by apply (path_made_with_suffix model written "3ds"); [repeat constructor|..]. }
  rewrite (FSPath_of_str written Hmade').
  unfold or_error, bind, ret.
  rewrite (FSPath_with_suffix_suffix model written "3ds"); [|repeat constructor|done].
  rewrite decide_True by done.
  rewrite (FSPath_with_suffix_twice model written "3ds"), Hread; [|repeat constructor|done].
  unfold or_raise, ret, set_toks. simpl. do 3 f_equal. lia.
Qed.

Lemma SubType_palette_tooltip key v s st rest :
  casefold key = "tooltip" →
  toks st = (Token.STRING, v) :: rest →
  SubType_palette_key key s st = Ok (SubType.set_pal_name v s, set_toks rest (line_num st) st).
Proof.
  intros Hkey Htoks. unfold SubType_palette_key. cbv zeta. rewrite Hkey. simpl.
  unfold bind. by rewrite (expect_STRING st _ rest Htoks).
Qed.

Lemma SubType_palette_image key icon s st rest :
  casefold key = "image" →
  path_made icon →
  toks st = (Token.STRING, FSPath_str icon) :: rest →
  SubType_palette_key key s st
  = Ok (SubType.set_pal_icon (Some icon) s, set_toks rest (line_num st) st).
Proof.
  intros Hkey Hmade Htoks. unfold SubType_palette_key. cbv zeta. rewrite Hkey. simpl.
  unfold bind. rewrite (expect_STRING st _ rest Htoks). unfold ret.
  by rewrite (FSPath_of_str icon Hmade).
Qed.

Lemma SubType_palette_position key x y s st rest :
  casefold key = "position" →
  toks st = (Token.STRING, py_str x +:+ " " +:+ py_str y +:+ " 0") :: rest →
  SubType_palette_key key s st
  = Ok (SubType.set_pal_pos (Some (x, y)) s, set_toks rest (line_num st) st).
Proof.
  intros Hkey Htoks. unfold SubType_palette_key. cbv zeta. rewrite Hkey. simpl.
  unfold bind. rewrite (expect_STRING st _ rest Htoks).
  change (py_str x +:+ " " +:+ py_str y +:+ " 0") with (coord_text (x, y, 0)).
  rewrite split_coord_text. simpl. by rewrite !py_int_py_str.
Qed.

(** A written [Palette] block, read from behind its key. *)
Lemma SubType_key_palette key pal_name icon x y s st rest :
  casefold key = "palette" →
  (∀ i, icon = Some i → path_made i) →
  toks st = newline_token :: open_tokens ++ palette_lines pal_name icon x y
            ++ (Token.BRACE_CLOSE, "}") :: rest →
  SubType_parse_key key s st
  = Ok (SubType.set_pal_pos (Some (x, y))
          (SubType.set_pal_icon (match icon with Some i => Some i | None => SubType.pal_icon s end)
             (SubType.set_pal_name pal_name s)),
        set_toks rest (line_num st + 2 + count_newlines (palette_lines pal_name icon x y)) st).
Proof.
  intros Hkey Hmade Htoks. unfold SubType_parse_key. cbv zeta.
  do 2 rewrite decide_False by (rewrite Hkey; done). rewrite decide_True by done.
  rewrite (block_open_nl "Palette" SubType_palette_key s st 1%nat "{" _ Htoks).
  unfold palette_lines. destruct icon as [icon|].
  - erewrite (block_step_nl "Palette" SubType_palette_key _ _ 1%nat "Tooltip");
      [|apply shrinks_SubType_palette_key|reflexivity|
       apply SubType_palette_tooltip; reflexivity].
    erewrite (block_step_nl "Palette" SubType_palette_key _ _ 1%nat "Image");
      [|apply shrinks_SubType_palette_key|reflexivity|
       apply SubType_palette_image; [reflexivity|by apply Hmade|reflexivity]].
    erewrite (block_step_nl "Palette" SubType_palette_key _ _ 1%nat "Position");
      [|apply shrinks_SubType_palette_key|reflexivity|
       apply SubType_palette_position; reflexivity].
    erewrite (block_end_nl "Palette" SubType_palette_key _ _ 1%nat "}"); [|reflexivity].
    rewrite !state_set_toks_set_toks, !count_newlines_app, !count_newlines_kv_tokens.
    unfold set_toks. simpl. do 3 f_equal. lia.
  - erewrite (block_step_nl "Palette" SubType_palette_key _ _ 1%nat "Tooltip");
      [|apply shrinks_SubType_palette_key|reflexivity|
       apply SubType_palette_tooltip; reflexivity].
    erewrite (block_step_nl "Palette" SubType_palette_key _ _ 1%nat "Position");
      [|apply shrinks_SubType_palette_key|reflexivity|
       apply SubType_palette_position; reflexivity].
    erewrite (block_end_nl "Palette" SubType_palette_key _ _ 1%nat "}"); [|reflexivity].
    rewrite !state_set_toks_set_toks, !count_newlines_app, !count_newlines_kv_tokens.
    change (count_newlines []) with 0.
    unfold set_toks. simpl. destruct s. simpl. do 3 f_equal. lia.
Qed.

Lemma SubType_sounds_script key sound v s st rest :
  Sound.of_value (upper key) = Some sound →
  toks st = (Token.STRING, v) :: rest →
  SubType_sounds_key key s st
  = Ok (SubType.set_sounds (dict_set (SubType.sounds s) sound v) s,
        set_toks rest (line_num st) st).
Proof.
  intros Hkey Htoks. unfold SubType_sounds_key. rewrite Hkey. unfold or_error, bind, ret.
  by rewrite (expect_STRING st _ rest Htoks).
Qed.

(** A written [Sounds] block, read from behind its key. *)
Lemma SubType_key_sounds key sounds s st rest :
  casefold key = "sounds" →
  sounds.*1 = DEFAULT_SOUNDS.*1 →
  (SubType.sounds s).*1 = DEFAULT_SOUNDS.*1 →
  toks st = newline_token :: open_tokens ++ sounds_lines sounds
            ++ (Token.BRACE_CLOSE, "}") :: rest →
  SubType_parse_key key s st
  = Ok (SubType.set_sounds sounds s, set_toks rest (line_num st + 8) st).
Proof.
  intros Hkey Hsounds Hs Htoks. unfold SubType_parse_key. cbv zeta.
  do 3 rewrite decide_False by (rewrite Hkey; done). rewrite decide_True by done.
  rewrite (block_open_nl "Sounds" SubType_sounds_key s st 1%nat "{" _ Htoks). clear Htoks.
  destruct sounds as [|[k1 v1] [|[k2 v2] [|[k3 v3] [|[k4 v4] [|[k5 v5] [|[k6 v6] [|]]]]]]];
    try done.
  injection Hsounds as -> -> -> -> -> ->.
  destruct s as [name models sounds' anims pal_name pal_pos pal_icon].
  cbn [SubType.sounds] in Hs.
  destruct sounds' as [|[k1 w1] [|[k2 w2] [|[k3 w3] [|[k4 w4] [|[k5 w5] [|[k6 w6] [|]]]]]]];
    try done.
  injection Hs as -> -> -> -> -> ->.
  erewrite (block_step_nl "Sounds" SubType_sounds_key _ _ 1%nat "SOUND_SELECTED");
    [|apply shrinks_SubType_sounds_key|reflexivity|
     apply (SubType_sounds_script _ Sound.SELECT); reflexivity].
  tidy_state.
  erewrite (block_step_nl "Sounds" SubType_sounds_key _ _ 1%nat "SOUND_DESELECTED");
    [|apply shrinks_SubType_sounds_key|reflexivity|
     apply (SubType_sounds_script _ Sound.DESELECT); reflexivity].
  tidy_state.
  erewrite (block_step_nl "Sounds" SubType_sounds_key _ _ 1%nat "SOUND_DELETED");
    [|apply shrinks_SubType_sounds_key|reflexivity|
     apply (SubType_sounds_script _ Sound.DELETE); reflexivity].
  tidy_state.
  erewrite (block_step_nl "Sounds" SubType_sounds_key _ _ 1%nat "SOUND_CREATED");
    [|apply shrinks_SubType_sounds_key|reflexivity|
     apply (SubType_sounds_script _ Sound.CREATE); reflexivity].
  tidy_state.
  erewrite (block_step_nl "Sounds" SubType_sounds_key _ _ 1%nat "SOUND_EDITING_ACTIVATE");
    [|apply shrinks_SubType_sounds_key|reflexivity|
     apply (SubType_sounds_script _ Sound.PROPS_OPEN); reflexivity].
  tidy_state.
  erewrite (block_step_nl "Sounds" SubType_sounds_key _ _ 1%nat "SOUND_EDITING_DEACTIVATE");
    [|apply shrinks_SubType_sounds_key|reflexivity|
     apply (SubType_sounds_script _ Sound.PROPS_CLOSE); reflexivity].
  tidy_state.
  erewrite (block_end_nl "Sounds" SubType_sounds_key _ _ 1%nat "}"); [|reflexivity].
  tidy_state. unfold set_toks. simpl. do 3 f_equal. lia.
Qed.

(** *** The lines of a subtype in the loop over its block *)

Lemma SubType_name_step v s st rest :
  toks st = kv_tokens "Name" v ++ rest →
  block "Subtype" false SubType_parse_key s st
  = block "Subtype" false SubType_parse_key (SubType.set_name v s)
      (set_toks rest (line_num st + 1) st).
Proof.
  intros Htoks.
  erewrite (block_step_nl "Subtype" SubType_parse_key s st 0%nat "Name");
    [|apply shrinks_SubType_parse_key|exact Htoks|
     apply SubType_key_name; reflexivity].
  erewrite (block_skip_nl "Subtype" SubType_parse_key _ _ 1%nat rest);
    [|apply shrinks_SubType_parse_key|reflexivity].
  rewrite !state_set_toks_set_toks. unfold set_toks. simpl. do 2 f_equal. lia.
Qed.

Lemma SubType_model_step model written read s st rest :
  path_made model →
  FSPath_with_suffix model ".3ds" = Some written →
  FSPath_with_suffix model ".mdl" = Some read →
  toks st = model_line_tokens written ++ rest →
  block "Subtype" false SubType_parse_key s st
  = block "Subtype" false SubType_parse_key
      (SubType.set_models (SubType.models s ++ [read]) s)
      (set_toks rest (line_num st + 1) st).
Proof.
  intros Hmade Hwritten Hread Htoks.
  erewrite (block_step_nl "Subtype" SubType_parse_key s st 0%nat "Model");
    [|apply shrinks_SubType_parse_key|exact Htoks|
     by apply (SubType_key_model "Model" model written read)].
  erewrite (block_skip_nl "Subtype" SubType_parse_key _ _ 1%nat rest);
    [|apply shrinks_SubType_parse_key|reflexivity].
  rewrite !state_set_toks_set_toks. unfold set_toks. simpl. do 2 f_equal. lia.
Qed.

Lemma SubType_set_models_twice l l' s :
  SubType.set_models l (SubType.set_models l' s) = SubType.set_models l s.
Proof. by destruct s. Qed.

Lemma SubType_models_loop models written read s st rest :
  Forall path_made models →
  Forall2 (λ m w, FSPath_with_suffix m ".3ds" = Some w) models written →
  Forall2 (λ m r, FSPath_with_suffix m ".mdl" = Some r) models read →
  toks st = concat (model_line_tokens <$> written) ++ rest →
  block "Subtype" false SubType_parse_key s st
  = block "Subtype" false SubType_parse_key
      (SubType.set_models (SubType.models s ++ read) s)
      (set_toks rest (line_num st + Z.of_nat (length models)) st).
Proof.
  intros Hmade Hwritten. revert read s st.
  induction Hwritten as [|m w models written Hw Hwritten IH];
    intros read s st Hread Htoks.
  - apply Forall2_nil_inv_l in Hread as ->. simpl in *. rewrite app_nil_r, Z.add_0_r.
    destruct s, st; simpl in *. by subst.
  - apply Forall2_cons_inv_l in Hread as (r & read' & Hr & Hread & ->).
    apply Forall_cons in Hmade as [Hm Hmade].
    change (concat (model_line_tokens <$> w :: written))
      with (model_line_tokens w ++ concat (model_line_tokens <$> written)) in Htoks.
    rewrite <- app_assoc in Htoks.
    rewrite (SubType_model_step m w r s st _ Hm Hw Hr Htoks).
    erewrite (IH Hmade read'); [|done|reflexivity].
    rewrite !state_set_toks_set_toks, SubType_set_models_twice.
    destruct s; simpl. rewrite <- app_assoc. simpl. f_equal.
    unfold set_toks. simpl. f_equal. lia.
Qed.

Lemma SubType_palette_step pal_name icon x y s st rest :
  (∀ i, icon = Some i → path_made i) →
  toks st = key_tokens "Palette" ++ open_tokens ++ palette_lines pal_name icon x y
            ++ close_tokens ++ rest →
  block "Subtype" false SubType_parse_key s st
  = block "Subtype" false SubType_parse_key
      (SubType.set_pal_pos (Some (x, y))
         (SubType.set_pal_icon
            (match icon with Some i => Some i | None => SubType.pal_icon s end)
            (SubType.set_pal_name pal_name s)))
      (set_toks rest (line_num st + 3 + count_newlines (palette_lines pal_name icon x y)) st).
Proof.
  intros Hmade Htoks.
  erewrite (block_step_nl "Subtype" SubType_parse_key s st 0%nat "Palette");
    [|apply shrinks_SubType_parse_key|exact Htoks|
     by apply (SubType_key_palette "Palette" pal_name icon x y)].
  erewrite (block_skip_nl "Subtype" SubType_parse_key _ _ 1%nat rest);
    [|apply shrinks_SubType_parse_key|reflexivity].
  rewrite !state_set_toks_set_toks. unfold set_toks. simpl. do 2 f_equal. lia.
Qed.

Lemma SubType_sounds_step sounds s st rest :
  sounds.*1 = DEFAULT_SOUNDS.*1 →
  (SubType.sounds s).*1 = DEFAULT_SOUNDS.*1 →
  toks st = key_tokens "Sounds" ++ open_tokens ++ sounds_lines sounds
            ++ close_tokens ++ rest →
  block "Subtype" false SubType_parse_key s st
  = block "Subtype" false SubType_parse_key (SubType.set_sounds sounds s)
      (set_toks rest (line_num st + 9) st).
Proof.
  intros Hsounds Hs Htoks.
  erewrite (block_step_nl "Subtype" SubType_parse_key s st 0%nat "Sounds");
    [|apply shrinks_SubType_parse_key|exact Htoks|
     by apply (SubType_key_sounds "Sounds" sounds)].
  erewrite (block_skip_nl "Subtype" SubType_parse_key _ _ 1%nat rest);
    [|apply shrinks_SubType_parse_key|reflexivity].
  rewrite !state_set_toks_set_toks. unfold set_toks. simpl. do 2 f_equal. lia.
Qed.

Lemma FSPath_with_suffix_is_Some (p q : FSPath) (ext ext' : string) :
  FSPath_with_suffix p ext = Some q → is_Some (FSPath_with_suffix p ext').
Proof. unfold FSPath_with_suffix. case_decide; [done|]. by eexists. Qed.

(** The models of a subtype that can be written. *)
Lemma SubType_models_written models l :
  mapM (λ model, model ← FSPath_with_suffix model ".3ds"; Some (model_line_tokens model))
    models = Some l →
  ∃ written read,
    Forall2 (λ m w, FSPath_with_suffix m ".3ds" = Some w) models written ∧
    mapM (λ model, FSPath_with_suffix model ".mdl") models = Some read ∧
    l = model_line_tokens <$> written.
Proof.
  intros Hl. apply mapM_Some in Hl.
  induction Hl as [|m t models l Ht Hl (written & read & Hwritten & Hread & ->)].
  - by exists [], [].
  - destruct (FSPath_with_suffix m ".3ds") as [w|] eqn:Hw; [|done].
    injection Ht as <-.
    destruct (FSPath_with_suffix_is_Some m w ".3ds" ".mdl" Hw) as [r Hr].
    apply mapM_Some in Hread.
    exists (w :: written), (r :: read). split; [by constructor|]. split; [|done].
    apply mapM_Some. by constructor.
Qed.

Lemma SubType_name_part name s st rest :
  SubType.name s = "" →
  toks st = (if decide (name ≠ "") then kv_tokens "Name" name else []) ++ rest →
  block "Subtype" false SubType_parse_key s st
  = block "Subtype" false SubType_parse_key (SubType.set_name name s)
      (set_toks rest
         (line_num st
          + count_newlines (if decide (name ≠ "") then kv_tokens "Name" name else [])) st).
Proof.
  intros Hs Htoks. case_decide as Hname.
  - by rewrite (SubType_name_step name s st rest Htoks), count_newlines_kv_tokens.
  - subst name. change (count_newlines []) with 0.
    rewrite Z.add_0_r. destruct s, st; simpl in *. by subst.
Qed.

Lemma SubType_sounds_part sounds s st rest :
  sounds.*1 = DEFAULT_SOUNDS.*1 →
  SubType.sounds s = DEFAULT_SOUNDS →
  toks st = (if dict_neqb sounds DEFAULT_SOUNDS
             then key_tokens "Sounds" ++ open_tokens ++ sounds_lines sounds ++ close_tokens
             else []) ++ rest →
  block "Subtype" false SubType_parse_key s st
  = block "Subtype" false SubType_parse_key (SubType.set_sounds sounds s)
      (set_toks rest
         (line_num st + (if dict_neqb sounds DEFAULT_SOUNDS then 9 else 0)) st).
Proof.
  intros Hsounds Hs Htoks. destruct (dict_neqb sounds DEFAULT_SOUNDS) eqn:Hneq.
  - rewrite <- !app_assoc in Htoks.
    apply (SubType_sounds_step sounds s st rest Hsounds); [by rewrite Hs|done].
  - assert (sounds = DEFAULT_SOUNDS) as ->.
    { destruct sounds
        as [|[k1 v1] [|[k2 v2] [|[k3 v3] [|[k4 v4] [|[k5 v5] [|[k6 v6] [|]]]]]]]; try done.
      injection Hsounds as -> -> -> -> -> ->.
      unfold dict_neqb in Hneq. apply negb_false_iff, andb_true_iff in Hneq as [_ Hneq].
      simpl in Hneq.
      repeat (apply andb_true_iff in Hneq as [?%bool_decide_eq_true Hneq]).
      by simplify_eq. }
    rewrite Z.add_0_r. destruct s, st; simpl in *. by subst.
Qed.

Lemma SubType_palette_part self palette s st rest :
  (∀ icon, SubType.pal_icon self = Some icon → path_made icon) →
  palette_tokens self = Some palette →
  SubType.pal_name s = "" → SubType.pal_pos s = None → SubType.pal_icon s = None →
  toks st = palette ++ rest →
  ∃ pal_name pal_pos pal_icon,
    palette_read self = Some (pal_name, pal_pos, pal_icon) ∧
    block "Subtype" false SubType_parse_key s st
    = block "Subtype" false SubType_parse_key
        (SubType.set_pal_pos pal_pos
           (SubType.set_pal_icon pal_icon (SubType.set_pal_name pal_name s)))
        (set_toks rest (line_num st + count_newlines palette) st).
Proof.
  intros Hmade Hpalette Hname Hpos Hicon Htoks. unfold palette_tokens, palette_read in *.
  destruct (SubType.pal_pos self) as [[x y]|].
  - apply bind_Some in Hpalette as (icon & Hwritten & Hpalette).
    assert (palette = key_tokens "Palette" ++ open_tokens
              ++ palette_lines (SubType.pal_name self) icon x y ++ close_tokens) as ->
      by congruence.
    clear Hpalette.
    exists (SubType.pal_name self), (Some (x, y)), icon. rewrite Hwritten. split; [done|].
    rewrite <- !app_assoc in Htoks.
    erewrite (SubType_palette_step (SubType.pal_name self) icon x y s st rest); [|..|exact Htoks].
    + f_equal.
      * destruct icon; [done|]. by rewrite Hicon.
      * unfold key_tokens, open_tokens, close_tokens.
        rewrite !count_newlines_app. f_equal. change (count_newlines [_; newline_token]) with 1.
        lia.
    + intros i ->. unfold icon_written in Hwritten.
      destruct (SubType.pal_icon self) as [pal_icon|]; [|done].
      apply fmap_Some in Hwritten as (i' & Hi' & Heq). apply (inj Some) in Heq as ->.
      apply (path_made_with_suffix pal_icon i' "png"); [repeat constructor|by apply Hmade|done].
  - injection Hpalette as <-. exists "", None, None. split; [done|].
    change (count_newlines []) with 0. rewrite Z.add_0_r.
    destruct s, st; simpl in *. by subst.
Qed.

(** The lines [SubType.export] writes for a subtype with no
    animations, read back. *)
Lemma SubType_written self lines st rest :
  SubType.anims self = [] →
  (SubType.sounds self).*1 = DEFAULT_SOUNDS.*1 →
  Forall path_made (SubType.models self) →
  (∀ icon, SubType.pal_icon self = Some icon → path_made icon) →
  SubType_lines self = Some lines →
  toks st = newline_token :: open_tokens ++ lines ++ (Token.BRACE_CLOSE, "}") :: rest →
  ∃ read,
    SubType_read self = Some read ∧
    SubType_parse st = Ok (read, set_toks rest (line_num st + 2 + count_newlines lines) st).
Proof.
  intros Hanims Hsounds Hmodels Hicon Hlines Htoks. unfold SubType_lines in Hlines.
  apply bind_Some in Hlines as (ml & Hml & Hlines).
  apply bind_Some in Hlines as (palette & Hpalette & Hlines).
  apply (inj Some) in Hlines as <-.
  destruct (SubType_models_written _ _ Hml) as (written & models & Hwritten & Hread & ->).
  rewrite Hanims in Htoks |- *.
  assert (∀ X Y : list (Token.t * string),
            (if decide (@nil (Anim.t * Z) ≠ []) then X else Y) = Y) as Hnone
    by (intros; by case_decide).
  rewrite Hnone, !app_nil_r in Htoks |- *.
  unfold SubType_parse.
  rewrite (block_open_nl "Subtype" SubType_parse_key _ st 1%nat "{" _ Htoks).
  erewrite (block_skip_nl "Subtype" SubType_parse_key _ _ 1%nat);
    [|apply shrinks_SubType_parse_key|reflexivity].
  rewrite <- !app_assoc.
  erewrite (SubType_name_part (SubType.name self)); [|done|reflexivity].
  erewrite (SubType_models_loop (SubType.models self) written models);
    [|done|done|by apply mapM_Some|reflexivity].
  edestruct (SubType_palette_part self palette) as (pal_name & pal_pos & pal_icon & Hpal & ->);
    [done|done| | | |reflexivity|]; [done..|].
  erewrite (SubType_sounds_part (SubType.sounds self)); [|done|done|reflexivity].
  erewrite (block_end_nl "Subtype" SubType_parse_key _ _ 0%nat "}"); [|reflexivity].
  eexists. split.
  - unfold SubType_read. rewrite Hread, Hpal. reflexivity.
  - rewrite !state_set_toks_set_toks, !count_newlines_app. f_equal. f_equal.
    + by rewrite Hanims.
    + unfold set_toks. cbn [line_num]. f_equal.
      assert (count_newlines (concat (model_line_tokens <$> written))
              = Z.of_nat (length (SubType.models self))) as ->.
      { apply Forall2_length in Hwritten. rewrite Hwritten. clear.
        induction written as [|w written IH]; [done|].
        change (concat (model_line_tokens <$> w :: written))
          with (model_line_tokens w ++ concat (model_line_tokens <$> written)).
        rewrite count_newlines_app, IH. change (count_newlines (model_line_tokens w)) with 1.
        simpl length. lia. }
      destruct (dict_neqb _ _); [|change (count_newlines []) with 0; lia].
      unfold key_tokens, open_tokens, close_tokens. rewrite !count_newlines_app.
      change (count_newlines [_; newline_token]) with 1.
      assert (count_newlines (sounds_lines (SubType.sounds self)) = 6) as ->; [|lia].
      destruct (SubType.sounds self)
        as [|[k1 v1] [|[k2 v2] [|[k3 v3] [|[k4 v4] [|[k5 v5] [|[k6 v6] [|]]]]]]]; try done.
      by injection Hsounds as -> -> -> -> -> ->.
Qed.

(** What is read of a written subtype is written and read again as it
    is. *)
Lemma icon_written_stable pal_icon icon :
  icon_written pal_icon = Some icon → icon_written icon = Some icon.
Proof.
  unfold icon_written. destruct pal_icon as [pal_icon|]; [|by intros [= <-]].
  intros (written & Hwritten & ->)%fmap_Some.
  by rewrite (FSPath_with_suffix_twice pal_icon written "png" ".png"),
    Hwritten by (repeat constructor || done).
Qed.

Lemma SubType_read_stable (self read : SubType.t) :
  SubType_read self = Some read → SubType_read read = Some read.
Proof.
  unfold SubType_read. intros (models & Hmodels & Hread)%bind_Some.
  apply bind_Some in Hread as ([[pal_name pal_pos] pal_icon] & Hpalette & Hread).
  apply (inj Some) in Hread as <-. cbn [SubType.models SubType.name SubType.sounds
    SubType.anims].
  assert (mapM (λ model, FSPath_with_suffix model ".mdl") models = Some models) as ->.
  { apply mapM_Some in Hmodels. apply mapM_Some.
    induction Hmodels as [|m r l l' Hr Hl IH]; constructor; [|done].
    by rewrite (FSPath_with_suffix_twice m r "mdl" ".mdl") by (repeat constructor || done). }
  assert (palette_read (SubType.mk (SubType.name self) models (SubType.sounds self)
                          (SubType.anims self) pal_name pal_pos pal_icon)
          = Some (pal_name, pal_pos, pal_icon)) as ->; [|done].
  unfold palette_read in *. cbn [SubType.pal_pos SubType.pal_icon SubType.pal_name].
  destruct (SubType.pal_pos self) as [pos|].
  - apply bind_Some in Hpalette as (icon & Hicon & Heq).
    apply (inj Some) in Heq. injection Heq as <- <- <-.
    by rewrite (icon_written_stable _ _ Hicon).
  - apply (inj Some) in Hpalette. by injection Hpalette as <- <- <-.
Qed.

Section editor_round_trip.
Context {E : Externals}.

Lemma shrinks_parse_editor_key key (self : Item.t E) : shrinks (parse_editor_key key self).
Proof.
  pose proof shrinks_Anim_parse_block. pose proof shrinks_SubType_parse.
  unfold parse_editor_key. solve_shrinks.
Qed.

(** A key-value line in the loop over the [Editor] block. *)
Lemma editor_kv_step key value (self self' : Item.t E) st rest :
  (∀ st0 rest0, toks st0 = (Token.STRING, value) :: rest0 →
     parse_editor_key key self st0 = Ok (self', set_toks rest0 (line_num st0) st0)) →
  toks st = kv_tokens key value ++ rest →
  block "Editor" false parse_editor_key self st
  = block "Editor" false parse_editor_key self' (set_toks rest (line_num st + 1) st).
Proof.
  intros Hkey Htoks.
  erewrite (block_step_nl "Editor" parse_editor_key self st 0%nat key);
    [|apply shrinks_parse_editor_key|exact Htoks|by apply Hkey].
  erewrite (block_skip_nl "Editor" parse_editor_key _ _ 1%nat rest);
    [|apply shrinks_parse_editor_key|reflexivity].
  rewrite !state_set_toks_set_toks. unfold set_toks. simpl. do 2 f_equal. lia.
Qed.

(** A key-value line that is written on a condition. *)
Lemma editor_kv_part (written : bool) key value (self self' : Item.t E) st rest :
  (written = true → ∀ st0 rest0, toks st0 = (Token.STRING, value) :: rest0 →
     parse_editor_key key self st0 = Ok (self', set_toks rest0 (line_num st0) st0)) →
  (written = false → self' = self) →
  toks st = (if written then kv_tokens key value else []) ++ rest →
  block "Editor" false parse_editor_key self st
  = block "Editor" false parse_editor_key self'
      (set_toks rest (line_num st + (if written then 1 else 0)) st).
Proof.
  intros Hkey Hnone Htoks. destruct written.
  - by apply (editor_kv_step key value); [apply Hkey|].
  - rewrite (Hnone eq_refl), Z.add_0_r. destruct st; simpl in *. by subst.
Qed.










End editor_round_trip.

Lemma lexed_app l1 l2 r : lexed (l1 ++ l2) r = lexed l1 (lexed l2 r).
Proof. destruct r; simpl; [by rewrite app_assoc|done]. Qed.

Lemma lexed_nil r : lexed [] r = r.
Proof. by destruct r. Qed.

Lemma lex_blank (pad : string) line file rest :
  blank pad = true →
  lex_go LStart line file (pad +:+ rest) = lex_go LStart line file rest.
Proof.
  induction pad as [|c pad IH]; [done|]. rewrite string_app_cons. simpl.
  intros [Hc Hpad]%andb_true_iff. rewrite <- IH by done.
  apply orb_true_iff in Hc as [Hc|Hc]; apply Ascii.eqb_eq in Hc; by subst.
Qed.

Lemma lex_quote_go (s acc : string) line file rest :
  plain s = true →
  lex_go (LQuote acc) line file (s +:+ String "034" rest)
  = lexed [(Token.STRING, String.rev (String.rev_app s acc))] (lex_go LStart line file rest).
Proof.
  revert acc; induction s as [|c s IH]; intros acc.
  - intros _. change ("" +:+ String "034" rest) with (String "034" rest). simpl.
    by destruct (lex_go LStart line file rest).
  - rewrite string_app_cons. simpl. intros [Hc Hs]%andb_true_iff.
    apply negb_true_iff, orb_false_iff in Hc as [Hc Hnl].
    apply orb_false_iff in Hc as [Hq Hb]. rewrite Hq, Hb, Hnl. by apply IH.
Qed.

(** A quoted text is one string token. *)
Lemma lex_quoted (s : string) line file rest :
  plain s = true →
  lex_go LStart line file (quoted s +:+ rest)
  = lexed [(Token.STRING, s)] (lex_go LStart line file rest).
Proof.
  intros Hs. unfold quoted, dq.
  change ((String "034" "" +:+ s +:+ String "034" "") +:+ rest)
    with (String "034" ((s +:+ String "034" "") +:+ rest)).
  rewrite string_app_assoc.
  change (String "034" "" +:+ rest) with (String "034" rest).
  cbn [lex_go]. simpl. rewrite lex_quote_go by done.
  change (String.rev_app s "") with (String.rev s). by rewrite string_rev_involutive.
Qed.

Lemma lex_newline line file rest :
  lex_go LStart line file (nl +:+ rest)
  = lexed [(Token.NEWLINE, "")] (lex_go LStart (line + 1) file rest).
Proof. unfold nl. simpl. by destruct (lex_go _ _ _ _). Qed.

Lemma blank_tabs n : blank (tabs n) = true.
Proof. induction n as [|n IH]; [done|]. exact IH. Qed.

(** The lines the writer puts out, as the lexer reads them. *)
Lemma lex_line_kv (n : nat) key pad value line_no file rest :
  plain key = true → blank pad = true → plain value = true →
  lex_go LStart line_no file (line n (kv key pad value) +:+ rest)
  = lexed [(Token.STRING, key); (Token.STRING, value); (Token.NEWLINE, "")]
      (lex_go LStart (line_no + 1) file rest).
Proof.
  intros Hkey Hpad Hvalue. unfold line, kv.
  rewrite !string_app_assoc, lex_blank by apply blank_tabs.
  rewrite lex_quoted by done. rewrite lex_blank by done.
  rewrite lex_quoted by done. rewrite lex_newline.
  by destruct (lex_go _ _ _ _).
Qed.

Lemma lex_line_key (n : nat) key line_no file rest :
  plain key = true →
  lex_go LStart line_no file (line n (quoted key) +:+ rest)
  = lexed [(Token.STRING, key); (Token.NEWLINE, "")] (lex_go LStart (line_no + 1) file rest).
Proof.
  intros Hkey. unfold line.
  rewrite !string_app_assoc, lex_blank by apply blank_tabs.
  rewrite lex_quoted by done. rewrite lex_newline.
  by destruct (lex_go _ _ _ _).
Qed.

Lemma lex_brace_open line file rest :
  lex_go LStart line file (String "{" rest)
  = lexed [(Token.BRACE_OPEN, "{")] (lex_go LStart line file rest).
Proof. simpl. by destruct (lex_go _ _ _ _). Qed.

Lemma lex_brace_close line file rest :
  lex_go LStart line file (String "}" rest)
  = lexed [(Token.BRACE_CLOSE, "}")] (lex_go LStart line file rest).
Proof. simpl. by destruct (lex_go _ _ _ _). Qed.

Lemma lex_line_open (n : nat) line_no file rest :
  lex_go LStart line_no file (line n "{" +:+ rest)
  = lexed [(Token.BRACE_OPEN, "{"); (Token.NEWLINE, "")] (lex_go LStart (line_no + 1) file rest).
Proof.
  unfold line. rewrite !string_app_assoc, lex_blank by apply blank_tabs.
  change ("{" +:+ nl +:+ rest) with (String "{" (nl +:+ rest)).
  rewrite lex_brace_open, lex_newline. by destruct (lex_go _ _ _ _).
Qed.

Lemma lex_line_close (n : nat) line_no file rest :
  lex_go LStart line_no file (line n "}" +:+ rest)
  = lexed [(Token.BRACE_CLOSE, "}"); (Token.NEWLINE, "")] (lex_go LStart (line_no + 1) file rest).
Proof.
  unfold line. rewrite !string_app_assoc, lex_blank by apply blank_tabs.
  change ("}" +:+ nl +:+ rest) with (String "}" (nl +:+ rest)).
  rewrite lex_brace_close, lex_newline. by destruct (lex_go _ _ _ _).
Qed.

Lemma plain_app (s t : string) : plain (s +:+ t) = plain s && plain t.
Proof.
  induction s as [|c s IH]; [done|]. rewrite string_app_cons. simpl.
  by rewrite IH, andb_assoc.
Qed.

Lemma all_digits_plain (s : string) : all_digits s = true → plain s = true.
Proof.
  induction s as [|c s IH]; [done|]. simpl. intros [Hc Hs]%andb_true_iff.
  rewrite IH by done. apply bool_decide_eq_true in Hc.
  destruct c as [[] [] [] [] [] [] [] []]; try done; by destruct Hc.
Qed.

Lemma plain_py_str (n : Z) : plain (py_str n) = true.
Proof.
  unfold py_str, pretty, pretty_Z. destruct n as [|p|p]; [done| |];
    unfold pretty, pretty_positive, pretty, pretty_N; rewrite decide_False by done.
  - apply all_digits_plain. by apply all_digits_pretty_N_go.
  - change ("-" +:+ pretty_N_go (N.pos p) "") with (String "-" (pretty_N_go (N.pos p) "")).
    simpl. apply all_digits_plain. by apply all_digits_pretty_N_go.
Qed.

Lemma plain_coord_text (c : Coord) : plain (coord_text c) = true.
Proof. unfold coord_text. by rewrite !plain_app, !plain_py_str. Qed.

(** A comment runs to the end of its line and leaves the newline. *)
Lemma lex_comment_go (s : string) line file rest :
  plain s = true →
  lex_go LComment line file (s +:+ nl +:+ rest)
  = lexed [(Token.NEWLINE, "")] (lex_go LStart (line + 1) file rest).
Proof.
  induction s as [|c s IH].
  - intros _. simpl. by destruct (lex_go _ _ _ _).
  - rewrite string_app_cons. simpl. intros [Hc Hs]%andb_true_iff.
    apply negb_true_iff, orb_false_iff in Hc as [_ ->]. by apply IH.
Qed.

Lemma lex_slashes line file rest :
  lex_go LStart line file (String "/" (String "/" rest)) = lex_go LComment line file rest.
Proof. reflexivity. Qed.

Lemma lex_line_comment (n : nat) (s : string) line_no file rest :
  plain s = true →
  lex_go LStart line_no file (line n ("// " +:+ s) +:+ rest)
  = lexed [newline_token] (lex_go LStart (line_no + 1) file rest).
Proof.
  intros Hs. unfold line. rewrite !string_app_assoc, lex_blank by apply blank_tabs.
  change ("// " +:+ s +:+ nl +:+ rest) with (String "/" (String "/" (String " " (s +:+ nl +:+ rest)))).
  rewrite lex_slashes.
  change (String " " (s +:+ nl +:+ rest)) with ((String " " s) +:+ nl +:+ rest).
  by rewrite (lex_comment_go (String " " s)).
Qed.

(** *** The text of a point and of a box, as the lexer reads it *)

Lemma lex_export_point side point line_no file rest :
  lex_go LStart line_no file (export_point side point +:+ rest)
  = lexed (point_tokens side point)
      (lex_go LStart (line_no + count_newlines (point_tokens side point)) file rest).
Proof.
  rewrite count_newlines_point_tokens. unfold export_point, point_tokens.
  destruct point as [pos sign_off priority [g|]]; simpl AntlinePoint.group; cbv iota;
    rewrite !string_app_assoc;
    rewrite lex_line_key by done; rewrite lex_line_open;
    rewrite !lex_line_kv by (done || apply plain_coord_text || apply plain_py_str);
    rewrite ?string_app_assoc, ?lex_line_kv by (done || apply plain_py_str);
    change ("" +:+ line 4 "}" +:+ rest) with (line 4 "}" +:+ rest);
    rewrite lex_line_close.
  - replace (line_no + 1 + 1 + 1 + 1 + 1 + 1 + 1 + 1) with (line_no + (7 + 1)) by lia.
    by destruct (lex_go _ _ _ _).
  - replace (line_no + 1 + 1 + 1 + 1 + 1 + 1 + 1) with (line_no + (7 + 0)) by lia.
    by destruct (lex_go _ _ _ _).
Qed.

Lemma lex_export_box b line_no file rest :
  lex_go LStart line_no file (export_box b +:+ rest)
  = lexed (box_tokens b) (lex_go LStart (line_no + count_newlines (box_tokens b)) file rest).
Proof.
  rewrite count_newlines_box_tokens. destruct b as [pos1 pos2].
  unfold export_box, box_tokens. simpl. case_decide;
    rewrite !string_app_assoc;
    rewrite lex_line_key by done; rewrite lex_line_open;
    rewrite !lex_line_kv by (done || apply plain_coord_text);
    rewrite lex_line_close.
  - replace (line_no + 1 + 1 + 1 + 1) with (line_no + 4) by lia. by destruct (lex_go _ _ _ _).
  - replace (line_no + 1 + 1 + 1 + 1 + 1) with (line_no + 5) by lia. by destruct (lex_go _ _ _ _).
Qed.

Lemma lex_export_boxes boxes line_no file rest :
  lex_go LStart line_no file (concat_strings (export_box <$> boxes) +:+ rest)
  = lexed (boxes ≫= box_tokens)
      (lex_go LStart (line_no + count_newlines (boxes ≫= box_tokens)) file rest).
Proof.
  revert line_no; induction boxes as [|b boxes IH]; intros line_no.
  - simpl. change (count_newlines []) with 0. rewrite Z.add_0_r.
    by destruct (lex_go _ _ _ _).
  - change (concat_strings (export_box <$> b :: boxes))
      with (export_box b +:+ concat_strings (export_box <$> boxes)).
    change ((b :: boxes) ≫= box_tokens) with (box_tokens b ++ (boxes ≫= box_tokens)).
    rewrite string_app_assoc, lex_export_box, IH, lexed_app, count_newlines_app.
    by rewrite Z.add_assoc.
Qed.

Lemma lex_export_points side points line_no file rest :
  lex_go LStart line_no file (concat_strings (export_point side <$> points) +:+ rest)
  = lexed (points ≫= point_tokens side)
      (lex_go LStart (line_no + count_newlines (points ≫= point_tokens side)) file rest).
Proof.
  revert line_no; induction points as [|p points IH]; intros line_no.
  - simpl. change (count_newlines []) with 0. rewrite Z.add_0_r.
    by destruct (lex_go _ _ _ _).
  - change (concat_strings (export_point side <$> p :: points))
      with (export_point side p +:+ concat_strings (export_point side <$> points)).
    change ((p :: points) ≫= point_tokens side)
      with (point_tokens side p ++ (points ≫= point_tokens side)).
    rewrite string_app_assoc, lex_export_point, IH, lexed_app, count_newlines_app.
    by rewrite Z.add_assoc.
Qed.

Lemma lex_export_sides sides is_first antline_points line_no file rest :
  lex_go LStart line_no file (export_sides sides is_first antline_points +:+ rest)
  = lexed (sides_tokens sides is_first antline_points)
      (lex_go LStart (line_no + count_newlines (sides_tokens sides is_first antline_points))
         file rest).
Proof.
  revert is_first line_no; induction sides as [|side sides IH]; intros is_first line_no.
  - simpl. change (count_newlines []) with 0. rewrite Z.add_0_r.
    by destruct (lex_go _ _ _ _).
  - simpl. case_decide as Hpoints; [apply IH|].
    rewrite !string_app_assoc.
    assert (∀ l, count_newlines (newline_token :: l) = 1 + count_newlines l) as Hcons.
    { intros l. unfold count_newlines. rewrite filter_cons_True by done. cbn [length]. lia. }
    destruct is_first.
    + change ("" +:+ line 3 ("// " +:+ title (ConnSide.name side)) +:+
              concat_strings (export_point side <$> default [] (dict_get antline_points side))
              +:+ export_sides sides false antline_points +:+ rest)
        with (line 3 ("// " +:+ title (ConnSide.name side)) +:+
              concat_strings (export_point side <$> default [] (dict_get antline_points side))
              +:+ export_sides sides false antline_points +:+ rest).
      rewrite lex_line_comment by by destruct side.
      rewrite lex_export_points, IH. simpl.
      rewrite Hcons, count_newlines_app, <- lexed_app.
      replace (line_no + 1 + _ + _) with (line_no + (1 + (count_newlines
        (default [] (dict_get antline_points side) ≫= point_tokens side)
        + count_newlines (sides_tokens sides false antline_points)))) by lia.
      destruct (lex_go _ _ _ _); simpl; [by rewrite <- !app_assoc|done].
    + rewrite lex_newline, lex_line_comment by by destruct side.
      rewrite lex_export_points, IH. simpl.
      rewrite !Hcons, count_newlines_app, <- lexed_app.
      replace (line_no + 1 + 1 + _ + _) with (line_no + (1 + (1 + (count_newlines
        (default [] (dict_get antline_points side) ≫= point_tokens side)
        + count_newlines (sides_tokens sides false antline_points))))) by lia.
      destruct (lex_go _ _ _ _); simpl; [by rewrite <- !app_assoc|done].
Qed.

(** *** The text of the instances and of a subtype, as the lexer reads it *)

Lemma lex_export_instance (i : nat) inst line_no file rest :
  plain (FSPath_str (InstCount.inst inst)) = true →
  lex_go LStart line_no file (export_instance i inst +:+ rest)
  = lexed (instance_tokens i inst)
      (lex_go LStart (line_no + count_newlines (instance_tokens i inst)) file rest).
Proof.
  intros Hplain. rewrite count_newlines_instance_tokens.
  unfold export_instance, instance_tokens, instance_lines. cbv zeta.
  rewrite !string_app_assoc, lex_line_key by apply plain_py_str. rewrite lex_line_open.
  case_decide; [|case_decide];
    rewrite ?string_app_assoc, !lex_line_kv by (done || apply plain_py_str);
    rewrite lex_line_close;
    rewrite ?count_newlines_app, !count_newlines_kv_tokens.
  - replace (line_no + 1 + 1 + 1 + 1) with (line_no + (3 + 1)) by lia.
    by destruct (lex_go _ _ _ _).
  - replace (line_no + 1 + 1 + 1 + 1 + 1 + 1 + 1) with (line_no + (3 + (1 + (1 + (1 + 1)))))
      by lia.
    by destruct (lex_go _ _ _ _).
  - replace (line_no + 1 + 1 + 1 + 1) with (line_no + (3 + 1)) by lia.
    by destruct (lex_go _ _ _ _).
Qed.

Lemma lex_export_instances_from (k : nat) instances line_no file rest :
  Forall (λ inst, plain (FSPath_str (InstCount.inst inst)) = true) instances →
  lex_go LStart line_no file
    (concat_strings (imap (λ i, export_instance (k + i)) instances) +:+ rest)
  = lexed (instances_tokens k instances)
      (lex_go LStart (line_no + count_newlines (instances_tokens k instances)) file rest).
Proof.
  intros Hplain. revert k line_no.
  induction Hplain as [|inst instances Hinst Hplain IH]; intros k line_no.
  - simpl. change (count_newlines (instances_tokens k [])) with 0. rewrite Z.add_0_r.
    by destruct (lex_go _ _ _ _).
  - rewrite instances_tokens_cons, imap_cons.
    change (concat_strings (?x :: ?l)) with (x +:+ concat_strings l). cbv beta.
    rewrite Nat.add_0_r, string_app_assoc, lex_export_instance by done.
    assert (imap ((λ i, export_instance (k + i)) ∘ S) instances
            = imap (λ i, export_instance (S k + i)) instances) as ->.
    { apply imap_ext. intros i x _. unfold compose. f_equal. lia. }
    rewrite IH, lexed_app, count_newlines_app. by rewrite Z.add_assoc.
Qed.

Lemma lex_export_instances instances line_no file rest :
  Forall (λ inst, plain (FSPath_str (InstCount.inst inst)) = true) instances →
  lex_go LStart line_no file (concat_strings (imap export_instance instances) +:+ rest)
  = lexed (instances_tokens 0 instances)
      (lex_go LStart (line_no + count_newlines (instances_tokens 0 instances)) file rest).
Proof. apply (lex_export_instances_from 0). Qed.

Lemma lex_model_line (written : FSPath) line_no file rest :
  plain (FSPath_str written) = true →
  lex_go LStart line_no file
    (line 3 (quoted "Model" +:+ " { " +:+ kv "ModelName" " " (FSPath_str written) +:+ " }")
     +:+ rest)
  = lexed (model_line_tokens written) (lex_go LStart (line_no + 1) file rest).
Proof.
  intros Hplain. unfold line, kv.
  rewrite !string_app_assoc, lex_blank by apply blank_tabs.
  rewrite lex_quoted by done.
  change (" { " +:+ ?s) with (" " +:+ String "{" (" " +:+ s)).
  rewrite lex_blank by done. rewrite lex_brace_open, lex_blank by done.
  rewrite lex_quoted by done. rewrite lex_blank by done.
  rewrite lex_quoted by done.
  change (" }" +:+ ?s) with (" " +:+ String "}" s).
  rewrite lex_blank by done. rewrite lex_brace_close, lex_newline.
  by destruct (lex_go _ _ _ _).
Qed.

Lemma lex_SubType_models models texts :
  Forall (λ model, ∀ written, FSPath_with_suffix model ".3ds" = Some written →
                              plain (FSPath_str written) = true) models →
  mapM (λ model,
      model ← FSPath_with_suffix model ".3ds";
      Some (line 3 (quoted "Model" +:+ " { " +:+ kv "ModelName" " " (FSPath_str model)
                    +:+ " }"))) models = Some texts →
  ∃ toks,
    mapM (λ model, model ← FSPath_with_suffix model ".3ds"; Some (model_line_tokens model))
      models = Some toks ∧
    ∀ line_no file rest,
      lex_go LStart line_no file (concat_strings texts +:+ rest)
      = lexed (concat toks) (lex_go LStart (line_no + count_newlines (concat toks)) file rest).
Proof.
  intros Hplain Htexts. apply mapM_Some in Htexts.
  induction Htexts as [|m t models texts Ht Htexts IH].
  - exists []. split; [done|]. intros line_no file rest. simpl.
    change (count_newlines []) with 0. rewrite Z.add_0_r. by destruct (lex_go _ _ _ _).
  - apply Forall_cons in Hplain as [Hm Hplain].
    destruct (IH Hplain) as (toks & Htoks & Hlex).
    destruct (FSPath_with_suffix m ".3ds") as [w|] eqn:Hw; [|done].
    apply (inj Some) in Ht as <-.
    exists (model_line_tokens w :: toks). split.
    + apply mapM_Some. constructor; [by rewrite Hw|by apply mapM_Some].
    + intros line_no file rest.
      change (concat_strings (?x :: ?l)) with (x +:+ concat_strings l).
      change (concat (?x :: ?l)) with (x ++ concat l).
      rewrite string_app_assoc, lex_model_line, Hlex, lexed_app, count_newlines_app
        by by apply Hm.
      change (count_newlines (model_line_tokens w)) with 1. by rewrite Z.add_assoc.
Qed.

Lemma lex_SubType_palette (self : SubType.t) text :
  plain (SubType.pal_name self) = true →
  (∀ icon written, SubType.pal_icon self = Some icon →
                   FSPath_with_suffix icon ".png" = Some written →
                   plain (FSPath_str written) = true) →
  match SubType.pal_pos self with
  | Some (x, y) =>
      icon ← match SubType.pal_icon self with
             | Some pal_icon =>
                 pal_icon ← FSPath_with_suffix pal_icon ".png";
                 Some (line 4 (kv "Image" "    " (FSPath_str pal_icon)))
             | None => Some ""
             end;
      Some (line 3 (quoted "Palette") +:+ line 4 "{"
            +:+ line 4 (kv "Tooltip" "  " (SubType.pal_name self))
            +:+ icon
            +:+ line 4 (kv "Position" " " (py_str x +:+ " " +:+ py_str y +:+ " 0"))
            +:+ line 4 "}")
  | None => Some ""
  end = Some text →
  ∃ toks,
    palette_tokens self = Some toks ∧
    ∀ line_no file rest,
      lex_go LStart line_no file (text +:+ rest)
      = lexed toks (lex_go LStart (line_no + count_newlines toks) file rest).
Proof.
  intros Hname Hicon Htext. unfold palette_tokens, icon_written.
  destruct (SubType.pal_pos self) as [[x y]|].
  - apply bind_Some in Htext as (icon & Hwritten & Htext). apply (inj Some) in Htext as <-.
    assert (plain (py_str x +:+ " " +:+ py_str y +:+ " 0") = true) as Hpos
      by apply (plain_coord_text (x, y, 0)).
    destruct (SubType.pal_icon self) as [pal_icon|].
    + apply bind_Some in Hwritten as (w & Hw & Heq). apply (inj Some) in Heq as <-.
      rewrite Hw. eexists. split; [reflexivity|]. intros line_no file rest.
      unfold palette_lines.
      rewrite !string_app_assoc, lex_line_key by done. rewrite lex_line_open.
      rewrite !lex_line_kv by (done || by eapply Hicon). rewrite lex_line_close.
      replace (line_no + 1 + 1 + 1 + 1 + 1 + 1) with (line_no + 6) by lia.
      by destruct (lex_go _ _ _ _).
    + apply (inj Some) in Hwritten as <-.
      eexists. split; [reflexivity|]. intros line_no file rest.
      unfold palette_lines.
      rewrite !string_app_assoc, lex_line_key by done. rewrite lex_line_open.
      rewrite lex_line_kv by done.
      change ("" +:+ ?s) with s.
      rewrite lex_line_kv by done. rewrite lex_line_close.
      replace (line_no + 1 + 1 + 1 + 1 + 1) with (line_no + 5) by lia.
      by destruct (lex_go _ _ _ _).
  - apply (inj Some) in Htext as <-. exists []. split; [done|].
    intros line_no file rest. change (count_newlines []) with 0. rewrite Z.add_0_r.
    by destruct (lex_go _ _ _ _).
Qed.

Lemma lex_sound_line (sounds : dict Sound.t string) snd_type line_no file rest :
  Forall (λ kv, plain kv.2 = true) sounds →
  lex_go LStart line_no file
    (match dict_get sounds snd_type with
     | Some sndscript => line 4 (kv (Sound.value snd_type) " " sndscript)
     | None => ""
     end +:+ rest)
  = lexed (match dict_get sounds snd_type with
           | Some sndscript => kv_tokens (Sound.value snd_type) sndscript
           | None => []
           end)
      (lex_go LStart
         (line_no + count_newlines (match dict_get sounds snd_type with
                                    | Some sndscript => kv_tokens (Sound.value snd_type) sndscript
                                    | None => []
                                    end)) file rest).
Proof.
  intros Hplain. destruct (dict_get sounds snd_type) as [v|] eqn:Hv.
  - rewrite lex_line_kv, count_newlines_kv_tokens;
      [done|by destruct snd_type|done|].
    by apply (dict_get_Forall (λ v, plain v = true) sounds snd_type v).
  - change (count_newlines []) with 0. rewrite Z.add_0_r. by destruct (lex_go _ _ _ _).
Qed.

Lemma lex_sounds_lines (sounds : dict Sound.t string) members line_no file rest :
  Forall (λ kv, plain kv.2 = true) sounds →
  lex_go LStart line_no file
    (concat_strings ((λ snd_type,
        match dict_get sounds snd_type with
        | Some sndscript => line 4 (kv (Sound.value snd_type) " " sndscript)
        | None => ""
        end) <$> members) +:+ rest)
  = lexed (concat ((λ snd_type,
        match dict_get sounds snd_type with
        | Some sndscript => kv_tokens (Sound.value snd_type) sndscript
        | None => []
        end) <$> members))
      (lex_go LStart
         (line_no + count_newlines (concat ((λ snd_type,
            match dict_get sounds snd_type with
            | Some sndscript => kv_tokens (Sound.value snd_type) sndscript
            | None => []
            end) <$> members))) file rest).
Proof.
  intros Hplain. revert line_no. induction members as [|m members IH]; intros line_no.
  - simpl. change (count_newlines []) with 0. rewrite Z.add_0_r.
    by destruct (lex_go _ _ _ _).
  - rewrite !fmap_cons.
    change (concat_strings (?x :: ?l)) with (x +:+ concat_strings l).
    change (concat (?x :: ?l)) with (x ++ concat l).
    rewrite string_app_assoc, lex_sound_line, IH, lexed_app, count_newlines_app by done.
    by rewrite Z.add_assoc.
Qed.

Lemma lex_anim_lines (anims : list (Anim.t * Z)) line_no file rest :
  lex_go LStart line_no file
    (concat_strings ((λ '(anim_name, anim_ind),
        line 4 (kv (Anim.value anim_name) " " (py_str anim_ind))) <$> anims) +:+ rest)
  = lexed (concat ((λ '(anim_name, anim_ind),
        kv_tokens (Anim.value anim_name) (py_str anim_ind)) <$> anims))
      (lex_go LStart
         (line_no + count_newlines (concat ((λ '(anim_name, anim_ind),
            kv_tokens (Anim.value anim_name) (py_str anim_ind)) <$> anims))) file rest).
Proof.
  revert line_no. induction anims as [|[a i] anims IH]; intros line_no.
  - simpl. change (count_newlines []) with 0. rewrite Z.add_0_r.
    by destruct (lex_go _ _ _ _).
  - rewrite !fmap_cons.
    change (concat_strings (?x :: ?l)) with (x +:+ concat_strings l).
    change (concat (?x :: ?l)) with (x ++ concat l).
    rewrite string_app_assoc, lex_line_kv, IH, lexed_app, count_newlines_app,
      count_newlines_kv_tokens, Z.add_assoc; [done|by destruct a|done|apply plain_py_str].
Qed.

Lemma lexes_nil : lexes "" [].
Proof.
  intros line_no file rest. change (count_newlines []) with 0. rewrite Z.add_0_r.
  by destruct (lex_go _ _ _ _).
Qed.

Lemma lexes_app text1 toks1 text2 toks2 :
  lexes text1 toks1 → lexes text2 toks2 → lexes (text1 +:+ text2) (toks1 ++ toks2).
Proof.
  intros H1 H2 line_no file rest.
  by rewrite string_app_assoc, H1, H2, lexed_app, count_newlines_app, Z.add_assoc.
Qed.

Lemma lexes_line_kv (n : nat) key pad value :
  plain key = true → blank pad = true → plain value = true →
  lexes (line n (kv key pad value)) (kv_tokens key value).
Proof. intros Hkey Hpad Hvalue line_no file rest. by rewrite lex_line_kv. Qed.

Lemma lexes_line_key (n : nat) key :
  plain key = true → lexes (line n (quoted key)) (key_tokens key).
Proof. intros Hkey line_no file rest. by rewrite lex_line_key. Qed.

Lemma lexes_line_open (n : nat) : lexes (line n "{") open_tokens.
Proof. intros line_no file rest. by rewrite lex_line_open. Qed.

Lemma lexes_line_close (n : nat) : lexes (line n "}") close_tokens.
Proof. intros line_no file rest. by rewrite lex_line_close. Qed.

(** The text [SubType.export] writes is read as the tokens of its
    lines. *)
Lemma lex_SubType_export (self : SubType.t) (text : string) :
  SubType_plain self →
  SubType_export self = Some text →
  ∃ toks, SubType_tokens self = Some toks ∧ lexes text toks.
Proof.
  intros (Hname & Hpal_name & Hmodels & Hicon & Hsounds) Htext.
  unfold SubType_export in Htext.
  apply bind_Some in Htext as (models & Hmodels_text & Htext).
  apply bind_Some in Htext as (palette & Hpalette_text & Htext).
  apply (inj Some) in Htext as <-.
  destruct (lex_SubType_models _ _ Hmodels Hmodels_text) as (model_toks & Hmodel_toks & Hlex1).
  destruct (lex_SubType_palette self palette Hpal_name Hicon Hpalette_text)
    as (palette_toks & Hpalette_toks & Hlex2).
  unfold SubType_tokens, SubType_lines. rewrite Hmodel_toks, Hpalette_toks.
  eexists. split; [reflexivity|].
  apply lexes_app; [by apply lexes_line_key|].
  apply lexes_app; [apply lexes_line_open|].
  rewrite <- !app_assoc.
  apply lexes_app; [case_decide; [by apply lexes_line_kv|apply lexes_nil]|].
  apply lexes_app; [exact Hlex1|].
  apply lexes_app; [exact Hlex2|].
  apply lexes_app.
  { destruct (dict_neqb _ _); [|apply lexes_nil].
    apply lexes_app; [by apply lexes_line_key|].
    apply lexes_app; [apply lexes_line_open|].
    apply lexes_app; [|apply lexes_line_close].
    intros line_no file rest. by apply lex_sounds_lines. }
  apply lexes_app; [|apply lexes_line_close].
  destruct (decide (SubType.anims self ≠ [])); [|apply lexes_nil].
  apply lexes_app; [by apply lexes_line_key|].
  apply lexes_app; [apply lexes_line_open|].
  apply lexes_app; [|apply lexes_line_close].
  intros line_no file rest. apply lex_anim_lines.
Qed.

Lemma lexes_export_instances instances :
  Forall (λ inst, plain (FSPath_str (InstCount.inst inst)) = true) instances →
  lexes (concat_strings (imap export_instance instances)) (instances_tokens 0 instances).
Proof. intros Hplain line_no file rest. by apply lex_export_instances. Qed.

Section edges.
Context {E : Externals}.

(** An unknown property name: [KeyError] behind [SubtypeProperty],
    whose handler catches [ValueError] only; the parse error in a
    [Properties] block. *)
Lemma unknown_subtype_property key (self : Item.t E) st value rest :
  casefold key = "subtypeproperty" →
  toks st = (Token.STRING, value) :: rest →
  PROP_TYPES E (casefold value) = None →
  parse_editor_key key self st = Err (KeyError (casefold value)).
Proof.
  intros Hkey Htoks Hprop. unfold parse_editor_key. cbv zeta. rewrite Hkey. simpl.
  unfold bind. rewrite (expect_STRING st _ rest Htoks). by rewrite Hprop.
Qed.

Lemma unknown_property prop_str (self : Item.t E) st :
  PROP_TYPES E (casefold prop_str) = None →
  parse_properties_key prop_str self st
  = Err (TokenSyntaxError (Msg ("Unknown property " +:+ quoted prop_str +:+ "!"))
           (filename st) (line_num st)).
Proof. intros Hprop. unfold parse_properties_key, bind. by rewrite Hprop. Qed.

(** The key [PseudoHandle] assigns the attribute [pseudo_handle]. *)
Lemma parse_PseudoHandle key (self : Item.t E) st value rest :
  casefold key = "pseudohandle" →
  toks st = (Token.STRING, value) :: rest →
  parse_editor_key key self st
  = Ok (Item.set_pseudo_handle (Some (conv_bool value false)) self,
        set_toks rest (line_num st) st).
Proof.
  intros Hkey Htoks. unfold parse_editor_key. cbv zeta. rewrite Hkey. simpl.
  unfold bind. by rewrite (expect_STRING st value rest).
Qed.

(** A custom instance, given as a bare file name. *)
Lemma custom_instance_prefixed inst_name (self : Item.t E) st file rest :
  py_int inst_name = None →
  startswith "bee2_" (casefold inst_name) = true →
  toks st = (Token.STRING, file) :: rest →
  _parse_instance_block inst_name self st
  = Ok (Item.set_cust_instances
          (dict_set (Item.cust_instances self) (string_drop 5 inst_name) (FSPath_of file)) self,
        set_toks rest (line_num st) st).
Proof.
  intros Hint Hprefix Htoks. unfold _parse_instance_block. rewrite Hint, Hprefix.
  unfold bind, ret at 1. by rewrite (parse_instance_value_STRING st file rest Htoks).
Qed.

Lemma custom_instance_bare inst_name (self : Item.t E) st file rest :
  py_int inst_name = None →
  startswith "bee2_" (casefold inst_name) = false →
  toks st = (Token.STRING, file) :: rest →
  _parse_instance_block inst_name self st
  = Ok (Item.set_cust_instances
          (dict_set (Item.cust_instances self) inst_name (FSPath_of file)) self,
        log_warning (no_prefix_warning st) (set_toks rest (line_num st) st)).
Proof.
  intros Hint Hprefix Htoks. unfold _parse_instance_block. rewrite Hint, Hprefix.
  unfold bind.
  rewrite (parse_instance_value_STRING (log_warning (no_prefix_warning st) st) file rest Htoks).
  by destruct st.
Qed.

(** A model with no file name: [with_suffix] raises [ValueError]. *)
Lemma model_without_name key subtype st value rest :
  casefold key = "model" →
  toks st = (Token.STRING, value) :: rest →
  FSPath_name (FSPath_of value) = "" →
  SubType_parse_key key subtype st = Err ValueError.
Proof.
  intros Hkey Htoks Hname. unfold SubType_parse_key. cbv zeta. rewrite Hkey. simpl.
  unfold bind, next_skipping_newlines, bind, skip_newlines, next_token.
  rewrite Htoks. simpl.
  destruct (FSPath_no_name (FSPath_of value) ".mdl" Hname) as [-> ->]. done.
Qed.

(** *** The frame of the document *)

Lemma expect_at_end token st (n : nat) :
  token ≠ Token.NEWLINE →
  toks st = replicate n newline_token →
  expect token st
  = if decide (token = Token.EOF)
    then Ok ("", set_toks [] (line_num st + Z.of_nat n) st)
    else Err (TokenSyntaxError (UnexpectedToken Token.EOF) (filename st)
                (line_num st + Z.of_nat n)).
Proof.
  intros Hnl Htoks. unfold expect, bind. rewrite decide_False by done.
  unfold skip_newlines. rewrite Htoks.
  rewrite <- (app_nil_r (replicate n newline_token)). unfold newline_token.
  rewrite drop_newlines_replicate. simpl. unfold next_token. simpl.
  destruct token; try done.
Qed.

Lemma document_empty st (n : nat) :
  toks st = replicate n newline_token →
  @Item_parse_tokens E st
  = Err (TokenSyntaxError (UnexpectedToken Token.EOF) (filename st)
           (line_num st + Z.of_nat n)).
Proof.
  intros Htoks. unfold Item_parse_tokens, bind.
  by rewrite (expect_at_end Token.STRING st n) by done.
Qed.

Lemma document_other_block st (n : nat) first rest :
  toks st = replicate n newline_token ++ (Token.STRING, first) :: rest →
  casefold first ≠ "itemdata" →
  @Item_parse_tokens E st
  = Err (TokenSyntaxError (Msg ("No " +:+ quoted "ItemData" +:+ " block present!"))
           (filename st) (line_num st + Z.of_nat n)).
Proof.
  intros Htoks Hfirst. unfold Item_parse_tokens, bind, expect, bind, skip_newlines.
  rewrite decide_False by done. rewrite Htoks. unfold newline_token.
  rewrite drop_newlines_replicate. simpl. unfold next_token. simpl.
  by rewrite decide_True by done.
Qed.

Lemma document_no_items st first v1 v2 rest :
  toks st = (Token.STRING, first) :: (Token.BRACE_OPEN, v1) :: (Token.BRACE_CLOSE, v2) :: rest →
  casefold first = "itemdata" →
  @Item_parse_tokens E st = Ok (([], []), set_toks rest (line_num st) st).
Proof.
  intros Htoks Hfirst. unfold Item_parse_tokens, bind.
  rewrite (expect_STRING st first _ Htoks). rewrite decide_False by (by intros ?).
  erewrite block_open; [|reflexivity].
  erewrite block_end; [|reflexivity]. by rewrite !state_set_toks_set_toks.
Qed.
End edges.

(** ** The claims *)

(** C2: for every finite set S of integer coordinates, whichever element
    [set.pop] picks, [bounding_boxes(S)] returns boxes such that a
    lattice point lies in S exactly when one of the boxes encloses it:
    the boxes cover S and enclose nothing outside S. *)
Theorem bounding_boxes_cover (set_pop : gset Coord → Coord) (S : gset Coord) :
  (∀ s : gset Coord, s ≠ ∅ → set_pop s ∈ s) →
  ∃ boxes, bounding_boxes set_pop S = Some boxes ∧
    ∀ c, c ∈ S ↔ ∃ b, b ∈ boxes ∧ in_box b c.
Proof.
  intros Hpop. unfold bounding_boxes.
  destruct (bounding_boxes_loop_spec set_pop Hpop (size S) S) as (boxes & Hrun & Hcover & _);
    [done|].
  by exists boxes.
Qed.

Lemma bounding_boxes_cover_witness :
  ∃ boxes,
    bounding_boxes pop_first {[ (0, 0, 0); (1, 0, 0); (0, 1, 0); (1, 1, 0); (5, 5, 5) ]}
      = Some boxes ∧
    ∀ c, c ∈ ({[ (0, 0, 0); (1, 0, 0); (0, 1, 0); (1, 1, 0); (5, 5, 5) ]} : gset Coord)
         ↔ ∃ b, b ∈ boxes ∧ in_box b c.
Proof. apply bounding_boxes_cover. exact pop_first_elem. Defined.

(** C9: the box [bounding_boxes] yields in turn [i] is the one grown
    around the seed of that turn, the element [set.pop] returns from the
    voxels that the turns before it left to do, and it reaches at most 50
    units beyond that seed in each of the six probe directions. *)
Theorem bounding_boxes_growth_cap (set_pop : gset Coord → Coord) (S : gset Coord)
    (boxes : list (Coord * Coord)) (i : nat) (b : Coord * Coord) :
  (∀ s : gset Coord, s ≠ ∅ → set_pop s ∈ s) →
  bounding_boxes set_pop S = Some boxes →
  boxes !! i = Some b →
  set_pop (todo_at S boxes i) ∈ todo_at S boxes i ∧
  todo_at S boxes i ⊆ S ∧
  b = grow (todo_at S boxes i ∖ {[set_pop (todo_at S boxes i)]})
        (set_pop (todo_at S boxes i)) ∧
  grown_within 50 (set_pop (todo_at S boxes i)) b.
Proof.
  intros Hpop Hrun Hi. unfold bounding_boxes in Hrun.
  destruct (bounding_boxes_loop_seeds set_pop _ _ _ _ _ Hrun Hi) as [Hne Hb].
  split; [by apply Hpop|]. split; [apply todo_at_subseteq|]. split; [done|].
  rewrite Hb.
  destruct (grow_grown_within (todo_at S boxes i ∖ {[set_pop (todo_at S boxes i)]})
              (set_pop (todo_at S boxes i))) as [Hin Hcap].
  split; [done|]. lia.
Qed.

Lemma bounding_boxes_growth_cap_witness :
  pop_first (todo_at (voxel_row 0 120) voxel_row_boxes 1)
    ∈ todo_at (voxel_row 0 120) voxel_row_boxes 1 ∧
  todo_at (voxel_row 0 120) voxel_row_boxes 1 ⊆ voxel_row 0 120 ∧
  ((50, 0, 0), (119, 0, 0))
  = grow (todo_at (voxel_row 0 120) voxel_row_boxes 1
          ∖ {[pop_first (todo_at (voxel_row 0 120) voxel_row_boxes 1)]})
      (pop_first (todo_at (voxel_row 0 120) voxel_row_boxes 1)) ∧
  grown_within 50 (pop_first (todo_at (voxel_row 0 120) voxel_row_boxes 1))
    ((50, 0, 0), (119, 0, 0)).
Proof.
  apply (bounding_boxes_growth_cap pop_first (voxel_row 0 120) voxel_row_boxes 1).
  - exact pop_first_elem.
  - vm_compute. reflexivity.
  - reflexivity.
Defined.

(** A box may be longer than 50: the second box of the row of 120
    voxels holds 70 of them, grown both ways from a seed inside it; it
    is the distance from the seed that is bounded. *)
Example voxel_row_second_seed :
  pop_first (todo_at (voxel_row 0 120) voxel_row_boxes 1) = (95, 0, 0).
Proof. vm_compute. reflexivity. Qed.

(** The probes stop one short of [EXTENT]: in a row that runs 60 voxels
    either way, the box around the origin reaches 49 voxels either way. *)
Example grow_reaches_49 :
  grow (voxel_row (-60) 121 ∖ {[(0, 0, 0)]}) (0, 0, 0) = ((-49, 0, 0), (49, 0, 0)).
Proof. vm_compute. reflexivity. Qed.

(** C10: [ConnSide.parse] maps "1 0 0" to LEFT, "-1 0 0" to RIGHT,
    "0 1 0" to UP and "0 -1 0" to DOWN; these are the vectors the sides
    carry as values and the writer puts on the [Dir] line of a point, so
    the direction written for a side parses back to that side; and a
    value of three integers whose z is not 0, or that is none of the four
    unit vectors, raises the fatal parse error. *)
Theorem ConnSide_parse_vectors :
  (∀ st, ConnSide_parse "1 0 0" st = Ok (ConnSide.LEFT, st)) ∧
  (∀ st, ConnSide_parse "-1 0 0" st = Ok (ConnSide.RIGHT, st)) ∧
  (∀ st, ConnSide_parse "0 1 0" st = Ok (ConnSide.UP, st)) ∧
  (∀ st, ConnSide_parse "0 -1 0" st = Ok (ConnSide.DOWN, st)) ∧
  (ConnSide.value ConnSide.LEFT = (1, 0, 0) ∧ ConnSide.value ConnSide.RIGHT = (-1, 0, 0) ∧
   ConnSide.value ConnSide.UP = (0, 1, 0) ∧ ConnSide.value ConnSide.DOWN = (0, -1, 0)) ∧
  (∀ side point, ∃ rest,
     export_point side point
     = line 3 (quoted "Point") +:+ line 4 "{"
       +:+ line 4 (kv "Dir" "           " (coord_text (ConnSide.value side))) +:+ rest) ∧
  (∀ side st, ConnSide_parse (coord_text (ConnSide.value side)) st = Ok (side, st)) ∧
  (∀ value p0 p1 p2 x y z st,
     split value = [p0; p1; p2] →
     py_int p0 = Some x → py_int p1 = Some y → py_int p2 = Some z →
     z ≠ 0 ∨ (x, y, z) ∉ ConnSide.value <$> ConnSide.members →
     ∃ mess, ConnSide_parse value st = Err (TokenSyntaxError mess (filename st) (line_num st))).
Proof.
  do 4 (split; [done|]). split; [done|].
  split; [apply export_point_writes_dir|]. split; [by intros [] st|].
  intros value p0 p1 p2 x y z st Hsplit Hx Hy Hz Hbad.
  unfold ConnSide_parse.
  rewrite (three_words_no_side_name value p0 p1 p2 Hsplit), Hsplit, Hx, Hy, Hz.
  unfold tok_error.
  repeat case_decide; eauto; subst; exfalso;
    (destruct Hbad as [Hbad|Hbad]; [done|apply Hbad]); simpl;
    rewrite !elem_of_cons; tauto.
Qed.

Lemma ConnSide_parse_vectors_witness :
  ∃ mess, ConnSide_parse "0 1 1" (mkState [] 7 (Some "editoritems.txt") [])
          = Err (TokenSyntaxError mess (Some "editoritems.txt") 7).
Proof.
  destruct ConnSide_parse_vectors as (_ & _ & _ & _ & _ & _ & _ & Hbad).
  apply (Hbad "0 1 1" "0" "1" "1" 0 1 1 (mkState [] 7 (Some "editoritems.txt") []));
    [reflexivity..|].
  left. lia.
Defined.

(** C7: whatever a [Volume] block looks like, once it has given the two
    corners [pos_1] and [pos_2] the parser hands back the item with the
    lattice points of the box between the per-axis minimum and maximum
    of the corners added to its embedded voxels: the voxels of the item
    returned are those it had and exactly the points of that box, the
    order of the corners does not matter, and nothing else of the item
    changes. *)
Theorem volume_adds_box (E : Externals) (self : Item.t E) (st st' : State)
    (pos_1 pos_2 : Coord) :
  block "EmbeddedVolume" true parse_volume_key (None, None) st
    = Ok ((Some pos_1, Some pos_2), st') →
  ∃ it : Item.t E,
    parse_volume self st = Ok (it, st') ∧
    (∀ c, c ∈ Item.embed_voxels it ↔
          c ∈ Item.embed_voxels self ∨
          in_box (corner_min pos_1 pos_2, corner_max pos_1 pos_2) c) ∧
    Item.embed_voxels it = add_all (volume_points pos_2 pos_1) (Item.embed_voxels self) ∧
    it = Item.set_embed_voxels (Item.embed_voxels it) self.
Proof.
  intros Hblock. eexists. split; [by apply parse_volume_spec|].
  destruct self; simpl. split; [|split; [|done]].
  - intros c. apply elem_of_volume.
  - by rewrite volume_points_comm.
Qed.

Lemma volume_adds_box_witness :
  ∃ it : Item.t sample_externals,
    parse_volume (Item.init_default "ITEM_TEST" ItemClass.UNCLASSED)
      (mkState volume_tokens 1 None [])
    = Ok (it, mkState [] 1 None []) ∧
    (∀ c, c ∈ Item.embed_voxels it ↔
          c ∈ Item.embed_voxels (@Item.init_default sample_externals "ITEM_TEST"
                                   ItemClass.UNCLASSED) ∨
          in_box (corner_min (0, 0, 0) (1, 1, 0), corner_max (0, 0, 0) (1, 1, 0)) c) ∧
    Item.embed_voxels it
    = add_all (volume_points (1, 1, 0) (0, 0, 0))
        (Item.embed_voxels (@Item.init_default sample_externals "ITEM_TEST"
                              ItemClass.UNCLASSED)) ∧
    it = Item.set_embed_voxels (Item.embed_voxels it)
           (Item.init_default "ITEM_TEST" ItemClass.UNCLASSED).
Proof. apply volume_adds_box. vm_compute. reflexivity. Defined.

(** The voxels of the item the document of the specification gives:
    read off the item [Item.parse] returns. *)
Example volume_document_voxels :
  ∃ (it : Item.t sample_externals) st,
    Item_parse volume_text None = Ok (([("X", it)], []), st) ∧
    Item.embed_voxels it = {[ (0, 0, 0); (1, 0, 0); (0, 1, 0); (1, 1, 0) ]}.
Proof.
  eexists _, _. split; [vm_compute; reflexivity|].
  by apply (bool_decide_unpack _).
Qed.

(** Exactly the four points (0,0,0), (1,0,0), (0,1,0), (1,1,0), in
    either order of the corners. *)
Example volume_four_points :
  elements (add_all (volume_points (0, 0, 0) (1, 1, 0)) ∅)
    ≡ₚ [(0, 0, 0); (1, 0, 0); (0, 1, 0); (1, 1, 0)] ∧
  add_all (volume_points (1, 1, 0) (0, 0, 0)) ∅
    = add_all (volume_points (0, 0, 0) (1, 1, 0)) ∅.
Proof.
  split; [|by rewrite volume_points_comm].
  apply NoDup_Permutation.
  - apply NoDup_elements.
  - by apply (bool_decide_unpack _).
  - intros c. rewrite elem_of_elements, elem_of_volume.
    unfold in_box, corner_min, corner_max, Coord_x, Coord_y, Coord_z.
    destruct c as [[x y] z]. simpl.
    rewrite !elem_of_cons, elem_of_nil, elem_of_empty.
    split.
    + intros [[]|(Hx & Hy & Hz)].
      assert (x = 0 ∨ x = 1) as [-> | ->] by lia;
      assert (y = 0 ∨ y = 1) as [-> | ->] by lia;
      assert (z = 0) as -> by lia; tauto.
    + intros [H|[H|[H|[H|[]]]]]; injection H as -> -> ->; right; lia.
Qed.

(** C3, as the code has it: an unknown key is a fatal parse error in the
    loop of [Item.parse] (inside ItemData), of the Editor block and of a
    Subtype block; in the Exporting block an unknown key that is followed
    by a balanced brace block is no error: the block is skipped, from its
    opening brace to the matching closing brace, the item is left as it
    was, and the loop over the Exporting block goes on with the tokens
    after the block. *)
Theorem unknown_key_handling (E : Externals) :
  (∀ key s st,
     casefold key ∉ itemdata_keys →
     @parse_itemdata_key E key s st
     = Err (TokenSyntaxError (Msg ("Unknown block " +:+ quoted key +:+ "!"))
              (filename st) (line_num st))) ∧
  (∀ key (self : Item.t E) st,
     casefold key ∉ editor_keys →
     parse_editor_key key self st
     = Err (TokenSyntaxError (Msg ("Unknown editor option " +:+ key))
              (filename st) (line_num st))) ∧
  (∀ key subtype st,
     casefold key ∉ subtype_keys →
     SubType_parse_key key subtype st
     = Err (TokenSyntaxError (Msg ("Unknown subtype option " +:+ quoted key +:+ "!"))
              (filename st) (line_num st))) ∧
  (∀ key (self : Item.t E) st (n : nat) v1 blk v2 rest,
     casefold key ∉ export_keys →
     balanced 0 blk = true →
     toks st = replicate n (Token.NEWLINE, "") ++
               (Token.BRACE_OPEN, v1) :: blk ++ (Token.BRACE_CLOSE, v2) :: rest →
     parse_export_key key self st
     = Ok (self, set_toks rest (line_num st + Z.of_nat n + count_newlines blk) st)) ∧
  (∀ key (self : Item.t E) st (n : nat) v1 blk v2 rest,
     casefold key ∉ export_keys →
     balanced 0 blk = true →
     toks st = (Token.STRING, key) :: replicate n (Token.NEWLINE, "") ++
               (Token.BRACE_OPEN, v1) :: blk ++ (Token.BRACE_CLOSE, v2) :: rest →
     block "Exporting" false parse_export_key self st
     = block "Exporting" false parse_export_key self
         (set_toks rest (line_num st + Z.of_nat n + count_newlines blk) st)).
Proof.
  split; [|split; [|split; [|split]]].
  - apply @itemdata_unknown_key.
  - apply @editor_unknown_key.
  - apply subtype_unknown_key.
  - apply @export_unknown_key.
  - apply @export_loop_skips_unknown.
Qed.

Lemma unknown_key_handling_witness :
  parse_export_key "Inputs" (@Item.init_default sample_externals "X" ItemClass.UNCLASSED)
    (mkState unknown_block_tokens 3 None [])
  = Ok (Item.init_default "X" ItemClass.UNCLASSED,
        mkState [(Token.STRING, "Targetname"); (Token.STRING, "tn"); (Token.BRACE_CLOSE, "}")]
          5 None []).
Proof.
  destruct (unknown_key_handling sample_externals) as (_ & _ & _ & Hskip & _).
  apply (Hskip "Inputs" _ (mkState unknown_block_tokens 3 None []) 1%nat "{"
           [(Token.STRING, "Activate"); (Token.NEWLINE, ""); (Token.BRACE_OPEN, "{");
            (Token.STRING, "Type"); (Token.STRING, "x"); (Token.BRACE_CLOSE, "}")] "}").
  - by apply (bool_decide_unpack _).
  - reflexivity.
  - reflexivity.
Defined.

(** Against C3 as stated: here the unknown key [Foo] stands inside an
    Exporting block, and the parse of the document is fatal.  The skip
    runs on to the closing brace of the Exporting block itself, so the
    braces that follow close one block too many and [ItemData] is never
    closed. *)
Lemma unknown_scalar_export_key_fatal :
  @Item_parse sample_externals unknown_scalar_text None
  = Err (TokenSyntaxError (Msg "Unclosed ItemData block!") None 1).
Proof. vm_compute. reflexivity. Qed.

(** C4: in [_BOOL_ATTRS] the keys [cananchoronbarriers] and
    [cananchorongoo] both name the attribute [anchor_barriers]; so a
    [CanAnchorOnGoo] key, in any capitalisation, assigns
    [anchor_barriers], no Editor block changes [anchor_goo], and every
    item of a parsed document has the [anchor_goo] that [__init__] gave
    it: false. *)
Theorem CanAnchorOnGoo_assigns_anchor_barriers (E : Externals) :
  dict_get _BOOL_ATTRS "cananchoronbarriers" = Some "anchor_barriers" ∧
  dict_get _BOOL_ATTRS "cananchorongoo" = Some "anchor_barriers" ∧
  (∀ key value (self : Item.t E) st rest,
     casefold key = "cananchorongoo" →
     toks st = (Token.STRING, value) :: rest →
     parse_editor_key key self st
     = Ok (Item.set_anchor_barriers (conv_bool value false) self,
           set_toks rest (line_num st) st)) ∧
  (∀ (self it : Item.t E) st st',
     _parse_editor_block self st = Ok (it, st') →
     Item.anchor_goo it = Item.anchor_goo self) ∧
  (∀ file filename items icons st item_id (it : Item.t E),
     Item_parse file filename = Ok ((items, icons), st) →
     dict_get items item_id = Some it →
     Item.anchor_goo it = false).
Proof.
  split; [done|]. split; [done|]. split; [|split].
  - intros key value self st rest Hkey Htoks. unfold parse_editor_key. cbv zeta.
    rewrite Hkey. simpl. unfold bind. by rewrite (expect_STRING st value rest).
  - intros self it st st' Hrun. by eapply goo_kept_editor_block.
  - intros file filename items icons st item_id it. apply Item_parse_goo.
Qed.

Lemma CanAnchorOnGoo_assigns_anchor_barriers_witness :
  ∃ (it : Item.t sample_externals) st,
    Item_parse anchor_goo_text None = Ok (([("ITEM_GOO", it)], []), st) ∧
    Item.anchor_barriers it = true ∧
    Item.anchor_goo it = false.
Proof.
  eexists _, _. split; [vm_compute; reflexivity|]. split; [reflexivity|].
  destruct (CanAnchorOnGoo_assigns_anchor_barriers sample_externals) as (_ & _ & _ & _ & Hgoo).
  eapply (Hgoo anchor_goo_text None _ _ _ "ITEM_GOO"); [vm_compute; reflexivity|].
  reflexivity.
Defined.




Example slot_3_first :
  ∃ (it : Item.t sample_externals) st,
    Item_parse slot_3_text None = Ok (([("X", it)], []), st) ∧
    Item.instances it
    = [blank_instance; blank_instance; blank_instance;
       InstCount.mk (FSPath_of "a.vmf") 0 0 0].
Proof. eexists _, _. split; vm_compute; reflexivity. Qed.




(** C8: when [Item.parse] reads an item whose id is already in the
    document, no exception is raised: the step returns normally, the
    warning is logged, and the document holds the new item under that id
    in place of the old one, with every other entry as it was. *)
Theorem redeclared_item_overwrites (E : Externals) (key : string)
    (items : dict string (Item.t E)) (icons : dict RenderableType.t Renderable.t)
    (st st' : State) (it : Item.t E) :
  casefold key = "item" →
  Item_parse_one st = Ok (it, st') →
  dict_in (Item.id it) items = true →
  parse_itemdata_key key (items, icons) st
  = Ok ((dict_set items (Item.id it) it, icons),
        log_warning (redeclared_warning (Item.id it)) st') ∧
  dict_get (dict_set items (Item.id it) it) (Item.id it) = Some it ∧
  length (dict_set items (Item.id it) it) = length items ∧
  (∀ other, other ≠ Item.id it →
     dict_get (dict_set items (Item.id it) it) other = dict_get items other).
Proof.
  intros Hkey Hone Hin. split; [|split; [|split]].
  - rewrite (parse_itemdata_item key items icons st it st' Hkey Hone). by rewrite Hin.
  - apply dict_get_set_eq.
  - by apply dict_set_length_in.
  - intros other Hother. by apply dict_get_set_ne.
Qed.

Lemma redeclared_item_overwrites_witness :
  ∃ second : Item.t sample_externals,
    Item.cls second = ItemClass.CUBE ∧
    parse_itemdata_key "Item"
      ([("ITEM_A", Item.init_default "ITEM_A" ItemClass.UNCLASSED)], [])
      (mkState second_item_tokens 1 None [])
    = Ok (([("ITEM_A", second)], []),
          mkState [(Token.BRACE_CLOSE, "}")] 1 None ["Item ITEM_A redeclared!"]).
Proof.
  exists (Item.set_cls ItemClass.CUBE (Item.init_default "ITEM_A" ItemClass.UNCLASSED)).
  split; [reflexivity|].
  apply (redeclared_item_overwrites sample_externals "Item"
           [("ITEM_A", Item.init_default "ITEM_A" ItemClass.UNCLASSED)] []
           (mkState second_item_tokens 1 None [])
           (mkState [(Token.BRACE_CLOSE, "}")] 1 None [])
           (Item.set_cls ItemClass.CUBE (Item.init_default "ITEM_A" ItemClass.UNCLASSED))).
  - reflexivity.
  - vm_compute. reflexivity.
  - reflexivity.
Defined.

(** The whole document: one entry, the second item, and one warning. *)
Example redeclared_document :
  ∃ (it : Item.t sample_externals) st,
    Item_parse redeclared_text None = Ok (([("ITEM_A", it)], []), st) ∧
    Item.cls it = ItemClass.CUBE ∧
    warnings st = ["Item ITEM_A redeclared!"].
Proof.
  eexists _, _. split; [vm_compute; reflexivity|]. split; vm_compute; reflexivity.
Qed.

(** C1 fails on the code.  An item made with [anchor_on_goo=True] is
    written with a [CanAnchorOnGoo] line, and parsing that text gives an
    item whose [anchor_barriers] is set and whose [anchor_goo] is not;
    and for an item whose subtype has animations the writer heads the
    animation block ["Sounds"], so parsing its text raises the fatal
    parse error for an unknown sound type. *)
Theorem export_parse_not_identity :
  (∃ file it st,
     Item_export_one pop_first goo_item = Some file ∧
     parse_exported file = Ok (it, st) ∧
     it = Item.set_anchor_barriers true (Item.set_anchor_goo false goo_item) ∧
     it ≠ goo_item) ∧
  (∃ file line,
     Item_export_one pop_first anim_item = Some file ∧
     @parse_exported sample_externals file
     = Err (TokenSyntaxError (Msg ("Unknown sound type " +:+ quoted "ANIM_IDLE" +:+ "!"))
              None line)).
Proof.
  split.
  - eexists _, _, _. split; [vm_compute; reflexivity|].
    split; [vm_compute; reflexivity|]. split; [reflexivity|].
    intros Heq. by apply (f_equal Item.anchor_goo) in Heq.
  - eexists _, _. split; [vm_compute; reflexivity|]. vm_compute. reflexivity.
Qed.

(** ** The examples of the specification *)

(** The item of section 8: id [ITEM_TEST], class [UNCLASSED], handle
    [NONE], [occupies_voxel] true, no subtypes. *)
Example spec_item_test :
  ∃ (it : Item.t sample_externals) st,
    Item_parse spec_item_text None = Ok (([("ITEM_TEST", it)], []), st) ∧
    it = Item.init_default "ITEM_TEST" ItemClass.UNCLASSED.
Proof. eexists _, _. split; vm_compute; reflexivity. Qed.

(** [InvalidSurface "WALL FLOOR"] is written back as ["FLOOR WALL"]. *)
Example spec_invalid_surface :
  ∃ (it : Item.t sample_externals) st file before after,
    Item_parse spec_surface_text None = Ok (([("ITEM_TEST", it)], []), st) ∧
    Item_export_one pop_first it = Some file ∧
    file = before +:+ line 2 (kv "InvalidSurface" " " "FLOOR WALL") +:+ after.
Proof.
  eexists _, _, _, _, _. split; [vm_compute; reflexivity|].
  split; [vm_compute; reflexivity|].
  instantiate (2 := (quoted "Item" +:+ nl) +:+ line 1 "{" +:+ line 1 (kv "Type" " " "ITEM_TEST")
                    +:+ line 1 (quoted "Editor") +:+ line 2 "{"
                    +:+ line 2 (kv "MovementHandle" " " "HANDLE_NONE")
                    +:+ line 2 (kv "OccupiesVoxel" "  " "1")).
  vm_compute. reflexivity.
Qed.

(** Example inputs *)

Lemma expect_STRING_consumes st v st' :
  expect Token.STRING st = Ok (v, st') → (length (toks st') < length (toks st))%nat.
Proof.
  unfold expect, bind. rewrite decide_False by done.
  pose proof (shrinks_skip_newlines st) as Hskip.
  destruct (skip_newlines st) as [[[] st1]|e]; [|done].
  destruct (next_token_spec st1) as (t & v' & st2 & -> & [(-> & ->)|(Hne & Hlen)]); [done|].
  case_decide; [|done]. intros [= _ <-]. lia.
Qed.

(** X1: the boxes [bounding_boxes] yields share no lattice point, and
    there are at most as many of them as there are voxels: whichever
    element [set.pop] picks, two boxes of the list that enclose a common
    point are one and the same entry. *)
Theorem bounding_boxes_disjoint (set_pop : gset Coord → Coord) (S : gset Coord)
    (boxes : list (Coord * Coord)) :
  (∀ s : gset Coord, s ≠ ∅ → set_pop s ∈ s) →
  bounding_boxes set_pop S = Some boxes →
  (length boxes ≤ size S)%nat ∧
  ∀ i j b1 b2 c,
    boxes !! i = Some b1 → boxes !! j = Some b2 → in_box b1 c → in_box b2 c → i = j.
Proof.
  intros Hpop Hrun. unfold bounding_boxes in Hrun.
  destruct (bounding_boxes_loop_disjoint set_pop Hpop _ _ _ Hrun) as (Hlen & _ & Hdis).
  by split.
Qed.

Lemma bounding_boxes_disjoint_witness :
  (length l_shape_boxes ≤ size l_shape)%nat ∧
  ∀ i j b1 b2 c,
    l_shape_boxes !! i = Some b1 → l_shape_boxes !! j = Some b2 →
    in_box b1 c → in_box b2 c → i = j.
Proof.
  apply (bounding_boxes_disjoint pop_first l_shape).
  - exact pop_first_elem.
  - vm_compute. reflexivity.
Defined.

(** X2: the voxels a [Volume] block puts into an item that had none,
    when no side of the volume is longer than 50 voxels, are decomposed
    by [bounding_boxes] into exactly one box, the volume itself from its
    smallest to its largest corner, whichever element [set.pop] picks. *)
Theorem volume_written_as_one_box (set_pop : gset Coord → Coord) (pos_1 pos_2 : Coord) :
  (∀ s : gset Coord, s ≠ ∅ → set_pop s ∈ s) →
  Z.abs (Coord_x pos_1 - Coord_x pos_2) ≤ 49 →
  Z.abs (Coord_y pos_1 - Coord_y pos_2) ≤ 49 →
  Z.abs (Coord_z pos_1 - Coord_z pos_2) ≤ 49 →
  bounding_boxes set_pop (add_all (volume_points pos_1 pos_2) ∅)
  = Some [(corner_min pos_1 pos_2, corner_max pos_1 pos_2)].
Proof.
  intros Hpop Hx Hy Hz.
  apply bounding_boxes_full_box; [done|..];
    unfold in_box, corner_min, corner_max, Coord_x, Coord_y, Coord_z in *; simpl; try lia.
  intros c. rewrite elem_of_volume, elem_of_empty.
  unfold in_box, corner_min, corner_max, Coord_x, Coord_y, Coord_z. simpl. tauto.
Qed.

Lemma volume_written_as_one_box_witness :
  bounding_boxes pop_first (add_all (volume_points (1, 1, 0) (0, 0, 0)) ∅)
  = Some [(corner_min (1, 1, 0) (0, 0, 0), corner_max (1, 1, 0) (0, 0, 0))].
Proof.
  apply volume_written_as_one_box;
    [exact pop_first_elem|unfold Coord_x, Coord_y, Coord_z; simpl; lia..].
Defined.

(** X3: [int(str(n))] is [n] for every integer [n], so [conv_int]
    reads every integer the writer formats as itself; and [Coord.parse]
    reads the text [f"{x} {y} {z}"], with which the writer formats a
    coordinate, back as that coordinate. *)
Theorem numbers_read_back :
  (∀ n, py_int (py_str n) = Some n) ∧
  (∀ n, conv_int (py_str n) = n) ∧
  (∀ c st, Coord_parse (coord_text c) st = Ok (c, st)).
Proof.
  split; [apply py_int_py_str|]. split; [apply conv_int_py_str|].
  apply Coord_parse_coord_text.
Qed.

(** X4: the lines [export_one] writes for the antline points of an
    item (the sides in the order of [ConnSide], each with its comment
    line and its points), read by [_parse_connection_points] into an item
    whose four sides are empty, give back those points: side by side, in
    their order, with position, signage offset, priority and group:
    these are the antline points of the item returned. *)
Theorem connection_points_round_trip (E : Externals)
    (antline_points : dict ConnSide.t (list AntlinePoint.t)) (self : Item.t E)
    (st : State) (rest : list (Token.t * string)) :
  antline_points.*1 = ConnSide.members →
  Item.antline_points self = (λ side, (side, [])) <$> ConnSide.members →
  toks st = open_tokens ++ sides_tokens ConnSide.members true antline_points
            ++ (Token.BRACE_CLOSE, "}") :: rest →
  _parse_connection_points self st
  = Ok (Item.set_antline_points antline_points self,
        set_toks rest
          (line_num st + 1
           + count_newlines (sides_tokens ConnSide.members true antline_points)) st) ∧
  ∀ it st', _parse_connection_points self st = Ok (it, st') →
            Item.antline_points it = antline_points.
Proof.
  intros Hsides Hself Htoks.
  pose proof (connection_points_written antline_points self st rest Hsides Hself Htoks)
    as Hrun.
  split; [done|]. intros it st' Hit. rewrite Hrun in Hit. injection Hit as <- _.
  by destruct self.
Qed.

Lemma connection_points_round_trip_witness :
  _parse_connection_points (@Item.init_default sample_externals "X" ItemClass.UNCLASSED)
    (mkState (open_tokens ++ sides_tokens ConnSide.members true sample_points
              ++ [(Token.BRACE_CLOSE, "}")]) 1 None [])
  = Ok (Item.set_antline_points sample_points (Item.init_default "X" ItemClass.UNCLASSED),
        set_toks []
          (1 + 1 + count_newlines (sides_tokens ConnSide.members true sample_points))
          (mkState (open_tokens ++ sides_tokens ConnSide.members true sample_points
                    ++ [(Token.BRACE_CLOSE, "}")]) 1 None [])) ∧
  ∀ it st',
    _parse_connection_points (@Item.init_default sample_externals "X" ItemClass.UNCLASSED)
      (mkState (open_tokens ++ sides_tokens ConnSide.members true sample_points
                ++ [(Token.BRACE_CLOSE, "}")]) 1 None [])
    = Ok (it, st') →
    Item.antline_points it = sample_points.
Proof. apply (connection_points_round_trip sample_externals); reflexivity. Defined.

(** X5: the text [export_one] writes for the antline points, and the
    text it writes for the boxes of the embedded voxels, is read by the
    lexer as the tokens of its lines: a string for each key and each
    value, a newline for each line end, a brace for each brace; the
    comment lines and the blank lines leave their newline only. *)
Theorem written_blocks_lex :
  (∀ sides is_first antline_points line_no file rest,
     lex_go LStart line_no file (export_sides sides is_first antline_points +:+ rest)
     = lexed (sides_tokens sides is_first antline_points)
         (lex_go LStart
            (line_no + count_newlines (sides_tokens sides is_first antline_points))
            file rest)) ∧
  (∀ boxes line_no file rest,
     lex_go LStart line_no file (concat_strings (export_box <$> boxes) +:+ rest)
     = lexed (boxes ≫= box_tokens)
         (lex_go LStart (line_no + count_newlines (boxes ≫= box_tokens)) file rest)) ∧
  (∀ (n : nat) line_no file rest,
     lex_go LStart line_no file (line n "{" +:+ rest)
     = lexed open_tokens (lex_go LStart (line_no + 1) file rest)) ∧
  (∀ (n : nat) line_no file rest,
     lex_go LStart line_no file (line n "}" +:+ rest)
     = lexed close_tokens (lex_go LStart (line_no + 1) file rest)).
Proof.
  split; [apply lex_export_sides|]. split; [apply lex_export_boxes|].
  split; [apply lex_line_open|apply lex_line_close].
Qed.

(** X6: the lines [export_one] writes for a set of embedded voxels
    (one [Voxel] or [Volume] block for each box of [bounding_boxes]),
    read by [_parse_embedded_voxels], add exactly that set to the voxels
    of the item, whichever element [set.pop] picked when writing: the
    voxels of the item returned are those it had and that set. *)
Theorem embedded_voxels_round_trip (E : Externals) (set_pop : gset Coord → Coord)
    (voxels : gset Coord) (self : Item.t E) (st : State) (rest : list (Token.t * string)) :
  (∀ s : gset Coord, s ≠ ∅ → set_pop s ∈ s) →
  toks st = open_tokens ++ (default [] (bounding_boxes set_pop voxels) ≫= box_tokens)
            ++ (Token.BRACE_CLOSE, "}") :: rest →
  _parse_embedded_voxels self st
  = Ok (Item.set_embed_voxels (Item.embed_voxels self ∪ voxels) self,
        set_toks rest
          (line_num st + 1
           + count_newlines (default [] (bounding_boxes set_pop voxels) ≫= box_tokens)) st) ∧
  ∀ it st', _parse_embedded_voxels self st = Ok (it, st') →
            Item.embed_voxels it = Item.embed_voxels self ∪ voxels.
Proof.
  intros Hpop Htoks.
  pose proof (embedded_voxels_written set_pop voxels self st rest Hpop Htoks) as Hrun.
  split; [done|]. intros it st' Hit. rewrite Hrun in Hit. injection Hit as <- _.
  by destruct self.
Qed.

Lemma embedded_voxels_round_trip_witness :
  _parse_embedded_voxels (@Item.init_default sample_externals "X" ItemClass.UNCLASSED)
    (mkState (open_tokens ++ (default [] (bounding_boxes pop_first l_shape) ≫= box_tokens)
              ++ [(Token.BRACE_CLOSE, "}")]) 1 None [])
  = Ok (Item.set_embed_voxels
          (Item.embed_voxels (@Item.init_default sample_externals "X" ItemClass.UNCLASSED)
           ∪ l_shape)
          (Item.init_default "X" ItemClass.UNCLASSED),
        set_toks []
          (1 + 1 + count_newlines (default [] (bounding_boxes pop_first l_shape) ≫= box_tokens))
          (mkState (open_tokens ++ (default [] (bounding_boxes pop_first l_shape) ≫= box_tokens)
                    ++ [(Token.BRACE_CLOSE, "}")]) 1 None [])) ∧
  ∀ it st',
    _parse_embedded_voxels (@Item.init_default sample_externals "X" ItemClass.UNCLASSED)
      (mkState (open_tokens ++ (default [] (bounding_boxes pop_first l_shape) ≫= box_tokens)
                ++ [(Token.BRACE_CLOSE, "}")]) 1 None [])
    = Ok (it, st') →
    Item.embed_voxels it
    = Item.embed_voxels (@Item.init_default sample_externals "X" ItemClass.UNCLASSED)
      ∪ l_shape.
Proof.
  apply (embedded_voxels_round_trip sample_externals pop_first l_shape);
    [exact pop_first_elem|reflexivity].
Defined.

(** X7: each of the three blocks of an item assigns its own attributes
    only.  An [Editor] block leaves the id, the class, [anchor_goo],
    [pseduo_handle], the properties and everything the [Exporting] block
    reads as they were; a [Properties] block changes the properties only;
    an [Exporting] block leaves every attribute of the [Editor] block and
    the properties as they were. *)
Theorem blocks_leave_the_rest_alone (E : Externals) :
  (∀ (self it : Item.t E) st st',
     _parse_editor_block self st = Ok (it, st') → outside_editor it = outside_editor self) ∧
  (∀ (self it : Item.t E) st st',
     _parse_properties_block self st = Ok (it, st') →
     outside_properties it = outside_properties self) ∧
  (∀ (self it : Item.t E) st st',
     _parse_export_block self st = Ok (it, st') → outside_export it = outside_export self).
Proof.
  split; [|split]; intros self it st st' Hrun.
  - by eapply editor_block_outside.
  - by eapply properties_block_outside.
  - by eapply export_block_outside.
Qed.

Lemma blocks_leave_the_rest_alone_witness :
  outside_editor (Item.set_handle Handle.FAITH
                    (@Item.init_default sample_externals "X" ItemClass.UNCLASSED))
  = outside_editor (@Item.init_default sample_externals "X" ItemClass.UNCLASSED).
Proof.
  destruct (blocks_leave_the_rest_alone sample_externals) as (Heditor & _ & _).
  apply (Heditor _ _ (mkState handle_tokens 1 None []) (mkState [] 1 None [])).
  vm_compute. reflexivity.
Defined.

(** X8: an item [parse_one] returns has an id that is not empty and is
    in upper case; in the document [Item.parse] returns every item is
    filed under its own id and every renderable under its own type. *)
Theorem parsed_items_filed_by_id (E : Externals) :
  (∀ st (it : Item.t E) st',
     Item_parse_one st = Ok (it, st') →
     Item.id it ≠ "" ∧ upper (Item.id it) = Item.id it) ∧
  (∀ st (items : dict string (Item.t E)) icons st',
     Item_parse_tokens st = Ok ((items, icons), st') →
     (∀ item_id it, dict_get items item_id = Some it →
        Item.id it = item_id ∧ item_id ≠ "" ∧ upper item_id = item_id) ∧
     (∀ kind ico, dict_get icons kind = Some ico → Renderable.type ico = kind)).
Proof.
  split.
  - intros st it st' Hrun. apply Item_parse_one_well_made in Hrun as [[Hup _] Hid]. done.
  - intros st items icons st' Hrun.
    apply Item_parse_tokens_filed in Hrun as [Hitems Hicons]. split.
    + intros item_id it Hget.
      apply (dict_get_Forall_kv (λ k it, Item.id it = k ∧ well_made it ∧ k ≠ "") _ _ _ Hitems)
        in Hget as (Hid & [Hup _] & Hne).
      subst item_id. done.
    + intros kind ico Hget.
      by apply (dict_get_Forall_kv (λ k r, Renderable.type r = k) _ _ _ Hicons) in Hget.
Qed.

Lemma parsed_items_filed_by_id_witness :
  Item.id (Item.set_id "ITEM_A" (@Item.init_default sample_externals "" ItemClass.UNCLASSED))
    ≠ "" ∧
  upper (Item.id (Item.set_id "ITEM_A"
                    (@Item.init_default sample_externals "" ItemClass.UNCLASSED)))
  = Item.id (Item.set_id "ITEM_A" (@Item.init_default sample_externals "" ItemClass.UNCLASSED)).
Proof.
  destruct (parsed_items_filed_by_id sample_externals) as (Hone & _).
  apply (Hone (mkState type_tokens 1 None []) _ (mkState [] 1 None [])).
  vm_compute. reflexivity.
Defined.

(** X9: the key [PseudoHandle] is mapped to the attribute
    [pseudo_handle], while [__init__] makes and [export_one] reads
    [pseduo_handle]: parsing the key sets the former, every parsed item
    has the latter false, and what [export_one] writes does not depend on
    the attribute the key sets. *)
Theorem PseudoHandle_is_never_written (E : Externals) :
  dict_get _BOOL_ATTRS "pseudohandle" = Some "pseudo_handle" ∧
  (∀ key value (self : Item.t E) st rest,
     casefold key = "pseudohandle" →
     toks st = (Token.STRING, value) :: rest →
     parse_editor_key key self st
     = Ok (Item.set_pseudo_handle (Some (conv_bool value false)) self,
           set_toks rest (line_num st) st)) ∧
  (∀ st (it : Item.t E) st',
     Item_parse_one st = Ok (it, st') → Item.pseduo_handle it = false) ∧
  (∀ set_pop value (self : Item.t E),
     Item_export_one set_pop (Item.set_pseudo_handle value self)
     = Item_export_one set_pop self) ∧
  (∀ key value (self it : Item.t E) st rest st',
     casefold key = "pseudohandle" →
     toks st = (Token.STRING, value) :: rest →
     parse_editor_key key self st = Ok (it, st') →
     Item.pseudo_handle it = Some (conv_bool value false) ∧
     Item.pseduo_handle it = Item.pseduo_handle self).
Proof.
  split; [done|]. split; [|split; [|split]].
  - intros key value self st rest. apply parse_PseudoHandle.
  - intros st it st' Hrun. by apply Item_parse_one_well_made in Hrun as [[_ Hps] _].
  - done.
  - intros key value self it st rest st' Hkey Htoks Hit.
    rewrite (parse_PseudoHandle key self st value rest Hkey Htoks) in Hit.
    injection Hit as <- _. by destruct self.
Qed.

Lemma PseudoHandle_is_never_written_witness :
  parse_editor_key "PseudoHandle"
    (@Item.init_default sample_externals "X" ItemClass.UNCLASSED)
    (mkState [(Token.STRING, "1"); (Token.BRACE_CLOSE, "}")] 1 None [])
  = Ok (Item.set_pseudo_handle (Some (conv_bool "1" false))
          (Item.init_default "X" ItemClass.UNCLASSED),
        set_toks [(Token.BRACE_CLOSE, "}")] 1
          (mkState [(Token.STRING, "1"); (Token.BRACE_CLOSE, "}")] 1 None [])).
Proof.
  destruct (PseudoHandle_is_never_written sample_externals) as (_ & Hkey & _).
  apply Hkey; reflexivity.
Defined.

(** X10: every model of a subtype [SubType.parse] returns has the
    suffix [.mdl], in some capitalisation; and a [Model] key whose value
    names no file (an empty string, a dot, a slash) is no parse error: the
    [ValueError] of [with_suffix] escapes. *)
Theorem subtype_models_end_in_mdl :
  (∀ st subtype st',
     SubType_parse st = Ok (subtype, st') →
     Forall (λ model, casefold (FSPath_suffix model) = ".mdl") (SubType.models subtype)) ∧
  (∀ key subtype st value rest,
     casefold key = "model" →
     toks st = (Token.STRING, value) :: rest →
     FSPath_name (FSPath_of value) = "" →
     SubType_parse_key key subtype st = Err ValueError).
Proof. split; [apply SubType_parse_models|apply model_without_name]. Qed.

Lemma subtype_models_end_in_mdl_witness :
  Forall (λ model, casefold (FSPath_suffix model) = ".mdl")
    (SubType.models
       (SubType.mk "" [FSPath_of "props/cube.mdl"]
          (dict_set DEFAULT_SOUNDS Sound.CREATE "Cube.Place") [] "" None None)) ∧
  SubType_parse_key "Model" (SubType.mk "" [] DEFAULT_SOUNDS [] "" None None)
    (mkState [(Token.STRING, ""); (Token.BRACE_CLOSE, "}")] 1 None [])
  = Err ValueError.
Proof.
  destruct subtype_models_end_in_mdl as (Hmodels & Hname). split.
  - apply (Hmodels (mkState model_tokens 1 None []) _ (mkState [] 1 None [])).
    vm_compute. reflexivity.
  - apply (Hname "Model" _ _ "" [(Token.BRACE_CLOSE, "}")]); reflexivity.
Defined.

(** X11: the sounds of a subtype [SubType.parse] returns have the keys
    of [DEFAULT_SOUNDS], in that order: a [Sounds] block replaces scripts,
    it neither adds nor drops a kind of sound, and every kind has an
    entry. *)
Theorem subtype_sounds_keep_their_kinds (st : State) (subtype : SubType.t) (st' : State) :
  SubType_parse st = Ok (subtype, st') →
  (SubType.sounds subtype).*1 = DEFAULT_SOUNDS.*1 ∧
  ∀ sound, is_Some (dict_get (SubType.sounds subtype) sound).
Proof.
  intros Hrun. apply SubType_parse_sounds in Hrun. split; [done|].
  intros sound. assert (sound ∈ (SubType.sounds subtype).*1) as Hin.
  { rewrite Hrun. destruct sound; simpl; rewrite !elem_of_cons; tauto. }
  clear Hrun. induction (SubType.sounds subtype) as [|[k v] d IH]; simpl in *.
  - by apply elem_of_nil in Hin.
  - case_decide; [by eexists|]. apply IH.
    apply elem_of_cons in Hin as [->|Hin]; done.
Qed.

Lemma subtype_sounds_keep_their_kinds_witness :
  (SubType.sounds
     (SubType.mk "" [FSPath_of "props/cube.mdl"]
        (dict_set DEFAULT_SOUNDS Sound.CREATE "Cube.Place") [] "" None None)).*1
  = DEFAULT_SOUNDS.*1 ∧
  ∀ sound,
    is_Some (dict_get
               (SubType.sounds
                  (SubType.mk "" [FSPath_of "props/cube.mdl"]
                     (dict_set DEFAULT_SOUNDS Sound.CREATE "Cube.Place") [] "" None None))
               sound).
Proof.
  apply (subtype_sounds_keep_their_kinds (mkState model_tokens 1 None []) _
           (mkState [] 1 None [])).
  vm_compute. reflexivity.
Defined.

(** X12: every member of an enumeration is found again from what the
    writer puts out for it, by the lookup the parser applies: the class
    by its case-folded id, handle, facing and sound by their value in
    upper case, the surface by its value taken as a name, the face type
    and the renderable by their case-folded value, the animation by its
    value. *)
Theorem enum_values_read_back :
  (∀ cls, ITEM_CLASSES (casefold (ItemClass.id cls)) = Some cls) ∧
  (∀ handle, Handle.of_value (upper (Handle.value handle)) = Some handle) ∧
  (∀ facing, DesiredFacing.of_value (upper (DesiredFacing.value facing)) = Some facing) ∧
  (∀ surf, Surface.of_name (upper (Surface.value surf)) = Some surf) ∧
  (∀ face, FACE_TYPES (casefold (FaceType.value face)) = Some face) ∧
  (∀ sound, Sound.of_value (upper (Sound.value sound)) = Some sound) ∧
  (∀ anim, Anim.of_value (Anim.value anim) = Some anim) ∧
  (∀ kind, Renderable_types (casefold (RenderableType.value kind)) = Some kind).
Proof. repeat split; by intros []. Qed.

(** X13: the value [export_one] writes for a set of invalid surfaces
    (their values, sorted and joined by spaces), read under the key
    [InvalidSurface], adds exactly those surfaces to the item: the
    invalid surfaces of the item returned are those it had and that
    set. *)
Theorem InvalidSurface_round_trip (E : Externals) (key : string) (self : Item.t E)
    (surfs : gset Surface.t) (st : State) (rest : list (Token.t * string)) :
  casefold key = "invalidsurface" →
  toks st = (Token.STRING, join_spaces (sorted_surfaces surfs)) :: rest →
  parse_editor_key key self st
  = Ok (Item.set_invalid_surf (Item.invalid_surf self ∪ surfs) self,
        set_toks rest (line_num st) st) ∧
  ∀ it st', parse_editor_key key self st = Ok (it, st') →
            Item.invalid_surf it = Item.invalid_surf self ∪ surfs.
Proof.
  intros Hkey Htoks.
  pose proof (parse_InvalidSurface key self surfs st rest Hkey Htoks) as Hrun.
  split; [done|]. intros it st' Hit. rewrite Hrun in Hit. injection Hit as <- _.
  by destruct self.
Qed.

Lemma InvalidSurface_round_trip_witness :
  parse_editor_key "InvalidSurface"
    (@Item.init_default sample_externals "X" ItemClass.UNCLASSED)
    (mkState [(Token.STRING, join_spaces (sorted_surfaces {[Surface.WALL; Surface.FLOOR]}));
              (Token.BRACE_CLOSE, "}")] 1 None [])
  = Ok (Item.set_invalid_surf
          (Item.invalid_surf (@Item.init_default sample_externals "X" ItemClass.UNCLASSED)
           ∪ {[Surface.WALL; Surface.FLOOR]})
          (Item.init_default "X" ItemClass.UNCLASSED),
        set_toks [(Token.BRACE_CLOSE, "}")] 1
          (mkState [(Token.STRING, join_spaces (sorted_surfaces {[Surface.WALL; Surface.FLOOR]}));
                    (Token.BRACE_CLOSE, "}")] 1 None [])) ∧
  ∀ it st',
    parse_editor_key "InvalidSurface"
      (@Item.init_default sample_externals "X" ItemClass.UNCLASSED)
      (mkState [(Token.STRING, join_spaces (sorted_surfaces {[Surface.WALL; Surface.FLOOR]}));
                (Token.BRACE_CLOSE, "}")] 1 None [])
    = Ok (it, st') →
    Item.invalid_surf it
    = Item.invalid_surf (@Item.init_default sample_externals "X" ItemClass.UNCLASSED)
      ∪ {[Surface.WALL; Surface.FLOOR]}.
Proof. apply (InvalidSurface_round_trip sample_externals); reflexivity. Defined.

(** X14: parsing an [Exporting] block only adds to what the item
    holds: the embedded voxels it had are still there, the faces, the
    overlays and the antline points of each side it had are the first of
    those it has afterwards, the instance list is no shorter, and every
    custom instance name is still bound. *)
Theorem export_block_only_adds (E : Externals) (self it : Item.t E) (st st' : State) :
  _parse_export_block self st = Ok (it, st') → accumulates self it.
Proof. apply export_block_accumulates. Qed.

Lemma export_block_only_adds_witness :
  accumulates (@Item.init_default sample_externals "X" ItemClass.UNCLASSED)
    (Item.set_embed_voxels {[(0, 0, 1)]}
       (Item.set_targetname "cube" (Item.init_default "X" ItemClass.UNCLASSED))).
Proof.
  apply (export_block_only_adds sample_externals _ _
           (mkState targetname_tokens 1 None []) (mkState [] 1 None [])).
  vm_compute. reflexivity.
Defined.

(** X15: a property name the registry does not know is a fatal parse
    error in a [Properties] block, but behind [SubtypeProperty] it is not:
    there the handler catches [ValueError], and the [KeyError] of the
    lookup escapes. *)
Theorem unknown_property_names (E : Externals) :
  (∀ key (self : Item.t E) st value rest,
     casefold key = "subtypeproperty" →
     toks st = (Token.STRING, value) :: rest →
     PROP_TYPES E (casefold value) = None →
     parse_editor_key key self st = Err (KeyError (casefold value))) ∧
  (∀ prop_str (self : Item.t E) st,
     PROP_TYPES E (casefold prop_str) = None →
     parse_properties_key prop_str self st
     = Err (TokenSyntaxError (Msg ("Unknown property " +:+ quoted prop_str +:+ "!"))
              (filename st) (line_num st))).
Proof. split; [apply @unknown_subtype_property|apply @unknown_property]. Qed.

Lemma unknown_property_names_witness :
  parse_editor_key "SubtypeProperty"
    (@Item.init_default sample_externals "X" ItemClass.UNCLASSED)
    (mkState [(Token.STRING, "CubeColour"); (Token.BRACE_CLOSE, "}")] 4 (Some "items.txt") [])
  = Err (KeyError (casefold "CubeColour")) ∧
  parse_properties_key "CubeColour"
    (@Item.init_default sample_externals "X" ItemClass.UNCLASSED)
    (mkState [(Token.BRACE_OPEN, "{"); (Token.BRACE_CLOSE, "}")] 4 (Some "items.txt") [])
  = Err (TokenSyntaxError (Msg ("Unknown property " +:+ quoted "CubeColour" +:+ "!"))
           (Some "items.txt") 4).
Proof.
  destruct (unknown_property_names sample_externals) as (Hsub & Hprop). split.
  - apply (Hsub "SubtypeProperty" _ _ "CubeColour" [(Token.BRACE_CLOSE, "}")]); reflexivity.
  - apply (Hprop "CubeColour"). reflexivity.
Defined.

(** X16: an instance whose label is no integer is a custom instance.
    With the prefix [bee2_], in any capitalisation, it is filed under the
    label without its first five characters; without the prefix it is
    filed under the whole label and a warning is logged.  The instance
    list is left as it was. *)
Theorem custom_instance_names (E : Externals) :
  (∀ inst_name (self : Item.t E) st file rest,
     py_int inst_name = None →
     startswith "bee2_" (casefold inst_name) = true →
     toks st = (Token.STRING, file) :: rest →
     _parse_instance_block inst_name self st
     = Ok (Item.set_cust_instances
             (dict_set (Item.cust_instances self) (string_drop 5 inst_name) (FSPath_of file))
             self,
           set_toks rest (line_num st) st)) ∧
  (∀ inst_name (self : Item.t E) st file rest,
     py_int inst_name = None →
     startswith "bee2_" (casefold inst_name) = false →
     toks st = (Token.STRING, file) :: rest →
     _parse_instance_block inst_name self st
     = Ok (Item.set_cust_instances
             (dict_set (Item.cust_instances self) inst_name (FSPath_of file)) self,
           log_warning (no_prefix_warning st) (set_toks rest (line_num st) st))) ∧
  (∀ inst_name (self it : Item.t E) st file rest st',
     py_int inst_name = None →
     toks st = (Token.STRING, file) :: rest →
     _parse_instance_block inst_name self st = Ok (it, st') →
     dict_get (Item.cust_instances it)
       (if startswith "bee2_" (casefold inst_name) then string_drop 5 inst_name
        else inst_name)
     = Some (FSPath_of file) ∧
     Item.instances it = Item.instances self).
Proof.
  split; [apply @custom_instance_prefixed|]. split; [apply @custom_instance_bare|].
  intros inst_name self it st file rest st' Hint Htoks Hit.
  destruct (startswith "bee2_" (casefold inst_name)) eqn:Hprefix.
  - rewrite (custom_instance_prefixed inst_name self st file rest Hint Hprefix Htoks) in Hit.
    injection Hit as <- _. destruct self; simpl. by rewrite dict_get_set_eq.
  - rewrite (custom_instance_bare inst_name self st file rest Hint Hprefix Htoks) in Hit.
    injection Hit as <- _. destruct self; simpl. by rewrite dict_get_set_eq.
Qed.

Lemma custom_instance_names_witness :
  _parse_instance_block "BEE2_Cube_Frame"
    (@Item.init_default sample_externals "X" ItemClass.UNCLASSED)
    (mkState [(Token.STRING, "instances/frame.vmf"); (Token.BRACE_CLOSE, "}")] 1 None [])
  = Ok (Item.set_cust_instances
          (dict_set (Item.cust_instances
                       (@Item.init_default sample_externals "X" ItemClass.UNCLASSED))
             (string_drop 5 "BEE2_Cube_Frame") (FSPath_of "instances/frame.vmf"))
          (Item.init_default "X" ItemClass.UNCLASSED),
        set_toks [(Token.BRACE_CLOSE, "}")] 1
          (mkState [(Token.STRING, "instances/frame.vmf"); (Token.BRACE_CLOSE, "}")]
             1 None [])).
Proof.
  destruct (custom_instance_names sample_externals) as (Hprefix & _).
  apply Hprefix; reflexivity.
Defined.

(** X17: a document with no token but newlines is a fatal parse error
    at its last line; a document whose first string is not [ItemData], in
    any capitalisation, is a fatal parse error; an [ItemData] block with
    nothing in it gives the empty document. *)
Theorem document_frame (E : Externals) :
  (∀ st (n : nat),
     toks st = replicate n newline_token →
     @Item_parse_tokens E st
     = Err (TokenSyntaxError (UnexpectedToken Token.EOF) (filename st)
              (line_num st + Z.of_nat n))) ∧
  (∀ st (n : nat) first rest,
     toks st = replicate n newline_token ++ (Token.STRING, first) :: rest →
     casefold first ≠ "itemdata" →
     @Item_parse_tokens E st
     = Err (TokenSyntaxError (Msg ("No " +:+ quoted "ItemData" +:+ " block present!"))
              (filename st) (line_num st + Z.of_nat n))) ∧
  (∀ st first v1 v2 rest,
     toks st = (Token.STRING, first) :: (Token.BRACE_OPEN, v1)
               :: (Token.BRACE_CLOSE, v2) :: rest →
     casefold first = "itemdata" →
     @Item_parse_tokens E st = Ok (([], []), set_toks rest (line_num st) st)).
Proof.
  split; [apply @document_empty|]. split; [apply @document_other_block|].
  apply @document_no_items.
Qed.

Lemma document_frame_witness :
  @Item_parse_tokens sample_externals
    (mkState (replicate 2 newline_token) 1 (Some "items.txt") [])
  = Err (TokenSyntaxError (UnexpectedToken Token.EOF) (Some "items.txt") (1 + Z.of_nat 2)).
Proof.
  destruct (document_frame sample_externals) as (Hempty & _).
  apply (Hempty (mkState (replicate 2 newline_token) 1 (Some "items.txt") []) 2%nat).
  reflexivity.
Defined.

(** X18: [Item.parse] ends on every stream of tokens: no loop of the
    parser runs longer than there are tokens, and a parse that succeeds
    has read at least one token. *)
Theorem parser_terminates (E : Externals) (st : State) :
  @Item_parse_tokens E st ≠ Err OutOfFuel ∧
  ∀ r st', @Item_parse_tokens E st = Ok (r, st') →
    (length (toks st') < length (toks st))%nat.
Proof.
  split; [apply Item_parse_tokens_total|].
  intros r st' Hrun. unfold Item_parse_tokens in Hrun. inv_bind Hrun.
  apply expect_STRING_consumes in Hrun0. case_decide; [done|].
  pose proof (shrinks_block "ItemData" true (@parse_itemdata_key E) ([], [])) as Hblock.
  assert (∀ key a, shrinks (@parse_itemdata_key E key a)) as Hbody.
  { intros key [items icons].
    pose proof (@shrinks_Item_parse_one E). pose proof shrinks_Renderable_parse.
    unfold parse_itemdata_key, parse_renderables_key. solve_shrinks. }
  specialize (Hblock Hbody st0). rewrite Hrun in Hblock. lia.
Qed.

Lemma parser_terminates_witness :
  @Item_parse_tokens sample_externals (mkState type_tokens 1 None []) ≠ Err OutOfFuel ∧
  ∀ r st', @Item_parse_tokens sample_externals (mkState type_tokens 1 None []) = Ok (r, st') →
    (length (toks st') < length (toks (mkState type_tokens 1 None [])))%nat.
Proof. apply parser_terminates. Defined.

(** X19: the [Instances] block [export_one] writes for a list of
    instances (one numbered block for each, in order), read by the
    [Instances] key of [_parse_export_block] into an item that has no
    instances yet, gives the item that list again: every instance whose
    file is a path as [FSPath(...)] builds them comes back with its file
    and its counts, except that the counts of an instance with the blank
    path are not written and come back as 0. *)
Theorem instances_round_trip (E : Externals) (key : string)
    (instances : list InstCount.t) (self : Item.t E) (st : State)
    (rest : list (Token.t * string)) :
  casefold key = "instances" →
  Item.instances self = [] →
  Forall (λ inst, path_made (InstCount.inst inst)) instances →
  toks st = newline_token :: open_tokens ++ instances_tokens 0 instances
            ++ (Token.BRACE_CLOSE, "}") :: rest →
  ∃ it,
    parse_export_key key self st
    = Ok (it, set_toks rest
                (line_num st + 2 + count_newlines (instances_tokens 0 instances)) st) ∧
    Item.instances it = instance_read <$> instances ∧
    it = Item.set_instances (Item.instances it) self ∧
    (Forall (λ inst, InstCount.inst inst = FSPath_empty → inst = blank_instance) instances →
     Item.instances it = instances).
Proof.
  intros Hkey Hnone Hmade Htoks. eexists. split.
  - by apply instances_written.
  - destruct self; simpl. split; [done|]. split; [done|]. apply instances_read_id.
Qed.

Lemma instances_round_trip_witness :
  ∃ it,
    parse_export_key "Instances"
      (@Item.init_default sample_externals "X" ItemClass.UNCLASSED)
      (mkState (newline_token :: open_tokens ++ instances_tokens 0 sample_instances
                ++ [(Token.BRACE_CLOSE, "}")]) 1 None [])
    = Ok (it, set_toks []
                (1 + 2 + count_newlines (instances_tokens 0 sample_instances))
                (mkState (newline_token :: open_tokens
                          ++ instances_tokens 0 sample_instances
                          ++ [(Token.BRACE_CLOSE, "}")]) 1 None [])) ∧
    Item.instances it = instance_read <$> sample_instances ∧
    it = Item.set_instances (Item.instances it)
           (Item.init_default "X" ItemClass.UNCLASSED) ∧
    (Forall (λ inst, InstCount.inst inst = FSPath_empty → inst = blank_instance)
       sample_instances →
     Item.instances it = sample_instances).
Proof.
  apply (instances_round_trip sample_externals "Instances" sample_instances);
    [reflexivity|reflexivity| |reflexivity].
  apply Forall_cons. split; [apply path_made_FSPath_of|].
  apply Forall_cons. split; [apply path_made_empty|].
  apply Forall_cons. split; [apply path_made_FSPath_of|apply Forall_nil_2].
Defined.

(** X20: the block [SubType.export] writes for a subtype that has no
    animations, whose sounds stand in the order of [DEFAULT_SOUNDS] and
    whose paths are paths as [FSPath(...)] builds them, is read by
    [SubType.parse] as the subtype with every model under the suffix
    [.mdl] and the icon under the suffix [.png], and, when the subtype
    has no position on the palette, with no palette name and no icon;
    name, sounds and position come back as they were.  What is read is
    written and read again as it is. *)
Theorem subtype_round_trip (self : SubType.t) (lines : list (Token.t * string))
    (st : State) (rest : list (Token.t * string)) :
  SubType_regular self →
  SubType_lines self = Some lines →
  toks st = newline_token :: open_tokens ++ lines ++ (Token.BRACE_CLOSE, "}") :: rest →
  ∃ read,
    SubType_read self = Some read ∧
    SubType_parse st = Ok (read, set_toks rest (line_num st + 2 + count_newlines lines) st) ∧
    SubType_read read = Some read.
Proof.
  intros (Hanims & Hsounds & Hmodels & Hicon) Hlines Htoks.
  destruct (SubType_written self lines st rest Hanims Hsounds Hmodels Hicon Hlines Htoks)
    as (read & Hread & Hrun).
  exists read. split; [done|]. split; [done|]. by apply (SubType_read_stable self).
Qed.

Lemma subtype_round_trip_witness :
  ∃ read,
    SubType_read sample_subtype = Some read ∧
    SubType_parse (mkState (newline_token :: open_tokens ++ sample_subtype_lines
                            ++ [(Token.BRACE_CLOSE, "}")]) 1 None [])
    = Ok (read, set_toks [] (1 + 2 + count_newlines sample_subtype_lines)
                  (mkState (newline_token :: open_tokens ++ sample_subtype_lines
                            ++ [(Token.BRACE_CLOSE, "}")]) 1 None [])) ∧
    SubType_read read = Some read.
Proof.
  apply (subtype_round_trip sample_subtype sample_subtype_lines);
    [|vm_compute; reflexivity|reflexivity].
  split; [reflexivity|]. split; [reflexivity|]. split.
  - apply Forall_cons. split; [apply path_made_FSPath_of|apply Forall_nil_2].
  - intros icon [= <-]. apply path_made_FSPath_of.
Defined.

(** The model of the sample comes back as [cube.mdl], its icon as
    [cube.png]. *)
Example sample_subtype_read :
  SubType_read sample_subtype
  = Some (SubType.mk "Cube" [FSPath_of "props/cube.mdl"]
            (dict_set DEFAULT_SOUNDS Sound.CREATE "Cube.Place") []
            "CUBE" (Some (1, 2)) (Some (FSPath_of "palette/cube.png"))).
Proof. vm_compute. reflexivity. Qed.



(** X22: the text [export_one] writes for the instances, and the text
    [SubType.export] writes for a subtype, are read by the lexer as the
    tokens of their lines (a string for each key and each value, a brace
    for each brace, the model on one line with its braces, a newline for
    each line end), provided the names, scripts and paths written between
    double quotes hold no quote, backslash or newline. *)
Theorem written_instances_and_subtypes_lex :
  (∀ instances,
     Forall (λ inst, plain (FSPath_str (InstCount.inst inst)) = true) instances →
     lexes (concat_strings (imap export_instance instances)) (instances_tokens 0 instances)) ∧
  (∀ self text,
     SubType_plain self →
     SubType_export self = Some text →
     ∃ toks, SubType_tokens self = Some toks ∧ lexes text toks).
Proof. split; [apply lexes_export_instances|apply lex_SubType_export]. Qed.

(** The text of the sample subtype, run through the lexer. *)
Example sample_subtype_lexes :
  ∃ text toks,
    SubType_export sample_subtype = Some text ∧
    SubType_tokens sample_subtype = Some toks ∧
    lex_go LStart 1 None text = Ok toks.
Proof. eexists _, _. split; [|split]; vm_compute; reflexivity. Qed.
